(* ===== verification/_CoqProject ===== *)
-Q . S2P
Prelude.v
UsbCan.v
HexCodec.v
Tick.v
TickClock.v
AsioRun.v
Ini.v
IniBinary.v
IniConvert.v
IniOps.v
Format.v
NetClient.v
NetClientFacts.v
NetClientProps.v
NetCommands.v
ExePath.v
CanImp.v
DirectCan.v
DirectFacts.v
Facade.v
FacadeFacts.v
CallbackList.v
CallbackListFacts.v
CallbackDispatch.v
EventQueue.v
EventQueueFacts.v
QueueThreads.v
QueueWakeups.v
CallbackCopy.v
EventUtil.v
Policies.v
PolicyModes.v
ScopedRemover.v
SelfRemover.v
HeterList.v
HeterQueue.v
EventAdapters.v
ArgumentAdapter.v
Agent.v
AgentFacts.v
AgentProps.v
AgentMain.v
AgentClock.v
AgentThreads.v
AgentInterleaving.v
AgentTurn.v
AgentProcess.v
AgentShutdown.v
