(* ===== verification/Prelude.v ===== *)
(** * Verification of libControlCAN and can_agent

    The repository has two programs. [libControlCAN] is a drop-in library for the
    vendor API of USB-CAN adapters: the exported C functions go to a facade that
    owns one back end, either a TCP client that talks to an agent in a
    line-oriented hexadecimal protocol, or a back end that loads the vendor's own
    library. [can_agent] is the agent: a thread reads frames from the device
    through libControlCAN, turns each into a protocol line and hands it through an
    [eventpp] queue to the sessions, and an io thread sends every session's lines
    to its client.

    ** Files and the code they model (paths below [src/])

    - [Prelude]: outcomes of C++ code (return, exception, undefined behaviour, not
      returned yet), bytes, machine integers, buffers, C strings, lines.
    - [UsbCan]: [include/usbcan.h], the types of the CAN API and the bytes of the
      structures.
    - [HexCodec]: [include/hex_dump.hpp], encoders and decoders of the wire format.
    - [Tick]: [3rd/include/ticks/tick_ext.h], the agent's time stamps, with
      binary64 arithmetic from [SpecFloat]; [TickClock]: where that arithmetic is
      exact, and the clock on an ideal counter.
    - [AsioRun]: one operation and one deadline on an [io_context], the pattern of
      all blocking calls of the client; events arrive in any order, and [watched]
      says when the deadline alone lets the call come back.
    - [Ini], [IniBinary], [IniConvert], [IniOps]: [libControlCAN/inc/ini.h], the
      configuration reader and writer, over a store of section objects, the typed
      access, and all operations of an object in sequence.
    - [Format]: [include/format.hpp], the formatting of strings with items.
    - [NetClient]: [libControlCAN/src/lib_control_can_imp_net.cc], the network back
      end; [NetClientFacts], [NetClientProps] (receiving and writing),
      [NetCommands] (the command protocol and the client's state machine).
    - [ExePath]: [libControlCAN/inc/misc.hpp] and the paths of the configuration
      files the back ends derive from it.
    - [CanImp]: the interface [CanImpInterface]
      ([include/lib_control_can_imp.h]) as a type class, the vendor libraries
      ([libControlCAN/inc/lib_control_can_define.hpp]), the host, and the network
      back end as an instance.
    - [DirectCan], [DirectFacts]: the direct back ends
      [lib_control_can_imp_dc.cc] (all libraries loaded up front) and
      [lib_control_can_imp_dc2.cc] (loaded when a device is opened, unloaded when
      it is closed or another is opened: [dl_load] and [dl_unload] of [Host] say
      what that does to the state the library keeps).
    - [Facade], [FacadeFacts]: [libControlCAN/src/lib_control_can.cc], the facade
      [CanAbstract] and the exported functions.
    - [CallbackList], [CallbackListFacts], [CallbackDispatch]:
      [3rd/include/eventpp/callbacklist.h], a doubly linked list of shared nodes,
      and a dispatch that runs while others change the list; a registration there
      is two steps, as in the code, which takes the node's number (and locks
      [before]) outside the mutex under which it links the node.
    - [EventQueue], [EventQueueFacts], [CallbackCopy]: [eventdispatcher.h],
      [eventqueue.h], [internal/eventqueue_i.h].
    - [QueueThreads], [QueueWakeups]: the same queue step by step, between any
      number of threads that enqueue, wait, take events out in any of the ways the
      queue has, or disable notification; order and wakeups.
    - [EventUtil] ([utilities/eventutil.h], [utilities/orderedqueuelist.h],
      [mixins/mixinfilter.h]), [ScopedRemover] ([utilities/scopedremover.h]),
      [SelfRemover] ([utilities/counterremover.h],
      [utilities/conditionalremover.h]), [EventAdapters] ([utilities/anyid.h],
      [utilities/conditionalfunctor.h], [mixins/mixinheterfilter.h]),
      [ArgumentAdapter] ([utilities/argumentadapter.h]): what eventpp
      adds to lists and dispatchers; [Policies]: the spin lock of
      [eventpolicies.h] and the mixins of [internal/eventpolicies_i.h];
      [PolicyModes]: the single-threaded stand-ins, the argument passing modes.
    - [HeterList], [HeterQueue]: [hetercallbacklist.h], [hetereventdispatcher.h],
      [hetereventqueue.h], containers with one list per prototype.
    - [Agent], [AgentFacts], [AgentProps]: [can_agent/main.cc] and
      [can_agent/server/], the receiving thread, sessions, pool and server;
      [AgentMain]: the whole process, from [main] on; [AgentClock]: its threads
      with the clock they keep ([StampClock] is what they rely on of it).
    - [AgentThreads], [AgentInterleaving], [AgentTurn]: the receiving loop as a
      program counter over its single steps, interleaved in every way with the
      handlers of the io thread; [AgentTurn] relates the steps to the turns of
      [AgentProps] and shows that every turn ends.
    - [AgentProcess]: these steps from the start of [main], with the back end it
      opens ([Bus] is what it relies on of that back end, and a vendor library that
      keeps to its array discharges it), up to a program that polls [VCI_Receive]
      at the other end; [AgentShutdown]: from a signal to the return of [main],
      with the order in which its objects are destroyed.

    ** Conventions

    A function that mutates its object takes the object and returns the new one; a
    function that may throw, run into undefined behaviour or block returns an
    [outcome]. Blocking calls take the sequence of events that happens while they
    wait ([Blocked] when the sequence ends before they return), so a theorem about
    all event sequences is one about all interleavings. Buffers are byte lists, and
    a store or load outside one is [UB]; DWORD and friends are [Z] with their
    wrap-around written out. Shared objects (INI sections, list nodes, sessions)
    live in stores and are reached by identities, so aliasing is visible.

    Code outside the repository is a parameter: the vendor libraries, the name
    service, the file system, the number conversion of Boost and the traversal
    order of hash maps are fields of [Host], with what is used of them in
    [HostLaws]; Asio's documented behaviour is in [AsioRun] and in the events of
    [Agent]; error codes of the platforms are in [Platform].

    ** What is shown

    - Codec: encoders agree, decoding inverts encoding, exact bounds of the
      in-place encoder, and the input that makes a decoder overflow.
    - Configuration: reading back what was written; when the parser terminates;
      every operation keeps the representation invariant, from construction on,
      and [current] is usable as soon as one operation has set it; typed access
      gives back what was set; the lines without defined behaviour.
    - Network client: the stream is read line by line under every schedule, frames
      an agent sends arrive unchanged and in order; connecting and writing always
      come back, by their own completion or by the deadline, and receiving does
      unless the deadline's handler runs between a read and its handler;
      [write_line] is truthful, each command is one line, frames are sent in order,
      the client's invariant over all call sequences; the inputs that overflow a
      destination, and the errors that are masked.
    - Direct back ends: routing by configuration, invariant of the lazy back end,
      equivalence of the two for every well-behaved client up to what unloading
      and loading the library does: exactly so when that leaves the library's state
      alone, and a library with state of its own shows the difference.
    - Facade: what a successful open means, delegation, and that the library is
      transparent, up to that unloading and loading, when there is no agent.
    - Event queue: the linked list refines a list of listeners, dispatch under
      concurrent changes and the two races in which a listener is lost, first-in first-out processing, copies; the removers, the
      filters and the search by value refine operations on lists; the
      heterogeneous queue, and when its [processIf] is undefined. Between threads:
      no buffer is misused, every event leaves the queue once, and in order with
      one taker, and no wakeup is lost unless notification is disabled or a
      polling thread puts events back, when one can be; mutual exclusion of the
      spin lock; what mixins make of a dispatch; that queued and immediate
      dispatch agree in every argument passing mode, and the two threading
      policies in one thread.
    - Clock: on an ideal counter the time stamps are exact, and the whole process
      is the one in which every frame is stamped with its true time; the two
      conditions under which they are not.
    - Agent: publishing, the stream of a session, the io thread's invariant, and
      the way of a frame from the bus to a client's [VCI_Receive]. For every
      interleaving of the two threads: no undefined behaviour, the loop is never
      stuck, and a client that connects at any step is handed one contiguous
      stretch of the stream, all of which it is sent as long as its queue of 2048
      lines is never full when a line comes (a session follows the reference
      [bounded], which loses exactly the lines that find the queue full); progress, that is after a bounded number of its own timers
      and writes a session has sent what it had queued; and that a turn is the
      run of its steps when nothing interrupts them. End to end, from the start
      of the process: what the back end reports is what a polling client gets.
      The end of the process: orderly without a client, and undefined when one is
      connected, since the sessions outlive the io_context.
    - Formatting: [format] terminates and is one reading of its text.

    ** Fuel and bounds

    The INI parser is given [parse_fuel], two more than the length of the file,
    which the termination theorem shows to be enough exactly when the loop ends;
    walks over linked nodes get the number of nodes in the store, which
    [rep_length] shows to bound the list; reachability gets [reach_fuel], three
    visits per node; [doProcessIf] gets one more than the number of prototypes,
    since each pass raises the index; [format] gets one round more than its text
    has characters, which [format_loop_spec] shows to be enough. Everything else
    is structural.

    ** Not modelled

    Logging (spdlog, glog) and console output; the Windows branches and [#ifdef]
    debug output; [saveBinaryExperimental] and the [get] with three C strings of
    [ini.h], and [transfer] of [format.hpp], which compile for no type; of eventpp
    the selection of policies at compile time and [eventmaker.h] (macros that
    declare classes); tests and examples; the other vendored libraries; memory
    ordering of atomics (each access is one step). In a dispatch, testing a
    listener's counter and calling it is one step; in [AgentThreads] a handler of the
    io thread is one step, the registration of its listener included; in [QueueThreads] callbacks do
    not use the queue themselves; the heterogeneous containers are used by one
    thread.

    ** The rest of this file

    The vocabulary shared by the other files. *)

From Stdlib Require Import ZArith Lia.
From Stdlib Require Import Strings.Byte.
From stdpp Require Import base numbers list option gmap strings countable.

#[global] Open Scope Z_scope.
#[global] Open Scope list_scope.

(** ** Outcomes *)

(** What a call of C++ code can do: return a value, throw an exception, run
    into undefined behaviour (an access outside an object, a null or
    indeterminate pointer), or not have returned yet under the events supplied
    so far (a blocking [io_context::run], an endless loop cut by fuel). *)
Inductive outcome (A : Type) : Type :=
| Ret (a : A)
| Throw (what : string)
| UB (why : string)
| Blocked.
Arguments Ret {A} a.
Arguments Throw {A} what.
Arguments UB {A} why.
Arguments Blocked {A}.

#[export] Instance outcome_ret : MRet outcome := fun A a => Ret a.
#[export] Instance outcome_bind : MBind outcome := fun A B f m =>
  match m with
  | Ret a => f a
  | Throw e => Throw e
  | UB e => UB e
  | Blocked => Blocked
  end.
#[export] Instance outcome_fmap : FMap outcome := fun A B f m =>
  match m with
  | Ret a => Ret (f a)
  | Throw e => Throw e
  | UB e => UB e
  | Blocked => Blocked
  end.

(** A call is defined when it neither leaves the abstract machine nor blocks. *)
Definition returns {A} (m : outcome A) : bool :=
  match m with Ret _ => true | _ => false end.
Definition is_UB {A} (m : outcome A) : bool :=
  match m with UB _ => true | _ => false end.

(** Read an optional object; [why] names the access that is undefined. *)
Definition deref {A} (why : string) (o : option A) : outcome A :=
  match o with Some a => Ret a | None => UB why end.

Lemma bind_Ret_inv {A B} (f : A -> outcome B) (m : outcome A) b :
  m ≫= f = Ret b -> exists a, m = Ret a /\ f a = Ret b.
Proof. destruct m; try done. intros H. by eexists. Qed.

Lemma deref_Ret_inv {A} why (o : option A) a : deref why o = Ret a -> o = Some a.
Proof. destruct o; naive_solver. Qed.

Lemma is_UB_bind_l {A B} (f : A -> outcome B) (m : outcome A) :
  is_UB m = true -> is_UB (m ≫= f) = true.
Proof. by destruct m. Qed.

Lemma bind_ext {A B} (f g : A -> outcome B) (m : outcome A) :
  (forall a, f a = g a) -> m ≫= f = m ≫= g.
Proof. destruct m; simpl; auto. Qed.

Lemma bind_defined {A B} (f : A -> outcome B) (m : outcome A) :
  is_UB m = false -> (forall a, m = Ret a -> is_UB (f a) = false) -> is_UB (m ≫= f) = false.
Proof. destruct m; simpl; auto. Qed.

Lemma bind_not_Blocked {A B} (f : A -> outcome B) (m : outcome A) :
  m <> Blocked -> (forall a, f a <> Blocked) -> m ≫= f <> Blocked.
Proof. destruct m; naive_solver. Qed.
Lemma deref_not_Blocked {A} why (o : option A) : deref why o <> Blocked.
Proof. by destruct o. Qed.

(** Split every monadic hypothesis into its steps. *)
Ltac outcome_inv :=
  repeat match goal with
  | H : mbind _ _ = Ret _ |- _ =>
      apply bind_Ret_inv in H; destruct H as (? & ? & H)
  | H : deref _ _ = Ret _ |- _ => apply deref_Ret_inv in H
  | H : mret _ = Ret _ |- _ => injection H as H
  | H : Ret _ = Ret _ |- _ => injection H as H
  | H : Throw _ = Ret _ |- _ => discriminate H
  | H : UB _ = Ret _ |- _ => discriminate H
  | H : Blocked = Ret _ |- _ => discriminate H
  | x := _ |- _ => subst x
  end; simplify_eq/=.

(** Case analysis on the first step of the left-hand side of an equation. *)
Ltac bind_step :=
  match goal with
  | |- mbind _ ?m = _ => destruct m; try done; cbn [mbind outcome_bind]
  end.

(** Case analysis on every elementary step of both sides of an equation. *)
Ltac bind_cases :=
  repeat (match goal with
    | |- context [@mbind outcome _ _ _ _ ?m] =>
        lazymatch m with context [@mbind] => fail | _ => destruct m end
    end; repeat match goal with p : (_ * _)%type |- _ => destruct p end; simpl);
  try done.

(** ** Bytes *)

#[export] Instance byte_eq_dec : EqDecision byte := Byte.byte_eq_dec.
#[export] Program Instance byte_countable : Countable byte :=
  inj_countable Byte.to_N Byte.of_N _.
Next Obligation. intros b. apply Byte.of_to_N. Qed.

(** [uint8_t] read as an integer, and truncation to 8 bits. *)
Definition byte_Z (b : byte) : Z := Z.of_N (Byte.to_N b).
Definition Z_byte (z : Z) : byte :=
  default x00 (Byte.of_N (Z.to_N (z mod 256))).

Lemma byte_Z_range b : 0 <= byte_Z b < 256.
Proof.
  unfold byte_Z. pose proof (Byte.to_N_bounded b). lia.
Qed.

Lemma byte_Z_of z : byte_Z (Z_byte z) = z mod 256.
Proof.
  unfold byte_Z, Z_byte.
  assert (0 <= z mod 256 < 256) as Hr by (apply Z.mod_pos_bound; lia).
  destruct (Byte.of_N (Z.to_N (z mod 256))) as [b|] eqn:E; simpl.
  - apply Byte.to_of_N in E. rewrite E. lia.
  - apply Byte.of_N_None_iff in E. lia.
Qed.

Lemma Z_byte_of b : Z_byte (byte_Z b) = b.
Proof.
  unfold Z_byte, byte_Z. pose proof (byte_Z_range b) as Hr. unfold byte_Z in Hr.
  rewrite Z.mod_small by lia. rewrite N2Z.id, Byte.of_to_N. done.
Qed.

Lemma byte_Z_inj a b : byte_Z a = byte_Z b -> a = b.
Proof. intros H. rewrite <- (Z_byte_of a), <- (Z_byte_of b). by rewrite H. Qed.

(** String literals of the C++ source as bytes (without the final NUL). *)
Definition lit (s : string) : list byte := String.list_byte_of_string s.

Definition LF : byte := x0a.
Definition NUL : byte := x00.

(** Prove a boolean statement over all 256 bytes by evaluation. *)
Lemma byte_forall (P : byte -> bool) :
  forallb (fun n => match Byte.of_N n with Some b => P b | None => true end)
    (N.of_nat <$> seq 0 256) = true ->
  forall b, P b = true.
Proof.
  intros H b. rewrite forallb_forall in H.
  specialize (H (Byte.to_N b)). rewrite Byte.of_to_N in H. apply H.
  pose proof (Byte.to_N_bounded b).
  apply list_elem_of_In, list_elem_of_fmap. exists (N.to_nat (Byte.to_N b)).
  split; [lia|]. apply elem_of_seq. lia.
Qed.

Ltac byte_cases b :=
  revert b; refine (byte_forall _ _); vm_compute; reflexivity.

(** ** Machine integers *)

Definition u8 (z : Z) : Z := z mod 2 ^ 8.
Definition u32 (z : Z) : Z := z mod 2 ^ 32.
Definition u64 (z : Z) : Z := z mod 2 ^ 64.
(** conversion to a 32-bit two's complement [int] *)
Definition i32 (z : Z) : Z := (z + 2 ^ 31) mod 2 ^ 32 - 2 ^ 31.

Definition is_u32 (z : Z) : Prop := 0 <= z < 2 ^ 32.
Definition is_i32 (z : Z) : Prop := - 2 ^ 31 <= z < 2 ^ 31.
Definition is_u64 (z : Z) : Prop := 0 <= z < 2 ^ 64.

Lemma u64_range z : is_u64 (u64 z).
Proof. apply Z.mod_pos_bound. lia. Qed.
Lemma u64_small z : is_u64 z -> u64 z = z.
Proof. intros. by apply Z.mod_small. Qed.
Lemma u64_add_l a b : u64 (u64 a + b) = u64 (a + b).
Proof. unfold u64. by rewrite Zplus_mod_idemp_l. Qed.

Lemma u32_range z : is_u32 (u32 z).
Proof. unfold is_u32, u32. apply Z.mod_pos_bound. lia. Qed.
Lemma u32_small z : is_u32 z -> u32 z = z.
Proof. unfold is_u32, u32. intros. by apply Z.mod_small. Qed.
Lemma u32_i32 z : u32 (i32 z) = u32 z.
Proof.
  unfold u32, i32. rewrite Zminus_mod, Z.mod_mod, <- Zminus_mod by lia.
  f_equal. lia.
Qed.
Lemma i32_u32 z : i32 (u32 z) = i32 z.
Proof. unfold i32, u32. by rewrite Zplus_mod_idemp_l. Qed.

(** Object representation of an [n]-byte unsigned integer, little endian. *)
Fixpoint le_bytes (n : nat) (z : Z) : list byte :=
  match n with
  | O => []
  | S n => Z_byte z :: le_bytes n (Z.shiftr z 8)
  end.
Fixpoint le_val (bs : list byte) : Z :=
  match bs with
  | [] => 0
  | b :: bs => byte_Z b + 256 * le_val bs
  end.

Lemma length_le_bytes n z : length (le_bytes n z) = n.
Proof. revert z. induction n; intros z; simpl; auto. Qed.

Lemma le_val_bytes n z : le_val (le_bytes n z) = z mod 2 ^ (8 * Z.of_nat n).
Proof.
  revert z. induction n as [|n IH]; intros z; cbn [le_bytes le_val].
  - simpl. by rewrite Z.mod_1_r.
  - rewrite IH, byte_Z_of, Z.shiftr_div_pow2 by lia.
    replace (8 * Z.of_nat (S n)) with (8 + 8 * Z.of_nat n) by lia.
    rewrite Z.pow_add_r by lia. change (2 ^ 8) with 256.
    rewrite Z.rem_mul_r by lia. lia.
Qed.

Lemma le_val_range bs : 0 <= le_val bs < 2 ^ (8 * Z.of_nat (length bs)).
Proof.
  induction bs as [|b bs IH]; cbn [le_val length]; [simpl; lia|].
  pose proof (byte_Z_range b).
  replace (8 * Z.of_nat (S (length bs))) with (8 + 8 * Z.of_nat (length bs)) by lia.
  rewrite Z.pow_add_r by lia. change (2 ^ 8) with 256. lia.
Qed.

Lemma le_bytes_val bs : le_bytes (length bs) (le_val bs) = bs.
Proof.
  induction bs as [|b bs IH]; [done|]. cbn [le_bytes length le_val].
  pose proof (byte_Z_range b). f_equal.
  - apply byte_Z_inj. rewrite byte_Z_of.
    rewrite (Z.mul_comm 256), Z.mod_add by lia. by apply Z.mod_small.
  - rewrite Z.shiftr_div_pow2 by lia. change (2 ^ 8) with 256.
    rewrite (Z.mul_comm 256), Z.div_add, (Z.div_small (byte_Z b)) by lia.
    by rewrite Z.add_0_l.
Qed.

Lemma le_val_bytes_small n z : 0 <= z < 2 ^ (8 * Z.of_nat n) -> le_val (le_bytes n z) = z.
Proof. intros. rewrite le_val_bytes. by apply Z.mod_small. Qed.

(** ** Byte buffers *)

(** Store [data] into the object [buf] at [off]; a store outside the object is
    undefined. *)
Definition write_at (buf : list byte) (off : nat) (data : list byte) : outcome (list byte) :=
  if decide (off + length data <= length buf)%nat
  then Ret (take off buf ++ data ++ drop (off + length data) buf)
  else UB "store outside the buffer".

(** The bytes [buf[off .. off+n)]. *)
Definition slice (buf : list byte) (off n : nat) : list byte := take n (drop off buf).

Lemma write_at_Ret buf off data :
  (off + length data <= length buf)%nat ->
  write_at buf off data = Ret (take off buf ++ data ++ drop (off + length data) buf).
Proof. intros. unfold write_at. by case_decide. Qed.

Lemma write_at_UB buf off data :
  (length buf < off + length data)%nat -> is_UB (write_at buf off data) = true.
Proof. intros. unfold write_at. case_decide; [lia|done]. Qed.

Lemma write_at_overflow buf off data :
  (length buf < off + length data)%nat ->
  write_at buf off data = UB "store outside the buffer".
Proof. intros. unfold write_at. case_decide; [lia|done]. Qed.

Lemma write_at_inv buf off data buf' :
  write_at buf off data = Ret buf' ->
  (off + length data <= length buf)%nat /\
  buf' = take off buf ++ data ++ drop (off + length data) buf.
Proof. unfold write_at. case_decide; naive_solver. Qed.

Lemma write_at_length buf off data buf' :
  write_at buf off data = Ret buf' -> length buf' = length buf.
Proof.
  intros [? ->]%write_at_inv. rewrite !length_app, length_take, length_drop. lia.
Qed.

Lemma write_at_nil buf off : (off <= length buf)%nat -> write_at buf off [] = Ret buf.
Proof.
  intros. rewrite write_at_Ret by (simpl; lia). simpl.
  by rewrite Nat.add_0_r, take_drop.
Qed.

(** Two consecutive stores are one. *)
Lemma write_at_app buf off d1 d2 :
  (buf' ← write_at buf off d1; write_at buf' (off + length d1) d2) =
  write_at buf off (d1 ++ d2) \/
  (length buf < off + length d1 + length d2)%nat.
Proof.
  destruct (decide (off + length d1 + length d2 <= length buf)%nat); [left|right; lia].
  rewrite (write_at_Ret buf off d1) by lia. simpl.
  rewrite !write_at_Ret; rewrite ?length_app, ?length_take, ?length_drop; try lia.
  f_equal. rewrite take_app, length_take, Nat.min_l by lia.
  rewrite take_take, Nat.min_r by lia.
  replace (off + length d1 - off)%nat with (length d1) by lia.
  rewrite take_app_length, <- !app_assoc. do 3 f_equal.
  rewrite drop_app, drop_ge, app_nil_l by (rewrite length_take; lia).
  rewrite length_take, Nat.min_l by lia.
  rewrite drop_app, drop_ge, app_nil_l by lia.
  rewrite drop_drop. f_equal. lia.
Qed.

Lemma write_at_chain buf off d1 d2 :
  (off + length d1 + length d2 <= length buf)%nat ->
  (buf' ← write_at buf off d1; write_at buf' (off + length d1) d2) =
  write_at buf off (d1 ++ d2).
Proof. intros. destruct (write_at_app buf off d1 d2); [done|lia]. Qed.

Lemma slice_write_same buf off data buf' :
  write_at buf off data = Ret buf' -> slice buf' off (length data) = data.
Proof.
  intros [? ->]%write_at_inv. unfold slice.
  rewrite drop_app_length' by (rewrite length_take; lia).
  by rewrite take_app_length.
Qed.

Lemma slice_write_before buf off data buf' o n :
  write_at buf off data = Ret buf' -> (o + n <= off)%nat ->
  slice buf' o n = slice buf o n.
Proof.
  intros [? ->]%write_at_inv ?. unfold slice.
  rewrite !take_drop_commute. f_equal.
  rewrite take_app_le by (rewrite length_take; lia).
  rewrite take_take. f_equal. lia.
Qed.

Lemma slice_write_after buf off data buf' o n :
  write_at buf off data = Ret buf' -> (off + length data <= o)%nat ->
  slice buf' o n = slice buf o n.
Proof.
  intros [? ->]%write_at_inv ?. unfold slice. f_equal.
  rewrite drop_app, drop_ge, app_nil_l by (rewrite length_take; lia).
  rewrite length_take, Nat.min_l by lia.
  rewrite drop_app, drop_ge, app_nil_l by lia.
  rewrite drop_drop. f_equal. lia.
Qed.

(** ** C strings and lines *)

(** The bytes before the first NUL: what [strlen], [operator<<(const char* )]
    and [strcpy] see of an array. *)
Fixpoint cstr (bs : list byte) : list byte :=
  match bs with
  | [] => []
  | b :: bs => if decide (b = NUL) then [] else b :: cstr bs
  end.

Lemma cstr_app_NUL bs rest : Forall (fun b => b <> NUL) bs -> cstr (bs ++ NUL :: rest) = bs.
Proof.
  induction 1 as [|b bs Hb _ IH]; simpl; [done|].
  rewrite decide_False by done. by rewrite IH.
Qed.

(** Split a buffer at its first line feed: the line and what follows the LF. *)
Fixpoint split_lf (bs : list byte) : option (list byte * list byte) :=
  match bs with
  | [] => None
  | b :: bs =>
      if decide (b = LF) then Some ([], bs)
      else match split_lf bs with
           | Some (l, r) => Some (b :: l, r)
           | None => None
           end
  end.

Lemma split_lf_line l r : LF ∉ l -> split_lf (l ++ LF :: r) = Some (l, r).
Proof.
  induction l as [|b l IH]; simpl; intros Hl; [done|].
  apply not_elem_of_cons in Hl as [Hb Hl].
  rewrite decide_False by done. by rewrite IH.
Qed.

Lemma split_lf_inv bs l r : split_lf bs = Some (l, r) -> bs = l ++ LF :: r /\ LF ∉ l.
Proof.
  revert l. induction bs as [|b bs IH]; intros l H; simpl in H; [done|].
  case_decide; [simplify_eq/=; split; [done|apply not_elem_of_nil]|].
  destruct (split_lf bs) as [[l' r']|]; [|done]. simplify_eq.
  destruct (IH l' eq_refl) as [-> ?]. split; [done|].
  by apply not_elem_of_cons.
Qed.

Lemma split_lf_spec bs l r :
  split_lf bs = Some (l, r) <-> bs = l ++ LF :: r /\ LF ∉ l.
Proof. split; [apply split_lf_inv|]. intros [-> ?]. by apply split_lf_line. Qed.

Lemma split_lf_None bs : split_lf bs = None <-> LF ∉ bs.
Proof.
  split.
  - intros H Hin. apply list_elem_of_split in Hin as (l & r & ->).
    revert H. induction l as [|b l IH]; simpl; [done|].
    case_decide; [done|]. destruct (split_lf _) as [[??]|]; naive_solver.
  - intros H. destruct (split_lf bs) as [[l r]|] eqn:E; [|done].
    apply split_lf_spec in E as [-> _]. set_solver.
Qed.

(** Lines as they travel: each followed by its line feed. *)
Definition lines_text (ls : list (list byte)) : list byte := ls ≫= fun l => l ++ [LF].
#[global] Arguments lines_text _ : simpl never.
Definition lf_free (ls : list (list byte)) : Prop := Forall (fun l => LF ∉ l) ls.

Lemma sublist_same_length {A} (k l : list A) : k `sublist_of` l -> length l = length k -> k = l.
Proof.
  intros H. induction H as [|x k l Hs IH|x k l Hs IH]; intros E; [done|simpl in E; f_equal; auto|].
  apply sublist_length in Hs. simpl in E. lia.
Qed.
Lemma lf_free_snoc ls l : lf_free ls -> LF ∉ l -> lf_free (ls ++ [l]).
Proof. intros Hls Hl. apply Forall_app. split; [done|]. by apply list.Forall_singleton. Qed.

Lemma lines_text_cons l ls : lines_text (l :: ls) = l ++ LF :: lines_text ls.
Proof. unfold lines_text. simpl. by rewrite <- app_assoc. Qed.
Lemma lines_text_app l1 l2 : lines_text (l1 ++ l2) = lines_text l1 ++ lines_text l2.
Proof. apply bind_app. Qed.

(** A byte stream has one decomposition into lines. *)
Lemma lines_text_agree A B x y i a b :
  lf_free A -> lf_free B -> lines_text A ++ x = lines_text B ++ y ->
  A !! i = Some a -> B !! i = Some b -> a = b.
Proof.
  revert B i. induction A as [|a0 A IH]; intros B i HA HB E Ha Hb; [done|].
  destruct B as [|b0 B]; [done|].
  apply list.Forall_cons in HA as [Ha0 HA]. apply list.Forall_cons in HB as [Hb0 HB].
  rewrite !lines_text_cons, <- !app_assoc in E.
  assert (Some (a0, lines_text A ++ x) = Some (b0, lines_text B ++ y)) as [= -> E'].
  { rewrite <- (split_lf_line a0 (lines_text A ++ x)) by done. simpl in E. rewrite E.
    by rewrite split_lf_line. }
  destruct i as [|i]; simpl in *; [congruence|]. by eapply IH.
Qed.

(** Complete lines are determined by the text: they are a prefix of any other
    split of it into lines and an unfinished rest. *)
Lemma lines_text_prefix A B x y :
  lf_free A -> lf_free B -> LF ∉ y -> lines_text A ++ x = lines_text B ++ y ->
  exists C, B = A ++ C /\ x = lines_text C ++ y.
Proof.
  revert B. induction A as [|a A IH]; intros B HA HB Hy E; [by exists B|].
  apply list.Forall_cons in HA as [Ha HA]. rewrite lines_text_cons, <- app_assoc in E. simpl in E.
  destruct B as [|b B].
  - exfalso. apply Hy. simpl in E. rewrite <- E. set_solver.
  - apply list.Forall_cons in HB as [Hb HB]. rewrite lines_text_cons, <- app_assoc in E. simpl in E.
    assert (Some (a, lines_text A ++ x) = Some (b, lines_text B ++ y)) as [= -> E'].
    { rewrite <- (split_lf_line a (lines_text A ++ x)) by done. rewrite E.
      by rewrite split_lf_line. }
    destruct (IH B HA HB Hy E') as (C & -> & ->). by exists C.
Qed.

(** ** Automation *)

(** the facts that close side conditions on integers, lengths and lines *)
Create HintDb can.
#[export] Hint Resolve u64_range byte_Z_range length_le_bytes lf_free_snoc : can.
#[export] Hint Rewrite u64_add_l @length_app @length_take @length_drop : can.
