(* ===== verification/UsbCan.v ===== *)
(** * UsbCan
    The data types of [include/usbcan.h]: device types, error bits, return
    codes and the five structures the CAN API exchanges, with their object
    representation (size, field offsets, little-endian fields, padding), which
    is what the hexadecimal wire format carries. *)

From Stdlib Require Import ZArith Lia.
From Stdlib Require Import Strings.Byte.
From stdpp Require Import base numbers list option.
From S2P Require Import Prelude.

(** ** Device types *)

(** [enum class vciDevType : DWORD] *)
Inductive vciDevType : Set :=
| VCI_PCI5121 | VCI_PCI9810 | VCI_USBCAN1 | VCI_USBCAN2 | VCI_USBCAN2A
| VCI_PCI9820 | VCI_CAN232 | VCI_PCI5110 | VCI_CANLITE | VCI_ISA9620
| VCI_ISA5420 | VCI_PC104CAN | VCI_CANETUDP | VCI_CANETE | VCI_DNP9810
| VCI_PCI9840 | VCI_PC104CAN2 | VCI_PCI9820I | VCI_CANETTCP | VCI_PEC9920
| VCI_PCIE_9220 | VCI_PCI5010U | VCI_USBCAN_E_U | VCI_USBCAN_2E_U
| VCI_PCI5020U | VCI_EG20T_CAN | VCI_PCIE9221 | VCI_WIFICAN_TCP
| VCI_WIFICAN_UDP | VCI_PCIe9120 | VCI_PCIe9110 | VCI_PCIe9140.

Definition vciDevType_DWORD (t : vciDevType) : Z :=
  match t with
  | VCI_PCI5121 => 1 | VCI_PCI9810 => 2 | VCI_USBCAN1 => 3 | VCI_USBCAN2 => 4
  | VCI_USBCAN2A => 4 | VCI_PCI9820 => 5 | VCI_CAN232 => 6 | VCI_PCI5110 => 7
  | VCI_CANLITE => 8 | VCI_ISA9620 => 9 | VCI_ISA5420 => 10
  | VCI_PC104CAN => 11 | VCI_CANETUDP => 12 | VCI_CANETE => 12
  | VCI_DNP9810 => 13 | VCI_PCI9840 => 14 | VCI_PC104CAN2 => 15
  | VCI_PCI9820I => 16 | VCI_CANETTCP => 17 | VCI_PEC9920 => 18
  | VCI_PCIE_9220 => 18 | VCI_PCI5010U => 19 | VCI_USBCAN_E_U => 20
  | VCI_USBCAN_2E_U => 21 | VCI_PCI5020U => 22 | VCI_EG20T_CAN => 23
  | VCI_PCIE9221 => 24 | VCI_WIFICAN_TCP => 25 | VCI_WIFICAN_UDP => 26
  | VCI_PCIe9120 => 27 | VCI_PCIe9110 => 28 | VCI_PCIe9140 => 29
  end.

(** ** Error bits *)

Definition ERR_CAN_OVERFLOW : Z := 0x0001.
Definition ERR_CAN_ERRALARM : Z := 0x0002.
Definition ERR_CAN_PASSIVE : Z := 0x0004.
Definition ERR_CAN_LOSE : Z := 0x0008.
Definition ERR_CAN_BUSERR : Z := 0x0010.
Definition ERR_DEVICEOPENED : Z := 0x0100.
Definition ERR_DEVICEOPEN : Z := 0x0200.
Definition ERR_DEVICENOTOPEN : Z := 0x0400.
Definition ERR_BUFFEROVERFLOW : Z := 0x0800.
Definition ERR_DEVICENOTEXIST : Z := 0x1000.
Definition ERR_LOADKERNELDLL : Z := 0x2000.
Definition ERR_CMDFAILED : Z := 0x4000.
Definition ERR_BUFFERCREATE : Z := 0x8000.

(** ** Return codes *)

(** [enum class vciReturnType] has underlying type [int]; the direct back ends
    cast any DWORD of the vendor library into it, so a value is any [int]. *)
Definition vciReturnType : Type := Z.
Definition STATUS_OK : vciReturnType := 1.
Definition STATUS_ERR : vciReturnType := 0.
Definition STATUS_NET_CONN_FAIL : vciReturnType := -1.

(** [static_cast<DWORD>(e)] and [static_cast<vciReturnType>(err)] *)
Definition ret_to_DWORD (e : vciReturnType) : Z := u32 e.
Definition DWORD_to_ret (err : Z) : vciReturnType := i32 err.

(** [operator!=(const vciReturnType&, const DWORD&)] *)
Definition ret_ne_DWORD (lhs : vciReturnType) (rhs : Z) : bool :=
  negb (ret_to_DWORD lhs =? rhs).

Lemma DWORD_ret_DWORD err : is_u32 err -> ret_to_DWORD (DWORD_to_ret err) = err.
Proof. intros. unfold ret_to_DWORD, DWORD_to_ret. by rewrite u32_i32, u32_small. Qed.

(** ** Structures *)

Record VCI_BOARD_INFO := {
  hw_Version : Z; fw_Version : Z; dr_Version : Z; in_Version : Z; irq_Num : Z;
  can_Num : byte;
  str_Serial_Num : list byte;
  str_hw_Type : list byte;
  bi_Reserved : list Z;
}.

Record VCI_CAN_OBJ := {
  ID : Z; TimeStamp : Z;
  TimeFlag : byte; SendType : byte; RemoteFlag : byte; ExternFlag : byte;
  DataLen : byte;
  Data : list byte;
  obj_Reserved : list byte;
}.

Record VCI_CAN_STATUS := {
  ErrInterrupt : byte; regMode : byte; regStatus : byte; regALCapture : byte;
  regECCapture : byte; regEWLimit : byte; regRECounter : byte; regTECounter : byte;
  st_Reserved : Z;
}.

Record VCI_ERR_INFO := {
  ErrCode : Z;
  Passive_ErrData : list byte;
  ArLost_ErrData : byte;
}.

Record VCI_INIT_CONFIG := {
  AccCode : Z; AccMask : Z; cfg_Reserved : Z;
  Filter : byte; Timing0 : byte; Timing1 : byte; Mode : byte;
}.

(** Field ranges: what the C types guarantee. *)
Definition is_u16 (z : Z) : Prop := 0 <= z < 2 ^ 16.

Definition wf_CAN_OBJ (o : VCI_CAN_OBJ) : Prop :=
  is_u32 (ID o) /\ is_u32 (TimeStamp o) /\
  length (Data o) = 8%nat /\ length (obj_Reserved o) = 3%nat.
Definition wf_ERR_INFO (e : VCI_ERR_INFO) : Prop :=
  is_u32 (ErrCode e) /\ length (Passive_ErrData e) = 3%nat.
Definition wf_INIT_CONFIG (c : VCI_INIT_CONFIG) : Prop :=
  is_u32 (AccCode c) /\ is_u32 (AccMask c) /\ is_u32 (cfg_Reserved c).
Definition wf_CAN_STATUS (s : VCI_CAN_STATUS) : Prop := is_u32 (st_Reserved s).
Definition wf_BOARD_INFO (b : VCI_BOARD_INFO) : Prop :=
  is_u16 (hw_Version b) /\ is_u16 (fw_Version b) /\ is_u16 (dr_Version b) /\
  is_u16 (in_Version b) /\ is_u16 (irq_Num b) /\
  length (str_Serial_Num b) = 20%nat /\ length (str_hw_Type b) = 40%nat /\
  length (bi_Reserved b) = 4%nat /\ Forall is_u16 (bi_Reserved b).

(** ** Object representations *)

Definition sizeof_CAN_OBJ : nat := 24.
Definition sizeof_ERR_INFO : nat := 8.
Definition sizeof_INIT_CONFIG : nat := 16.
Definition sizeof_CAN_STATUS : nat := 12.
Definition sizeof_BOARD_INFO : nat := 80.

Definition enc_CAN_OBJ (o : VCI_CAN_OBJ) : list byte :=
  le_bytes 4 (ID o) ++ le_bytes 4 (TimeStamp o) ++
  [TimeFlag o; SendType o; RemoteFlag o; ExternFlag o; DataLen o] ++
  Data o ++ obj_Reserved o.
Definition enc_ERR_INFO (e : VCI_ERR_INFO) : list byte :=
  le_bytes 4 (ErrCode e) ++ Passive_ErrData e ++ [ArLost_ErrData e].
Definition enc_INIT_CONFIG (c : VCI_INIT_CONFIG) : list byte :=
  le_bytes 4 (AccCode c) ++ le_bytes 4 (AccMask c) ++ le_bytes 4 (cfg_Reserved c) ++
  [Filter c; Timing0 c; Timing1 c; Mode c].
Definition enc_CAN_STATUS (s : VCI_CAN_STATUS) : list byte :=
  [ErrInterrupt s; regMode s; regStatus s; regALCapture s;
   regECCapture s; regEWLimit s; regRECounter s; regTECounter s] ++
  le_bytes 4 (st_Reserved s).
(** [pad] is the byte the compiler inserts before [Reserved] (offset 71). *)
Definition enc_BOARD_INFO (pad : byte) (b : VCI_BOARD_INFO) : list byte :=
  le_bytes 2 (hw_Version b) ++ le_bytes 2 (fw_Version b) ++ le_bytes 2 (dr_Version b) ++
  le_bytes 2 (in_Version b) ++ le_bytes 2 (irq_Num b) ++ [can_Num b] ++
  str_Serial_Num b ++ str_hw_Type b ++ [pad] ++
  (bi_Reserved b ≫= le_bytes 2).

Definition byte_at (bs : list byte) (i : nat) : byte := default x00 (bs !! i).
Definition u32_at (bs : list byte) (i : nat) : Z := le_val (slice bs i 4).
Definition u16_at (bs : list byte) (i : nat) : Z := le_val (slice bs i 2).

Definition dec_CAN_OBJ (bs : list byte) : VCI_CAN_OBJ := {|
  ID := u32_at bs 0; TimeStamp := u32_at bs 4;
  TimeFlag := byte_at bs 8; SendType := byte_at bs 9; RemoteFlag := byte_at bs 10;
  ExternFlag := byte_at bs 11; DataLen := byte_at bs 12;
  Data := slice bs 13 8; obj_Reserved := slice bs 21 3 |}.
Definition dec_ERR_INFO (bs : list byte) : VCI_ERR_INFO := {|
  ErrCode := u32_at bs 0; Passive_ErrData := slice bs 4 3; ArLost_ErrData := byte_at bs 7 |}.
Definition dec_INIT_CONFIG (bs : list byte) : VCI_INIT_CONFIG := {|
  AccCode := u32_at bs 0; AccMask := u32_at bs 4; cfg_Reserved := u32_at bs 8;
  Filter := byte_at bs 12; Timing0 := byte_at bs 13; Timing1 := byte_at bs 14;
  Mode := byte_at bs 15 |}.
Definition dec_CAN_STATUS (bs : list byte) : VCI_CAN_STATUS := {|
  ErrInterrupt := byte_at bs 0; regMode := byte_at bs 1; regStatus := byte_at bs 2;
  regALCapture := byte_at bs 3; regECCapture := byte_at bs 4; regEWLimit := byte_at bs 5;
  regRECounter := byte_at bs 6; regTECounter := byte_at bs 7; st_Reserved := u32_at bs 8 |}.
Definition dec_BOARD_INFO (bs : list byte) : VCI_BOARD_INFO := {|
  hw_Version := u16_at bs 0; fw_Version := u16_at bs 2; dr_Version := u16_at bs 4;
  in_Version := u16_at bs 6; irq_Num := u16_at bs 8; can_Num := byte_at bs 10;
  str_Serial_Num := slice bs 11 20; str_hw_Type := slice bs 31 40;
  bi_Reserved := [u16_at bs 72; u16_at bs 74; u16_at bs 76; u16_at bs 78] |}.

(** ** The representation is a bijection *)

(** Replace a list of known length by its elements. *)
Ltac explode l :=
  match goal with
  | H : length l = ?n |- _ =>
      match n with
      | O => destruct l; [clear H | discriminate H]
      | S _ => let x := fresh "x" in let t := fresh "t" in
               destruct l as [|x t]; [discriminate H | injection H as H; explode t]
      end
  end.

Create HintDb layout.
Create Rewrite HintDb layout.

Lemma u32_at_le z bs pre rest :
  is_u32 z -> bs = pre ++ le_bytes 4 z ++ rest -> u32_at bs (length pre) = z.
Proof.
  intros Hz ->. unfold u32_at, slice.
  rewrite drop_app_length, take_app_length' by (by rewrite length_le_bytes).
  by apply le_val_bytes_small.
Qed.

Lemma u16_at_le z bs pre rest :
  is_u16 z -> bs = pre ++ le_bytes 2 z ++ rest -> u16_at bs (length pre) = z.
Proof.
  intros Hz ->. unfold u16_at, slice.
  rewrite drop_app_length, take_app_length' by (by rewrite length_le_bytes).
  by apply le_val_bytes_small.
Qed.

(** A 4-byte window holds the bytes of the value read from it. *)
Lemma le_bytes_window n bs i :
  (i + n <= length bs)%nat -> le_bytes n (le_val (slice bs i n)) = slice bs i n.
Proof.
  intros. rewrite <- (le_bytes_val (slice bs i n)) at 2. f_equal.
  unfold slice. rewrite length_take, length_drop. lia.
Qed.

Lemma length_enc_CAN_OBJ o : wf_CAN_OBJ o -> length (enc_CAN_OBJ o) = sizeof_CAN_OBJ.
Proof.
  intros (?&?&HD&HR). unfold enc_CAN_OBJ.
  rewrite !length_app, !length_le_bytes, HD, HR. done.
Qed.
Lemma length_enc_ERR_INFO e : wf_ERR_INFO e -> length (enc_ERR_INFO e) = sizeof_ERR_INFO.
Proof.
  intros (?&HP). unfold enc_ERR_INFO. by rewrite !length_app, length_le_bytes, HP.
Qed.
Lemma length_enc_INIT_CONFIG c : length (enc_INIT_CONFIG c) = sizeof_INIT_CONFIG.
Proof. unfold enc_INIT_CONFIG. by rewrite !length_app, !length_le_bytes. Qed.
Lemma length_enc_CAN_STATUS s : length (enc_CAN_STATUS s) = sizeof_CAN_STATUS.
Proof. unfold enc_CAN_STATUS. by rewrite length_app, length_le_bytes. Qed.
Lemma length_enc_BOARD_INFO pad b :
  wf_BOARD_INFO b -> length (enc_BOARD_INFO pad b) = sizeof_BOARD_INFO.
Proof.
  intros (?&?&?&?&?&HS&HT&HR&_). unfold enc_BOARD_INFO.
  rewrite !length_app, !length_le_bytes, HS, HT.
  explode (bi_Reserved b). done.
Qed.
#[export] Hint Rewrite length_enc_INIT_CONFIG length_enc_CAN_STATUS length_le_bytes : layout.
#[export] Hint Resolve length_enc_CAN_OBJ length_enc_ERR_INFO length_enc_BOARD_INFO : layout.

Lemma dec_enc_CAN_OBJ o : wf_CAN_OBJ o -> dec_CAN_OBJ (enc_CAN_OBJ o) = o.
Proof.
  destruct o as [id ts tf st rf ef dl d r]. intros (Hid & Hts & HD & HR).
  simpl in *. explode d. explode r. unfold dec_CAN_OBJ, enc_CAN_OBJ. f_equal.
  - by eapply (u32_at_le _ _ []).
  - by eapply (u32_at_le _ _ (le_bytes 4 id)).
Qed.

Lemma dec_enc_ERR_INFO e : wf_ERR_INFO e -> dec_ERR_INFO (enc_ERR_INFO e) = e.
Proof.
  destruct e as [c p a]. intros (Hc & HP). simpl in *. explode p.
  unfold dec_ERR_INFO, enc_ERR_INFO. f_equal. by eapply (u32_at_le _ _ []).
Qed.

Lemma dec_enc_INIT_CONFIG c : wf_INIT_CONFIG c -> dec_INIT_CONFIG (enc_INIT_CONFIG c) = c.
Proof.
  destruct c as [a m r f t0 t1 md]. intros (Ha & Hm & Hr). simpl in *.
  unfold dec_INIT_CONFIG, enc_INIT_CONFIG. f_equal.
  - by eapply (u32_at_le _ _ []).
  - by eapply (u32_at_le _ _ (le_bytes 4 a)).
  - by eapply (u32_at_le _ _ (le_bytes 4 a ++ le_bytes 4 m)).
Qed.

Lemma dec_enc_CAN_STATUS s : wf_CAN_STATUS s -> dec_CAN_STATUS (enc_CAN_STATUS s) = s.
Proof.
  destruct s as [a b c d e f g h r]. intros Hr.
  unfold dec_CAN_STATUS, enc_CAN_STATUS. f_equal.
  eapply (u32_at_le _ _ [a; b; c; d; e; f; g; h] []); [done|]. by rewrite app_nil_r.
Qed.

Lemma dec_enc_BOARD_INFO pad b : wf_BOARD_INFO b -> dec_BOARD_INFO (enc_BOARD_INFO pad b) = b.
Proof.
  destruct b as [h f d i q n s t r].
  intros (Hh & Hf & Hd & Hi & Hq & HS & HT & HR & HF). simpl in *.
  explode s. explode t. explode r.
  rewrite !list.Forall_cons in HF. destruct HF as (?&?&?&?&_).
  unfold dec_BOARD_INFO, enc_BOARD_INFO.
  unfold u16_at. cbn -[Z_byte le_val Z.shiftr].
  assert (forall z, is_u16 z -> le_val [Z_byte z; Z_byte (Z.shiftr z 8)] = z) as Hle.
  { intros z Hz. apply (le_val_bytes_small 2 z Hz). }
  by rewrite !Hle by done.
Qed.

(** Conversely 24 bytes read from the wire determine the frame and are
    recovered from it. *)
Lemma enc_dec_CAN_OBJ bs :
  length bs = sizeof_CAN_OBJ -> enc_CAN_OBJ (dec_CAN_OBJ bs) = bs.
Proof.
  intros H. unfold enc_CAN_OBJ, dec_CAN_OBJ, u32_at. cbn [ID TimeStamp TimeFlag
    SendType RemoteFlag ExternFlag DataLen Data obj_Reserved].
  rewrite !le_bytes_window by (rewrite H; unfold sizeof_CAN_OBJ; lia).
  unfold sizeof_CAN_OBJ in H. explode bs. done.
Qed.

Lemma wf_dec_CAN_OBJ bs : length bs = sizeof_CAN_OBJ -> wf_CAN_OBJ (dec_CAN_OBJ bs).
Proof.
  intros H. unfold sizeof_CAN_OBJ in H. explode bs.
  repeat split; try done; apply (le_val_range [_; _; _; _]).
Qed.
