(* ===== verification/HexCodec.v ===== *)
(** * HexCodec
    The hexadecimal codec of [include/hex_dump.hpp]: the stream printers
    [bin2hex] and [bin2hex_dump], the variadic encoder [bin2hex::bin2hex_fast]
    that builds every protocol line in place, and the table-driven decoders
    [hex_string_to_bin] and [hex_string_to_bin_fastest]. *)

From Stdlib Require Import ZArith Lia.
From Stdlib Require Import Strings.Byte.
From stdpp Require Import base numbers list option strings.
From S2P Require Import Prelude.

(** ** Encoders *)

(** [static char hexmap[]] of [do_conv] *)
Definition hexmap : list byte := lit "0123456789abcdef".

(** [bin2hex::do_conv]: two stores per source byte, through the moving [pdst]. *)
Fixpoint do_conv (pdst : list byte) (off : nat) (psrc : list byte) : outcome (list byte) :=
  match psrc with
  | [] => Ret pdst
  | b :: rest =>
      hi ← deref "hexmap" (hexmap !! Z.to_nat (Z.shiftr (Z.land (byte_Z b) 0xF0) 4));
      lo ← deref "hexmap" (hexmap !! Z.to_nat (Z.land (byte_Z b) 0x0F));
      p1 ← write_at pdst off [hi];
      p2 ← write_at p1 (off + 1) [lo];
      do_conv p2 (off + 2) rest
  end.

(** An argument of the variadic [bin2hex_fast]: a [const char*], copied as
    text, or an object (given by value or by pointer), converted from its
    object representation. *)
Inductive arg : Type :=
| AStr (s : list byte)
| ABin (obj : list byte).

(** [bin2hex::bin2hex_fast(dst, args...)]: the base case stores the NUL; the
    result is the number of characters before it. *)
Fixpoint bin2hex_fast (dst : list byte) (off : nat) (args : list arg)
    : outcome (list byte * nat) :=
  match args with
  | [] => d ← write_at dst off [NUL]; Ret (d, 0%nat)
  | AStr s :: rest =>
      let src_bytes := length (cstr s) in
      d ← write_at dst off (cstr s);
      '(d', rest_size) ← bin2hex_fast d (off + src_bytes) rest;
      Ret (d', (src_bytes + rest_size)%nat)
  | ABin obj :: rest =>
      let bytes := length obj in
      d ← do_conv dst off obj;
      '(d', rest_size) ← bin2hex_fast d (off + bytes * 2) rest;
      Ret (d', (bytes * 2 + rest_size)%nat)
  end.

(** [bin2hex::bin2hex_fast2] *)
Definition bin2hex_fast2 (p : list byte) : outcome (list byte) :=
  do_conv (repeat x20 (length p * 2)) 0 p.

(** [ostream << std::hex << std::nouppercase << v] of a non-negative int, most
    significant digit first; 8 hexadecimal digits hold any [int]. *)
Fixpoint hex_digits (fuel : nat) (v : Z) (acc : list byte) : list byte :=
  match fuel with
  | O => acc
  | S f =>
      let acc' := default x00 (hexmap !! Z.to_nat (v mod 16)) :: acc in
      if v / 16 =? 0 then acc' else hex_digits f (v / 16) acc'
  end.
(** [std::setw(n) << std::setfill(c)] *)
Definition setw (n : nat) (c : byte) (s : list byte) : list byte :=
  repeat c (n - length s) ++ s.
Definition put_hex (b : byte) : list byte := setw 2 x30 (hex_digits 8 (byte_Z b) []).

(** [bin2hex(oss, pbin, len)]: appends to the stream and returns all of it. *)
Definition bin2hex (oss : list byte) (pbin : list byte) : list byte :=
  fold_left (fun o b => o ++ put_hex b) pbin oss.
(** [bin2hex_dump(oss, pbin, len)] and the container overloads, which run the
    same loop over [bin.begin() .. bin.end()]. *)
Definition bin2hex_dump (oss : list byte) (pbin : list byte) : list byte :=
  fold_left (fun o b => (o ++ put_hex b) ++ [x20]) pbin oss.

(** ** Decoders *)

(** the 32-entry map of [hex_string_to_bin] *)
Definition hashmap32 : list Z :=
  [0;1;2;3;4;5;6;7; 8;9;0;0;0;0;0;0; 0;10;11;12;13;14;15;0; 0;0;0;0;0;0;0;0].

(** the 103-entry map of [hex_string_to_bin_fastest] *)
Definition hashmap103 : list Z :=
  repeat 0 16 ++ repeat 0 21 ++ (repeat 0 12 ++ [1;2;3;4;5;6;7;8;9]) ++
  repeat 0 7 ++ [10;11;12;13;14;15] ++ repeat 0 13 ++ repeat 0 13 ++
  [10;11;12;13;14;15].

(** [static_cast<uint8_t>(h0 << 4) | h1], narrowed to [uint8_t] *)
Definition nibbles (h0 h1 : Z) : byte := Z_byte (Z.lor (u8 (Z.shiftl h0 4)) h1).

(** iterations of [for (pos = 0; pos < len; pos += 2)] *)
Definition pair_steps (len : nat) : nat := (S len / 2)%nat.

(** [hex_string_to_bin]: reads [str[pos]] and [str[pos + 1]]; the latter may be
    the terminating NUL of the [std::string] and no further. *)
Definition idx32 (c : byte) : nat := Z.to_nat (Z.lxor (Z.land (byte_Z c) 0x1F) 0x10).
Fixpoint hex_string_to_bin_loop (str : list byte) (steps pos : nat) (v : list byte)
    : outcome (list byte) :=
  match steps with
  | O => Ret v
  | S k =>
      c0 ← deref "str[pos]" ((str ++ [NUL]) !! pos);
      c1 ← deref "str[pos + 1]" ((str ++ [NUL]) !! (pos + 1)%nat);
      h0 ← deref "hashmap" (hashmap32 !! idx32 c0);
      h1 ← deref "hashmap" (hashmap32 !! idx32 c1);
      hex_string_to_bin_loop str k (pos + 2) (v ++ [nibbles h0 h1])
  end.
Definition hex_string_to_bin (str : list byte) : outcome (list byte) :=
  hex_string_to_bin_loop str (pair_steps (length str)) 0 [].

(** [hex_string_to_bin_fastest(src, srcLen, out)]; [src] is the memory readable
    from the pointer, [out] the object that holds [*out] at offset [o]. *)
Fixpoint fastest_loop (src : list byte) (steps pos : nat) (out : list byte) (o : nat)
    : outcome (list byte) :=
  match steps with
  | O => Ret out
  | S k =>
      c0 ← deref "src[pos]" (src !! pos);
      c1 ← deref "src[pos + 1]" (src !! (pos + 1)%nat);
      h0 ← deref "hashmap" (hashmap103 !! Z.to_nat (byte_Z c0));
      h1 ← deref "hashmap" (hashmap103 !! Z.to_nat (byte_Z c1));
      out' ← write_at out (o + Nat.div2 pos) [nibbles h0 h1];
      fastest_loop src k (pos + 2) out' o
  end.
Definition hex_string_to_bin_fastest (src : list byte) (srcLen : nat)
    (out : list byte) (o : nat) : outcome (list byte) :=
  fastest_loop src (pair_steps srcLen) 0 out o.

(** [hex_string_to_bin_fastest(const std::string&)]: a vector of
    [str.length() / 2] bytes is the destination. *)
Definition hex_string_to_bin_fastest_str (str : list byte) : outcome (list byte) :=
  hex_string_to_bin_fastest (str ++ [NUL]) (length str)
    (repeat x00 (length str / 2)) 0.

(** ** Reference definitions *)

(** one lower-case digit, the two digits of a byte, the digits of an object *)
Definition hexdig (n : Z) : byte := if n <? 10 then Z_byte (48 + n) else Z_byte (87 + n).
Definition hex2 (b : byte) : list byte := [hexdig (byte_Z b / 16); hexdig (byte_Z b mod 16)].
Definition hex_of (bs : list byte) : list byte := bs ≫= hex2.

(** digits of either case, and their value *)
Definition is_hex (c : byte) : bool :=
  let z := byte_Z c in
  ((48 <=? z) && (z <=? 57)) || ((65 <=? z) && (z <=? 70)) || ((97 <=? z) && (z <=? 102)).
Definition hexval (c : byte) : Z :=
  let z := byte_Z c in
  if z <=? 57 then z - 48 else if z <=? 70 then z - 55 else z - 87.
Fixpoint unhex (s : list byte) : list byte :=
  match s with
  | c0 :: c1 :: r => Z_byte (16 * hexval c0 + hexval c1) :: unhex r
  | _ => []
  end.

(** the text an argument list stands for *)
Definition arg_text (a : arg) : list byte :=
  match a with AStr s => cstr s | ABin obj => hex_of obj end.
Definition text_of (args : list arg) : list byte := args ≫= arg_text.

#[global] Arguments hex_of _ : simpl never.
#[global] Arguments text_of _ : simpl never.

(** ** Facts about single characters, checked over all bytes *)

Lemma hexmap_hi b :
  hexmap !! Z.to_nat (Z.shiftr (Z.land (byte_Z b) 0xF0) 4) = Some (hexdig (byte_Z b / 16)).
Proof.
  enough (bool_decide (hexmap !! Z.to_nat (Z.shiftr (Z.land (byte_Z b) 0xF0) 4)
    = Some (hexdig (byte_Z b / 16))) = true) by (by eapply bool_decide_eq_true).
  byte_cases b.
Qed.
Lemma hexmap_lo b :
  hexmap !! Z.to_nat (Z.land (byte_Z b) 0x0F) = Some (hexdig (byte_Z b mod 16)).
Proof.
  enough (bool_decide (hexmap !! Z.to_nat (Z.land (byte_Z b) 0x0F)
    = Some (hexdig (byte_Z b mod 16))) = true) by (by eapply bool_decide_eq_true).
  byte_cases b.
Qed.
Lemma put_hex_hex2 b : put_hex b = hex2 b.
Proof.
  enough (bool_decide (put_hex b = hex2 b) = true) by (by eapply bool_decide_eq_true).
  byte_cases b.
Qed.
Lemma hex2_is_hex b : Forall (fun c => is_hex c = true) (hex2 b).
Proof.
  enough (forallb is_hex (hex2 b) = true) as H.
  { apply Forall_forall. intros c Hc%list_elem_of_In. rewrite forallb_forall in H. auto. }
  byte_cases b.
Qed.
Lemma unhex_hex2 b r : unhex (hex2 b ++ r) = b :: unhex r.
Proof.
  cbn [hex2 app unhex]. f_equal.
  enough (bool_decide (Z_byte (16 * hexval (hexdig (byte_Z b / 16))
    + hexval (hexdig (byte_Z b mod 16))) = b) = true) by (by eapply bool_decide_eq_true).
  byte_cases b.
Qed.
Lemma is_hex_not_special c : is_hex c = true -> c <> LF /\ c <> NUL.
Proof.
  intros H. split; intros ->; vm_compute in H; done.
Qed.

(** both decoder tables give the value of every hexadecimal digit *)
Lemma hashmap32_hex c : is_hex c = true -> hashmap32 !! idx32 c = Some (hexval c).
Proof.
  intros H.
  enough (implb (is_hex c) (bool_decide (hashmap32 !! idx32 c = Some (hexval c))) = true) as E.
  { rewrite H in E. by eapply bool_decide_eq_true. }
  clear H. byte_cases c.
Qed.
Lemma hashmap103_hex c :
  is_hex c = true -> hashmap103 !! Z.to_nat (byte_Z c) = Some (hexval c).
Proof.
  intros H.
  enough (implb (is_hex c) (bool_decide (hashmap103 !! Z.to_nat (byte_Z c)
    = Some (hexval c))) = true) as E.
  { rewrite H in E. by eapply bool_decide_eq_true. }
  clear H. byte_cases c.
Qed.
Lemma hexval_range c : is_hex c = true -> 0 <= hexval c < 16.
Proof.
  intros H.
  enough (implb (is_hex c) ((0 <=? hexval c) && (hexval c <? 16)) = true) as E.
  { rewrite H in E. simpl in E. apply andb_prop in E as [?%Z.leb_le ?%Z.ltb_lt]. lia. }
  clear H. byte_cases c.
Qed.
Lemma nibbles_val h0 h1 :
  0 <= h0 < 16 -> 0 <= h1 < 16 -> nibbles h0 h1 = Z_byte (16 * h0 + h1).
Proof.
  intros H0 H1. unfold nibbles. f_equal. unfold u8.
  rewrite Z.shiftl_mul_pow2, Z.mod_small by lia.
  assert (Hl : Z.land (h0 * 2 ^ 4) h1 = 0).
  { apply Z.bits_inj'. intros n Hn. rewrite Z.land_spec, Z.bits_0.
    destruct (Z.ltb_spec n 4).
    - by rewrite Z.mul_pow2_bits_low.
    - rewrite (Z.bits_above_log2 h1), andb_false_r; [done|lia|].
      destruct (decide (h1 = 0)) as [->|]; [simpl; lia|].
      apply Z.log2_lt_pow2; [lia|]. eapply Z.lt_le_trans with 16; [lia|].
      change 16 with (2 ^ 4). apply Z.pow_le_mono_r; lia. }
  rewrite <- Z.lxor_lor, <- Z.add_nocarry_lxor by done. lia.
Qed.

(** ** Lengths *)

Lemma length_hex_of bs : length (hex_of bs) = (2 * length bs)%nat.
Proof.
  induction bs as [|b bs IH]; [done|].
  change (hex_of (b :: bs)) with (hex2 b ++ hex_of bs). rewrite length_app, IH. simpl. lia.
Qed.
Lemma hex_of_cons b bs : hex_of (b :: bs) = hex2 b ++ hex_of bs.
Proof. done. Qed.
Lemma hex_of_app b1 b2 : hex_of (b1 ++ b2) = hex_of b1 ++ hex_of b2.
Proof. apply bind_app. Qed.
Lemma hex_of_is_hex bs : Forall (fun c => is_hex c = true) (hex_of bs).
Proof.
  induction bs; [constructor|]. rewrite hex_of_cons. apply Forall_app. split; [|done].
  apply hex2_is_hex.
Qed.
Lemma unhex_hex_of bs : unhex (hex_of bs) = bs.
Proof.
  induction bs as [|b bs IH]; [done|]. by rewrite hex_of_cons, unhex_hex2, IH.
Qed.
Lemma length_unhex n s : length s = (2 * n)%nat -> length (unhex s) = n.
Proof.
  revert s. induction n as [|n IH]; intros s Hs.
  - by destruct s.
  - destruct s as [|c0 [|c1 r]]; simpl in *; [lia|lia|]. f_equal. apply IH. lia.
Qed.
Lemma text_of_cons a args : text_of (a :: args) = arg_text a ++ text_of args.
Proof. done. Qed.

(** ** Encoding *)

Lemma do_conv_spec pdst off psrc :
  (off + 2 * length psrc <= length pdst)%nat ->
  do_conv pdst off psrc = write_at pdst off (hex_of psrc).
Proof.
  revert pdst off. induction psrc as [|b psrc IH]; intros pdst off Hfit; simpl in Hfit.
  - simpl. by rewrite write_at_nil by lia.
  - cbn [do_conv]. rewrite hexmap_hi, hexmap_lo. cbn [deref mbind outcome_bind].
    rewrite hex_of_cons. unfold hex2.
    change [hexdig (byte_Z b / 16); hexdig (byte_Z b mod 16)]
      with ([hexdig (byte_Z b / 16)] ++ [hexdig (byte_Z b mod 16)]).
    rewrite <- write_at_chain by (simpl; rewrite length_hex_of; lia).
    rewrite <- write_at_chain by (simpl; lia). simpl length.
    destruct (write_at pdst off _) as [p1| | |] eqn:E1; try done.
    cbn [mbind outcome_bind].
    destruct (write_at p1 (off + 1) _) as [p2| | |] eqn:E2; try done.
    cbn [mbind outcome_bind]. apply write_at_length in E1, E2. apply IH. lia.
Qed.

Lemma do_conv_UB pdst off psrc :
  psrc <> [] -> (length pdst < off + 2 * length psrc)%nat ->
  is_UB (do_conv pdst off psrc) = true.
Proof.
  revert pdst off. induction psrc as [|b psrc IH]; intros pdst off Hne Hlt; [done|].
  cbn [do_conv]. rewrite hexmap_hi, hexmap_lo. cbn [deref mbind outcome_bind].
  destruct (write_at pdst off _) as [p1| | |] eqn:E1;
    [|unfold write_at in E1; case_decide; done..].
  cbn [mbind outcome_bind]. pose proof (write_at_length _ _ _ _ E1) as L1.
  destruct (write_at p1 (off + 1) _) as [p2| | |] eqn:E2;
    [|unfold write_at in E2; case_decide; done..].
  cbn [mbind outcome_bind]. pose proof (write_at_length _ _ _ _ E2) as L2.
  apply write_at_inv in E2 as [E2 _]. simpl in Hlt, E2.
  destruct psrc as [|b' psrc]; [simpl in *; lia|].
  apply IH; [done|]. simpl in *. lia.
Qed.

(** What [bin2hex_fast] does when the line and its NUL fit. *)
Lemma bin2hex_fast_fits dst off args :
  (off + length (text_of args) < length dst)%nat ->
  bin2hex_fast dst off args =
    (d ← write_at dst off (text_of args ++ [NUL]); Ret (d, length (text_of args))).
Proof.
  revert dst off. induction args as [|a args IH]; intros dst off Hfit; [done|].
  rewrite text_of_cons, length_app in *. rewrite <- app_assoc.
  rewrite <- write_at_chain by (rewrite length_app; simpl; lia).
  destruct a as [s|obj]; cbn [bin2hex_fast arg_text] in *.
  - destruct (write_at dst off (cstr s)) as [d| | |] eqn:E; try done.
    cbn [mbind outcome_bind]. apply write_at_length in E.
    rewrite IH by lia. destruct (write_at d _ _); done.
  - rewrite length_hex_of in *.
    rewrite do_conv_spec by lia.
    destruct (write_at dst off (hex_of obj)) as [d| | |] eqn:E; try done.
    cbn [mbind outcome_bind]. apply write_at_length in E.
    rewrite (Nat.mul_comm (length obj)). rewrite IH by lia.
    destruct (write_at d _ _); done.
Qed.

Lemma bin2hex_fast_overflow dst off args :
  (length dst <= off + length (text_of args))%nat ->
  is_UB (bin2hex_fast dst off args) = true.
Proof.
  revert dst off. induction args as [|a args IH]; intros dst off Hover.
  { cbn [bin2hex_fast]. apply is_UB_bind_l, write_at_UB. simpl in *. lia. }
  rewrite text_of_cons, length_app in Hover.
  destruct a as [s|obj]; cbn [bin2hex_fast arg_text] in *.
  - destruct (write_at dst off (cstr s)) as [d| | |] eqn:E;
      [|unfold write_at in E; case_decide; done..].
    cbn [mbind outcome_bind]. apply write_at_length in E.
    apply is_UB_bind_l, IH. lia.
  - rewrite length_hex_of in Hover.
    destruct (decide (off + 2 * length obj <= length dst)%nat) as [Hle|Hgt].
    + rewrite do_conv_spec by done.
      destruct (write_at dst off (hex_of obj)) as [d| | |] eqn:E;
        [|unfold write_at in E; case_decide; done..].
      cbn [mbind outcome_bind]. apply write_at_length in E.
      apply is_UB_bind_l, IH. lia.
    + destruct (decide (obj = [])) as [->|Hne].
      * cbn [do_conv mbind outcome_bind]. apply is_UB_bind_l, IH. simpl in *. lia.
      * apply is_UB_bind_l, do_conv_UB; [done|lia].
Qed.

(** ** Decoding *)

Lemma pair_steps_even n : pair_steps (2 * n) = n.
Proof.
  unfold pair_steps. replace (S (2 * n)) with (1 + n * 2)%nat by lia.
  rewrite Nat.div_add by lia. done.
Qed.
Lemma pair_steps_odd n : pair_steps (S (2 * n)) = S n.
Proof.
  unfold pair_steps. replace (S (S (2 * n))) with (S n * 2)%nat by lia.
  by rewrite Nat.div_mul by lia.
Qed.

Lemma drop_lookup {A} (l s tl : list A) pos i x :
  drop pos l = s ++ tl -> s !! i = Some x -> l !! (pos + i)%nat = Some x.
Proof.
  intros Hd Hs. rewrite <- lookup_drop, Hd. by apply lookup_app_l_Some.
Qed.

Lemma fastest_loop_spec n s src p out o tl :
  length s = (2 * n)%nat -> Forall (fun c => is_hex c = true) s ->
  drop (2 * p) src = s ++ tl -> (o + p + n <= length out)%nat ->
  fastest_loop src n (2 * p) out o = write_at out (o + p) (unhex s).
Proof.
  revert s p out. induction n as [|n IH]; intros s p out Hlen Hhex Hd Hfit.
  - destruct s; [|done]. simpl. by rewrite write_at_nil by lia.
  - destruct s as [|c0 [|c1 r]]; simpl in Hlen; [lia|lia|].
    apply list.Forall_cons in Hhex as [Hc0 Hhex].
    apply list.Forall_cons in Hhex as [Hc1 Hhex].
    cbn [fastest_loop unhex].
    rewrite <- (Nat.add_0_r (2 * p)) at 1.
    rewrite (drop_lookup _ _ _ _ 0 c0 Hd eq_refl), (drop_lookup _ _ _ _ 1 c1 Hd eq_refl).
    cbn [deref mbind outcome_bind].
    rewrite !hashmap103_hex by done. cbn [deref mbind outcome_bind].
    rewrite nibbles_val by (by apply hexval_range).
    rewrite Nat.div2_double.
    change (Z_byte (16 * hexval c0 + hexval c1) :: unhex r)
      with ([Z_byte (16 * hexval c0 + hexval c1)] ++ unhex r).
    rewrite <- write_at_chain
      by (rewrite (length_unhex n) by lia; simpl; lia).
    destruct (write_at out (o + p) _) as [out'| | |] eqn:E; try done.
    cbn [mbind outcome_bind]. apply write_at_length in E.
    replace (2 * p + 2)%nat with (2 * S p)%nat by lia.
    rewrite (IH r (S p)); [f_equal; simpl; lia|lia|done| |lia].
    replace (2 * S p)%nat with (2 * p + 2)%nat by lia.
    by rewrite <- drop_drop, Hd.
Qed.

Lemma fastest_loop_overflow n s src p out o tl :
  length s = (2 * n)%nat -> Forall (fun c => is_hex c = true) s ->
  drop (2 * p) src = s ++ tl -> (0 < n)%nat -> (length out < o + p + n)%nat ->
  fastest_loop src n (2 * p) out o = UB "store outside the buffer".
Proof.
  revert s p out. induction n as [|n IH]; intros s p out Hlen Hhex Hd Hn Hover; [lia|].
  destruct s as [|c0 [|c1 r]]; simpl in Hlen; [lia|lia|].
  apply list.Forall_cons in Hhex as [Hc0 Hhex].
  apply list.Forall_cons in Hhex as [Hc1 Hhex].
  cbn [fastest_loop]. rewrite <- (Nat.add_0_r (2 * p)) at 1.
  rewrite (drop_lookup _ _ _ _ 0 c0 Hd eq_refl), (drop_lookup _ _ _ _ 1 c1 Hd eq_refl).
  cbn [deref mbind outcome_bind].
  rewrite !hashmap103_hex by done. cbn [deref mbind outcome_bind].
  rewrite Nat.div2_double. unfold write_at. case_decide as D; [|done].
  cbn [mbind outcome_bind length] in *.
  replace (2 * p + 2)%nat with (2 * S p)%nat by lia.
  apply (IH r (S p)); [lia|done| |lia|].
  - replace (2 * S p)%nat with (2 * p + 2)%nat by lia. by rewrite <- drop_drop, Hd.
  - rewrite !length_app, length_take, length_drop. simpl. lia.
Qed.

Lemma hex_string_to_bin_loop_spec n s str p v :
  length s = (2 * n)%nat -> Forall (fun c => is_hex c = true) s ->
  drop (2 * p) str = s -> (2 * p <= length str)%nat ->
  hex_string_to_bin_loop str n (2 * p) v = Ret (v ++ unhex s).
Proof.
  revert s p v. induction n as [|n IH]; intros s p v Hlen Hhex Hd Hp.
  - destruct s; [|done]. simpl. by rewrite app_nil_r.
  - destruct s as [|c0 [|c1 r]]; simpl in Hlen; [lia|lia|].
    apply list.Forall_cons in Hhex as [Hc0 Hhex].
    apply list.Forall_cons in Hhex as [Hc1 Hhex].
    assert (Hd' : drop (2 * p) (str ++ [NUL]) = (c0 :: c1 :: r) ++ [NUL]).
    { by rewrite drop_app_le, Hd. }
    cbn [hex_string_to_bin_loop unhex].
    rewrite <- (Nat.add_0_r (2 * p)) at 1.
    rewrite (drop_lookup _ _ _ _ 0 c0 Hd' eq_refl), (drop_lookup _ _ _ _ 1 c1 Hd' eq_refl).
    cbn [deref mbind outcome_bind].
    rewrite !hashmap32_hex by done. cbn [deref mbind outcome_bind].
    rewrite nibbles_val by (by apply hexval_range).
    replace (2 * p + 2)%nat with (2 * S p)%nat by lia.
    rewrite (IH r (S p)); [by rewrite <- app_assoc|lia|done| |].
    + replace (2 * S p)%nat with (2 * p + 2)%nat by lia. by rewrite <- drop_drop, Hd.
    + apply (f_equal length) in Hd. rewrite length_drop in Hd. simpl in Hd. lia.
Qed.

Lemma fastest_spec n s tl out o :
  length s = (2 * n)%nat -> Forall (fun c => is_hex c = true) s ->
  (o + n <= length out)%nat ->
  hex_string_to_bin_fastest (s ++ tl) (length s) out o = write_at out o (unhex s).
Proof.
  intros Hlen Hhex Hfit. unfold hex_string_to_bin_fastest.
  rewrite Hlen, pair_steps_even.
  etransitivity; [apply (fastest_loop_spec n s (s ++ tl) 0 out o tl); done || lia|].
  by rewrite Nat.add_0_r.
Qed.

(** With at least one pair of digits the decoder is one store of the decoded
    bytes, defined or not. *)
Lemma fastest_store n s out o :
  length s = (2 * n)%nat -> (0 < n)%nat -> Forall (fun c => is_hex c = true) s ->
  hex_string_to_bin_fastest s (length s) out o = write_at out o (unhex s).
Proof.
  intros Hlen Hn Hhex. destruct (decide (o + n <= length out)%nat) as [Hfit|Hfit].
  - rewrite <- (app_nil_r s) at 1. by apply (fastest_spec n).
  - rewrite write_at_overflow by (rewrite (length_unhex n) by done; lia).
    unfold hex_string_to_bin_fastest. rewrite Hlen, pair_steps_even.
    apply (fastest_loop_overflow n s s 0 out o []); try done; [|lia].
    by rewrite app_nil_r.
Qed.

Lemma hex_string_to_bin_spec n s :
  length s = (2 * n)%nat -> Forall (fun c => is_hex c = true) s ->
  hex_string_to_bin s = Ret (unhex s).
Proof.
  intros Hlen Hhex. unfold hex_string_to_bin. rewrite Hlen, pair_steps_even.
  apply (hex_string_to_bin_loop_spec n s s 0 []); done || lia.
Qed.

Lemma fastest_str_spec n s :
  length s = (2 * n)%nat -> Forall (fun c => is_hex c = true) s ->
  hex_string_to_bin_fastest_str s = Ret (unhex s).
Proof.
  intros Hlen Hhex. unfold hex_string_to_bin_fastest_str.
  assert (Hdiv : (length s / 2 = n)%nat).
  { by rewrite Hlen, Nat.mul_comm, Nat.div_mul. }
  rewrite (fastest_spec n) by (rewrite ?repeat_length; lia || done).
  rewrite Hdiv. pose proof (length_unhex n s Hlen) as Hu.
  rewrite write_at_Ret by (rewrite repeat_length; lia). simpl.
  rewrite drop_ge by (rewrite repeat_length; lia). by rewrite app_nil_r.
Qed.

(** A decoder run is the run of its first steps followed by the others. *)
Lemma fastest_loop_add a b src pos out o :
  fastest_loop src (a + b) pos out o =
    (out' ← fastest_loop src a pos out o; fastest_loop src b (pos + 2 * a) out' o).
Proof.
  revert pos out. induction a as [|a IH]; intros pos out.
  - simpl. by rewrite Nat.add_0_r.
  - cbn [Nat.add fastest_loop].
    do 5 bind_step.
    rewrite IH. by replace (pos + 2 + 2 * a)%nat with (pos + 2 * S a)%nat by lia.
Qed.

Lemma hashmap32_total c : is_Some (hashmap32 !! idx32 c).
Proof.
  enough (bool_decide (is_Some (hashmap32 !! idx32 c)) = true)
    by (by eapply bool_decide_eq_true).
  byte_cases c.
Qed.

(** [hex_string_to_bin] never leaves the string or its map. *)
Lemma hex_string_to_bin_loop_total str steps pos v :
  (pos + 2 * steps <= S (length str))%nat ->
  returns (hex_string_to_bin_loop str steps pos v) = true.
Proof.
  revert pos v. induction steps as [|k IH]; intros pos v Hb; [done|].
  cbn [hex_string_to_bin_loop].
  destruct (lookup_lt_is_Some_2 (str ++ [NUL]) pos) as [c0 ->].
  { rewrite length_app. simpl. lia. }
  destruct (lookup_lt_is_Some_2 (str ++ [NUL]) (pos + 1)) as [c1 ->].
  { rewrite length_app. simpl. lia. }
  cbn [deref mbind outcome_bind].
  destruct (hashmap32_total c0) as [h0 ->], (hashmap32_total c1) as [h1 ->].
  cbn [deref mbind outcome_bind]. apply IH. lia.
Qed.
Lemma hex_string_to_bin_total str : returns (hex_string_to_bin str) = true.
Proof.
  apply hex_string_to_bin_loop_total. unfold pair_steps.
  pose proof (Nat.div_mod_eq (S (length str)) 2). lia.
Qed.

(** ** Properties of the codec *)

(** The three encoders print the same lower-case digits. *)
Lemma bin2hex_hex_of oss bs : bin2hex oss bs = oss ++ hex_of bs.
Proof.
  unfold bin2hex. revert oss. induction bs as [|b bs IH]; intros oss.
  - simpl. by rewrite app_nil_r.
  - cbn [fold_left]. by rewrite IH, put_hex_hex2, hex_of_cons, <- app_assoc.
Qed.
Lemma bin2hex_dump_spaced oss bs :
  bin2hex_dump oss bs = oss ++ (bs ≫= fun b => hex2 b ++ [x20]).
Proof.
  unfold bin2hex_dump. revert oss. induction bs as [|b bs IH]; intros oss.
  - simpl. by rewrite app_nil_r.
  - simpl. by rewrite IH, put_hex_hex2, <- !app_assoc.
Qed.
Lemma bin2hex_fast2_hex_of bs : bin2hex_fast2 bs = Ret (hex_of bs).
Proof.
  unfold bin2hex_fast2. rewrite do_conv_spec by (rewrite repeat_length; lia).
  rewrite write_at_Ret by (rewrite repeat_length, length_hex_of; lia). simpl.
  rewrite drop_ge by (rewrite repeat_length, length_hex_of; lia). by rewrite app_nil_r.
Qed.

(** The stream printer [bin2hex], the pre-sized [bin2hex_fast2] and the
    in-place [do_conv] produce the same text for every byte string: two
    lower-case digits per byte, most significant first; [bin2hex_dump] is that
    text with a blank after each byte. *)
Theorem encoders_agree (bs pdst : list byte) (off : nat) :
  bin2hex [] bs = hex_of bs /\
  bin2hex_fast2 bs = Ret (bin2hex [] bs) /\
  bin2hex_dump [] bs = (bs ≫= fun b => bin2hex [] [b] ++ [x20]) /\
  ((off + 2 * length bs <= length pdst)%nat ->
   do_conv pdst off bs = write_at pdst off (bin2hex [] bs)).
Proof.
  rewrite bin2hex_hex_of, bin2hex_dump_spaced. repeat split.
  - apply bin2hex_fast2_hex_of.
  - apply list_bind_ext; [|done]. intros b. f_equal. symmetry. apply put_hex_hex2.
  - apply do_conv_spec.
Qed.

Lemma encoders_agree_witness :
  do_conv (repeat x20 6) 1 [x0a; xff] = write_at (repeat x20 6) 1 (lit "0aff").
Proof. apply (encoders_agree [x0a; xff] (repeat x20 6) 1). simpl. lia. Defined.

(** On an odd-length digit string the two decoders part: the vector of
    [hex_string_to_bin_fastest(const std::string&)] has [length / 2] elements
    and the last iteration stores one element past its end, while
    [hex_string_to_bin] pairs the last digit with the terminating NUL. *)
Lemma fastest_odd_overflow (s : list byte) (c : byte) (n : nat) :
  length s = (2 * n)%nat -> Forall (fun c => is_hex c = true) s -> is_hex c = true ->
  is_UB (hex_string_to_bin_fastest_str (s ++ [c])) = true /\
  returns (hex_string_to_bin (s ++ [c])) = true.
Proof.
  intros Hlen Hhex Hc. split.
  - unfold hex_string_to_bin_fastest_str, hex_string_to_bin_fastest.
    rewrite length_app, Hlen, Nat.add_1_r, pair_steps_odd.
    replace (S n) with (n + 1)%nat by lia.
    rewrite fastest_loop_add.
    assert (Hd : (S (2 * n) / 2 = n)%nat).
    { replace (S (2 * n)) with (1 + n * 2)%nat by lia. rewrite Nat.div_add by lia. done. }
    rewrite Hd, <- app_assoc.
    etransitivity; [apply (f_equal (fun m => is_UB (m ≫= _)));
      apply (fastest_loop_spec n s _ 0 _ 0 ([c] ++ [NUL])); try done;
      rewrite repeat_length; lia|].
    rewrite write_at_Ret by (rewrite repeat_length, (length_unhex n) by done; lia).
    cbn [mbind outcome_bind fastest_loop]. rewrite Nat.add_0_l.
    rewrite (lookup_app_r s _ (2 * n)), (lookup_app_r s _ (2 * n + 1)) by lia.
    rewrite Hlen, Nat.sub_diag. replace (2 * n + 1 - 2 * n)%nat with 1%nat by lia.
    cbn [lookup list_lookup app deref mbind outcome_bind].
    rewrite (hashmap103_hex c Hc). change (hashmap103 !! Z.to_nat (byte_Z NUL)) with (Some 0).
    cbn [deref mbind outcome_bind].
    apply is_UB_bind_l, write_at_UB. rewrite !Nat.add_0_l, Nat.div2_double.
    rewrite !length_app, length_take, length_drop, repeat_length, (length_unhex n) by done.
    simpl. lia.
  - apply hex_string_to_bin_total.
Qed.

(** C23. Decoding inverts encoding: both decoders give back every byte string
    from the text the encoders print for it, and on any even-length string of
    hexadecimal digits of either case the two decoders agree. On an odd-length
    one they part: the vector of [hex_string_to_bin_fastest] has [length / 2]
    elements and the last iteration stores one element past its end, while
    [hex_string_to_bin] pairs the last digit with the terminating NUL. *)
Theorem hex_roundtrip (bs s : list byte) (n : nat) :
  (hex_string_to_bin (bin2hex [] bs) = Ret bs /\
   hex_string_to_bin_fastest_str (bin2hex [] bs) = Ret bs) /\
  (length s = (2 * n)%nat -> Forall (fun c => is_hex c = true) s ->
   hex_string_to_bin s = hex_string_to_bin_fastest_str s /\
   hex_string_to_bin s = Ret (unhex s) /\
   forall c, is_hex c = true ->
     is_UB (hex_string_to_bin_fastest_str (s ++ [c])) = true /\ returns (hex_string_to_bin (s ++ [c])) = true).
Proof.
  pose proof (length_hex_of bs). pose proof (hex_of_is_hex bs).
  rewrite bin2hex_hex_of. simpl app. split; [split|].
  - by rewrite (hex_string_to_bin_spec (length bs)), unhex_hex_of.
  - by rewrite (fastest_str_spec (length bs)), unhex_hex_of.
  - intros Hn Hs. rewrite (hex_string_to_bin_spec n), (fastest_str_spec n) by done. split_and!; try done.
    intros c Hc. by apply (fastest_odd_overflow s c n).
Qed.
Lemma hex_roundtrip_witness :
  hex_string_to_bin (lit "DeadBEEF") = hex_string_to_bin_fastest_str (lit "DeadBEEF") /\
  is_UB (hex_string_to_bin_fastest_str (lit "DeadBEEFc")) = true.
Proof.
  destruct (proj2 (hex_roundtrip [] (lit "DeadBEEF") 4)) as (He & _ & Ho); [reflexivity|repeat constructor|].
  split; [exact He|exact (proj1 (Ho x63 eq_refl))].
Defined.

(** C36. [bin2hex_fast] is defined exactly when the text of its arguments and
    the final NUL fit in the destination; it then stores that text and the NUL
    at the destination, leaves every other byte of the buffer alone, and
    returns the length of the text. A line that does not fit is a store
    outside the buffer. *)
Theorem bin2hex_fast_bounds (dst : list byte) (args : list arg) :
  let t := text_of args in
  ((length t < length dst)%nat ->
   bin2hex_fast dst 0 args = Ret (t ++ [NUL] ++ drop (S (length t)) dst, length t)) /\
  ((length dst <= length t)%nat -> is_UB (bin2hex_fast dst 0 args) = true).
Proof.
  cbv zeta. split; intros H.
  - rewrite bin2hex_fast_fits by (simpl; lia).
    rewrite write_at_Ret by (rewrite length_app; simpl; lia).
    cbn [mbind outcome_bind]. rewrite take_0, app_nil_l, <- app_assoc, length_app.
    simpl. by rewrite Nat.add_1_r.
  - apply bin2hex_fast_overflow. simpl. done.
Qed.
Lemma bin2hex_fast_bounds_witness :
  bin2hex_fast (repeat x20 8) 0 [AStr (lit "ab"); ABin [x0a; xff]] =
    Ret (lit "ab0aff" ++ [NUL] ++ [x20], 6%nat).
Proof. apply (bin2hex_fast_bounds (repeat x20 8)). vm_compute. lia. Defined.
