(* ===== verification/Tick.v ===== *)
(** * Tick
    The time stamps of the agent: [tickUpdate] and [tickExt] of
    [3rd/include/ticks/tick_ext.h], which turn the processor's tick counter into
    microseconds. A [double] is an IEEE binary64 number of [SpecFloat]; the
    clocks are inputs: [us] is what [system_clock] shows in microseconds, [t],
    [t1], [t2] what [getticks()] returns, all [uint64_t]. *)

From Stdlib Require Import ZArith Lia.
From Stdlib Require Import Floats.SpecFloat.
From stdpp Require Import base numbers list option strings.
From S2P Require Import Prelude.

(** ** [double] *)

Definition prec : Z := 53.
Definition emax : Z := 1024.
Definition d_of_u64 (z : Z) : spec_float := binary_normalize prec emax z 0 false.
Definition d_add (x y : spec_float) : spec_float := SFadd prec emax x y.
Definition d_sub (x y : spec_float) : spec_float := SFsub prec emax x y.
Definition d_mul (x y : spec_float) : spec_float := SFmul prec emax x y.
Definition d_div (x y : spec_float) : spec_float := SFdiv prec emax x y.
Definition d_gt (x y : spec_float) : bool := SFltb y x.
Definition d_zero : spec_float := S754_zero false.
(** conversion to [uint64_t]: towards zero, undefined outside its range *)
Definition d_to_u64 (x : spec_float) : outcome Z :=
  match x with
  | S754_zero _ => Ret 0
  | S754_finite s m e =>
      let z := Z.shiftl (Zpos m) e in
      let z := if s then - z else z in
      if decide (0 <= z < 2 ^ 64) then Ret z else UB "double out of range of uint64_t"
  | _ => UB "double out of range of uint64_t"
  end.

(** ** [struct tickUpdate] *)

Inductive stage : Set := stage_init | stage_tick0 | stage_tick1 | stage_finish.
#[export] Instance stage_eq_dec : EqDecision stage.
Proof. solve_decision. Defined.
Record tickUpdate := mk_tu {
  tick0_ : Z; tick1_ : Z; tm0_ : Z; tm1_ : Z; tu_ratio : spec_float; stat_ : stage;
}.
Definition tickUpdate_new : tickUpdate := mk_tu 0 0 0 0 d_zero stage_init.

Definition is_ellapsed (nowTick : Z) (tu : tickUpdate) : bool :=
  if d_gt (tu_ratio tu) d_zero then
    let now_tm := d_mul (d_of_u64 nowTick) (tu_ratio tu) in
    d_gt (d_sub now_tm (d_of_u64 (tm0_ tu))) (d_of_u64 1000)
  else (1000 * 1000 * 100 <? u64 (nowTick - tick0_ tu)).

(** [update()] reads [us] and [t1] in the first stage, [t1], [us] and [t2] later *)
Definition update (us t1 t2 : Z) (tu : tickUpdate) : bool * tickUpdate :=
  if decide (stat_ tu = stage_init) then (false, mk_tu t1 t1 us us (tu_ratio tu) stage_tick0)
  else if decide (stat_ tu = stage_tick0) then
    (false, mk_tu (tick0_ tu) (tick1_ tu) (tm0_ tu) (tm1_ tu) (tu_ratio tu) stage_tick1)
  else if bool_decide (stat_ tu = stage_tick1) && is_ellapsed t1 tu then
    let temp := d_of_u64 (u64 (us - tm0_ tu)) in
    (true, mk_tu (tick0_ tu) t2 (tm0_ tu) us (d_div temp (d_of_u64 (u64 (t2 - tick0_ tu)))) stage_finish)
  else (false, tu).

Definition reset_state (tu : tickUpdate) : tickUpdate :=
  mk_tu (tick0_ tu) (tick0_ tu) (tm1_ tu) (tm1_ tu) (tu_ratio tu) stage_tick0.

(** ** [struct tickExt] *)

Record tickExt := mk_te {
  mile_stone_tick_ : Z; mile_stone_tm64_ : Z; delta_ratio_ : spec_float; valid_tick_ : bool; tu_ : tickUpdate;
}.

Definition beginInitTick (us t : Z) (te : tickExt) : tickExt :=
  mk_te t us (delta_ratio_ te) (valid_tick_ te) (tu_ te).
(** [tickExt()] *)
Definition tickExt_new (us t : Z) : tickExt := beginInitTick us t (mk_te 0 0 d_zero false tickUpdate_new).

Definition endInitTick (tm64 tick2 : Z) (te : tickExt) : Z * tickExt :=
  let invalid := mk_te (mile_stone_tick_ te) (mile_stone_tm64_ te) (delta_ratio_ te) false (tu_ te) in
  if (tm64 <? mile_stone_tm64_ te) || (tick2 <? mile_stone_tick_ te) then (-1, invalid)
  else if (u64 (tm64 - mile_stone_tm64_ te) <? 10) || (u64 (tick2 - mile_stone_tick_ te) <? 1000) then (0, invalid)
  else
    let temp := d_of_u64 (u64 (tm64 - mile_stone_tm64_ te)) in
    (0, mk_te (mile_stone_tick_ te) (mile_stone_tm64_ te)
          (d_div temp (d_of_u64 (u64 (tick2 - mile_stone_tick_ te)))) true (tu_ te)).

Definition getTick (t : Z) (te : tickExt) : outcome Z :=
  if negb (valid_tick_ te) then Ret 0
  else
    let tick_diff := u64 (t - mile_stone_tick_ te) in
    d_to_u64 (d_add (d_of_u64 (mile_stone_tm64_ te)) (d_mul (d_of_u64 tick_diff) (delta_ratio_ te))).

Definition updateTick (us t1 t2 : Z) (te : tickExt) : tickExt :=
  let '(b, tu) := update us t1 t2 (tu_ te) in
  if b then mk_te (tick0_ tu) (tm0_ tu) (delta_ratio_ te) (valid_tick_ te) (reset_state tu)
  else mk_te (mile_stone_tick_ te) (mile_stone_tm64_ te) (delta_ratio_ te) (valid_tick_ te) tu.

(** ** The milestones *)

(** the readings of one call: microseconds and the two tick counts *)
Definition reading : Type := Z * Z * Z.
Definition updateTicks (rs : list reading) (te : tickExt) : tickExt :=
  fold_left (fun te r => updateTick r.1.1 r.1.2 r.2 te) rs te.

(** the updater is between two updates *)
Definition ticking (te : tickExt) : Prop := stat_ (tu_ te) = stage_tick0 \/ stat_ (tu_ te) = stage_tick1.

(** one call: nothing but the stage moves, or a second has elapsed *)
Lemma updateTick_cases us t1 t2 te :
  ticking te ->
  let te' := updateTick us t1 t2 te in
  ticking te' /\ delta_ratio_ te' = delta_ratio_ te /\ valid_tick_ te' = valid_tick_ te /\
  tick0_ (tu_ te') = tick0_ (tu_ te) /\
  ((mile_stone_tick_ te' = mile_stone_tick_ te /\ mile_stone_tm64_ te' = mile_stone_tm64_ te /\
    tm0_ (tu_ te') = tm0_ (tu_ te)) \/
   (stat_ (tu_ te) = stage_tick1 /\ is_ellapsed t1 (tu_ te) = true /\
    mile_stone_tick_ te' = tick0_ (tu_ te) /\ mile_stone_tm64_ te' = tm0_ (tu_ te) /\ tm0_ (tu_ te') = us)).
Proof.
  intros Ht. cbv zeta. unfold updateTick, update, ticking in *.
  rewrite (decide_False (P := stat_ (tu_ te) = stage_init)) by (destruct Ht; congruence).
  destruct (decide (stat_ (tu_ te) = stage_tick0)) as [E0|E0]; [simpl; by split_and!; auto|].
  destruct Ht as [?|E1]; [done|]. rewrite (bool_decide_eq_true_2 _ E1). cbn [andb].
  destruct (is_ellapsed t1 (tu_ te)); simpl; split_and!; auto.
  right. by rewrite E1.
Qed.

Lemma updateTicks_spec rs te :
  ticking te ->
  let te' := updateTicks rs te in
  ticking te' /\ tick0_ (tu_ te') = tick0_ (tu_ te) /\
  tm0_ (tu_ te') ∈ tm0_ (tu_ te) :: ((fun r => r.1.1) <$> rs) /\
  ((mile_stone_tick_ te' = mile_stone_tick_ te /\ mile_stone_tm64_ te' = mile_stone_tm64_ te) \/
   (mile_stone_tick_ te' = tick0_ (tu_ te) /\
    mile_stone_tm64_ te' ∈ tm0_ (tu_ te) :: ((fun r => r.1.1) <$> rs))).
Proof.
  revert te. induction rs as [|[[us t1] t2] rs IH]; intros te Ht; cbv zeta.
  - simpl. split_and!; auto. by left.
  - destruct (updateTick_cases us t1 t2 te Ht) as (Ht1 & _ & _ & H0 & Hc).
    destruct (IH _ Ht1) as (Ht2 & H2 & Hm & Hms). cbn [updateTicks fold_left fst snd fmap list_fmap] in *.
    fold (updateTicks rs (updateTick us t1 t2 te)). set (te1 := updateTick us t1 t2 te) in *.
    rewrite H2, H0. split_and!; [done|done| |].
    + rewrite !elem_of_cons in *. destruct Hc as [(_ & _ & E)|(_ & _ & _ & _ & E)]; rewrite E in Hm; tauto.
    + destruct Hms as [[-> ->]|[-> Hms]].
      * destruct Hc as [(-> & -> & _)|(_ & _ & -> & -> & _)]; [by left|]. right. split; [done|by left].
      * right. split; [done|]. rewrite !elem_of_cons in *.
        destruct Hc as [(_ & _ & E)|(_ & _ & _ & _ & E)]; rewrite E in Hms; tauto.
Qed.

Lemma second_update us t1 t2 r us2 s1 s2 te :
  stat_ (tu_ te) = stage_tick1 -> is_ellapsed t1 (tu_ te) = true ->
  is_ellapsed s1 (tu_ (updateTicks [(us, t1, t2); r] te)) = true ->
  let te3 := updateTick us2 s1 s2 (updateTicks [(us, t1, t2); r] te) in
  mile_stone_tick_ te3 = tick0_ (tu_ te) /\ mile_stone_tm64_ te3 = us.
Proof.
  intros Hs He. unfold updateTicks. cbn [fold_left fst snd].
  assert (E : update us t1 t2 (tu_ te) = (true, mk_tu (tick0_ (tu_ te)) t2 (tm0_ (tu_ te)) us
    (d_div (d_of_u64 (u64 (us - tm0_ (tu_ te)))) (d_of_u64 (u64 (t2 - tick0_ (tu_ te))))) stage_finish)).
  { unfold update. rewrite Hs, He. done. }
  intros He2. cbv zeta. revert He2. unfold updateTick. rewrite E.
  unfold update. simpl. intros He2. by rewrite He2.
Qed.

(** Calibration: the code of a rejected calibration is 0 when it was too short,
    the same as for a successful one. *)
Lemma endInitTick_code tm64 tick2 te :
  is_u64 tm64 -> is_u64 tick2 -> is_u64 (mile_stone_tm64_ te) -> is_u64 (mile_stone_tick_ te) ->
  let '(code, te') := endInitTick tm64 tick2 te in
  (code = -1 <-> tm64 < mile_stone_tm64_ te \/ tick2 < mile_stone_tick_ te) /\
  (valid_tick_ te' = true <-> mile_stone_tm64_ te + 10 <= tm64 /\ mile_stone_tick_ te + 1000 <= tick2) /\
  (valid_tick_ te' = false -> forall t, getTick t te' = Ret 0).
Proof.
  intros H1 H2 H3 H4. unfold endInitTick, is_u64 in *.
  destruct (Z.ltb_spec tm64 (mile_stone_tm64_ te)); [simpl; split_and!; [lia|split; [done|lia]|done]|].
  destruct (Z.ltb_spec tick2 (mile_stone_tick_ te)); [simpl; split_and!; [lia|split; [done|lia]|done]|].
  cbn [orb]. rewrite !u64_small by (unfold is_u64; lia).
  destruct (Z.ltb_spec (tm64 - mile_stone_tm64_ te) 10); [simpl; split_and!; [lia|split; [done|lia]|done]|].
  destruct (Z.ltb_spec (tick2 - mile_stone_tick_ te) 1000); simpl; split_and!; try lia; try done.
Qed.
