(* ===== verification/TickClock.v ===== *)
(** * TickClock
    The clock of the agent on an ideal counter. The first part shows that the
    [double] operations of [Tick] are exact on integers of at most 53 bits and on
    ratios that are powers of two; the second part puts [tickExt] on a counter
    with [2 ^ k] ticks per microsecond and shows what its time stamps are. *)

From Stdlib Require Import ZArith Lia Sorted.
From Stdlib Require Import Floats.SpecFloat.
From stdpp Require Import base numbers list option strings.
From S2P Require Import Prelude Tick.

(** ** Shifts and digits of a mantissa *)

Definition shl (m : positive) (n : nat) : positive := Nat.iter n xO m.
Definition digits (m : positive) : nat := Pos.to_nat (digits2_pos m).

Lemma shl_plus m a b : shl (shl m a) b = shl m (b + a).
Proof. unfold shl. induction b as [|b IH]; simpl; [done|by rewrite IH]. Qed.

Lemma shl_val m n : Zpos (shl m n) = Zpos m * 2 ^ Z.of_nat n.
Proof.
  induction n as [|n IH]; [simpl; lia|].
  rewrite Nat2Z.inj_succ, Z.pow_succ_r by lia. change (shl m (S n)) with (xO (shl m n)).
  rewrite Pos2Z.inj_xO, IH. lia.
Qed.

Lemma shl_iter m d : Pos.iter xO m d = shl m (Pos.to_nat d).
Proof. apply Pos2Nat.inj_iter. Qed.

Lemma shl_mul m p n : (shl m n * p)%positive = shl (m * p) n.
Proof. induction n as [|n IH]; [done|]. change (shl m (S n) * p)%positive with (xO (shl m n * p)). by rewrite IH. Qed.

Lemma digits_shl m n : digits (shl m n) = (digits m + n)%nat.
Proof.
  induction n as [|n IH]; [by rewrite Nat.add_0_r|].
  change (shl m (S n)) with (xO (shl m n)). unfold digits in *. simpl. rewrite Pos2Nat.inj_succ. lia.
Qed.

Lemma digits_pos m : (0 < digits m)%nat.
Proof. apply Pos2Nat.is_pos. Qed.

Lemma digits_bound m : 2 ^ (Z.of_nat (digits m) - 1) <= Zpos m < 2 ^ Z.of_nat (digits m).
Proof.
  unfold digits. induction m as [m IH|m IH|]; cbn [digits2_pos]; [| |done].
  all: rewrite Pos2Nat.inj_succ, Nat2Z.inj_succ.
  all: pose proof (Pos2Nat.is_pos (digits2_pos m)) as Hp.
  all: replace (Z.succ (Z.of_nat (Pos.to_nat (digits2_pos m))) - 1)
         with (Z.succ (Z.of_nat (Pos.to_nat (digits2_pos m)) - 1)) by lia.
  all: rewrite !Z.pow_succ_r by lia; lia.
Qed.

Lemma digits_le m n : Zpos m < 2 ^ Z.of_nat n -> (digits m <= n)%nat.
Proof.
  intros H. destruct (digits_bound m) as [Hl _]. pose proof (digits_pos m).
  destruct (Nat.le_gt_cases (digits m) n) as [|Hn]; [done|].
  assert (2 ^ Z.of_nat n <= 2 ^ (Z.of_nat (digits m) - 1)) by (apply Z.pow_le_mono_r; lia). lia.
Qed.

Lemma digits2_digits m : Zpos (digits2_pos m) = Z.of_nat (digits m).
Proof. unfold digits. by rewrite positive_nat_Z. Qed.

(** ** Rounding when there is nothing to round *)

Lemma iter_pos_iter {A} (f : A -> A) n x : SpecFloat.iter_pos f n x = Nat.iter (Pos.to_nat n) f x.
Proof.
  revert x. induction n as [n IH|n IH|]; intros x; cbn [SpecFloat.iter_pos]; [| |done].
  - rewrite !IH, Pos2Nat.inj_xI, <- Nat.iter_add. replace (S (2 * Pos.to_nat n))%nat with ((Pos.to_nat n + Pos.to_nat n) + 1)%nat by lia.
    by rewrite (Nat.iter_add _ 1).
  - rewrite !IH, Pos2Nat.inj_xO, <- Nat.iter_add. f_equal. lia.
Qed.

Lemma shr_exact m n : Nat.iter n shr_1 (Build_shr_record (Zpos (shl m n)) false false) = Build_shr_record (Zpos m) false false.
Proof.
  induction n as [|n IH]; [done|]. rewrite Nat.iter_succ_r. by change (shl m (S n)) with (xO (shl m n)).
Qed.

Lemma shr_fexp_exact m n e :
  digits m = 53%nat -> -1074 <= e + Z.of_nat n ->
  shr_fexp prec emax (Zpos (shl m n)) e loc_Exact = (Build_shr_record (Zpos m) false false, e + Z.of_nat n).
Proof.
  intros Hd He. unfold shr_fexp, Zdigits2, fexp, emin, prec, emax. rewrite digits2_digits, digits_shl, Hd.
  replace (Z.max _ _ - e) with (Z.of_nat n) by lia. cbn [shr_record_of_loc].
  destruct n as [|n]; [simpl; f_equal; lia|]. change (Z.of_nat (S n)) with (Zpos (Pos.of_succ_nat n)). unfold shr.
  by rewrite iter_pos_iter, SuccNat2Pos.id_succ, shr_exact.
Qed.

Lemma round_aux_exact s m n e :
  digits m = 53%nat -> -1074 <= e + Z.of_nat n <= 971 ->
  binary_round_aux prec emax s (Zpos (shl m n)) e loc_Exact = S754_finite s m (e + Z.of_nat n).
Proof.
  intros Hd He. unfold binary_round_aux. rewrite shr_fexp_exact by (done || lia). cbn [shr_m loc_of_shr_record round_nearest_even].
  pose proof (shr_fexp_exact m 0 (e + Z.of_nat n) Hd) as H. change (shl m 0) with m in H. rewrite H by lia.
  cbn [shr_m]. replace (e + Z.of_nat n + Z.of_nat 0) with (e + Z.of_nat n) by lia.
  unfold prec, emax. by rewrite (proj2 (Z.leb_le _ _)) by lia.
Qed.

(** ** Integers as [double]s *)

(** the number [z] with a mantissa of 53 bits *)
Definition d_int (z : Z) : spec_float :=
  match z with
  | Z0 => S754_zero false
  | Zpos m => S754_finite false (shl m (53 - digits m)) (Z.of_nat (digits m) - 53)
  | Zneg m => S754_finite true (shl m (53 - digits m)) (Z.of_nat (digits m) - 53)
  end.
(** [2 ^ -k] *)
Definition d_pow2 (k : nat) : spec_float := S754_finite false (shl 1 52) (- Z.of_nat k - 52).

Definition is_i53 (z : Z) : Prop := - 2 ^ 53 < z < 2 ^ 53.

Lemma digits_i53 m : Zpos m < 2 ^ 53 -> (digits m <= 53)%nat.
Proof. intros H. by apply (digits_le m 53). Qed.

Lemma digits_norm m : (digits m <= 53)%nat -> digits (shl m (53 - digits m)) = 53%nat.
Proof. intros. rewrite digits_shl. lia. Qed.

Lemma shl_align_up m e n : shl_align m e (e - Z.of_nat n) = (shl m n, e - Z.of_nat n).
Proof.
  unfold shl_align. replace (e - Z.of_nat n - e) with (- Z.of_nat n) by lia.
  destruct n as [|n]; [simpl; f_equal; lia|].
  change (- Z.of_nat (S n)) with (Zneg (Pos.of_succ_nat n)). cbv iota. by rewrite shl_iter, SuccNat2Pos.id_succ.
Qed.

Lemma shl_align_down m e e' : e <= e' -> shl_align m e e' = (m, e).
Proof. intros H. unfold shl_align. destruct (e' - e) eqn:E; [done|done|lia]. Qed.

(** a mantissa with zero bits at its end is brought to 53 bits *)
Lemma round_int s m j :
  (digits m <= 53)%nat -> Z.of_nat j <= 1074 ->
  binary_round prec emax s (shl m j) (- Z.of_nat j) =
  S754_finite s (shl m (53 - digits m)) (Z.of_nat (digits m) - 53).
Proof.
  intros Hd Hj. pose proof (digits_pos m). unfold binary_round, fexp, emin, prec, emax. rewrite digits2_digits, digits_shl.
  replace (Z.max _ _) with (Z.of_nat (digits m) - 53) by lia.
  destruct (Nat.le_gt_cases (digits m + j) 53) as [Hc|Hc].
  - replace (Z.of_nat (digits m) - 53) with (- Z.of_nat j - Z.of_nat (53 - digits m - j)) at 1 by lia.
    rewrite shl_align_up, shl_plus. replace (53 - digits m - j + j)%nat with (53 - digits m)%nat by lia.
    pose proof (round_aux_exact s (shl m (53 - digits m)) 0 (- Z.of_nat j - Z.of_nat (53 - digits m - j))
                  (digits_norm _ Hd)) as R.
    change (shl (shl m (53 - digits m)) 0) with (shl m (53 - digits m)) in R. change (binary_round_aux 53 1024) with (binary_round_aux prec emax). rewrite R by lia.
    f_equal. lia.
  - rewrite shl_align_down by lia.
    replace j with (digits m + j - 53 + (53 - digits m))%nat at 1 by lia. rewrite <- shl_plus.
    change (binary_round_aux 53 1024) with (binary_round_aux prec emax). rewrite round_aux_exact by (by apply digits_norm || lia). f_equal. lia.
Qed.

Lemma normalize_int z j b :
  is_i53 z -> Z.of_nat j <= 1074 -> (z = 0 -> b = false) ->
  binary_normalize prec emax (z * 2 ^ Z.of_nat j) (- Z.of_nat j) b = d_int z.
Proof.
  intros Hz Hj Hb. unfold is_i53 in Hz. destruct z as [|m|m]; [by rewrite Hb| |].
  - rewrite <- shl_val. cbn [binary_normalize d_int]. apply round_int; [apply digits_i53; lia|done].
  - replace (Zneg m * 2 ^ Z.of_nat j) with (Zneg (shl m j)).
    + cbn [binary_normalize d_int]. apply round_int; [apply digits_i53; lia|done].
    + change (Zneg m) with (- Zpos m). rewrite Z.mul_opp_l, <- shl_val. done.
Qed.

(** ** The operations are exact *)

Lemma d_of_u64_int z : 0 <= z < 2 ^ 53 -> d_of_u64 z = d_int z.
Proof.
  intros H. unfold d_of_u64. rewrite <- (normalize_int z 0 false) by (done || (unfold is_i53; lia)).
  f_equal. simpl. lia.
Qed.

Lemma align_int m j :
  (digits m <= 53)%nat -> (53 - digits m <= j)%nat ->
  Zpos (fst (shl_align (shl m (53 - digits m)) (Z.of_nat (digits m) - 53) (- Z.of_nat j))) = Zpos m * 2 ^ Z.of_nat j.
Proof.
  intros Hd Hj. replace (- Z.of_nat j) with (Z.of_nat (digits m) - 53 - Z.of_nat (j - (53 - digits m))) by lia.
  rewrite shl_align_up, shl_plus. cbn [fst]. rewrite shl_val. do 3 f_equal. lia.
Qed.

(** the common exponent of two integers *)
Lemma min_exp m n :
  (digits m <= 53)%nat -> (digits n <= 53)%nat ->
  Z.min (Z.of_nat (digits m) - 53) (Z.of_nat (digits n) - 53) = - Z.of_nat (Nat.max (53 - digits m) (53 - digits n)).
Proof. lia. Qed.

(** a sum of two aligned integers, signs included *)
Lemma sum_int z z' m n :
  (digits m <= 53)%nat -> (digits n <= 53)%nat -> is_i53 z ->
  let j := Nat.max (53 - digits m) (53 - digits n) in
  z' = z * 2 ^ Z.of_nat j ->
  binary_normalize prec emax z' (- Z.of_nat j) false = d_int z.
Proof. intros Hm Hn Hz j ->. apply normalize_int; [done|subst j; lia|done]. Qed.

Ltac int_cases a b :=
  destruct a as [|?m|?m], b as [|?m|?m]; cbn [d_int];
  repeat match goal with H : is_i53 (Zpos ?m) |- _ => assert (digits m <= 53)%nat by (apply digits_i53; apply H); clear H
                       | H : is_i53 (Zneg ?m) |- _ => assert (digits m <= 53)%nat by (apply digits_i53; unfold is_i53 in H; lia); clear H end.

Lemma d_add_int a b : is_i53 a -> is_i53 b -> is_i53 (a + b) -> d_add (d_int a) (d_int b) = d_int (a + b).
Proof.
  intros Ha Hb Hs. unfold d_add. int_cases a b; try done; cbn [SFadd]; rewrite min_exp by done;
    apply sum_int; try done; rewrite !align_int by (done || lia); unfold cond_Zopp; lia.
Qed.

Lemma d_sub_int a b : is_i53 a -> is_i53 b -> is_i53 (a - b) -> d_sub (d_int a) (d_int b) = d_int (a - b).
Proof.
  intros Ha Hb Hs. unfold d_sub. int_cases a b; try done; cbn [SFsub]; rewrite min_exp by done;
    apply sum_int; try done; rewrite !align_int by (done || lia); unfold cond_Zopp; lia.
Qed.

Lemma d_to_u64_int z : 0 <= z < 2 ^ 53 -> d_to_u64 (d_int z) = Ret z.
Proof.
  intros Hz. destruct z as [|m|m]; [done| |lia]. cbn [d_int d_to_u64].
  assert (Hd : (digits m <= 53)%nat) by (apply digits_i53; lia).
  assert (E : Z.shiftl (Zpos (shl m (53 - digits m))) (Z.of_nat (digits m) - 53) = Zpos m).
  { replace (Z.of_nat (digits m) - 53) with (- Z.of_nat (53 - digits m)) by lia.
    rewrite Z.shiftl_opp_r, shl_val, Z.shiftr_div_pow2 by lia. apply Z.div_mul. lia. }
  rewrite E, decide_True by lia. done.
Qed.

Lemma shl_mul_pow m k : shl m k = (shl 1 k * m)%positive.
Proof. by rewrite shl_mul. Qed.

(** a multiple of [2 ^ k] has the mantissa of the quotient *)
Lemma d_int_scaled m k :
  Zpos (shl m k) < 2 ^ 53 ->
  d_int (Zpos (shl m k)) = S754_finite false (shl m (53 - digits m)) (Z.of_nat (digits m) - 53 + Z.of_nat k).
Proof.
  intros H. apply digits_i53 in H. rewrite digits_shl in H. cbn [d_int].
  rewrite digits_shl, shl_plus. f_equal; [f_equal; lia|lia].
Qed.

Lemma d_mul_pow2 d k :
  0 <= d -> d * 2 ^ Z.of_nat k < 2 ^ 53 -> d_mul (d_int (d * 2 ^ Z.of_nat k)) (d_pow2 k) = d_int d.
Proof.
  intros Hd Hk. destruct d as [|m|m]; [done| |lia]. rewrite <- shl_val in *. rewrite d_int_scaled by done.
  apply digits_i53 in Hk. rewrite digits_shl in Hk. unfold d_mul, d_pow2. cbn [SFmul xorb d_int].
  rewrite Pos.mul_comm, <- shl_mul_pow, round_aux_exact by (rewrite ?digits_norm by lia; lia). f_equal. lia.
Qed.

Lemma d_div_pow2 d k :
  0 < d -> d * 2 ^ Z.of_nat k < 2 ^ 53 -> d_div (d_int d) (d_int (d * 2 ^ Z.of_nat k)) = d_pow2 k.
Proof.
  intros Hd Hk. destruct d as [|m|m]; [done| |lia]. rewrite <- shl_val in *. rewrite d_int_scaled by done.
  apply digits_i53 in Hk. rewrite digits_shl in Hk. unfold d_div, d_pow2. cbn [SFdiv d_int].
  assert (Hm : digits (shl m (53 - digits m)) = 53%nat) by (apply digits_norm; lia).
  unfold SFdiv_core_binary, Zdigits2. rewrite digits2_digits, Hm.
  set (q := shl m (53 - digits m)) in *. unfold fexp, emin, prec, emax.
  replace (Z.min _ _) with (- Z.of_nat k - 53) by lia.
  replace (Z.of_nat (digits m) - 53 - (Z.of_nat (digits m) - 53 + Z.of_nat k) - (- Z.of_nat k - 53)) with 53 by lia.
  cbv zeta iota. rewrite Z.shiftl_mul_pow2 by lia.
  assert (Eq : Z.div_eucl (Zpos q * 2 ^ 53) (Zpos q) = (2 ^ 53, 0)).
  { rewrite (surjective_pairing (Z.div_eucl _ _)).
    change (((Zpos q * 2 ^ 53) / Zpos q, (Zpos q * 2 ^ 53) mod Zpos q) = (2 ^ 53, 0)).
    f_equal; [rewrite Z.mul_comm; by apply Z.div_mul|rewrite Z.mul_comm; by apply Z.mod_mul]. }
  rewrite Eq. replace (new_location (Zpos q) 0) with loc_Exact by (unfold new_location; by destruct (Z.even _)).
  change (binary_round_aux 53 1024 _ (2 ^ 53)) with (binary_round_aux prec emax (xorb false false) (Zpos (shl (shl 1 52) 1))).
  rewrite round_aux_exact by (done || lia). f_equal. lia.
Qed.

Lemma digits_lt m n : (digits m < digits n)%nat -> Zpos m < Zpos n.
Proof.
  intros H. destruct (digits_bound m) as [_ Hm], (digits_bound n) as [Hn _].
  assert (2 ^ Z.of_nat (digits m) <= 2 ^ (Z.of_nat (digits n) - 1)) by (apply Z.pow_le_mono_r; lia). lia.
Qed.

(** the order of two positive [double]s that are integers *)
Lemma compare_norm m n :
  (digits m <= 53)%nat -> (digits n <= 53)%nat ->
  match Z.of_nat (digits m) - 53 ?= Z.of_nat (digits n) - 53 with
  | Lt => Lt | Gt => Gt
  | Eq => Pos.compare_cont Eq (shl m (53 - digits m)) (shl n (53 - digits n))
  end = (Zpos m ?= Zpos n).
Proof.
  intros Hm Hn. destruct (Z.compare_spec (Z.of_nat (digits m) - 53) (Z.of_nat (digits n) - 53)) as [E|E|E].
  - replace (digits n) with (digits m) by lia.
    change (Pos.compare_cont Eq (shl m (53 - digits m)) (shl n (53 - digits m)))
      with (Zpos (shl m (53 - digits m)) ?= Zpos (shl n (53 - digits m))).
    rewrite !shl_val. symmetry. apply Zmult_compare_compat_r. lia.
  - symmetry. apply Z.compare_lt_iff, digits_lt. lia.
  - symmetry. apply Z.compare_gt_iff, digits_lt. lia.
Qed.

Lemma compare_opp c x :
  match c with Eq => CompOpp x | Lt => Gt | Gt => Lt end = CompOpp (match c with Eq => x | Lt => Lt | Gt => Gt end).
Proof. by destruct c. Qed.

Lemma d_gt_int a b : is_i53 a -> is_i53 b -> d_gt (d_int a) (d_int b) = (b <? a).
Proof.
  intros Ha Hb. unfold d_gt, SFltb, Z.ltb. int_cases a b; cbn [SFcompare]; try done;
    rewrite ?compare_opp, compare_norm by done; done.
Qed.

(** ** The clock of the receiving thread *)

(** [canRxFunc] before its loop: the clock is created, begun again, and ended
    after a pause; each with what it reads of the clocks *)
Definition clock_init (created begun ended : Z * Z) : Z * tickExt :=
  endInitTick ended.1 ended.2 (beginInitTick begun.1 begun.2 (tickExt_new created.1 created.2)).

(** ** The clock on an ideal counter *)

Section Ideal.
(** the counter has [2 ^ k] ticks per microsecond and was 0 at the time [boot] *)
Context (k : nat) (boot : Z).

Definition ticks (u : Z) : Z := (u - boot) * 2 ^ Z.of_nat k.
(** the times at which the counter and the time have at most 52 and 53 bits *)
Definition in_range (u : Z) : Prop := 0 <= u < 2 ^ 52 /\ boot <= u /\ ticks u < 2 ^ 53.
(** a call at the time [u] reads its clocks then *)
Definition at_time (u : Z) : reading := (u, ticks u, ticks u).

Lemma pow_k_pos : 1 <= 2 ^ Z.of_nat k.
Proof. pose proof (Z.pow_pos_nonneg 2 (Z.of_nat k)). lia. Qed.

Lemma ticks_sub u v : ticks u - ticks v = (u - v) * 2 ^ Z.of_nat k.
Proof. unfold ticks. lia. Qed.

Lemma ticks_nonneg u : boot <= u -> 0 <= ticks u.
Proof. intros. pose proof pow_k_pos. unfold ticks. nia. Qed.

Lemma ticks_mono u v : u <= v -> ticks u <= ticks v.
Proof. intros. pose proof pow_k_pos. unfold ticks. nia. Qed.

(** the counts between two readings, in [uint64_t] *)
Lemma ticks_diff a u :
  in_range a -> in_range u -> a <= u -> u64 (ticks u - ticks a) = (u - a) * 2 ^ Z.of_nat k /\
    0 <= (u - a) * 2 ^ Z.of_nat k < 2 ^ 53.
Proof.
  intros (_ & Ha & _) (_ & Hu & Ht) Hau. pose proof (ticks_nonneg a Ha). pose proof (ticks_mono a u Hau).
  rewrite <- ticks_sub. split; [apply u64_small; unfold is_u64; lia|lia].
Qed.

Lemma time_diff a u : in_range a -> in_range u -> a <= u -> u64 (u - a) = u - a.
Proof. intros [Ha _] [Hu _] Hau. apply u64_small. unfold is_u64. lia. Qed.

(** the ratio of two intervals of the same instants *)
Lemma ratio_exact a u :
  in_range a -> in_range u -> a < u ->
  d_div (d_of_u64 (u64 (u - a))) (d_of_u64 (u64 (ticks u - ticks a))) = d_pow2 k.
Proof.
  intros Ha Hu Hau. destruct (ticks_diff a u Ha Hu ltac:(lia)) as [-> Hd].
  rewrite time_diff by (done || lia). destruct Ha as [Ha _], Hu as [Hu _].
  rewrite !d_of_u64_int by lia. apply d_div_pow2; lia.
Qed.

(** a valid clock whose milestone is the tick of [a] with the time [b] *)
Lemma getTick_at te a b u :
  valid_tick_ te = true -> delta_ratio_ te = d_pow2 k -> mile_stone_tick_ te = ticks a -> mile_stone_tm64_ te = b ->
  in_range a -> in_range u -> a <= u -> 0 <= b < 2 ^ 52 -> getTick (ticks u) te = Ret (b + (u - a)).
Proof.
  intros Hv Hr Ht Hm Ha Hu Hau Hb. unfold getTick. rewrite Hv, Hr, Ht, Hm. cbn [negb].
  destruct (ticks_diff a u Ha Hu Hau) as [-> Hd]. destruct Ha as [Ha _], Hu as [Hu _].
  rewrite !d_of_u64_int by lia. rewrite d_mul_pow2 by lia.
  rewrite d_add_int by (unfold is_i53; lia). apply d_to_u64_int. lia.
Qed.

(** [is_ellapsed] with a ratio compares the age of the counter with a time *)
Lemma is_ellapsed_ratio tu u :
  tu_ratio tu = d_pow2 k -> in_range u -> 0 <= tm0_ tu < 2 ^ 52 ->
  is_ellapsed (ticks u) tu = (1000 <? (u - boot) - tm0_ tu).
Proof.
  intros Hr (Hu & Hb & Ht) H0. pose proof (ticks_nonneg u Hb) as Hn. unfold is_ellapsed. rewrite Hr.
  replace (d_gt (d_pow2 k) d_zero) with true by done.
  assert (u - boot < 2 ^ 53) by (pose proof pow_k_pos; unfold ticks in *; nia).
  rewrite (d_of_u64_int (ticks u)) by lia. unfold ticks in Ht |- *. rewrite d_mul_pow2 by lia.
  rewrite !d_of_u64_int by lia. rewrite d_sub_int by (unfold is_i53; lia).
  apply d_gt_int; unfold is_i53; lia.
Qed.

(** ** The clock keeps the time *)

(** the updater between two calls of a clock created at [start]: it has not started, it has read its first
    instant, or it has measured the ratio *)
Definition updating (start now : Z) (tu : tickUpdate) : Prop :=
  (stat_ tu = stage_init /\ tu_ratio tu = d_zero) \/
  ((stat_ tu = stage_tick0 \/ stat_ tu = stage_tick1) /\
   exists a, tick0_ tu = ticks a /\ in_range a /\ start <= a <= now /\
     ((tm0_ tu = a /\ tu_ratio tu = d_zero) \/
      (tu_ratio tu = d_pow2 k /\ a <= tm0_ tu <= now))).

(** a calibrated clock with a consistent milestone *)
Definition on_time (start now : Z) (te : tickExt) : Prop :=
  valid_tick_ te = true /\ delta_ratio_ te = d_pow2 k /\
  mile_stone_tick_ te = ticks (mile_stone_tm64_ te) /\ in_range (mile_stone_tm64_ te) /\
  start <= now /\ mile_stone_tm64_ te <= now /\ updating start now (tu_ te).

Lemma on_time_getTick start now te u :
  on_time start now te -> in_range u -> now <= u -> getTick (ticks u) te = Ret u.
Proof.
  intros (Hv & Hr & Ht & Hm & _ & Hn & _) Hu Hnu.
  rewrite (getTick_at te (mile_stone_tm64_ te) (mile_stone_tm64_ te)); try done; [f_equal; lia|lia|apply Hm].
Qed.

(** the first interval has elapsed: the updater has measured the ratio *)
Lemma first_update a u tu :
  stat_ tu = stage_tick1 -> tick0_ tu = ticks a -> tm0_ tu = a -> tu_ratio tu = d_zero ->
  in_range a -> in_range u -> a <= u -> is_ellapsed (ticks u) tu = true ->
  a < u /\ update u (ticks u) (ticks u) tu = (true, mk_tu (ticks a) (ticks u) a u (d_pow2 k) stage_finish).
Proof.
  intros Hs Ht Hm Hr Ha Hu Hau He. assert (Hlt : a < u).
  { unfold is_ellapsed in He. rewrite Hr, Ht in He. cbn [d_gt d_zero SFltb SFcompare] in He.
    destruct (ticks_diff a u Ha Hu Hau) as [E _]. rewrite E in He. apply Z.ltb_lt in He.
    pose proof pow_k_pos. nia. }
  split; [done|]. unfold update. rewrite Hs, He, Ht, Hm. by rewrite (ratio_exact a u) by done.
Qed.

(** one call of [updateTick], while the counter is younger than the time *)
Lemma on_time_step start now te u :
  on_time start now te -> in_range u -> now <= u -> u - boot <= start + 1000 ->
  on_time start u (updateTick u (ticks u) (ticks u) te).
Proof.
  intros (Hv & Hr & Ht & Hm & Hsn & Hn & Hu) Hin Hnu Hage. unfold updateTick.
  destruct Hu as [[Hs0 H0]|[Hst (a & Ha & Hra & Han & Hc)]].
  { unfold update. rewrite decide_True by done. split_and!; cbn; try done; [lia..|].
    right. split; [by left|]. exists u. cbn. split_and!; try done; [lia|by left]. }
  assert (Hkeep : forall st, st = stage_tick0 \/ st = stage_tick1 ->
    on_time start u (mk_te (mile_stone_tick_ te) (mile_stone_tm64_ te) (delta_ratio_ te) (valid_tick_ te)
      (mk_tu (tick0_ (tu_ te)) (tick1_ (tu_ te)) (tm0_ (tu_ te)) (tm1_ (tu_ te)) (tu_ratio (tu_ te)) st))).
  { intros st H. split_and!; cbn; try done; [lia..|]. right. split; [done|]. exists a. cbn.
    split_and!; try done; [lia..|]. destruct Hc as [?|[? ?]]; [by left|right]. split; [done|lia]. }
  destruct Hst as [Hst|Hst]; [unfold update; rewrite Hst; apply Hkeep; by right|].
  destruct (is_ellapsed (ticks u) (tu_ te)) eqn:He.
  - destruct Hc as [[Hm0 H0]|[H0 Htm]].
    + destruct (first_update a u (tu_ te)) as [Hlt ->]; try done; [lia|]. cbn.
      split_and!; cbn; try done; [lia..|]. right. split; [by left|]. exists a. cbn.
      split_and!; try done; [lia..|]. right. split; [done|lia].
    + rewrite is_ellapsed_ratio in He by (try done; destruct Hin, Hra; lia). apply Z.ltb_lt in He. lia.
  - unfold update. rewrite Hst, He. cbn. destruct (tu_ te) as [? ? ? ? ? st]. cbn in *. subst st. apply Hkeep. by right.
Qed.

Lemma on_time_run start now te us u :
  on_time start now te -> StronglySorted Z.le (now :: us ++ [u]) -> Forall in_range us ->
  Forall (fun w => w - boot <= start + 1000) us ->
  exists now', now' <= u /\ on_time start now' (updateTicks (at_time <$> us) te).
Proof.
  revert now te. induction us as [|v us IH]; intros now te Hte Hs Hr Hage.
  - apply StronglySorted_inv in Hs as [_ Hs]. apply Forall_cons in Hs as [Hs _]. by exists now.
  - apply StronglySorted_inv in Hs as [Hs Hn]. apply Forall_cons in Hn as [Hn _].
    apply Forall_cons in Hr as [Hv Hr]. apply Forall_cons in Hage as [Ha Hage].
    apply (IH v (updateTick v (ticks v) (ticks v) te)); try done. by apply on_time_step with now.
Qed.

Lemma ticks_inj u v : ticks u = ticks v -> u = v.
Proof. intros. pose proof pow_k_pos. unfold ticks in *. nia. Qed.

(** the clock of the receiving thread, begun at [start] and ended at [v] *)
Definition calibrated (start v : Z) : tickExt :=
  (clock_init (start, ticks start) (start, ticks start) (v, ticks v)).2.
Lemma clock_init_calibrated created start v :
  (clock_init created (start, ticks start) (v, ticks v)).2 = calibrated start v.
Proof. done. Qed.

Lemma calibrated_on_time start v :
  in_range start -> in_range v -> start + 10 <= v -> 1000 <= (v - start) * 2 ^ Z.of_nat k ->
  on_time start v (calibrated start v).
Proof.
  intros Hs Hv Hsv Hk. destruct (ticks_diff start v Hs Hv ltac:(lia)) as [E _].
  pose proof (ticks_mono start v ltac:(lia)). unfold calibrated, clock_init, endInitTick. cbn [fst snd tickExt_new beginInitTick mile_stone_tick_ mile_stone_tm64_].
  rewrite (proj2 (Z.ltb_ge v start)) by lia. rewrite (proj2 (Z.ltb_ge (ticks v) (ticks start))) by lia.
  cbn [orb]. rewrite (ratio_exact start v) by (done || lia). rewrite (time_diff start v), E by (done || lia).
  rewrite (proj2 (Z.ltb_ge (v - start) 10)) by lia. rewrite (proj2 (Z.ltb_ge _ 1000)) by lia.
  cbn. split_and!; cbn; try done; [lia..|]. by left.
Qed.

Lemma calibrated_fields start v :
  tu_ (calibrated start v) = tickUpdate_new /\ mile_stone_tick_ (calibrated start v) = ticks start /\
  mile_stone_tm64_ (calibrated start v) = start.
Proof. unfold calibrated, clock_init, endInitTick. by repeat case_match; simplify_eq. Qed.

(** the first two calls open the first interval, at the instant of the first *)
Lemma interval_open start v a a' :
  tu_ (updateTicks (at_time <$> [a; a']) (calibrated start v)) = mk_tu (ticks a) (ticks a) a a d_zero stage_tick1.
Proof.
  pose proof (calibrated_fields start v) as [E _]. destruct (calibrated start v). cbn in E. by subst.
Qed.

Lemma updateTicks_app r1 r2 te : updateTicks (r1 ++ r2) te = updateTicks r2 (updateTicks r1 te).
Proof. apply fold_left_app. Qed.

Lemma updateTick_ratio us t1 t2 te :
  delta_ratio_ (updateTick us t1 t2 te) = delta_ratio_ te /\ valid_tick_ (updateTick us t1 t2 te) = valid_tick_ te.
Proof. unfold updateTick. by destruct (update us t1 t2 (tu_ te)) as [[] ?]. Qed.

Lemma updateTicks_ratio rs te :
  delta_ratio_ (updateTicks rs te) = delta_ratio_ te /\ valid_tick_ (updateTicks rs te) = valid_tick_ te.
Proof.
  revert te. induction rs as [|[[us t1] t2] rs IH]; intros te; [done|].
  cbn [updateTicks fold_left fst snd]. fold (updateTicks rs (updateTick us t1 t2 te)).
  destruct (IH (updateTick us t1 t2 te)) as [-> ->]. apply updateTick_ratio.
Qed.

(** the milestone moves at most once, to the instant of the first call *)
Lemma milestone_once start v us now :
  on_time start now (updateTicks (at_time <$> us) (calibrated start v)) ->
  mile_stone_tm64_ (updateTicks (at_time <$> us) (calibrated start v)) = start \/
  head us = Some (mile_stone_tm64_ (updateTicks (at_time <$> us) (calibrated start v))).
Proof.
  destruct (calibrated_fields start v) as (Htu & Ht & Hm).
  destruct us as [|h us]; [by left|]. intros (_ & _ & Hc & _).
  change (updateTicks (at_time <$> h :: us) (calibrated start v))
    with (updateTicks (at_time <$> us) (updateTick h (ticks h) (ticks h) (calibrated start v))) in *.
  set (te1 := updateTick h (ticks h) (ticks h) (calibrated start v)) in *.
  assert (E1 : te1 = mk_te (ticks start) start (delta_ratio_ (calibrated start v)) (valid_tick_ (calibrated start v))
    (mk_tu (ticks h) (ticks h) h h d_zero stage_tick0)) by (subst te1; unfold updateTick; by rewrite Htu, Ht, Hm).
  destruct (updateTicks_spec (at_time <$> us) te1) as (_ & _ & _ & [[Et _]|[Et _]]); [left; by rewrite E1| |];
    rewrite Et in Hc; [replace (mile_stone_tick_ te1) with (ticks start) in Hc by (by rewrite E1)
                      |replace (tick0_ (tu_ te1)) with (ticks h) in Hc by (by rewrite E1)];
    apply ticks_inj in Hc; rewrite <- Hc; [by left|by right].
Qed.

(** a second interval found elapsed moves the time of the milestone and not its tick *)
Lemma jump_from te a u1 u2 u3 :
  tu_ te = mk_tu (ticks a) (ticks a) a a d_zero stage_tick1 ->
  in_range a -> in_range u1 -> in_range u3 -> a <= u1 ->
  100000000 < (u1 - a) * 2 ^ Z.of_nat k -> 1000 < (u3 - boot) - u1 ->
  let te3 := updateTicks (at_time <$> [u1; u2; u3]) te in
  mile_stone_tick_ te3 = ticks a /\ mile_stone_tm64_ te3 = u1.
Proof.
  intros Htu Ha H1 H3 Hau He1 He3. cbv zeta.
  change (updateTicks (at_time <$> [u1; u2; u3]) te)
    with (updateTick u3 (ticks u3) (ticks u3) (updateTicks [at_time u1; at_time u2] te)).
  assert (He : is_ellapsed (ticks u1) (tu_ te) = true).
  { rewrite Htu. unfold is_ellapsed. cbn [d_gt tu_ratio d_zero SFltb SFcompare tick0_].
    destruct (ticks_diff a u1 Ha H1 Hau) as [-> _]. apply Z.ltb_lt. lia. }
  destruct (first_update a u1 (tu_ te)) as [Hlt E]; try (by rewrite Htu); try done.
  assert (E2 : tu_ (updateTicks [at_time u1; at_time u2] te) = mk_tu (ticks a) (ticks a) u1 u1 (d_pow2 k) stage_tick1).
  { cbn [updateTicks fold_left at_time fst snd]. unfold updateTick at 2. by rewrite E. }
  rewrite <- (f_equal tick0_ Htu : tick0_ (tu_ te) = ticks a). apply (second_update u1 (ticks u1) (ticks u1) (at_time u2)); [by rewrite Htu|done|].
  change (is_ellapsed (ticks u3) (tu_ (updateTicks [at_time u1; at_time u2] te)) = true). rewrite E2. rewrite is_ellapsed_ratio; [apply Z.ltb_lt; done|done|done|].
  cbn. destruct H1. lia.
Qed.

Lemma clock_jump start v a a' u1 u2 u3 u :
  in_range start -> in_range v -> start + 10 <= v -> 1000 <= (v - start) * 2 ^ Z.of_nat k ->
  Forall in_range [a; u1; u3; u] -> a <= u1 -> a <= u ->
  100000000 < (u1 - a) * 2 ^ Z.of_nat k -> 1000 < (u3 - boot) - u1 ->
  getTick (ticks u) (updateTicks (at_time <$> [a; a'; u1; u2; u3]) (calibrated start v)) = Ret (u + (u1 - a)).
Proof.
  intros Hs Hv Hsv Hk Hr Hau Hu H1 H3. rewrite !Forall_cons in Hr. destruct Hr as (Ra & R1 & R3 & R & _).
  destruct (calibrated_on_time start v Hs Hv Hsv Hk) as (Hval & Hrat & _).
  destruct (jump_from _ a u1 u2 u3 (interval_open start v a a')) as [Ht Hm]; try done.
  change (at_time <$> [a; a'; u1; u2; u3]) with ((at_time <$> [a; a']) ++ (at_time <$> [u1; u2; u3])).
  rewrite updateTicks_app.
  destruct (updateTicks_ratio (at_time <$> [u1; u2; u3]) (updateTicks (at_time <$> [a; a']) (calibrated start v))) as [Er Ev].
  destruct (updateTicks_ratio (at_time <$> [a; a']) (calibrated start v)) as [Er' Ev'].
  rewrite (getTick_at _ a u1 u); try congruence; [f_equal; lia|by destruct R1].
Qed.
End Ideal.

(** C40. The time stamps of the agent on an ideal counter of [2 ^ k] ticks per
    microsecond. Once [tickExt] is created at [start] and calibrated at [v],
    [getTick] is exact: whatever calls of [updateTick] come before it, at the
    time [u] it returns [u], to the microsecond and through all the [double]
    arithmetic, as long as the counter is younger than the time ([w - boot]
    at most [start + 1000] at every call, as on every machine whose date is set).
    There the milestone moves at most once, to the instant of the first call:
    [is_ellapsed] compares the age of the counter with the date, and never holds
    again. When the counter is older than the date, a second interval is found
    elapsed and the result is wrong: the milestone has the tick of [a] with the
    time [u1], and every time stamp is ahead by [u1 - a]. *)
Theorem clock_keeps_time (k : nat) (boot start v : Z) :
  in_range k boot start -> in_range k boot v -> start + 10 <= v -> 1000 <= (v - start) * 2 ^ Z.of_nat k ->
  (forall us u,
     StronglySorted Z.le (v :: us ++ [u]) -> Forall (in_range k boot) (us ++ [u]) ->
     Forall (fun w => w - boot <= start + 1000) us ->
     let te := updateTicks (at_time k boot <$> us) (calibrated k boot start v) in
     getTick (ticks k boot u) te = Ret u /\
     (mile_stone_tm64_ te = start \/ head us = Some (mile_stone_tm64_ te))) /\
  (forall a a' u1 u2 u3 u,
     Forall (in_range k boot) [a; u1; u3; u] -> a <= u1 -> a <= u ->
     100000000 < (u1 - a) * 2 ^ Z.of_nat k -> 1000 < (u3 - boot) - u1 ->
     getTick (ticks k boot u) (updateTicks (at_time k boot <$> [a; a'; u1; u2; u3]) (calibrated k boot start v)) =
       Ret (u + (u1 - a))).
Proof.
  intros Hs Hv Hsv Hk. split.
  - intros us u Hsort Hr Hage te. apply Forall_app in Hr as [Hr Hu]. apply Forall_cons in Hu as [Hu _].
    destruct (on_time_run k boot start v (calibrated k boot start v) us u) as (now & Hn & Ht); try done.
    { by apply calibrated_on_time. }
    split; [exact (on_time_getTick k boot _ now _ u Ht Hu Hn)|exact (milestone_once k boot start v us now Ht)].
  - intros. by apply clock_jump.
Qed.

(** a counter of 2048 ticks per microsecond, started ten days before the date of
    its first reading, and one that started with the date itself *)
Definition set_date : Z := 1699136000000000.
Lemma clock_keeps_time_witness :
  getTick (ticks 11 set_date 1700000003500007) (updateTicks
    (at_time 11 set_date <$> [1700000001000100; 1700000001000200; 1700000002000000; 1700000003000001; 1700000003500000])
    (calibrated 11 set_date 1700000000000000 1700000001000000)) = Ret 1700000003500007 /\
  getTick (ticks 11 0 5000000) (updateTicks (at_time 11 0 <$> [2100000; 2100000; 2200000; 2300000; 2400000])
    (calibrated 11 0 1000000 2000000)) = Ret 5100000.
Proof.
  split.
  - destruct (clock_keeps_time 11 set_date 1700000000000000 1700000001000000) as [H _];
      [by vm_compute..|]. apply (H [_; _; _; _; _]); by repeat constructor.
  - destruct (clock_keeps_time 11 0 1000000 2000000) as [_ H]; [by vm_compute..|].
    apply (H 2100000 2100000 2200000 2300000 2400000 5000000); by repeat constructor.
Defined.
