(* ===== verification/AsioRun.v ===== *)
(** * AsioRun
    One [io_context::run()] with one socket operation and one deadline timer:
    the pattern of [CanImpCanNet::connect], [write_line] and [VCI_Receive].

    Boost.Asio is not part of the repository. What the source relies on is the
    documented contract of its completion handlers, kept here as a
    nondeterministic environment: an operation in progress may transfer data
    and complete at any time with any error code (an [int]); a timer may expire at any
    time; [cancel] makes a pending operation complete with
    [operation_aborted] and has no effect on one whose handler is already
    queued; handlers run one at a time inside [run()], which returns when
    nothing is outstanding. The handlers themselves are the source's lambdas
    and are parameters of this file. Safety is proved for every such environment;
    progress is proved with the peer and the network silent, from the deadline
    timer alone ([own_event]). *)

From Stdlib Require Import ZArith Lia.
From stdpp Require Import base numbers list option strings.
From S2P Require Import Prelude.

(** What a handler asks of the I/O objects. *)
Inductive action : Set := CancelTimer | CancelSocket | StartOp.

Inductive op_state : Set := OIdle | OPending | OReady (e : Z).
Inductive tm_state : Set := TIdle | TPending | TReady (e : Z).

#[export] Instance is_i32_dec z : Decision (is_i32 z).
Proof. unfold is_i32. apply _. Defined.
#[export] Instance op_state_eq_dec : EqDecision op_state.
Proof. solve_decision. Defined.
#[export] Instance tm_state_eq_dec : EqDecision tm_state.
Proof. solve_decision. Defined.

(** What happens next: data moves, the operation or the timer becomes ready, or
    [run()] invokes a ready handler. *)
Inductive event (P : Type) : Type :=
| EvTransfer (p : P)
| EvComplete (e : Z)
| EvExpire
| EvRunOp
| EvRunTm.
Arguments EvTransfer {P} p.
Arguments EvComplete {P} e.
Arguments EvExpire {P}.
Arguments EvRunOp {P}.
Arguments EvRunTm {P}.

Record io (U : Type) := mk_io { op : op_state; tm : tm_state; user : U }.
Arguments mk_io {U} op tm user.
Arguments op {U} i.
Arguments tm {U} i.
Arguments user {U} i.

Section machine.
Context {U P : Type}.
(** the value of [boost::asio::error::operation_aborted] *)
Variable aborted : Z.
(** effect of a data transfer on the user state; [None] when impossible *)
Variable deliver : P -> U -> option U.
(** whether the operation can complete without error now *)
Variable can_succeed : U -> bool.
(** the completion handlers *)
Variable on_op : Z -> U -> outcome (U * list action).
Variable on_tm : Z -> U -> outcome (U * list action).

Definition do_action (a : action) (i : io U) : io U :=
  match a with
  | CancelTimer =>
      match tm i with TPending => mk_io (op i) (TReady aborted) (user i) | _ => i end
  | CancelSocket =>
      match op i with OPending => mk_io (OReady aborted) (tm i) (user i) | _ => i end
  | StartOp => mk_io OPending (tm i) (user i)
  end.
Definition do_actions (acts : list action) (i : io U) : io U :=
  fold_left (fun i a => do_action a i) acts i.

Definition step (ev : event P) (i : io U) : outcome (io U) :=
  match ev with
  | EvTransfer p =>
      match op i, deliver p (user i) with
      | OPending, Some u => Ret (mk_io OPending (tm i) u)
      | _, _ => Blocked
      end
  | EvComplete e =>
      match op i with
      | OPending =>
          if ((e =? 0) && negb (can_succeed (user i))) || negb (bool_decide (is_i32 e))
          then Blocked else Ret (mk_io (OReady e) (tm i) (user i))
      | _ => Blocked
      end
  | EvExpire =>
      match tm i with
      | TPending => Ret (mk_io (op i) (TReady 0) (user i))
      | _ => Blocked
      end
  | EvRunOp =>
      match op i with
      | OReady e =>
          '(u, acts) ← on_op e (user i);
          Ret (do_actions acts (mk_io OIdle (tm i) u))
      | _ => Blocked
      end
  | EvRunTm =>
      match tm i with
      | TReady e =>
          '(u, acts) ← on_tm e (user i);
          Ret (do_actions acts (mk_io (op i) TIdle u))
      | _ => Blocked
      end
  end.

Fixpoint run (sched : list (event P)) (i : io U) : outcome (io U) :=
  match sched with
  | [] => Ret i
  | ev :: rest => i' ← step ev i; run rest i'
  end.

Definition finished (i : io U) : bool :=
  match op i, tm i with OIdle, TIdle => true | _, _ => false end.

(** [io_context::run()] started with the operation and the timer pending. *)
Definition io_run (sched : list (event P)) (i : io U) : outcome U :=
  i' ← run sched i;
  if finished i' then Ret (user i') else Blocked.

Lemma run_app s1 s2 i : run (s1 ++ s2) i = (i' ← run s1 i; run s2 i').
Proof.
  revert i. induction s1 as [|ev s1 IH]; intros i; [done|]. cbn [app run].
  destruct (step ev i); try done. cbn [mbind outcome_bind]. apply IH.
Qed.

(** Rule induction over a run: an invariant of every step holds at its end. *)
Lemma run_invariant (I : io U -> Prop) :
  (forall ev i i', I i -> step ev i = Ret i' -> I i') ->
  forall sched i i', I i -> run sched i = Ret i' -> I i'.
Proof.
  intros Hstep sched. induction sched as [|ev sched IH]; intros i i' Hi Hrun.
  - by injection Hrun as <-.
  - cbn [run] in Hrun. apply bind_Ret_inv in Hrun as (j & Hj & Hrun). eauto.
Qed.

(** the same with the trace of events so far *)
Lemma run_trace_invariant (I : list (event P) -> io U -> Prop) :
  (forall tr ev i i', I tr i -> step ev i = Ret i' -> I (tr ++ [ev]) i') ->
  forall sched tr i i', I tr i -> run sched i = Ret i' -> I (tr ++ sched) i'.
Proof.
  intros Hstep sched. induction sched as [|ev sched IH]; intros tr i i' Hi Hrun.
  - injection Hrun as <-. by rewrite app_nil_r.
  - cbn [run] in Hrun. apply bind_Ret_inv in Hrun as (j & Hj & Hrun).
    change (ev :: sched) with ([ev] ++ sched). rewrite app_assoc. eauto.
Qed.

Lemma user_do_actions acts i : user (do_actions acts i) = user i.
Proof.
  revert i. induction acts as [|a acts IH]; intros i; [done|]. simpl.
  unfold do_actions in *. simpl. rewrite IH. destruct a; simpl; try done.
  - by destruct (tm i).
  - by destruct (op i).
Qed.

Lemma io_run_inv sched i u :
  io_run sched i = Ret u -> run sched i = Ret (mk_io OIdle TIdle u).
Proof.
  unfold io_run. intros (i' & -> & H)%bind_Ret_inv.
  destruct i' as [[] [] u']; simpl in H; try done. by injection H as ->.
Qed.

(** An invariant of the machine holds of the user state [run()] leaves. *)
Lemma io_run_invariant (I : io U -> Prop) sched i u :
  (forall ev i i', I i -> step ev i = Ret i' -> I i') ->
  I i -> io_run sched i = Ret u -> I (mk_io OIdle TIdle u).
Proof. intros Hs Hi Hr%io_run_inv. by eapply run_invariant. Qed.

(** Handlers that are defined on every state make the whole run defined. *)
Lemma io_run_defined sched i :
  (forall e u, is_UB (on_op e u) = false) -> (forall e u, is_UB (on_tm e u) = false) ->
  is_UB (io_run sched i) = false.
Proof.
  intros Hop Htm. unfold io_run. apply bind_defined; [|intros j _; by destruct (finished j)].
  revert i. induction sched as [|ev sched IH]; intros i; [done|]. cbn [run].
  apply bind_defined; [|intros; apply IH].
  destruct ev; cbn [step].
  - destruct (op i); try done. by destruct (deliver _ _).
  - destruct (op i); try done. by destruct (_ || _).
  - by destruct (tm i).
  - destruct (op i); try done. apply bind_defined; [done|]. by intros [].
  - destruct (tm i); try done. apply bind_defined; [done|]. by intros [].
Qed.

(** The same for handlers that are defined wherever a trace invariant holds. *)
Lemma run_trace_defined (I : list (event P) -> io U -> Prop) sched :
  (forall tr ev i i', I tr i -> step ev i = Ret i' -> I (tr ++ [ev]) i') ->
  (forall tr ev later i, tr ++ ev :: later = sched -> I tr i -> is_UB (step ev i) = false) ->
  forall i, I [] i -> is_UB (run sched i) = false.
Proof.
  intros Hstep Hdef.
  assert (Hgen : forall s2 tr i, tr ++ s2 = sched -> I tr i -> is_UB (run s2 i) = false).
  { intros s2. induction s2 as [|ev s2 IH]; intros tr i Hs Hi; [done|]. cbn [run].
    apply bind_defined; [by eapply Hdef|]. intros j Hj. apply (IH (tr ++ [ev])); [|by eapply Hstep].
    by rewrite <- app_assoc. }
  intros i Hi. by apply (Hgen sched []).
Qed.

(** ** Termination
    When no handler starts another operation, every event but a transfer
    moves the operation or the timer towards its end. *)
Definition op_rank (o : op_state) : nat :=
  match o with OIdle => 0 | OReady _ => 1 | OPending => 2 end.
Definition tm_rank (t : tm_state) : nat :=
  match t with TIdle => 0 | TReady _ => 1 | TPending => 2 end.
Definition rank (i : io U) : nat := op_rank (op i) + tm_rank (tm i).
Definition is_transfer (ev : event P) : bool :=
  match ev with EvTransfer _ => true | _ => false end.

Definition no_restart : Prop :=
  (forall e u u' acts, on_op e u = Ret (u', acts) -> StartOp ∉ acts) /\
  (forall e u u' acts, on_tm e u = Ret (u', acts) -> StartOp ∉ acts).

Lemma do_actions_rank acts i : StartOp ∉ acts -> (rank (do_actions acts i) <= rank i)%nat.
Proof.
  revert i. induction acts as [|a acts IH]; intros i Hn; [done|].
  apply not_elem_of_cons in Hn as [Ha Hn]. simpl.
  etransitivity; [by apply IH|]. destruct a; [| |done].
  - unfold rank. simpl. destruct (tm i) eqn:E; simpl; rewrite ?E; simpl; lia.
  - unfold rank. simpl. destruct (op i) eqn:E; simpl; rewrite ?E; simpl; lia.
Qed.

Lemma step_rank ev i i' :
  no_restart -> step ev i = Ret i' ->
  if is_transfer ev then rank i' = rank i else (rank i' < rank i)%nat.
Proof.
  intros [Hop Htm] Hs. destruct ev as [p|e| | |]; simpl in *.
  - destruct (op i) eqn:Ei; try done. destruct (deliver p (user i)); [|done].
    injection Hs as <-. unfold rank. simpl. by rewrite Ei.
  - destruct (op i) eqn:Ei; try done. destruct (_ || _); [done|].
    injection Hs as <-. unfold rank. simpl. rewrite Ei. simpl. lia.
  - destruct (tm i) eqn:Ei; try done. injection Hs as <-. unfold rank.
    simpl. rewrite Ei. simpl. lia.
  - destruct (op i) eqn:Ei; try done.
    apply bind_Ret_inv in Hs as ([u acts] & Hu & [= <-]).
    apply Hop in Hu. eapply Nat.le_lt_trans; [by apply do_actions_rank|].
    unfold rank. simpl. rewrite Ei. simpl. lia.
  - destruct (tm i) eqn:Ei; try done.
    apply bind_Ret_inv in Hs as ([u acts] & Hu & [= <-]).
    apply Htm in Hu. eapply Nat.le_lt_trans; [by apply do_actions_rank|].
    unfold rank. simpl. rewrite Ei. simpl. lia.
Qed.

Definition waits (sched : list (event P)) : nat :=
  length (filter (fun ev => is_transfer ev = false) sched).

(** A measure that every event but a transfer decreases bounds their number. *)
Lemma run_measure (I : io U -> Prop) (mu : io U -> nat) sched i i' :
  (forall ev i i', I i -> step ev i = Ret i' ->
     I i' /\ if is_transfer ev then (mu i' <= mu i)%nat else (mu i' < mu i)%nat) ->
  I i -> run sched i = Ret i' -> (waits sched + mu i' <= mu i)%nat.
Proof.
  intros Hmu. revert i. induction sched as [|ev sched IH]; intros i Hi Hr.
  - injection Hr as <-. done.
  - cbn [run] in Hr. apply bind_Ret_inv in Hr as (j & Hj & Hr).
    apply Hmu in Hj as [HIj Hj]; [|done]. apply IH in Hr; [|done].
    unfold waits in *. rewrite filter_cons.
    case_decide as E; destruct (is_transfer ev); simpl; try done; lia.
Qed.

(** A run takes at most [rank] events that are not transfers: at most four. *)
Lemma run_bound sched i i' :
  no_restart -> run sched i = Ret i' -> (waits sched + rank i' <= rank i)%nat.
Proof.
  intros Hnr. apply (run_measure (fun _ => True)); [|done]. intros ev j j' _ Hs.
  split; [done|]. apply step_rank in Hs; [|done]. destruct (is_transfer ev); lia.
Qed.

(** ** The deadline
    The events that need neither the peer nor the network: the timer expires
    and ready handlers run. *)
Definition own_event (ev : event P) : bool :=
  match ev with EvExpire | EvRunOp | EvRunTm => true | EvTransfer _ | EvComplete _ => false end.

(** A pending operation is watched when its deadline is still to come: the
    timer is armed, or has expired and its handler is queued. *)
Definition watched (i : io U) : Prop :=
  op i = OPending -> tm i = TPending \/ tm i = TReady 0.

(** [run()] never waits for the peer while the pending operation is watched. *)
Lemma watched_progress i :
  (forall e u, on_op e u <> Blocked) -> (forall e u, on_tm e u <> Blocked) ->
  watched i -> finished i = false -> exists ev, own_event ev = true /\ step ev i <> Blocked.
Proof.
  intros Hop Htm Hw Hf. unfold finished in Hf. unfold watched in Hw.
  assert (Hrt : forall e, tm i = TReady e -> step EvRunTm i <> Blocked).
  { intros e Et. simpl. rewrite Et. apply bind_not_Blocked; [done|]. by intros []. }
  destruct (op i) as [| |e] eqn:Eo.
  - destruct (tm i) as [| |e] eqn:Et; [done| |].
    + exists EvExpire. simpl. by rewrite Et.
    + exists EvRunTm. split; [done|]. by eapply Hrt.
  - destruct Hw as [Et|Et]; [done| |].
    + exists EvExpire. simpl. by rewrite Et.
    + exists EvRunTm. split; [done|]. by eapply Hrt.
  - exists EvRunOp. simpl. rewrite Eo. split; [done|].
    apply bind_not_Blocked; [done|]. by intros [].
Qed.

(** Nothing happens to an operation that waits with no deadline. *)
Lemma unwatched_stuck i ev :
  op i = OPending -> tm i = TIdle -> own_event ev = true -> step ev i = Blocked.
Proof. intros Ho Ht. destruct ev; try done; simpl; by rewrite ?Ho, ?Ht. Qed.

(** the handler of the deadline cancels the operation *)
Definition deadline_cancels : Prop :=
  forall u u' acts, on_tm 0 u = Ret (u', acts) -> CancelSocket ∈ acts.

Lemma op_do_actions_idle acts i :
  StartOp ∉ acts -> op i <> OPending -> op (do_actions acts i) = op i.
Proof.
  unfold do_actions. revert i. induction acts as [|a acts IH]; intros i Hn Ho; [done|].
  apply not_elem_of_cons in Hn as [Ha Hn]. simpl.
  assert (Hs : op (do_action a i) = op i).
  { destruct a; simpl; [by destruct (tm i)|destruct (op i) eqn:E; done|done]. }
  rewrite IH; [done|done|by rewrite Hs].
Qed.

Lemma op_do_actions_cancel acts i :
  StartOp ∉ acts -> CancelSocket ∈ acts -> op (do_actions acts i) <> OPending.
Proof.
  unfold do_actions. revert i. induction acts as [|a acts IH]; intros i Hn Hc; [by apply elem_of_nil in Hc|].
  apply not_elem_of_cons in Hn as [Ha Hn]. simpl. apply elem_of_cons in Hc as [<-|Hc]; [|by apply IH].
  assert (Hs : op (do_action CancelSocket i) <> OPending).
  { simpl. destruct (op i) eqn:E; simpl; rewrite ?E; done. }
  fold (do_actions acts (do_action CancelSocket i)). by rewrite op_do_actions_idle.
Qed.

(** Handlers that start nothing and whose deadline cancels keep it watched. *)
Lemma step_watched ev i i' :
  no_restart -> deadline_cancels -> watched i -> step ev i = Ret i' -> watched i'.
Proof.
  intros [Hop Htm] Hd Hw Hs. unfold watched in *. destruct ev as [p|e| | |]; cbn [step] in Hs.
  - destruct (op i) eqn:Ei; try done. destruct (deliver p (user i)); [|done]. by injection Hs as <-.
  - destruct (op i) eqn:Ei; try done. destruct (_ || _); [done|]. by injection Hs as <-.
  - destruct (tm i) eqn:Ei; try done. injection Hs as <-. by right.
  - destruct (op i) eqn:Ei; try done. apply bind_Ret_inv in Hs as ([u acts] & Hu & [= <-]).
    apply Hop in Hu. by rewrite op_do_actions_idle.
  - destruct (tm i) as [| |e] eqn:Ei; try done. apply bind_Ret_inv in Hs as ([u acts] & Hu & [= <-]).
    pose proof (Htm _ _ _ _ Hu) as Hn. destruct (decide (op i = OPending)) as [Ep|Ep].
    + destruct (Hw Ep) as [|[= ->]]; [done|]. apply Hd in Hu. intros Hp.
      by apply op_do_actions_cancel in Hp.
    + by rewrite op_do_actions_idle.
Qed.

Lemma run_watched sched i i' :
  no_restart -> deadline_cancels -> watched i -> run sched i = Ret i' -> watched i'.
Proof. intros Hn Hd Hw. eapply run_invariant; [|done]. intros ev j j'. by apply step_watched. Qed.
End machine.
