(* ===== verification/Ini.v ===== *)
(** * Ini
    The INI reader and writer of [libControlCAN/inc/ini.h] ([Ini<>], all type
    parameters [std::string]). [control_can.ini] configures the network client
    and [kerneldll.ini] the direct back ends through it.

    [sections] maps a name to a heap object that [current] may alias, so the
    objects live in a store. A [current] that the constructor leaves
    uninitialised is kept apart from the null pointer of [clean]. *)

From Stdlib Require Import ZArith Lia.
From Stdlib Require Import Strings.Byte.
From stdpp Require Import base numbers list option gmap strings.
From S2P Require Import Prelude.

Abbreviation keys_t := (gmap (list byte) (list byte)).

Inductive cur : Set := CIndet | CNull | CPtr (p : N).

Record ini := mk_ini {
  objs : gmap N (gmap (list byte) (list byte));
  sections : gmap (list byte) N;
  current : cur;
  next_obj : N;
}.

(** [Ini(filename, false)]: no member but the file name is initialised. *)
Definition ini_new : ini := mk_ini ∅ ∅ CIndet 0.

(** [new keys_t] *)
Definition new_keys (ks : gmap (list byte) (list byte)) (st : ini) : N * ini :=
  (next_obj st,
   mk_ini (<[next_obj st := ks]> (objs st)) (sections st) (current st) (N.succ (next_obj st))).
Definition set_section (s : list byte) (p : N) (st : ini) : ini :=
  mk_ini (objs st) (<[s := p]> (sections st)) (current st) (next_obj st).
Definition set_current (c : cur) (st : ini) : ini :=
  mk_ini (objs st) (sections st) c (next_obj st).
Definition set_obj (p : N) (ks : gmap (list byte) (list byte)) (st : ini) : ini :=
  mk_ini (<[p := ks]> (objs st)) (sections st) (current st) (next_obj st).

(** [*current] *)
Definition deref_current (st : ini) : outcome (N * gmap (list byte) (list byte)) :=
  match current st with
  | CPtr p => ks ← deref "current" (objs st !! p); Ret (p, ks)
  | CNull => UB "null current"
  | CIndet => UB "indeterminate current"
  end.

(** ** Access *)

(** [operator[](section)]: the object, created when missing *)
Definition index (s : list byte) (st : ini) : N * ini :=
  match sections st !! s with
  | Some p => (p, st)
  | None => let '(p, st') := new_keys ∅ st in (p, set_section s p st')
  end.
(** [ini[section][key]]: [unordered_map::operator[]] inserts an empty value *)
Definition index2 (s k : list byte) (st : ini) : outcome (list byte * ini) :=
  let '(p, st') := index s st in
  ks ← deref "section object" (objs st' !! p);
  match ks !! k with
  | Some v => Ret (v, st')
  | None => Ret ([], set_obj p (<[k := []]> ks) st')
  end.

Definition select (s : list byte) (st : ini) : bool * ini :=
  match sections st !! s with
  | Some p => (true, set_current (CPtr p) st)
  | None => (false, st)
  end.

Definition create (s : list byte) (st : ini) : bool * ini :=
  match select s st with
  | (true, st') => (false, st')
  | (false, _) =>
      let '(p, st') := new_keys ∅ st in
      (true, set_section s p (set_current (CPtr p) st'))
  end.

Definition set (k v : list byte) (st : ini) : outcome (bool * ini) :=
  match current st with
  | CNull => Ret (false, st)
  | CIndet => UB "indeterminate current"
  | CPtr p =>
      ks ← deref "current" (objs st !! p);
      Ret (true, set_obj p (<[k := v]> ks) st)
  end.

(** [get(key, def)] dereferences [current] before it tests it. *)
Definition get (k def : list byte) (st : ini) : outcome (list byte) :=
  '(_, ks) ← deref_current st;
  Ret (default def (ks !! k)).

(** [get(section, key, def)]; [select] moves [current] as a side effect *)
Definition get3 (s k def : list byte) (st : ini) : outcome (list byte * ini) :=
  match select s st with
  | (false, st') => Ret (def, st')
  | (true, st') => v ← get k def st'; Ret (v, st')
  end.

(** ** Reading *)

(** [isspace] in the "C" locale *)
Definition isspace (b : byte) : bool :=
  let z := byte_Z b in ((9 <=? z) && (z <=? 13)) || (z =? 32).

Record istream := mk_is { rest : list byte; eofbit : bool; failbit : bool }.

Inductive scan_end : Set := AtEof | AtDelim | AtFull.

(** [istream::getline(line, 256)]: at most [k] characters are stored; end of
    file and the delimiter are looked for before the limit. *)
Fixpoint scan (k : nat) (r : list byte) {struct r} : list byte * list byte * scan_end :=
  match r with
  | [] => ([], [], AtEof)
  | c :: r' =>
      if decide (c = LF) then ([], r', AtDelim)
      else match k with
           | O => ([], r, AtFull)
           | S k' => let '(l, r'', e) := scan k' r' in (c :: l, r'', e)
           end
  end.
Definition getline (f : istream) : list byte * istream :=
  if eofbit f || failbit f then ([], mk_is (rest f) (eofbit f) true)
  else match scan 255 (rest f) with
       | (l, r, AtEof) => (l, mk_is r true (bool_decide (l = [])))
       | (l, r, AtDelim) => (l, mk_is r false false)
       | (l, r, AtFull) => (l, mk_is r false true)
       end.

(** [while (isspace(line[length + 1])) --length]; [i] is [length + 1] *)
Fixpoint skip_back (line : list byte) (i : nat) : nat :=
  match i with
  | O => 0
  | S j => if isspace (default NUL (line !! i)) then skip_back line j else i
  end.

(** section header: the text between the first and the last non-blank
    character, whatever that last character is; with nothing after the
    bracket, [length] wraps to [SIZE_MAX] and [strncpy] overruns. *)
Definition section_name (line : list byte) : outcome (list byte) :=
  match skip_back line (length line - 1) with
  | O => UB "strncpy with a wrapped length"
  | S length => Ret (take length (drop 1 line))
  end.
Definition parse_section (line : list byte) (st : ini) : outcome ini :=
  section ← section_name line;
  let '(p, st1) := new_keys ∅ st in
  Ret (set_section section p (set_current (CPtr p) st1)).

(** [strtok(s, d)] with a one-character delimiter: the token and what follows
    its delimiter; [None] is the null pointer. *)
Fixpoint skip_delim (d : byte) (s : list byte) : list byte :=
  match s with
  | c :: r => if decide (c = d) then skip_delim d r else s
  | [] => []
  end.
Fixpoint break_delim (d : byte) (s : list byte) : list byte * list byte :=
  match s with
  | [] => ([], [])
  | c :: r =>
      if decide (c = d) then ([], r)
      else let '(t, r') := break_delim d r in (c :: t, r')
  end.
Definition strtok (d : byte) (s : list byte) : option (list byte * list byte) :=
  match skip_delim d s with
  | [] => None
  | t => Some (break_delim d t)
  end.

(** leading white space of [skey] *)
Fixpoint lead_space (s : list byte) : nat :=
  match s with
  | c :: r => if isspace c then S (lead_space r) else 0
  | [] => 0
  end.
(** [strncpy(skey, skey + index, skey_len - index)]: undefined when the two
    ranges overlap; otherwise it copies without a terminator, so the tail of
    the old key stays. *)
Definition key_name (skey : list byte) : outcome (list byte) :=
  let index := lead_space skey in
  let n := (length skey - index)%nat in
  if decide (index = 0%nat) then Ret skey
  else if decide (index < n)%nat then UB "strncpy of overlapping ranges"
  else Ret (take n (drop index skey) ++ drop n skey).

Definition parse_key (line : list byte) (st : ini) : outcome ini :=
  match strtok x3d line with
  | None => UB "length of a null key"
  | Some (skey, tl) =>
      match strtok LF tl with
      | None => Ret st
      | Some (svalue, _) =>
          key ← key_name skey;
          if decide (svalue = []) then Ret st
          else '(p, ks) ← deref_current st;
               Ret (set_obj p (<[key := svalue]> ks) st)
      end
  end.

Definition is_comment (line : list byte) : bool :=
  bool_decide (take 2 line = [x2f; x2f]) || bool_decide (take 1 line = [x23]).
#[global] Arguments is_comment _ : simpl never.

(** one iteration of [parse(std::istream&)] after the first-line test; [line]
    is the C string in the buffer *)
Definition parse_line (line : list byte) (st : ini) : outcome ini :=
  match line with
  | [] => Ret st
  | c :: _ =>
      if is_comment line then Ret st
      else if decide (c = x5b) then parse_section line st
      else parse_key line st
  end.

(** [line[0] == 0xEF] compares a [char]: never true where [char] is signed *)
Definition bom_test (char_signed : bool) (line : list byte) : bool :=
  match line with
  | c :: _ => negb char_signed && (byte_Z c =? 0xEF)
  | [] => false
  end.

(** [while (!file.eof()) ...]; [Blocked] when the fuel runs out *)
Fixpoint parse_loop (char_signed : bool) (fuel : nat) (first : bool) (f : istream) (st : ini)
    : outcome ini :=
  match fuel with
  | O => Blocked
  | S fuel' =>
      if eofbit f then Ret st
      else
        let '(buf, f') := getline f in
        let line := cstr buf in
        if first && bom_test char_signed line then Ret st
        else st' ← parse_line line st; parse_loop char_signed fuel' false f' st'
  end.

(** [Ini(filename, true)]: [None] is a file that cannot be opened. Every
    iteration that goes on consumes a byte or meets the end of the file. *)
Definition parse_fuel (text : list byte) : nat := S (S (length text)).
Definition ini_parse (char_signed : bool) (content : option (list byte)) : outcome ini :=
  match content with
  | None => Ret ini_new
  | Some text => parse_loop char_signed (parse_fuel text) true (mk_is text false false) ini_new
  end.

(** ** Writing *)

Definition make_section (s : list byte) : list byte := [x5b] ++ s ++ [x5d; LF].
Definition make_key_value (k v : list byte) : list byte := k ++ [x3d] ++ v ++ [LF].

(** [save]: the hash map's iteration order is given by the lists. Sections
    without keys are skipped; each line is written up to its first NUL. *)
Definition kvs_text (kvs : list (list byte * list byte)) : list byte :=
  kvs ≫= fun kv => cstr (make_key_value kv.1 kv.2).
#[global] Arguments kvs_text _ : simpl never.
Definition save_section (sec : list byte * list (list byte * list byte)) : list byte :=
  match sec.2 with
  | [] => []
  | kvs => cstr (make_section sec.1) ++ kvs_text kvs
  end.
Definition save (secs : list (list byte * list (list byte * list byte))) : list byte :=
  secs ≫= save_section.

(** [merge(other, retainValues)] over [other]'s sections in iteration order *)
Definition merge_key (retainValues : bool) (p : N) (kv : list byte * list byte) (st : ini)
    : outcome ini :=
  ks ← deref "current" (objs st !! p);
  match ks !! kv.1 with
  | None => Ret (set_obj p (<[kv.1 := kv.2]> ks) st)
  | Some _ => if retainValues then Ret st else Ret (set_obj p (<[kv.1 := kv.2]> ks) st)
  end.
Fixpoint merge_keys (retainValues : bool) (p : N) (kvs : list (list byte * list byte)) (st : ini)
    : outcome ini :=
  match kvs with
  | [] => Ret st
  | kv :: kvs => st' ← merge_key retainValues p kv st; merge_keys retainValues p kvs st'
  end.
Fixpoint merge (other : list (list byte * list (list byte * list byte))) (retainValues : bool)
    (st : ini) : outcome ini :=
  match other with
  | [] => Ret st
  | (s, kvs) :: rest =>
      match select s st with
      | (false, st0) =>
          let '(p, st1) := new_keys (list_to_map kvs) st0 in
          merge rest retainValues (set_section s p st1)
      | (true, st0) =>
          '(p, _) ← deref_current st0;
          st1 ← merge_keys retainValues p kvs st0;
          merge rest retainValues st1
      end
  end.

(** [clear]: [clean] deletes every object and nulls [current] *)
Definition clear (st : ini) : ini :=
  mk_ini (filter (fun '(p, _) => p ∉ (map_to_list (sections st)).*2) (objs st)) ∅ CNull
    (next_obj st).

(** ** The abstract value of an INI object *)

Definition lookup_ini (st : ini) (s k : list byte) : option (list byte) :=
  sections st !! s ≫= fun p => objs st !! p ≫= fun ks => ks !! k.

(** The representation invariant: section pointers are live and not shared,
    object identities are below the allocator, and a [current] that was set is
    null or the object of one of the sections. It says nothing about a
    [current] that was never set: no constructor initialises it, and
    [ini_operations_keep_invariant] of [IniOps] says what holds until then. *)
Record wf_ini (st : ini) : Prop := {
  wf_live : forall s p, sections st !! s = Some p -> is_Some (objs st !! p);
  wf_fresh : forall p, is_Some (objs st !! p) -> (p < next_obj st)%N;
  wf_unshared : forall s1 s2 p, sections st !! s1 = Some p -> sections st !! s2 = Some p -> s1 = s2;
  wf_current : forall p, current st = CPtr p -> exists s, sections st !! s = Some p;
}.

Lemma wf_new : wf_ini ini_new.
Proof. split; simpl; intros; simplify_map_eq; by destruct H. Qed.

Lemma fresh_None st : wf_ini st -> objs st !! next_obj st = None.
Proof.
  intros Hwf. apply eq_None_not_Some. intros H%(wf_fresh _ Hwf). lia.
Qed.

(** allocation of an object bound to a section *)
Lemma wf_alloc_section s ks st c :
  wf_ini st -> c = current st /\ sections st !! s = None \/ c = CPtr (next_obj st) ->
  wf_ini (set_section s (next_obj st) (set_current c (snd (new_keys ks st)))).
Proof.
  intros Hwf Hc. pose proof (fresh_None st Hwf) as Hf. split; simpl.
  - intros s' p. rewrite lookup_insert. case_decide.
    + intros [= <-]. rewrite lookup_insert_eq. by eexists.
    + intros H'%(wf_live _ Hwf). rewrite lookup_insert. case_decide; [by eexists|done].
  - intros p. rewrite lookup_insert. case_decide; [subst; intros; lia|].
    intros H'%(wf_fresh _ Hwf). lia.
  - intros s1 s2 p. rewrite !lookup_insert. repeat case_decide; subst; try done.
    + intros [= <-] H'%(wf_live _ Hwf). rewrite Hf in H'. by destruct H'.
    + intros H' [= <-]. apply (wf_live _ Hwf) in H'. rewrite Hf in H'. by destruct H'.
    + apply (wf_unshared _ Hwf).
  - intros p Hp. destruct Hc as [[-> Hs]| ->].
    + destruct (wf_current _ Hwf p Hp) as [s' Hs']. exists s'.
      rewrite lookup_insert_ne; [done|]. by intros <-; rewrite Hs in Hs'.
    + injection Hp as <-. exists s. by rewrite lookup_insert_eq.
Qed.

Lemma lookup_alloc_section s ks st c s' k :
  wf_ini st ->
  lookup_ini (set_section s (next_obj st) (set_current c (snd (new_keys ks st)))) s' k =
  if decide (s = s') then ks !! k else lookup_ini st s' k.
Proof.
  intros Hwf. unfold lookup_ini. simpl. rewrite lookup_insert.
  case_decide; simpl; [by rewrite lookup_insert_eq|].
  destruct (sections st !! s') as [p|] eqn:E; [|done]. simpl.
  rewrite lookup_insert_ne; [done|]. intros <-.
  apply (wf_live _ Hwf) in E. rewrite (fresh_None st Hwf) in E. by destruct E.
Qed.

Lemma wf_set_obj p ks st :
  wf_ini st -> is_Some (objs st !! p) -> wf_ini (set_obj p ks st).
Proof.
  intros Hwf Hp. split; simpl.
  - intros s q Hq%(wf_live _ Hwf). rewrite lookup_insert. case_decide; [by eexists|done].
  - intros q. rewrite lookup_insert. case_decide; subst; intros ?; by apply (wf_fresh _ Hwf).
  - apply (wf_unshared _ Hwf).
  - apply (wf_current _ Hwf).
Qed.

(** A store into the object of section [s] changes no other section. *)
Lemma lookup_set_obj st s p ks s' k :
  wf_ini st -> sections st !! s = Some p ->
  lookup_ini (set_obj p ks st) s' k =
  if decide (s = s') then ks !! k else lookup_ini st s' k.
Proof.
  intros Hwf Hs. unfold lookup_ini. simpl. case_decide.
  - subst. rewrite Hs. simpl. by rewrite lookup_insert_eq.
  - destruct (sections st !! s') as [q|] eqn:E; [|done]. simpl.
    rewrite lookup_insert_ne; [done|]. intros <-. by eapply H, (wf_unshared _ Hwf).
Qed.

Lemma wf_set_current st s p : wf_ini st -> sections st !! s = Some p -> wf_ini (set_current (CPtr p) st).
Proof.
  intros [H1 H2 H3 H4] Hp. split; simpl; try done. intros q [= <-]. by exists s.
Qed.

Create HintDb ini.
#[export] Hint Resolve wf_new wf_set_obj : ini.

Lemma wf_select s st b st' : wf_ini st -> select s st = (b, st') -> wf_ini st'.
Proof.
  unfold select. intros Hwf H. destruct (sections st !! s) as [p|] eqn:E; simplify_eq; [|done].
  by eapply wf_set_current.
Qed.
Lemma wf_create s st b st' : wf_ini st -> create s st = (b, st') -> wf_ini st'.
Proof.
  unfold create. intros Hwf H. destruct (select s st) as [[] st0] eqn:E; simplify_eq.
  - by eapply wf_select.
  - simpl in H. simplify_eq. apply (wf_alloc_section s ∅ st (CPtr (next_obj st))); auto.
Qed.
Lemma wf_index s st p st' :
  wf_ini st -> index s st = (p, st') -> wf_ini st' /\ sections st' !! s = Some p.
Proof.
  unfold index. intros Hwf H. destruct (sections st !! s) as [q|] eqn:E; simplify_eq; [done|].
  simpl in H. simplify_eq. split; [apply (wf_alloc_section s ∅ st (current st)); auto|].
  simpl. by rewrite lookup_insert_eq.
Qed.
Lemma wf_index2 s k st v st' :
  wf_ini st -> index2 s k st = Ret (v, st') -> wf_ini st'.
Proof.
  unfold index2. intros Hwf H. destruct (index s st) as [p st1] eqn:E.
  apply wf_index in E as [Hwf1 _]; [|done]. outcome_inv.
  destruct (_ !! k); outcome_inv; [done|]. apply wf_set_obj; [done|]. by eexists.
Qed.
Lemma wf_set k v st b st' : wf_ini st -> set k v st = Ret (b, st') -> wf_ini st'.
Proof.
  unfold set. intros Hwf H. destruct (current st); outcome_inv; [done|].
  apply wf_set_obj; [done|]. by eexists.
Qed.
Lemma wf_parse_line line st st' : wf_ini st -> parse_line line st = Ret st' -> wf_ini st'.
Proof.
  intros Hwf H. unfold parse_line in H. destruct line as [|c line]; outcome_inv; [done|].
  destruct (is_comment _); outcome_inv; [done|]. case_decide.
  - unfold parse_section in H. outcome_inv.
    apply (wf_alloc_section _ ∅ st (CPtr (next_obj st))); auto.
  - unfold parse_key in H. destruct (strtok _ _) as [[skey tl]|]; outcome_inv.
    destruct (strtok LF tl) as [[sv ?]|]; outcome_inv; [|done].
    case_decide; outcome_inv; [done|]. destruct x0 as [p ks]. outcome_inv.
    unfold deref_current in *. destruct (current st); outcome_inv.
    apply wf_set_obj; [done|]. by eexists.
Qed.
Lemma wf_parse_loop cs fuel first f st st' :
  wf_ini st -> parse_loop cs fuel first f st = Ret st' -> wf_ini st'.
Proof.
  revert first f st. induction fuel as [|fuel IH]; intros first f st Hwf H; [done|].
  cbn [parse_loop] in H. destruct (eofbit f); outcome_inv; [done|].
  destruct (getline f) as [buf f']. destruct (first && _); outcome_inv; [done|].
  eapply IH; [|done]. by eapply wf_parse_line.
Qed.

(** ** Merging *)

(** what a list of sections stands for *)
Definition lookup_list (secs : list (list byte * list (list byte * list byte)))
    (s k : list byte) : option (list byte) :=
  (list_to_map secs : gmap _ _) !! s ≫= fun kvs =>
    (list_to_map kvs : gmap (list byte) (list byte)) !! k.

(** the value kept when both sides may have one *)
Definition merged (retainValues : bool) (mine theirs : option (list byte)) : option (list byte) :=
  if retainValues then mine ∪ theirs else theirs ∪ mine.

Lemma merged_None_r rv x : merged rv x None = x.
Proof. by destruct rv, x. Qed.
Lemma merged_None_l rv x : merged rv None x = x.
Proof. by destruct rv, x. Qed.

Lemma merge_key_spec rv s p kv st :
  wf_ini st -> sections st !! s = Some p ->
  exists st', merge_key rv p kv st = Ret st' /\ wf_ini st' /\ sections st' = sections st /\
    forall s' k, lookup_ini st' s' k =
      if decide (s = s' /\ kv.1 = k) then merged rv (lookup_ini st s' k) (Some kv.2)
      else lookup_ini st s' k.
Proof.
  intros Hwf Hs. destruct (wf_live _ Hwf _ _ Hs) as [ks Hks].
  assert (Hl : forall k, lookup_ini st s k = ks !! k).
  { intros k. unfold lookup_ini. rewrite Hs. simpl. by rewrite Hks. }
  assert (Hset : forall v, wf_ini (set_obj p (<[kv.1 := v]> ks) st) /\
    forall s' k, lookup_ini (set_obj p (<[kv.1 := v]> ks) st) s' k =
      if decide (s = s' /\ kv.1 = k) then Some v else lookup_ini st s' k).
  { intros v. split; [apply wf_set_obj; [done|by eexists]|]. intros s' k.
    rewrite (lookup_set_obj st s p) by done. rewrite lookup_insert.
    destruct (decide (s = s')) as [<-|]; [|by rewrite decide_False by tauto].
    destruct (decide (kv.1 = k)) as [<-|]; [by rewrite decide_True|].
    rewrite decide_False by tauto. by rewrite Hl. }
  unfold merge_key. rewrite Hks. cbn [deref mbind outcome_bind].
  destruct (ks !! kv.1) as [v|] eqn:Ek; [destruct rv|].
  - exists st. split_and!; try done. intros s' k. case_decide as D; [|done].
    destruct D as [<- <-]. by rewrite Hl, Ek.
  - eexists. split_and!; [done|apply Hset|done|]. intros s' k. rewrite (proj2 (Hset kv.2)).
    case_decide; [|done]. unfold merged. by destruct (lookup_ini st s' k).
  - eexists. split_and!; [done|apply Hset|done|]. intros s' k. rewrite (proj2 (Hset kv.2)).
    case_decide as D; [|done]. destruct D as [<- <-]. rewrite Hl, Ek. by destruct rv.
Qed.

Lemma merge_keys_spec rv s p kvs st :
  wf_ini st -> sections st !! s = Some p -> NoDup kvs.*1 ->
  exists st', merge_keys rv p kvs st = Ret st' /\ wf_ini st' /\ sections st' = sections st /\
    forall s' k, lookup_ini st' s' k =
      if decide (s = s') then merged rv (lookup_ini st s' k) ((list_to_map kvs : gmap (list byte) (list byte)) !! k)
      else lookup_ini st s' k.
Proof.
  revert st. induction kvs as [|[k0 v0] kvs IH]; intros st Hwf Hs Hnd.
  - exists st. split_and!; try done. intros s' k. case_decide; [|done].
    unfold merged. simpl. rewrite lookup_empty. by destruct rv, (lookup_ini st s' k).
  - apply NoDup_cons in Hnd as [Hk0 Hnd]. fold (fmap fst kvs) in *.
    destruct (merge_key_spec rv s p (k0, v0) st) as (st1 & E1 & Hwf1 & Hsec & Hl1); try done.
    destruct (IH st1) as (st2 & E2 & Hwf2 & Hsec2 & Hl2); try done; [by rewrite Hsec|].
    exists st2. cbn [merge_keys]. rewrite E1. cbn [mbind outcome_bind].
    split_and!; try done; [by rewrite Hsec2|].
    intros s' k. rewrite Hl2, Hl1. simpl. rewrite lookup_insert.
    destruct (decide (s = s')) as [<-|]; [|by rewrite decide_False by tauto].
    destruct (decide (k0 = k)) as [<-|]; [|by rewrite decide_False by tauto].
    rewrite decide_True by done. rewrite (not_elem_of_list_to_map_1 _ _ Hk0).
    unfold merged. destruct rv, (lookup_ini st s k0); done.
Qed.

Lemma merge_spec rv other st :
  wf_ini st -> NoDup other.*1 -> Forall (fun sec => NoDup (sec.2).*1) other ->
  exists st', merge other rv st = Ret st' /\ wf_ini st' /\
    forall s k, lookup_ini st' s k = merged rv (lookup_ini st s k) (lookup_list other s k).
Proof.
  revert st. induction other as [|[s0 kvs] other IH]; intros st Hwf Hnd Hks.
  - exists st. split_and!; try done. intros s k. unfold lookup_list. simpl.
    rewrite lookup_empty. simpl. by destruct rv, (lookup_ini st s k).
  - apply NoDup_cons in Hnd as [Hs0 Hnd]. apply list.Forall_cons in Hks as [Hk0 Hks].
    simpl in Hk0. cbn [merge].
    assert (Hsplit : forall s k, lookup_list ((s0, kvs) :: other) s k =
      if decide (s0 = s) then (list_to_map kvs : gmap _ _) !! k else lookup_list other s k).
    { intros s k. unfold lookup_list. simpl. rewrite lookup_insert. by case_decide. }
    assert (Hno : forall k, lookup_list other s0 k = None).
    { intros k. unfold lookup_list. by rewrite (not_elem_of_list_to_map_1 _ _ Hs0). }
    unfold select. destruct (sections st !! s0) as [p|] eqn:Es.
    + destruct (wf_live _ Hwf _ _ Es) as [ks Hks0].
      assert (Hwf0 : wf_ini (set_current (CPtr p) st)) by (by eapply wf_set_current).
      unfold deref_current. simpl. rewrite Hks0. cbn [deref mbind outcome_bind].
      destruct (merge_keys_spec rv s0 p kvs (set_current (CPtr p) st))
        as (st1 & -> & Hwf1 & _ & Hl1); try done. cbn [mbind outcome_bind].
      destruct (IH st1) as (st2 & -> & Hwf2 & Hl2); try done.
      exists st2. split_and!; try done. intros s k. rewrite Hl2, Hl1, Hsplit.
      change (lookup_ini (set_current (CPtr p) st) s k) with (lookup_ini st s k).
      case_decide; [|done]. subst. by rewrite Hno, merged_None_r.
    + pose proof (wf_alloc_section s0 (list_to_map kvs) st (current st) Hwf (or_introl (conj eq_refl Es))) as Hwf1.
      pose proof (fun s k => lookup_alloc_section s0 (list_to_map kvs) st (current st) s k Hwf) as Hl1.
      destruct (IH _ Hwf1 Hnd Hks) as (st2 & E2 & Hwf2 & Hl2).
      exists st2. split_and!; [exact E2|done|]. intros s k. rewrite Hl2, Hl1, Hsplit.
      case_decide; [|done]. subst. rewrite Hno, merged_None_r. unfold lookup_ini. rewrite Es. simpl.
      by rewrite merged_None_l.
Qed.

(** ** Reading lines *)

(** every line of the text has at most 255 bytes; [k] is what is left of the
    current one *)
Fixpoint lines_ok (k : nat) (t : list byte) {struct t} : bool :=
  match t with
  | [] => true
  | c :: t' =>
      if decide (c = LF) then lines_ok 255 t'
      else match k with O => false | S k' => lines_ok k' t' end
  end.

Lemma scan_ok k r :
  lines_ok k r = true ->
  match scan k r with
  | (l, r', AtEof) => r = l /\ r' = []
  | (l, r', AtDelim) => r = l ++ LF :: r' /\ lines_ok 255 r' = true
  | (_, _, AtFull) => False
  end.
Proof.
  revert k. induction r as [|c r IH]; intros k H; simpl in *; [done|].
  case_decide; [by subst|]. destruct k as [|k]; [done|]. specialize (IH k H).
  destruct (scan k r) as [[l r'] []]; [| |done].
  - by destruct IH as [-> ->].
  - by destruct IH as [-> ?].
Qed.

Lemma scan_long k r :
  lines_ok k r = false ->
  match scan k r with
  | (_, _, AtEof) => False
  | (_, r', AtDelim) => lines_ok 255 r' = false
  | (_, _, AtFull) => True
  end.
Proof.
  revert k. induction r as [|c r IH]; intros k H; simpl in *; [done|].
  case_decide; [done|]. destruct k as [|k]; [done|]. specialize (IH k H).
  by destruct (scan k r) as [[l r'] []].
Qed.

Lemma scan_line k l r :
  LF ∉ l -> (length l <= k)%nat -> scan k (l ++ LF :: r) = (l, r, AtDelim).
Proof.
  revert k. induction l as [|c l IH]; intros k Hl Hk; simpl in *; [done|].
  apply not_elem_of_cons in Hl as [Hc Hl]. rewrite decide_False by done.
  destruct k as [|k]; [lia|]. by rewrite IH by (done || lia).
Qed.

Lemma key_name_not_Blocked k : key_name k <> Blocked.
Proof. unfold key_name. by repeat case_decide. Qed.
Lemma deref_current_not_Blocked st : deref_current st <> Blocked.
Proof.
  unfold deref_current. destruct (current st); [done..|].
  apply bind_not_Blocked; [apply deref_not_Blocked|done].
Qed.
Lemma parse_line_not_Blocked line st : parse_line line st <> Blocked.
Proof.
  unfold parse_line, parse_section, section_name, parse_key.
  destruct line as [|c line]; [done|]. destruct (is_comment _); [done|].
  case_decide.
  - by destruct (skip_back _ _).
  - destruct (strtok _ _) as [[skey tl]|]; [|done].
    destruct (strtok LF tl) as [[sv ?]|]; [|done].
    apply bind_not_Blocked; [apply key_name_not_Blocked|]. intros k.
    case_decide; [done|]. apply bind_not_Blocked; [apply deref_current_not_Blocked|].
    by intros [p ks].
Qed.

(** A stream with only short lines is read to its end. *)
Lemma parse_loop_terminates cs fuel first r st :
  lines_ok 255 r = true -> (length r + 2 <= fuel)%nat ->
  parse_loop cs fuel first (mk_is r false false) st <> Blocked.
Proof.
  revert first r st. induction fuel as [|fuel IH]; intros first r st Hok Hfuel; [lia|].
  cbn [parse_loop eofbit getline]. unfold getline. cbn [eofbit failbit orb rest].
  pose proof (scan_ok 255 r Hok) as Hs. destruct (scan 255 r) as [[l r'] []]; [| |done].
  - destruct (first && _); [done|]. pose proof (parse_line_not_Blocked (cstr l) st).
    destruct (parse_line _ st); try done. cbn [mbind outcome_bind]. destruct fuel; [lia|done].
  - destruct Hs as [-> Hok']. rewrite length_app in Hfuel. simpl in Hfuel.
    destruct (first && _); [done|].
    pose proof (parse_line_not_Blocked (cstr l) st).
    destruct (parse_line _ st); try done. cbn [mbind outcome_bind]. apply IH; [done|lia].
Qed.

(** A failed stream that is not at its end is never left. *)
Lemma parse_loop_stuck cs fuel r st st' :
  parse_loop cs fuel false (mk_is r false true) st <> Ret st'.
Proof. induction fuel as [|fuel IH]; [done|]. exact IH. Qed.

Lemma parse_loop_long cs fuel first r st st' :
  lines_ok 255 r = false -> (cs = true \/ first = false) ->
  parse_loop cs fuel first (mk_is r false false) st <> Ret st'.
Proof.
  revert first r st. induction fuel as [|fuel IH]; intros first r st Hlong Hcs; [done|].
  assert (Hbom : forall l, first && bom_test cs l = false).
  { intros l. destruct Hcs as [->| ->]; [|done]. destruct first, l; done. }
  cbn [parse_loop eofbit getline]. unfold getline. cbn [eofbit failbit orb rest].
  pose proof (scan_long 255 r Hlong) as Hs. destruct (scan 255 r) as [[l r'] []]; [done| |].
  - rewrite Hbom. destruct (parse_line _ st); try done. cbn [mbind outcome_bind].
    apply IH; auto.
  - rewrite Hbom. destruct (parse_line _ st); try done. cbn [mbind outcome_bind].
    apply parse_loop_stuck.
Qed.

(** One well-formed line is one [parse_line]. *)
Lemma parse_loop_line cs fuel first l r st :
  LF ∉ l -> NUL ∉ l -> (length l <= 255)%nat -> first && bom_test cs l = false ->
  parse_loop cs (S fuel) first (mk_is (l ++ LF :: r) false false) st =
    (st' ← parse_line l st; parse_loop cs fuel false (mk_is r false false) st').
Proof.
  intros HLF HNUL Hlen Hbom. cbn [parse_loop eofbit]. unfold getline.
  cbn [eofbit failbit orb rest]. rewrite scan_line by done. cbn [eofbit failbit].
  assert (cstr l = l) as ->; [|by rewrite Hbom].
  clear -HNUL. induction l as [|c l IH]; [done|].
  apply not_elem_of_cons in HNUL as [Hc Hl]. simpl. rewrite decide_False by done. by rewrite IH.
Qed.

(** ** Round trip *)

(** what [save] can write and [parse] reads back *)
Definition ok_section (s : list byte) : Prop :=
  LF ∉ s /\ NUL ∉ s /\ (length s <= 253)%nat.
Definition ok_kv (kv : list byte * list byte) : Prop :=
  match kv.1 with
  | [] => False
  | c :: _ => isspace c = false /\ c <> x5b /\ c <> x23
  end /\
  take 2 kv.1 <> [x2f; x2f] /\ x3d ∉ kv.1 /\ LF ∉ kv.1 /\ NUL ∉ kv.1 /\
  kv.2 <> [] /\ LF ∉ kv.2 /\ NUL ∉ kv.2 /\ (length kv.1 + length kv.2 <= 254)%nat.
Definition ok_sections (secs : list (list byte * list (list byte * list byte))) : Prop :=
  NoDup secs.*1 /\
  Forall (fun sec => sec.2 <> [] /\ ok_section sec.1 /\ NoDup (sec.2).*1 /\ Forall ok_kv sec.2) secs.

Lemma cstr_id s : NUL ∉ s -> cstr s = s.
Proof.
  induction s as [|c s IH]; [done|]. intros [Hc Hs]%not_elem_of_cons. simpl.
  rewrite decide_False by done. by rewrite IH.
Qed.

Lemma section_name_ok s : section_name (x5b :: s ++ [x5d]) = Ret s.
Proof.
  unfold section_name. simpl length. rewrite length_app. simpl.
  replace (length s + 1 - 0)%nat with (S (length s)) by lia.
  cbn [skip_back]. simpl lookup. rewrite lookup_app_r, Nat.sub_diag by lia. simpl.
  f_equal. by rewrite drop_0, take_app_length.
Qed.

Lemma parse_line_section s st :
  parse_line (x5b :: s ++ [x5d]) st =
  Ret (set_section s (next_obj st) (set_current (CPtr (next_obj st)) (snd (new_keys ∅ st)))).
Proof.
  unfold parse_line. assert (is_comment (x5b :: s ++ [x5d]) = false) as ->.
  { unfold is_comment. apply orb_false_intro; apply bool_decide_eq_false; simpl; congruence. }
  rewrite decide_True by done. unfold parse_section. by rewrite section_name_ok.
Qed.

Lemma break_delim_app d a b : d ∉ a -> break_delim d (a ++ d :: b) = (a, b).
Proof.
  induction a as [|c a IH]; intros Ha; simpl; [by rewrite decide_True|].
  apply not_elem_of_cons in Ha as [Hc Ha]. rewrite decide_False by done. by rewrite IH.
Qed.
Lemma break_delim_all d a : d ∉ a -> break_delim d a = (a, []).
Proof.
  induction a as [|c a IH]; intros Ha; simpl; [done|].
  apply not_elem_of_cons in Ha as [Hc Ha]. rewrite decide_False by done. by rewrite IH.
Qed.

Lemma strtok_app d a b : a <> [] -> d ∉ a -> strtok d (a ++ d :: b) = Some (a, b).
Proof.
  intros Hne Ha. unfold strtok. destruct a as [|c a]; [done|].
  cbn [app skip_delim]. pose proof Ha as [Hc _]%not_elem_of_cons.
  rewrite decide_False by done. f_equal. apply (break_delim_app d (c :: a) b Ha).
Qed.
Lemma strtok_all d a : a <> [] -> d ∉ a -> strtok d a = Some (a, []).
Proof.
  intros Hne Ha. unfold strtok. destruct a as [|c a]; [done|].
  cbn [skip_delim]. pose proof Ha as [Hc _]%not_elem_of_cons.
  rewrite decide_False by done. f_equal. by apply break_delim_all.
Qed.

Lemma parse_line_kv kv st p ks :
  ok_kv kv -> current st = CPtr p -> objs st !! p = Some ks ->
  parse_line (kv.1 ++ x3d :: kv.2) st = Ret (set_obj p (<[kv.1 := kv.2]> ks) st).
Proof.
  destruct kv as [k v]. intros (Hk & Hc & Heq & HLF & HN & Hv & HvLF & HvN & Hlen) Hcur Hobj.
  simpl in *. destruct k as [|c k]; [done|]. destruct Hk as (Hsp & Hb & Hh).
  unfold parse_line. simpl app.
  assert (is_comment (c :: k ++ x3d :: v) = false) as ->.
  { unfold is_comment. apply orb_false_intro; apply bool_decide_eq_false; simpl; [|congruence].
    intros E. destruct k; simpl in *; rewrite ?take_0 in *; congruence. }
  rewrite decide_False by done. unfold parse_key.
  change (c :: k ++ x3d :: v) with ((c :: k) ++ x3d :: v).
  rewrite (strtok_app x3d (c :: k) v) by done.
  rewrite strtok_all by done. unfold key_name. simpl lead_space. rewrite Hsp.
  rewrite decide_True by done. cbn [mbind outcome_bind]. rewrite decide_False by done.
  unfold deref_current. rewrite Hcur, Hobj. done.
Qed.

Lemma kv_line kv : ok_kv kv -> cstr (make_key_value kv.1 kv.2) = (kv.1 ++ x3d :: kv.2) ++ [LF].
Proof.
  intros (_ & _ & _ & _ & HkN & _ & _ & HvN & _). unfold make_key_value.
  rewrite cstr_id; [by rewrite <- app_assoc|]. rewrite !not_elem_of_app. set_solver.
Qed.

Lemma parse_loop_kv cs fuel kv r st p ks :
  ok_kv kv -> current st = CPtr p -> objs st !! p = Some ks ->
  parse_loop cs (S fuel) false
    (mk_is (cstr (make_key_value kv.1 kv.2) ++ r) false false) st =
  parse_loop cs fuel false (mk_is r false false) (set_obj p (<[kv.1 := kv.2]> ks) st).
Proof.
  intros Hkv Hc Ho. rewrite kv_line, <- app_assoc by done. cbn [app].
  pose proof Hkv as (_ & _ & _ & HkL & HkN & _ & HvL & HvN & Hlen).
  rewrite parse_loop_line; [|set_solver|set_solver|rewrite length_app; simpl; lia|done].
  by rewrite (parse_line_kv kv st p ks).
Qed.

(** Keys and values of one section, read line by line into the current object. *)
Lemma parse_loop_kvs cs fuel kvs r st s p ks :
  wf_ini st -> sections st !! s = Some p -> current st = CPtr p -> objs st !! p = Some ks ->
  NoDup kvs.*1 -> Forall ok_kv kvs ->
  exists st', wf_ini st' /\
    (forall s' k, lookup_ini st' s' k =
      if decide (s = s') then (list_to_map kvs ∪ ks : gmap _ _) !! k else lookup_ini st s' k) /\
    parse_loop cs (length kvs + fuel) false (mk_is (kvs_text kvs ++ r) false false) st =
    parse_loop cs fuel false (mk_is r false false) st'.
Proof.
  revert st ks. induction kvs as [|[k v] kvs IH]; intros st ks Hwf Hs Hc Ho Hnd Hok.
  - exists st. split_and!; try done. intros s' k'. rewrite list_to_map_nil, map_empty_union.
    case_decide; [|done]. subst. unfold lookup_ini. rewrite Hs. simpl. by rewrite Ho.
  - apply NoDup_cons in Hnd as [Hk Hnd]. apply list.Forall_cons in Hok as [Hkv Hok].
    pose proof (wf_set_obj p (<[k := v]> ks) st Hwf (ex_intro _ _ Ho)) as Hwf1.
    destruct (IH (set_obj p (<[k := v]> ks) st) (<[k := v]> ks)) as (st' & Hwf' & Hl & Hrun);
      try done; [cbn; by rewrite lookup_insert_eq|].
    exists st'. split_and!; try done.
    + intros s' k'. rewrite Hl. case_decide.
      * rewrite list_to_map_cons, <- insert_union_l, insert_union_r; [done|].
        by apply not_elem_of_list_to_map_1.
      * by rewrite (lookup_set_obj st s p), decide_False.
    + rewrite <- Hrun. change (kvs_text ((k, v) :: kvs))
        with (cstr (make_key_value k v) ++ kvs_text kvs).
      rewrite <- app_assoc. by apply (parse_loop_kv _ _ (k, v)).
Qed.

(** fuel that reading [secs] back takes *)
Definition lines_of (secs : list (list byte * list (list byte * list byte))) : nat :=
  sum_list_with (fun sec => S (length sec.2)) secs.

Lemma save_section_line cs fuel first s kvs r st :
  kvs <> [] -> ok_section s ->
  parse_loop cs (S fuel) first (mk_is (save_section (s, kvs) ++ r) false false) st =
  parse_loop cs fuel false (mk_is (kvs_text kvs ++ r) false false)
    (set_section s (next_obj st) (set_current (CPtr (next_obj st)) (snd (new_keys ∅ st)))).
Proof.
  intros Hne (HL & HN & Hlen). destruct kvs as [|kv kvs]; [done|].
  unfold save_section. cbn [fst snd].
  assert (cstr (make_section s) = (x5b :: s ++ [x5d]) ++ [LF]) as ->.
  { rewrite cstr_id; unfold make_section; [simpl; by rewrite <- app_assoc|]. set_solver. }
  rewrite <- (app_assoc _ (kvs_text _)), <- (app_assoc _ [LF]). cbn [app].
  change (x5b :: (s ++ [x5d]) ++ LF :: kvs_text (kv :: kvs) ++ r)
    with ((x5b :: s ++ [x5d]) ++ LF :: kvs_text (kv :: kvs) ++ r).
  rewrite parse_loop_line.
  - by rewrite parse_line_section.
  - set_solver.
  - set_solver.
  - simpl. rewrite length_app. simpl. lia.
  - destruct first, cs; done.
Qed.

(** [save] then [parse]: section by section. *)
Lemma parse_loop_save cs fuel first secs st :
  wf_ini st -> ok_sections secs ->
  exists st', wf_ini st' /\
    (forall s k, lookup_ini st' s k = if decide (s ∈ secs.*1) then lookup_list secs s k
                                      else lookup_ini st s k) /\
    parse_loop cs (lines_of secs + S (S fuel)) first (mk_is (save secs) false false) st = Ret st'.
Proof.
  revert first st. induction secs as [|[s kvs] secs IH]; intros first st Hwf [Hnd Hok].
  - exists st. split_and!; try done. by destruct first.
  - apply NoDup_cons in Hnd as [Hs Hnd]. apply list.Forall_cons in Hok as [(Hne & Hsec & Hkd & Hkv) Hok].
    simpl in Hne, Hsec, Hkd, Hkv.
    pose proof (wf_alloc_section s ∅ st (CPtr (next_obj st)) Hwf (or_intror eq_refl)) as Hwf1.
    pose proof (fun s' k => lookup_alloc_section s ∅ st (CPtr (next_obj st)) s' k Hwf) as Hl1.
    set (st1 := set_section _ _ _) in *.
    destruct (parse_loop_kvs cs (lines_of secs + S (S fuel)) kvs (save secs) st1 s (next_obj st) ∅)
      as (st2 & Hwf2 & Hl2 & Hrun2); try done.
    { cbn. by rewrite lookup_insert_eq. }
    { cbn. by rewrite lookup_insert_eq. }
    destruct (IH false st2 Hwf2 (conj Hnd Hok)) as (st' & Hwf' & Hl & Hrun).
    exists st'. split_and!; [done| |].
    + intros s' k. rewrite Hl, Hl2, Hl1. unfold lookup_list. cbn [fmap list_fmap].
      rewrite list_to_map_cons, lookup_insert.
      destruct (decide (s = s')) as [<-|Hss].
      * rewrite decide_False by done. rewrite decide_True by apply list_elem_of_here.
        cbn. by rewrite map_union_empty.
      * destruct (decide (s' ∈ secs.*1)).
        -- by rewrite decide_True by (by apply list_elem_of_further).
        -- rewrite decide_False; [done|]. by apply not_elem_of_cons.
    + change (save ((s, kvs) :: secs)) with (save_section (s, kvs) ++ save secs).
      replace (lines_of ((s, kvs) :: secs) + S (S fuel))%nat
        with (S (length kvs + (lines_of secs + S (S fuel))))%nat
        by (unfold lines_of; simpl; lia).
      rewrite save_section_line by done. fold st1. by rewrite Hrun2.
Qed.

Lemma parse_loop_more cs fuel k first f st st' :
  parse_loop cs fuel first f st = Ret st' -> parse_loop cs (fuel + k) first f st = Ret st'.
Proof.
  revert first f st. induction fuel as [|fuel IH]; intros first f st H; [done|].
  cbn [Nat.add parse_loop] in *. destruct (eofbit f); [done|].
  destruct (getline f) as [buf f']. destruct (first && _); [done|].
  apply bind_Ret_inv in H as (st1 & -> & H). cbn [mbind outcome_bind]. auto.
Qed.

Lemma length_kvs_text kvs : Forall ok_kv kvs -> (length kvs <= length (kvs_text kvs))%nat.
Proof.
  induction 1 as [|kv kvs Hkv _ IH]; [done|].
  change (kvs_text (kv :: kvs)) with (cstr (make_key_value kv.1 kv.2) ++ kvs_text kvs).
  rewrite kv_line, !length_app by done. simpl. lia.
Qed.
Lemma length_save secs : ok_sections secs -> (lines_of secs <= length (save secs))%nat.
Proof.
  intros [_ Hok]. induction Hok as [|[s kvs] secs (Hne & Hs & _ & Hkv) _ IH]; [done|].
  change (save ((s, kvs) :: secs)) with (save_section (s, kvs) ++ save secs).
  destruct kvs as [|kv kvs]; [done|]. unfold save_section. cbn [fst snd] in *.
  destruct Hs as (HL & HN & _). unfold make_section.
  rewrite cstr_id by set_solver. pose proof (length_kvs_text _ Hkv).
  rewrite !length_app. unfold lines_of in *. simpl in *. lia.
Qed.

(** ** Properties *)

(** [save] and [parse] are inverse on representable sections. *)
Lemma save_parse (char_signed : bool)
    (secs : list (list byte * list (list byte * list byte))) :
  ok_sections secs ->
  exists st, ini_parse char_signed (Some (save secs)) = Ret st /\ wf_ini st /\
    forall s k, lookup_ini st s k = lookup_list secs s k.
Proof.
  intros Hok. pose proof (length_save secs Hok) as Hlen.
  destruct (parse_loop_save char_signed 0 true secs ini_new wf_new Hok) as (st & Hwf & Hl & Hrun).
  exists st. split_and!; [|done|].
  - unfold ini_parse, parse_fuel.
    replace (S (S (length (save secs)))) with
      (lines_of secs + 2 + (length (save secs) - lines_of secs))%nat by lia.
    by apply parse_loop_more.
  - intros s k. rewrite Hl. case_decide as D; [done|].
    unfold lookup_list. by rewrite (not_elem_of_list_to_map_1 _ _ D).
Qed.

(** C22. Reading back what was written: parsing the file [save] produces for a
    set of sections (distinct names, distinct keys, fields without line feeds,
    NULs or an equals sign in a key, lines within the 256-byte buffer)
    succeeds on every platform and yields exactly those sections: each key of
    each section has the saved value, and nothing else is defined. *)
Theorem save_parse_roundtrip (char_signed : bool)
    (secs : list (list byte * list (list byte * list byte))) :
  ok_sections secs ->
  exists st, ini_parse char_signed (Some (save secs)) = Ret st /\ wf_ini st /\
    forall s k, lookup_ini st s k = lookup_list secs s k.
Proof. apply save_parse. Qed.
Lemma save_parse_roundtrip_witness :
  exists st, ini_parse true (Some (save [(lit "Server", [(lit "IpAddr", lit "127.0.0.1")])]))
    = Ret st /\ wf_ini st /\
    forall s k, lookup_ini st s k =
      lookup_list [(lit "Server", [(lit "IpAddr", lit "127.0.0.1")])] s k.
Proof.
  apply save_parse_roundtrip. unfold ok_sections, ok_kv, ok_section. cbn [fst snd fmap list_fmap].
  split; [apply NoDup_singleton|]. apply list.Forall_singleton. split_and!; try done.
  - apply (bool_decide_unpack _). vm_compute. exact I.
  - apply (bool_decide_unpack _). vm_compute. exact I.
  - vm_compute. lia.
  - apply NoDup_singleton.
  - apply list.Forall_singleton. cbn [fst snd]. split_and!; try done;
      try (apply (bool_decide_unpack _); vm_compute; exact I).
Defined.

(** C32. The parse loop terminates exactly on the files whose lines fit the
    256-byte buffer: with at most 255 bytes per line the loop ends within
    [parse_fuel] iterations, while a single longer line puts the stream into
    the failed state without end of file and no number of iterations leaves
    [while (!file.eof())]. *)
Theorem parse_terminates_iff_short_lines (char_signed : bool) (text : list byte) :
  (lines_ok 255 text = true -> ini_parse char_signed (Some text) <> Blocked) /\
  (lines_ok 255 text = false ->
   forall fuel st, parse_loop true fuel true (mk_is text false false) ini_new <> Ret st).
Proof.
  split; intros H.
  - apply parse_loop_terminates; [done|]. unfold parse_fuel. lia.
  - intros fuel st. apply parse_loop_long; auto.
Qed.
Lemma parse_terminates_iff_short_lines_witness :
  ini_parse true (Some (lit "[Server]")) <> Blocked /\
  (forall fuel st, parse_loop true fuel true (mk_is (repeat x61 256) false false) ini_new <> Ret st).
Proof.
  split.
  - apply (parse_terminates_iff_short_lines true (lit "[Server]")). vm_compute. reflexivity.
  - apply (parse_terminates_iff_short_lines true (repeat x61 256)). vm_compute. reflexivity.
Defined.

(** [merge] is pointwise: whatever the iteration order of the other
    object's hash maps, afterwards every section and key holds this object's
    value where it had one (the other's when [retainValues] is false) and the
    other's value where it had none; no section is lost, none is aliased. *)
Theorem merge_pointwise (retainValues : bool)
    (other : list (list byte * list (list byte * list byte))) (st : ini) :
  wf_ini st -> NoDup other.*1 -> Forall (fun sec => NoDup (sec.2).*1) other ->
  exists st', merge other retainValues st = Ret st' /\ wf_ini st' /\
    forall s k, lookup_ini st' s k =
      if retainValues then lookup_ini st s k ∪ lookup_list other s k
      else lookup_list other s k ∪ lookup_ini st s k.
Proof. apply merge_spec. Qed.
Lemma merge_pointwise_witness :
  exists st', merge [(lit "S", [(lit "k", lit "v")])] true ini_new = Ret st' /\ wf_ini st' /\
    forall s k, lookup_ini st' s k =
      lookup_ini ini_new s k ∪ lookup_list [(lit "S", [(lit "k", lit "v")])] s k.
Proof.
  apply (merge_pointwise true); [apply wf_new|apply NoDup_singleton|].
  apply list.Forall_singleton. apply NoDup_singleton.
Defined.

(** A key written with white space in front of it is never stored under
    its name: [strncpy] without a terminator either copies between overlapping
    ranges or leaves the tail of the old text behind the key. *)
Theorem indented_key_is_corrupted (blanks key : list byte) :
  blanks <> [] -> forallb isspace blanks = true ->
  match key with c :: _ => isspace c = false | [] => False end ->
  key_name (blanks ++ key) <> Ret key.
Proof.
  intros Hne Hb Hk. destruct key as [|c key]; [done|].
  assert (Hl : lead_space (blanks ++ c :: key) = length blanks).
  { clear Hne. induction blanks as [|b bs IH]; simpl in *; [by rewrite Hk|].
    apply andb_prop in Hb as [-> Hb]. by rewrite IH. }
  unfold key_name. rewrite Hl, length_app.
  destruct blanks as [|b bs]; [done|]. rewrite decide_False by done.
  case_decide; [done|]. intros [= E]. apply (f_equal length) in E.
  repeat rewrite ?length_app, ?length_take, ?length_drop in E. cbn [length] in *.
  rewrite length_app in E. cbn [length] in *. lia.
Qed.
Lemma indented_key_is_corrupted_witness :
  key_name (lit " " ++ lit "IpAddr") <> Ret (lit "IpAddr").
Proof. apply indented_key_is_corrupted; [discriminate|reflexivity|reflexivity]. Defined.

Lemma skip_back_blanks blanks c i :
  forallb isspace blanks = true -> (i <= length blanks)%nat -> skip_back (c :: blanks) i = 0%nat.
Proof.
  intros Hb. induction i as [|i IH]; intros Hi; [done|]. cbn [skip_back].
  destruct (lookup_lt_is_Some_2 blanks i) as [x Hx]; [lia|].
  change ((c :: blanks) !! S i) with (blanks !! i). rewrite Hx. simpl.
  rewrite forallb_forall in Hb. rewrite (Hb x); [apply IH; lia|].
  apply list_elem_of_In. by eapply list_elem_of_lookup_2.
Qed.

Lemma skip_delim_repeat d n : skip_delim d (repeat d n) = [].
Proof. induction n; simpl; [done|]. by rewrite decide_True. Qed.

(** The lines the parser has no defined behaviour for: a key before the
    first section header (the constructor leaves [current] uninitialised), a
    line of equals signs (the key is a null pointer), and an opening bracket
    followed by nothing but white space (the length wraps below zero). *)
Theorem ini_undefined_lines (kv : list byte * list byte) (st : ini) (n : nat)
    (blanks : list byte) :
  (ok_kv kv -> is_UB (parse_line (kv.1 ++ x3d :: kv.2) ini_new) = true) /\
  is_UB (parse_line (repeat x3d (S n)) st) = true /\
  (forallb isspace blanks = true -> is_UB (parse_line (x5b :: blanks) st) = true).
Proof.
  split_and!.
  - intros (Hk & Hc & Heq & HLF & HN & Hv & HvLF & HvN & Hlen).
    destruct kv as [[|c k] v]; [done|]. cbn [fst snd] in *. destruct Hk as (Hsp & Hb & Hh).
    unfold parse_line. cbn [app].
    assert (is_comment (c :: k ++ x3d :: v) = false) as ->.
    { unfold is_comment. apply orb_false_intro; apply bool_decide_eq_false; simpl; [|congruence].
      intros E. destruct k; simpl in *; rewrite ?take_0 in *; congruence. }
    rewrite decide_False by done. unfold parse_key.
    change (c :: k ++ x3d :: v) with ((c :: k) ++ x3d :: v).
    rewrite strtok_app, strtok_all by done. unfold key_name. simpl lead_space. rewrite Hsp.
    rewrite decide_True by done. cbn [mbind outcome_bind]. by rewrite decide_False.
  - unfold parse_line. cbn [repeat].
    assert (is_comment (x3d :: repeat x3d n) = false) as -> by (by destruct n).
    rewrite decide_False by done. unfold parse_key, strtok.
    change (x3d :: repeat x3d n) with (repeat x3d (S n)). by rewrite skip_delim_repeat.
  - intros Hb. unfold parse_line.
    assert (is_comment (x5b :: blanks) = false) as ->.
    { unfold is_comment. apply orb_false_intro; apply bool_decide_eq_false; simpl; congruence. }
    rewrite decide_True by done. unfold parse_section, section_name.
    rewrite skip_back_blanks by (simpl; lia || done). done.
Qed.
Lemma ini_undefined_lines_witness : is_UB (parse_line (x5b :: lit "  ") ini_new) = true.
Proof. apply (ini_undefined_lines (lit "k", lit "v") ini_new 0 (lit "  ")). reflexivity. Defined.
