(* ===== verification/IniBinary.v ===== *)
(** * IniBinary
    The "binary" format of [libControlCAN/inc/ini.h] ([saveBinary] and
    [parseBinary]), the file association that [save] and [saveBinary] test, and
    the reason why what one writes the other does not read. *)

From Stdlib Require Import ZArith Lia.
From Stdlib Require Import Strings.Byte.
From stdpp Require Import base numbers list option gmap strings.
From S2P Require Import Prelude Ini.

(** ** Writing *)

Inductive source_e : Set := source_file | source_memory.
#[export] Instance source_e_eq_dec : EqDecision source_e.
Proof. solve_decision. Defined.

Definition has_file_association (source : source_e) (filename : list byte) : bool :=
  negb (bool_decide (source = source_memory) && bool_decide (filename = [])).
(** the file [save] and [saveBinary] open *)
Definition target (this_filename filename : list byte) : list byte :=
  if decide (filename = []) then this_filename else filename.
(** [save(filename)] and [saveBinary(filename)] for a file that opens when
    [can_open] says so: the text written to which file, and the result *)
Definition save_as (text : list byte) (source : source_e) (can_open : list byte -> bool)
    (this_filename filename : list byte) : bool * option (list byte * list byte) :=
  if has_file_association source filename then
    let f := target this_filename filename in
    if can_open f then (true, Some (f, text)) else (false, None)
  else (false, None).

(** [saveBinary]: counts as raw [size_t], names and values one per line *)
Definition binary_kv (kv : list byte * list byte) : list byte := kv.1 ++ [LF] ++ kv.2 ++ [LF].
Definition binary_section (sec : list byte * list (list byte * list byte)) : list byte :=
  le_bytes 8 (Z.of_nat (length sec.2)) ++ sec.1 ++ [LF] ++ (sec.2 ≫= binary_kv).
Definition saveBinary (secs : list (list byte * list (list byte * list byte))) : list byte :=
  le_bytes 8 (Z.of_nat (length secs)) ++ (secs ≫= binary_section).

(** [operator<<(std::ostream&, const Ini&)]: keys indented by two blanks *)
Definition print_kv (kv : list byte * list byte) : list byte := [x20; x20] ++ kv.1 ++ [x3d] ++ kv.2 ++ [LF].
Definition print_section (sec : list byte * list (list byte * list byte)) : list byte :=
  [x5b] ++ sec.1 ++ [x5d; LF] ++ (sec.2 ≫= print_kv).
Definition print_ini (secs : list (list byte * list (list byte * list byte))) : list byte :=
  secs ≫= print_section.

(** ** Reading *)

(** an [ifstream] with its position *)
Record bstream := mk_bs { text : list byte; pos : nat; eof : bool; fail : bool }.
Definition ahead (f : bstream) : list byte := drop (pos f) (text f).
Definition good (f : bstream) : bool := negb (eof f || fail f).
Definition advance (n : nat) (f : bstream) : bstream := mk_bs (text f) (pos f + n) (eof f) (fail f).
Definition set_eof (f : bstream) : bstream := mk_bs (text f) (pos f) true (fail f).
Definition set_fail (f : bstream) : bstream := mk_bs (text f) (pos f) (eof f) true.

(** the longest prefix of characters that satisfy [p] *)
Fixpoint span (p : byte -> bool) (s : list byte) : list byte :=
  match s with
  | c :: s => if p c then c :: span p s else []
  | [] => []
  end.
(** the sentry of a formatted input function: whether the extraction is tried *)
Definition sentry (f : bstream) : bool * bstream :=
  if good f then
    let f1 := advance (length (span isspace (ahead f))) f in
    if decide (ahead f1 = []) then (false, set_fail (set_eof f1)) else (true, f1)
  else (false, set_fail f).

Definition isdigit (b : byte) : bool := (48 <=? byte_Z b) && (byte_Z b <=? 57).
Definition decimal (s : list byte) : Z := fold_left (fun v b => v * 10 + (byte_Z b - 48)) s 0.
(** [file >> n] for a [size_t]: [None] leaves [n] as it was *)
Definition get_size (f : bstream) : option Z * bstream :=
  match sentry f with
  | (false, f1) => (None, f1)
  | (true, f1) =>
      let neg := bool_decide (hd_error (ahead f1) = Some x2d) in
      let sign := if neg || bool_decide (hd_error (ahead f1) = Some x2b) then 1%nat else 0%nat in
      let digits := span isdigit (drop sign (ahead f1)) in
      let f2 := advance (sign + length digits) f1 in
      let f3 := if decide (ahead f2 = []) then set_eof f2 else f2 in
      if decide (digits = []) then (Some 0, set_fail f3)
      else if 2 ^ 64 <=? decimal digits then (Some (2 ^ 64 - 1), set_fail f3)
      else (Some (u64 (if neg then - decimal digits else decimal digits)), f3)
  end.
(** [file >> s] for a [std::string] *)
Definition get_string (s : list byte) (f : bstream) : list byte * bstream :=
  match sentry f with
  | (false, f1) => (s, f1)
  | (true, f1) =>
      let w := span (fun b => negb (isspace b)) (ahead f1) in
      let f2 := advance (length w) f1 in
      let f3 := if decide (ahead f2 = []) then set_eof f2 else f2 in
      (w, if decide (w = []) then set_fail f3 else f3)
  end.
(** [file.read((char* )&n, sizeof(n))]: the bytes that were there are stored *)
Definition read_size (n : list byte) (f : bstream) : list byte * bstream :=
  if good f then
    let got := take 8 (ahead f) in
    let f1 := advance (length got) f in
    (got ++ drop (length got) n, if (length got <? 8)%nat then set_fail (set_eof f1) else f1)
  else (n, set_fail f).
(** [file.seekg(1 + file.tellg())] *)
Definition skip_one (f : bstream) : bstream :=
  if fail f then f else mk_bs (text f) (pos f + 1) false (fail f).

(** the loops of [parseBinary]; [keyCount], [key] and [value] keep their values
    when an extraction fails. [keyCount] starts indeterminate: [n0] are its bytes *)
Fixpoint binary_keys (j : nat) (key value : list byte) (f : bstream) (st : ini)
    : outcome (list byte * list byte * bstream * ini) :=
  match j with
  | O => Ret (key, value, f, st)
  | S j =>
      let '(key, f1) := get_string key f in
      let '(value, f2) := get_string value f1 in
      '(_, st1) ← set key value st;
      binary_keys j key value f2 st1
  end.
Fixpoint binary_sections (n i : nat) (keyCount section key value : list byte) (f : bstream) (st : ini)
    : outcome ini :=
  match n with
  | O => Ret st
  | S n =>
      let f0 := if (0 <? i)%nat then skip_one f else f in
      let '(keyCount, f1) := read_size keyCount f0 in
      let '(section, f2) := get_string section f1 in
      let '(_, st1) := create section st in
      '(key, value, f3, st2) ← binary_keys (Z.to_nat (le_val keyCount)) key value f2 st1;
      binary_sections n (S i) keyCount section key value f3 st2
  end.
(** [parseBinary()]: [None] is a file that cannot be opened *)
Definition parseBinary (n0 : list byte) (content : option (list byte)) (st : ini) : outcome (bool * ini) :=
  match content with
  | None => Ret (false, st)
  | Some t =>
      match get_size (mk_bs t 0 false false) with
      | (None, _) => UB "indeterminate sectionCount"
      | (Some sectionCount, f) =>
          st' ← binary_sections (Z.to_nat sectionCount) 0 n0 [] [] [] f st;
          Ret (true, st')
      end
  end.

(** ** What is read back *)

(** the first byte of a raw count below 48 is no digit *)
Lemma small_count_unread n rest :
  0 < n < 48 -> exists f, get_size (mk_bs (le_bytes 8 n ++ rest) 0 false false) = (Some 0, f).
Proof.
  intros Hn.
  assert (Hk : exists k, n = Z.of_nat k /\ (0 < k < 48)%nat) by (exists (Z.to_nat n); lia).
  destruct Hk as (k & -> & Hk).
  do 48 (destruct k as [|k]; [lia || (eexists; reflexivity)|]). lia.
Qed.

(** The binary format does not survive a round trip: [saveBinary] writes the
    number of sections as the eight bytes of a [size_t] and [parseBinary] reads it
    as decimal text, so from any file saved with 1 to 47 sections nothing is read,
    and success is reported. *)
Theorem binary_reads_nothing (secs : list (list byte * list (list byte * list byte))) (n0 : list byte) (st : ini) :
  (0 < length secs < 48)%nat -> parseBinary n0 (Some (saveBinary secs)) st = Ret (true, st).
Proof.
  intros Hs. unfold parseBinary, saveBinary.
  destruct (small_count_unread (Z.of_nat (length secs)) (secs ≫= binary_section)) as (f & ->); [lia|]. done.
Qed.

(** Nor can the text of [operator<<] be read back: its key lines are indented,
    and the parser does not recover the key of an indented line. *)
Theorem printed_keys_lost (k v : list byte) (st st' : ini) (p : N) (ks : gmap (list byte) (list byte)) :
  ok_kv (k, v) -> current st = CPtr p -> objs st !! p = Some ks -> ks !! k = None ->
  parse_key ([x20; x20] ++ k ++ [x3d] ++ v) st = Ret st' ->
  (objs st' !! p ≫= fun ks' => ks' !! k) = None.
Proof.
  intros (Hk & _ & Heq & _ & _ & Hv & Hlf & _ & _) Hc Hp Hnone. cbn [fst snd] in *.
  unfold parse_key. rewrite (app_assoc [x20; x20]).
  change (([x20; x20] ++ k) ++ [x3d] ++ v) with (([x20; x20] ++ k) ++ x3d :: v).
  rewrite (strtok_app x3d ([x20; x20] ++ k) v); [|done|cbn [app]; by rewrite !not_elem_of_cons].
  rewrite (strtok_all LF v) by done.
  pose proof (indented_key_is_corrupted [x20; x20] k ltac:(done) eq_refl) as Hbad.
  destruct (key_name ([x20; x20] ++ k)) as [key| | |]; try done. cbn [mbind outcome_bind].
  rewrite decide_False by done. unfold deref_current. rewrite Hc, Hp. cbn [deref mbind outcome_bind].
  intros [= <-]. simpl. rewrite lookup_insert_eq. simpl. rewrite lookup_insert_ne; [done|].
  intros ->. apply Hbad; [|done]. by destruct k as [|c k]; [|destruct Hk].
Qed.
