(* ===== verification/IniConvert.v ===== *)
(** * IniConvert
    The typed access of [libControlCAN/inc/ini.h]: [class converters], which
    turns a value into another type by printing it to a stream and reading it
    back, and the member templates [set] and [get] on top of it. *)

From Stdlib Require Import ZArith Lia.
From Stdlib Require Import Strings.Byte.
From stdpp Require Import base numbers list option gmap strings.
From S2P Require Import Prelude Ini IniBinary.

(** ** Types that can be streamed *)

(** [put] is [os << t]; [extract] is [is >> t] for a [t] that is default
    initialised: [None] when the stream leaves a [t] without a value *)
Class Streamed (T : Type) := {
  put : T -> list byte;
  extract : list byte -> option T;
}.

(** [std::string]: one word *)
#[export] Instance string_streamed : Streamed (list byte) :=
  {| put s := s; extract s := Some (get_string [] (mk_bs s 0 false false)).1 |}.

(** integers *)
Fixpoint dec_digits (fuel : nat) (v : Z) (acc : list byte) : list byte :=
  match fuel with
  | O => acc
  | S f =>
      let acc' := Z_byte (48 + v mod 10) :: acc in
      if v <? 10 then acc' else dec_digits f (v / 10) acc'
  end.
(** 19 digits hold any 64-bit integer *)
Definition put_int (z : Z) : list byte :=
  if z <? 0 then x2d :: dec_digits 19 (- z) [] else dec_digits 19 z [].
(** [is >> n]: the value is clamped to the range of the type *)
Definition get_int (lo hi : Z) (f : bstream) : option Z * bstream :=
  match sentry f with
  | (false, f1) => (None, f1)
  | (true, f1) =>
      let neg := bool_decide (hd_error (ahead f1) = Some x2d) in
      let sign := if neg || bool_decide (hd_error (ahead f1) = Some x2b) then 1%nat else 0%nat in
      let digits := span isdigit (drop sign (ahead f1)) in
      let f2 := advance (sign + length digits) f1 in
      let f3 := if decide (ahead f2 = []) then set_eof f2 else f2 in
      let v := if neg then - decimal digits else decimal digits in
      if decide (digits = []) then (Some 0, set_fail f3)
      else if v <? lo then (Some lo, set_fail f3)
      else if hi <? v then (Some hi, set_fail f3)
      else (Some v, f3)
  end.
Definition int_min : Z := - 2 ^ 31.
Definition int_max : Z := 2 ^ 31 - 1.
(** [int] *)
Record int_t := mk_int { int_val : Z }.
#[export] Instance int_streamed : Streamed int_t :=
  {| put n := put_int (int_val n);
     extract s := mk_int <$> (get_int int_min int_max (mk_bs s 0 false false)).1 |}.
(** [bool]: without [boolalpha] an integer; [num_get] reads a [long], and
    whatever is not 0 is true *)
Definition long_min : Z := - 2 ^ 63.
Definition long_max : Z := 2 ^ 63 - 1.
#[export] Instance bool_streamed : Streamed bool :=
  {| put (b : bool) := if b then [x31] else [x30];
     extract s := (fun v : Z => negb (v =? 0)) <$> (get_int long_min long_max (mk_bs s 0 false false)).1 |}.

(** ** [class converters] *)

(** [convert<T, U>(value)]; [result] is returned as it is when nothing could be
    read *)
Definition convert {T U} `{Streamed T} `{Streamed U} (value : U) : outcome T :=
  deref "indeterminate result" (extract (put value)).

(** conversion to and from [fini_string_t], the type of keys and values *)
Class Native (T : Type) := {
  to_string : T -> outcome (list byte);
  of_string : list byte -> outcome T;
}.
(** the specialisations of [convert] for strings return their argument *)
#[export] Instance string_native : Native (list byte) := {| to_string s := Ret s; of_string s := Ret s |}.
#[export] Instance int_native : Native int_t := {| to_string := convert; of_string := convert |}.
#[export] Instance bool_native : Native bool := {| to_string := convert; of_string := convert |}.

(** [GetLine], [GetDataSize] *)
Definition GetLine_string (out : list byte) : list byte := span (fun b => negb (bool_decide (b = LF))) out.
Definition GetDataSize_string (value : list byte) : nat := S (length value).

(** ** Typed [set] and [get] *)

Section typed.
Context {W X : Type} `{Native W} `{Native X}.

(** [set(const W key, const X value)] *)
Definition set_as (key : W) (value : X) (st : ini) : outcome (bool * ini) :=
  k ← to_string key;
  v ← to_string value;
  set k v st.
(** [X get(const W key, const X def)] *)
Definition get_as (key : W) (def : X) (st : ini) : outcome X :=
  k ← to_string key;
  d ← to_string def;
  v ← get k d st;
  of_string v.
(** [Y get(const W section, const X key, const Y def)] *)
Definition get3_as {S : Type} `{Native S} (section : S) (key : W) (def : X) (st : ini) : outcome (X * ini) :=
  s ← to_string section;
  k ← to_string key;
  d ← to_string def;
  '(v, st') ← get3 s k d st;
  r ← of_string v;
  Ret (r, st').
End typed.
(** [fini_string_t get(const W key, const fini_char_t* def)] *)
Definition get_str {W} `{Native W} (key : W) (def : list byte) (st : ini) : outcome (list byte) :=
  k ← to_string key;
  v ← get k def st;
  of_string v.

(** ** Decimal text *)

Lemma decimal_snoc ds d : decimal (ds ++ [d]) = decimal ds * 10 + (byte_Z d - 48).
Proof. unfold decimal. by rewrite fold_left_app. Qed.
Lemma digit_byte d : 0 <= d < 10 -> byte_Z (Z_byte (48 + d)) = 48 + d /\ isdigit (Z_byte (48 + d)) = true.
Proof.
  intros Hd. assert (E : byte_Z (Z_byte (48 + d)) = 48 + d).
  { assert (Hk : exists k, d = Z.of_nat k /\ (k < 10)%nat) by (exists (Z.to_nat d); lia).
    destruct Hk as (k & -> & Hk). do 10 (destruct k as [|k]; [by vm_compute|]). lia. }
  split; [done|]. unfold isdigit. rewrite E. apply andb_true_intro. split; apply Z.leb_le; lia.
Qed.

Lemma dec_digits_spec fuel v acc :
  0 <= v < 10 ^ Z.of_nat fuel -> (0 < fuel)%nat ->
  exists ds, dec_digits fuel v acc = ds ++ acc /\ ds <> [] /\ Forall (fun b => isdigit b = true) ds /\ decimal ds = v.
Proof.
  revert v acc. induction fuel as [|fuel IH]; intros v acc Hv Hf; [lia|]. cbn [dec_digits].
  pose proof (Z.mod_pos_bound v 10 ltac:(lia)) as Hm. destruct (digit_byte (v mod 10) Hm) as [Hb Hd].
  destruct (Z.ltb_spec v 10) as [Hlt|Hge].
  - exists [Z_byte (48 + v mod 10)]. split_and!; [done|done|by apply list.Forall_singleton|].
    unfold decimal. cbn [fold_left]. rewrite Hb, Z.mod_small by lia. lia.
  - rewrite Nat2Z.inj_succ, Z.pow_succ_r in Hv by lia.
    assert (Hq : 0 <= v / 10 < 10 ^ Z.of_nat fuel).
    { split; [apply Z.div_pos; lia|apply Z.div_lt_upper_bound; lia]. }
    destruct (IH (v / 10) (Z_byte (48 + v mod 10) :: acc) Hq) as (ds & -> & Hne & Hall & Hdec).
    { destruct fuel; [simpl in Hq; lia|lia]. }
    exists (ds ++ [Z_byte (48 + v mod 10)]). split_and!.
    + by rewrite <- app_assoc.
    + by destruct ds.
    + apply Forall_app. split; [done|]. by apply list.Forall_singleton.
    + rewrite decimal_snoc, Hdec, Hb. pose proof (Z.div_mod v 10). lia.
Qed.

(** ** Reading what was printed *)

Lemma span_all p s : Forall (fun b => p b = true) s -> span p s = s.
Proof. induction 1 as [|c s Hc _ IH]; [done|]. simpl. by rewrite Hc, IH. Qed.
Lemma span_none p c s : p c = false -> span p (c :: s) = [].
Proof. intros Hc. simpl. by rewrite Hc. Qed.
Lemma sentry_word c s :
  isspace c = false -> sentry (mk_bs (c :: s) 0 false false) = (true, mk_bs (c :: s) 0 false false).
Proof. intros Hc. unfold sentry, ahead. simpl. rewrite Hc. done. Qed.
Lemma sentry_blank s :
  Forall (fun b => isspace b = true) s -> (sentry (mk_bs s 0 false false)).1 = false.
Proof.
  intros Hs. unfold sentry, ahead. simpl. rewrite drop_0, (span_all _ _ Hs). by rewrite decide_True by apply drop_all.
Qed.
Lemma digit_not_space b : isdigit b = true -> isspace b = false /\ b <> x2d /\ b <> x2b.
Proof.
  unfold isdigit. intros [H1%Z.leb_le H2%Z.leb_le]%andb_prop. destruct b; try done; exfalso; by apply H1 || by apply H2.
Qed.

Definition signed_text (neg : bool) (ds : list byte) : list byte := if neg then x2d :: ds else ds.
Definition signed_value (neg : bool) (ds : list byte) : Z := if neg then - decimal ds else decimal ds.
Lemma span_digits ds rest :
  Forall (fun b => isdigit b = true) ds -> span isdigit rest = [] -> span isdigit (ds ++ rest) = ds.
Proof. intros Hall Hr. induction Hall as [|x l Hx _ IH]; [done|]. simpl. by rewrite Hx, IH. Qed.

(** a number followed by something else, clamped to the range of the type *)
Lemma get_number lo hi neg ds rest :
  lo <= hi -> ds <> [] -> Forall (fun b => isdigit b = true) ds -> span isdigit rest = [] ->
  (get_int lo hi (mk_bs (signed_text neg ds ++ rest) 0 false false)).1
    = Some (Z.max lo (Z.min hi (signed_value neg ds))).
Proof.
  intros Hlo Hne Hall Hrest. pose proof (span_digits ds rest Hall Hrest) as Hspan.
  assert (Hfin : forall v f, (if v <? lo then (Some lo, set_fail f) else
    if hi <? v then (Some hi, set_fail f) else (Some v, f)).1 = Some (Z.max lo (Z.min hi v))).
  { intros v f. destruct (Z.ltb_spec v lo); [simpl; f_equal; lia|].
    destruct (Z.ltb_spec hi v); simpl; f_equal; lia. }
  unfold get_int, signed_value, signed_text. destruct neg.
  - cbn [app]. rewrite sentry_word by done. unfold ahead. cbn [text pos drop hd_error].
    rewrite bool_decide_eq_true_2 by done. cbn [orb drop]. rewrite drop_0. rewrite Hspan, decide_False by done. apply Hfin.
  - destruct ds as [|c ds]; [done|]. pose proof Hall as [Hc _]%list.Forall_cons.
    destruct (digit_not_space c Hc) as (Hsp & Hm & Hp). cbn [app] in *. rewrite sentry_word by done.
    unfold ahead. cbn [text pos drop hd_error]. rewrite !bool_decide_eq_false_2 by congruence. cbn [orb drop].
    rewrite Hspan, decide_False by done. apply Hfin.
Qed.
(** a word that is no number is read as 0 *)
Lemma get_no_number lo hi c s :
  isspace c = false -> isdigit c = false -> c <> x2d -> c <> x2b ->
  (get_int lo hi (mk_bs (c :: s) 0 false false)).1 = Some 0.
Proof.
  intros Hs Hd Hm Hp. unfold get_int. rewrite sentry_word by done. unfold ahead. cbn [text pos drop hd_error].
  rewrite !bool_decide_eq_false_2 by congruence. cbn [orb drop]. by rewrite (span_none _ _ _ Hd), decide_True.
Qed.
Lemma get_blank lo hi s :
  Forall (fun b => isspace b = true) s -> (get_int lo hi (mk_bs s 0 false false)).1 = None.
Proof.
  intros Hs. pose proof (sentry_blank s Hs) as Hb. unfold get_int. by destruct (sentry _) as [[] f].
Qed.

Lemma put_int_text n :
  - 10 ^ 19 < n < 10 ^ 19 ->
  exists neg ds, put_int n = signed_text neg ds /\ ds <> [] /\ Forall (fun b => isdigit b = true) ds /\
    signed_value neg ds = n.
Proof.
  intros Hn. unfold put_int. destruct (Z.ltb_spec n 0).
  - destruct (dec_digits_spec 19 (- n) []) as (ds & -> & Hne & Hall & Hd); [lia|lia|].
    exists true, ds. rewrite app_nil_r. split_and!; try done. simpl. lia.
  - destruct (dec_digits_spec 19 n []) as (ds & -> & Hne & Hall & Hd); [lia|lia|].
    exists false, ds. rewrite app_nil_r. by split_and!.
Qed.

Definition is_int (n : int_t) : Prop := int_min <= int_val n <= int_max.
Lemma int_text_word n :
  is_int n -> to_string n = Ret (put n).
Proof.
  intros Hn. unfold is_int, int_min, int_max in Hn. destruct (put_int_text (int_val n)) as (neg & ds & E & Hne & Hall & _); [lia|].
  cbn [to_string int_native]. unfold convert. cbn [extract string_streamed put int_streamed deref].
  rewrite E. unfold get_string.
  assert (Hw : Forall (fun b => negb (isspace b) = true) (signed_text neg ds)).
  { assert (Hds : Forall (fun b => negb (isspace b) = true) ds).
    { eapply Forall_impl; [exact Hall|]. intros b Hb. by destruct (digit_not_space b Hb) as [-> _]. }
    destruct neg; [|done]. by apply list.Forall_cons. }
  destruct (signed_text neg ds) as [|c w]; [done|].
  pose proof Hw as [Hc _]%list.Forall_cons. apply Bool.negb_true_iff in Hc. rewrite sentry_word by done.
  unfold ahead. cbn [text pos drop]. by rewrite (span_all _ _ Hw).
Qed.
Lemma int_of_text n : is_int n -> of_string (put n) = Ret n.
Proof.
  intros Hn. pose proof Hn as Hn'. unfold is_int, int_min, int_max in Hn'.
  destruct (put_int_text (int_val n)) as (neg & ds & E & Hne & Hall & Hv); [lia|].
  cbn [of_string int_native]. unfold convert. cbn [extract string_streamed put int_streamed].
  rewrite E. pose proof (get_number int_min int_max neg ds [] ltac:(done) Hne Hall eq_refl) as Hg.
  rewrite app_nil_r in Hg. rewrite Hg, Hv. simpl. f_equal. destruct n as [n]. f_equal. simpl in *.
  unfold int_min, int_max. lia.
Qed.

(** ** Typed access *)

Lemma get_as_int key d st p ks :
  is_int d -> current st = CPtr p -> objs st !! p = Some ks ->
  get_as key d st = (of_string (default (put d) (ks !! key)) : outcome int_t).
Proof.
  intros Hd Hc Hp. unfold get_as. cbn [to_string string_native]. cbn [mbind outcome_bind].
  rewrite int_text_word by done. unfold get, deref_current. rewrite Hc, Hp. done.
Qed.
Lemma set_Ret k v st p ks :
  current st = CPtr p -> objs st !! p = Some ks -> set k v st = Ret (true, set_obj p (<[k := v]> ks) st).
Proof. intros Hc Hp. unfold set. by rewrite Hc, Hp. Qed.

(** C33. Typed access to a selected section: an [int] that is set is what [get]
    returns, for every [int], and no other key changes; likewise a [bool]; a
    missing key gives the default. What a stored text gives as an [int]: the
    number it starts with, clamped to the range of [int]; 0, and not the default,
    when it starts with neither blank, digit nor sign; and when it is empty or
    blank the result is never assigned, and [get] returns an indeterminate
    value. *)
Theorem typed_access (st : ini) (p : N) (ks : gmap (list byte) (list byte)) (key : list byte) (n d : int_t) (b : bool) :
  current st = CPtr p -> objs st !! p = Some ks -> is_int n -> is_int d ->
  (exists st', set_as key n st = Ret (true, st') /\ get_as key d st' = Ret n /\
     forall key', key' <> key -> get_as key' d st' = get_as key' d st) /\
  (exists st', set_as key b st = Ret (true, st') /\ get_as key (negb b) st' = Ret b) /\
  (ks !! key = None -> get_as key d st = Ret d /\ get_as key b st = Ret b) /\
  (forall neg ds rest, ks !! key = Some (signed_text neg ds ++ rest) -> ds <> [] ->
     Forall (fun c => isdigit c = true) ds -> span isdigit rest = [] ->
     get_as key d st = Ret (mk_int (Z.max int_min (Z.min int_max (signed_value neg ds))))) /\
  (forall c w, ks !! key = Some (c :: w) -> isspace c = false -> isdigit c = false -> c <> x2d -> c <> x2b ->
     get_as key d st = Ret (mk_int 0)) /\
  (forall w, ks !! key = Some w -> Forall (fun c => isspace c = true) w -> is_UB (get_as key d st) = true).
Proof.
  intros Hc Hp Hn Hd. pose proof (fun k => get_as_int k d st p ks Hd Hc Hp) as Hget. split_and!.
  - exists (set_obj p (<[key := put n]> ks) st). split.
    + unfold set_as. cbn [to_string string_native]. cbn [mbind outcome_bind]. rewrite int_text_word by done.
      cbn [mbind outcome_bind]. by apply set_Ret.
    + set (st' := set_obj p _ st). assert (Hp' : objs st' !! p = Some (<[key := put n]> ks)) by apply lookup_insert_eq.
      split; [|intros key' Hne]; rewrite (get_as_int _ d st' p _ Hd Hc Hp').
      * rewrite lookup_insert_eq. by apply int_of_text.
      * by rewrite lookup_insert_ne, Hget by done.
  - exists (set_obj p (<[key := put b]> ks) st). split.
    + unfold set_as. destruct b; by apply set_Ret.
    + unfold get_as, get, deref_current. destruct b; simpl; rewrite Hc; simpl; rewrite lookup_insert_eq; simpl;
        rewrite lookup_insert_eq; by vm_compute.
  - intros Hk. rewrite Hget, Hk. split; [by apply int_of_text|]. unfold get_as, get, deref_current.
    destruct b; simpl; rewrite Hc; simpl; rewrite Hp; simpl; rewrite Hk; by vm_compute.
  - intros neg ds rest Hk Hne Hall Hr. rewrite Hget, Hk. simpl. unfold convert. simpl.
    by rewrite (get_number int_min int_max neg ds rest).
  - intros c w Hk Hs Hdg Hm Hpl. rewrite Hget, Hk. simpl. unfold convert. simpl. by rewrite get_no_number.
  - intros w Hk Hs. rewrite Hget, Hk. simpl. unfold convert. simpl. by rewrite get_blank.
Qed.

Definition typed_keys : gmap (list byte) (list byte) :=
  {[lit "speed" := lit "125k"; lit "name" := lit "a b"; lit "empty" := []]}.
Definition typed_ini : ini := mk_ini {[0%N := typed_keys]} {[lit "can" := 0%N]} (CPtr 0) 1.
Lemma typed_access_witness :
  get_as (lit "speed") (mk_int 7) typed_ini = Ret (mk_int 125) /\
  get_as (lit "name") (mk_int 7) typed_ini = Ret (mk_int 0) /\
  is_UB (get_as (lit "empty") (mk_int 7) typed_ini) = true /\
  exists st', set_as (lit "speed") (mk_int (-40)) typed_ini = Ret (true, st') /\
    get_as (lit "speed") (mk_int 7) st' = Ret (mk_int (-40)).
Proof.
  assert (Hi : forall n, - 50 <= n <= 50 -> is_int (mk_int n)).
  { intros n Hn. unfold is_int, int_min, int_max. simpl. lia. }
  assert (Hp : objs typed_ini !! 0%N = Some typed_keys) by apply lookup_singleton_eq.
  pose proof (fun k => typed_access typed_ini 0 typed_keys k (mk_int (-40)) (mk_int 7) true eq_refl Hp
    (Hi (-40) ltac:(lia)) (Hi 7 ltac:(lia))) as Ht.
  split_and!.
  - destruct (Ht (lit "speed")) as (_ & _ & _ & Hnum & _).
    rewrite (Hnum false (lit "125") (lit "k")); [by vm_compute|by vm_compute|done|repeat constructor|done].
  - destruct (Ht (lit "name")) as (_ & _ & _ & _ & Hno & _).
    apply (Hno x61 (lit " b")); by vm_compute.
  - destruct (Ht (lit "empty")) as (_ & _ & _ & _ & _ & Hb). apply (Hb []); [by vm_compute|constructor].
  - destruct (Ht (lit "speed")) as ((st' & E & Hg & _) & _). by exists st'.
Defined.
