(* ===== verification/IniOps.v ===== *)
(** * IniOps
    The class [Ini] of [libControlCAN/inc/ini.h] as a whole: every member
    function that changes the object as one step, what holds of the object
    after any sequence of them, and its destructor. [current] is left
    uninitialised by the constructors, and the implicit copy constructor copies
    the pointers of the sections: both are part of what is stated. *)

From Stdlib Require Import ZArith Lia.
From Stdlib Require Import Strings.Byte.
From stdpp Require Import base numbers list option gmap strings relations.
From S2P Require Import Prelude Ini IniBinary IniConvert.

(** [parse()]: the text is read into the object as it is; [None] is a file
    that cannot be opened *)
Definition parse (char_signed : bool) (content : option (list byte)) (st : ini) : outcome (bool * ini) :=
  match content with
  | None => Ret (false, st)
  | Some text =>
      st' ← parse_loop char_signed (parse_fuel text) true (mk_is text false false) st;
      Ret (true, st')
  end.

(** [clean()]: [delete] of every section's object *)
Fixpoint delete_all (ps : list N) (heap : gmap N (gmap (list byte) (list byte)))
    : outcome (gmap N (gmap (list byte) (list byte))) :=
  match ps with
  | [] => Ret heap
  | p :: ps =>
      _ ← deref "delete of an object that is not there" (heap !! p);
      delete_all ps (delete p heap)
  end.
Definition clean (st : ini) (heap : gmap N (gmap (list byte) (list byte)))
    : outcome (gmap N (gmap (list byte) (list byte))) :=
  delete_all (map_to_list (sections st)).*2 heap.

(** A call of a member function that returned. Through the reference that
    [operator[]] returns the caller may store any keys ([Op_assign]); the typed
    [set] and [get] convert their arguments. *)
Inductive ini_step (char_signed : bool) (st : ini) : ini -> Prop :=
| Op_index s p st' : index s st = (p, st') -> ini_step char_signed st st'
| Op_assign s p ks st' : index s st = (p, st') -> ini_step char_signed st (set_obj p ks st')
| Op_index2 s k v st' : index2 s k st = Ret (v, st') -> ini_step char_signed st st'
| Op_select s b st' : select s st = (b, st') -> ini_step char_signed st st'
| Op_create s b st' : create s st = (b, st') -> ini_step char_signed st st'
| Op_set k v b st' : set k v st = Ret (b, st') -> ini_step char_signed st st'
| Op_set_as W X (HW : Native W) (HX : Native X) (k : W) (v : X) b st' :
    set_as k v st = Ret (b, st') -> ini_step char_signed st st'
| Op_get3 s k def v st' : get3 s k def st = Ret (v, st') -> ini_step char_signed st st'
| Op_get3_as W X Y (HW : Native W) (HX : Native X) (HY : Native Y) (s : W) (k : X) (def v : Y) st' :
    get3_as s k def st = Ret (v, st') -> ini_step char_signed st st'
| Op_parse content b st' : parse char_signed content st = Ret (b, st') -> ini_step char_signed st st'
| Op_parseBinary n0 content b st' : parseBinary n0 content st = Ret (b, st') -> ini_step char_signed st st'
| Op_merge other retainValues st' :
    NoDup other.*1 -> Forall (fun sec : list byte * list (list byte * list byte) => NoDup (sec.2).*1) other ->
    merge other retainValues st = Ret st' -> ini_step char_signed st st'
| Op_clear : ini_step char_signed st (clear st).

(** ** The invariant *)

Lemma wf_get3 s k def st v st' : wf_ini st -> get3 s k def st = Ret (v, st') -> wf_ini st'.
Proof.
  intros Hwf. unfold get3. destruct (select s st) as [b st1] eqn:E. apply wf_select in E; [|done].
  destruct b; [intros (w & _ & [= _ <-])%bind_Ret_inv; done|by intros [= _ <-]].
Qed.
Lemma wf_parse cs content st b st' : wf_ini st -> parse cs content st = Ret (b, st') -> wf_ini st'.
Proof.
  intros Hwf H. destruct content as [text|]; cbn [parse] in H; [|by injection H as _ <-].
  apply bind_Ret_inv in H as (st1 & H & [= _ <-]). by eapply wf_parse_loop.
Qed.
Lemma wf_binary_keys j key value f st r st' :
  wf_ini st -> binary_keys j key value f st = Ret (r, st') -> wf_ini st'.
Proof.
  revert key value f st. induction j as [|j IH]; intros key value f st Hwf H; cbn [binary_keys] in H.
  { by injection H as _ <-. }
  destruct (get_string key f) as [k f1], (get_string value f1) as [v f2].
  apply bind_Ret_inv in H as ([b st1] & Hs & H). eapply IH; [|exact H]. by eapply wf_set.
Qed.
Lemma wf_binary_sections n i kc s k v f st st' :
  wf_ini st -> binary_sections n i kc s k v f st = Ret st' -> wf_ini st'.
Proof.
  revert i kc s k v f st. induction n as [|n IH]; intros i kc s k v f st Hwf H; cbn [binary_sections] in H.
  { by injection H as <-. }
  destruct (read_size _ _) as [kc1 f1]. destruct (get_string s f1) as [s1 f2].
  destruct (create s1 st) as [b st1] eqn:Ec. apply wf_create in Ec; [|done].
  apply bind_Ret_inv in H as ([[[k1 v1] f3] st2] & Hk & H).
  eapply IH; [|exact H]. by eapply wf_binary_keys.
Qed.
Lemma wf_parseBinary n0 content st b st' : wf_ini st -> parseBinary n0 content st = Ret (b, st') -> wf_ini st'.
Proof.
  intros Hwf H. destruct content as [t|]; cbn [parseBinary] in H; [|by injection H as _ <-].
  destruct (get_size _) as [[n|] f]; [|done].
  apply bind_Ret_inv in H as (st1 & H1 & [= _ <-]). by eapply wf_binary_sections.
Qed.
Lemma wf_clear st : wf_ini st -> wf_ini (clear st).
Proof.
  intros Hwf. split; simpl; try done. intros q [ks Hq].
  apply map_lookup_filter_Some in Hq as [Hq _]. apply (wf_fresh _ Hwf). by eexists.
Qed.

Lemma wf_assign s ks st p st' : wf_ini st -> index s st = (p, st') -> wf_ini (set_obj p ks st').
Proof.
  intros Hwf H. destruct (wf_index _ _ _ _ Hwf H) as [Hwf1 Hp].
  apply wf_set_obj; [done|]. by eapply wf_live.
Qed.
Lemma wf_set_as {W X} `{Native W} `{Native X} (k : W) (v : X) st b st' :
  wf_ini st -> set_as k v st = Ret (b, st') -> wf_ini st'.
Proof.
  intros Hwf (k1 & _ & (v1 & _ & Hs)%bind_Ret_inv)%bind_Ret_inv. by eapply wf_set.
Qed.
Lemma wf_get3_as {W X Y} `{Native W} `{Native X} `{Native Y} (s : W) (k : X) (def v : Y) st st' :
  wf_ini st -> get3_as s k def st = Ret (v, st') -> wf_ini st'.
Proof.
  intros Hwf (s1 & _ & (k1 & _ & (d1 & _ & ([v1 st1] & Hg & Hr)%bind_Ret_inv)%bind_Ret_inv)%bind_Ret_inv)%bind_Ret_inv.
  apply bind_Ret_inv in Hr as (r & _ & [= _ <-]). by eapply wf_get3.
Qed.
Lemma wf_merge other rv st st' :
  NoDup other.*1 -> Forall (fun sec : list byte * list (list byte * list byte) => NoDup (sec.2).*1) other ->
  wf_ini st -> merge other rv st = Ret st' -> wf_ini st'.
Proof.
  intros H1 H2 Hwf H. destruct (merge_spec rv other st) as (st1 & E & Hwf1 & _); [done..|].
  rewrite H in E. by injection E as <-.
Qed.

Lemma ini_step_wf cs st st' : ini_step cs st st' -> wf_ini st -> wf_ini st'.
Proof.
  intros Hs Hwf. destruct Hs as [s p st' E|s p ks st' E|s k v st' E|s b st' E|s b st' E|k v b st' E
    |W X HW HX k v b st' E|s k def v st' E|W X Y HW HX HY s k def v st' E|content b st' E|n0 content b st' E
    |other rv st' H1 H2 E|].
  - by apply wf_index in E as [? _].
  - exact (wf_assign _ _ _ _ _ Hwf E).
  - exact (wf_index2 _ _ _ _ _ Hwf E).
  - exact (wf_select _ _ _ _ Hwf E).
  - exact (wf_create _ _ _ _ Hwf E).
  - exact (wf_set _ _ _ _ _ Hwf E).
  - exact (wf_set_as _ _ _ _ _ Hwf E).
  - exact (wf_get3 _ _ _ _ _ _ Hwf E).
  - exact (wf_get3_as _ _ _ _ _ _ Hwf E).
  - exact (wf_parse _ _ _ _ _ Hwf E).
  - exact (wf_parseBinary _ _ _ _ _ Hwf E).
  - exact (wf_merge _ _ _ _ H1 H2 Hwf E).
  - exact (wf_clear _ Hwf).
Qed.

(** ** [current] once set stays set *)

Definition settles (st st' : ini) : Prop := current st' = CIndet -> current st = CIndet.
#[export] Instance settles_preorder : PreOrder settles.
Proof. split; [intros st|intros a b c]; unfold settles; auto. Qed.

Lemma settles_index s st p st' : index s st = (p, st') -> settles st st'.
Proof. unfold settles, index. destruct (sections st !! s); by intros [= _ <-]. Qed.
Lemma settles_select s st b st' : select s st = (b, st') -> settles st st'.
Proof. unfold settles, select. destruct (sections st !! s); by intros [= _ <-]. Qed.
Lemma settles_create s st b st' : create s st = (b, st') -> settles st st'.
Proof.
  unfold settles, create. destruct (select s st) as [[] st1] eqn:E; [|by intros [= _ <-]].
  intros [= _ <-]. by eapply settles_select.
Qed.
Lemma settles_set k v st b st' : set k v st = Ret (b, st') -> settles st st'.
Proof.
  unfold settles, set. destruct (current st) as [| |p] eqn:E; [done|intros [= _ <-]; congruence|].
  intros (ks & _ & [= _ <-])%bind_Ret_inv. simpl. congruence.
Qed.
Lemma settles_get3 s k def st v st' : get3 s k def st = Ret (v, st') -> settles st st'.
Proof.
  unfold get3. destruct (select s st) as [b st1] eqn:E. apply settles_select in E.
  destruct b; [by intros (w & _ & [= _ <-])%bind_Ret_inv|by intros [= _ <-]].
Qed.
Lemma settles_parse_line line st st' : parse_line line st = Ret st' -> settles st st'.
Proof.
  unfold settles, parse_line, parse_section, parse_key. destruct line as [|c line]; [by intros [= <-]|].
  destruct (is_comment _); [by intros [= <-]|]. case_decide.
  - by intros (sec & _ & [= <-])%bind_Ret_inv.
  - destruct (strtok x3d _) as [[skey r]|]; [|done]. destruct (strtok LF r) as [[sv q]|]; [|by intros [= <-]].
    intros (key & _ & E)%bind_Ret_inv. case_decide; [by injection E as <-|].
    by apply bind_Ret_inv in E as ([p ks] & _ & [= <-]).
Qed.
Lemma settles_parse cs content st b st' : parse cs content st = Ret (b, st') -> settles st st'.
Proof.
  destruct content as [text|]; cbn [parse]; [|by intros [= _ <-]].
  intros (st1 & H & [= _ <-])%bind_Ret_inv. revert H. generalize (parse_fuel text), true, (mk_is text false false).
  intros fuel. revert st. induction fuel as [|fuel IH]; intros st first f H; [done|].
  cbn [parse_loop] in H. destruct (eofbit f); [by injection H as <-|].
  destruct (getline f) as [buf f']. destruct (first && _); [by injection H as <-|].
  apply bind_Ret_inv in H as (st2 & H2 & H). etrans; [by eapply settles_parse_line|by eapply IH].
Qed.
Lemma settles_binary_keys j key value f st r st' :
  binary_keys j key value f st = Ret (r, st') -> settles st st'.
Proof.
  revert key value f st. induction j as [|j IH]; intros key value f st H; cbn [binary_keys] in H.
  { by injection H as _ <-. }
  destruct (get_string key f) as [k f1], (get_string value f1) as [v f2].
  apply bind_Ret_inv in H as ([b st1] & Hs & H). etrans; [by eapply settles_set|by eapply IH].
Qed.
Lemma settles_binary_sections n i kc s k v f st st' :
  binary_sections n i kc s k v f st = Ret st' -> settles st st'.
Proof.
  revert i kc s k v f st. induction n as [|n IH]; intros i kc s k v f st H; cbn [binary_sections] in H.
  { by injection H as <-. }
  destruct (read_size _ _) as [kc1 f1]. destruct (get_string s f1) as [s1 f2].
  destruct (create s1 st) as [b st2] eqn:Ec.
  apply bind_Ret_inv in H as ([[[k1 v1] f3] st3] & Hk & H).
  etrans; [by eapply settles_create|]. etrans; [by eapply settles_binary_keys|by eapply IH].
Qed.
Lemma settles_parseBinary n0 content st b st' : parseBinary n0 content st = Ret (b, st') -> settles st st'.
Proof.
  destruct content as [t|]; cbn [parseBinary]; [|by intros [= _ <-]].
  destruct (get_size _) as [[n|] f]; [|done]. intros (st1 & H & [= _ <-])%bind_Ret_inv.
  by eapply settles_binary_sections.
Qed.
Lemma settles_merge_keys rv p kvs st st' : merge_keys rv p kvs st = Ret st' -> settles st st'.
Proof.
  revert st. induction kvs as [|kv kvs IH]; intros st H; cbn [merge_keys] in H; [by injection H as <-|].
  apply bind_Ret_inv in H as (st1 & H1 & H). etrans; [|by eapply IH]. revert H1. unfold settles, merge_key.
  intros (ks & _ & H1)%bind_Ret_inv. destruct (ks !! kv.1), rv; by injection H1 as <-.
Qed.
Lemma settles_merge other rv st st' : merge other rv st = Ret st' -> settles st st'.
Proof.
  revert st. induction other as [|[s kvs] other IH]; intros st H; cbn [merge] in H; [by injection H as <-|].
  destruct (select s st) as [b st0] eqn:Es. apply settles_select in Es. etrans; [exact Es|]. destruct b.
  - apply bind_Ret_inv in H as ([p ks] & _ & H). apply bind_Ret_inv in H as (st1 & H1 & H).
    etrans; [by eapply settles_merge_keys|by eapply IH].
  - cbn [new_keys] in H. apply IH in H. exact H.
Qed.
Lemma ini_step_settles cs st st' : ini_step cs st st' -> settles st st'.
Proof.
  intros Hs. destruct Hs as [s p st' E|s p ks st' E|s k v st' E|s b st' E|s b st' E|k v b st' E
    |W X HW HX k v b st' E|s k def v st' E|W X Y HW HX HY s k def v st' E|content b st' E|n0 content b st' E
    |other rv st' H1 H2 E|].
  - by apply settles_index in E.
  - by apply settles_index in E.
  - unfold index2 in E. destruct (index s st) as [p st1] eqn:Ei. apply settles_index in Ei.
    apply bind_Ret_inv in E as (ks & _ & E). destruct (ks !! k); by injection E as _ <-.
  - by apply settles_select in E.
  - by apply settles_create in E.
  - by apply settles_set in E.
  - apply bind_Ret_inv in E as (k1 & _ & E). apply bind_Ret_inv in E as (v1 & _ & E). by apply settles_set in E.
  - by apply settles_get3 in E.
  - do 3 apply bind_Ret_inv in E as (? & _ & E). apply bind_Ret_inv in E as ([v1 st1] & Hg & E).
    apply bind_Ret_inv in E as (r & _ & [= _ <-]). by apply settles_get3 in Hg.
  - by apply settles_parse in E.
  - by apply settles_parseBinary in E.
  - by apply settles_merge in E.
  - done.
Qed.

(** ** Destruction *)

Lemma delete_all_live ps heap :
  NoDup ps -> Forall (fun p => is_Some (heap !! p)) ps ->
  delete_all ps heap = Ret (filter (fun '(p, _) => p ∉ ps) heap).
Proof.
  revert heap. induction ps as [|p ps IH]; intros heap Hnd Hlive; cbn [delete_all].
  - f_equal. symmetry. apply map_filter_id. intros. by apply not_elem_of_nil.
  - apply NoDup_cons in Hnd as [Hp Hnd]. apply list.Forall_cons in Hlive as [[ks Hks] Hlive].
    rewrite Hks. cbn [deref mbind outcome_bind]. rewrite IH; [|done|].
    + f_equal. apply map_eq. intros q. apply option_eq. intros kq.
      rewrite !map_lookup_filter_Some, lookup_delete_Some, not_elem_of_cons. naive_solver.
    + apply Forall_forall. intros q Hq. rewrite Forall_forall in Hlive.
      rewrite lookup_delete_ne; [by apply Hlive|]. by intros <-.
Qed.

Lemma section_objects st :
  wf_ini st -> NoDup (map_to_list (sections st)).*2 /\
  Forall (fun p => is_Some (objs st !! p)) (map_to_list (sections st)).*2.
Proof.
  intros Hwf. split.
  - apply NoDup_fmap_2_strong; [|apply NoDup_map_to_list]. intros [s1 p1] [s2 p2] H1 H2 Heq. simpl in Heq. subst p2.
    apply elem_of_map_to_list in H1, H2. f_equal. by eapply wf_unshared.
  - apply Forall_fmap, Forall_forall. intros [s p] Hin. apply elem_of_map_to_list in Hin. by eapply wf_live.
Qed.

(** [~Ini()] of an object deletes exactly the objects of its sections *)
Lemma clean_clear st : wf_ini st -> clean st (objs st) = Ret (objs (clear st)).
Proof. intros Hwf. destruct (section_objects st Hwf). unfold clean. by rewrite delete_all_live. Qed.

(** a copy made by the implicit copy constructor holds the same pointers: the
    second of the two destructors deletes what the first has deleted *)
Lemma copy_clean_twice st :
  wf_ini st -> sections st <> ∅ ->
  is_UB (heap ← clean st (objs st); clean st heap) = true.
Proof.
  intros Hwf Hne. rewrite clean_clear by done. cbn [mbind outcome_bind]. unfold clean.
  destruct (map_to_list (sections st)) as [|[s p] l] eqn:E.
  { by apply map_to_list_empty_iff in E. }
  assert (Hn : objs (clear st) !! p = None).
  { simpl. apply map_lookup_filter_None. right. intros ks _ Hni. apply Hni. rewrite E. by left. }
  cbn [fmap list_fmap snd delete_all]. by rewrite Hn.
Qed.

(** ** What [current] is good for *)

(** [set] and [get] on the selected section *)
Definition current_works (st : ini) : Prop :=
  match current st with
  | CPtr p =>
      (exists s, sections st !! s = Some p) /\
      forall k v, exists st', set k v st = Ret (true, st') /\ get k [] st' = Ret v
  | CNull => forall k v, set k v st = Ret (false, st) /\ is_UB (get k v st) = true
  | CIndet => forall k v, is_UB (set k v st) = true /\ is_UB (get k v st) = true
  end.

Lemma wf_current_works st : wf_ini st -> current_works st.
Proof.
  intros Hwf. unfold current_works. destruct (current st) as [| |p] eqn:E.
  - intros k v. unfold set, get, deref_current. by rewrite E.
  - intros k v. unfold set, get, deref_current. by rewrite E.
  - destruct (wf_current _ Hwf p E) as [s Hs]. split; [by exists s|]. intros k v.
    destruct (wf_live _ Hwf _ _ Hs) as [ks Hks]. exists (set_obj p (<[k := v]> ks) st).
    unfold set, get, deref_current. rewrite E, Hks. split; [done|].
    simpl. rewrite E, lookup_insert_eq. simpl. by rewrite lookup_insert_eq.
Qed.

(** C34. The class [Ini] through any sequence of calls, whatever the files and the
    arguments: after the constructor (with or without parsing) and any of
    [operator[]] (and writes through the reference it returns), [select],
    [create], [set], the [get]s that select a section, [parse], [parseBinary],
    [merge] and [clear], the section pointers are live and no two sections share
    one. [current] is the object of one of the sections, in which what [set]
    stores [get] finds; or null, after [clear], when [set] refuses and [get]
    is undefined; or still what the constructor left, uninitialised, when both
    are undefined; once set it is never uninitialised again, and [create] and a
    successful [select] set it. The destructor deletes each section's object
    once; the two destructors of an object and its implicit copy delete the
    objects of a non-empty one twice, which is undefined. *)
Theorem ini_operations_keep_invariant (char_signed : bool) (content : option (list byte)) (st0 st : ini) :
  st0 = ini_new \/ ini_parse char_signed content = Ret st0 ->
  rtc (ini_step char_signed) st0 st ->
  wf_ini st /\ current_works st /\
  (current st0 <> CIndet -> current st <> CIndet) /\
  (forall s st', snd (create s st) = st' \/ select s st = (true, st') -> exists p, current st' = CPtr p) /\
  clean st (objs st) = Ret (objs (clear st)) /\
  (sections st <> ∅ -> is_UB (heap ← clean st (objs st); clean st heap) = true).
Proof.
  intros H0 Hs.
  assert (Hwf0 : wf_ini st0).
  { destruct H0 as [->|H0]; [apply wf_new|]. destruct content as [text|]; [|injection H0 as <-; apply wf_new].
    eapply wf_parse_loop; [apply wf_new|exact H0]. }
  assert (Hall : wf_ini st /\ settles st0 st).
  { clear H0. induction Hs as [st|a b c Hab _ IH]; [done|].
    destruct IH as [H1 H2]; [by eapply ini_step_wf|]. split; [done|].
    etrans; [by eapply ini_step_settles|exact H2]. }
  destruct Hall as [Hwf Hset]. split_and!.
  - done.
  - by apply wf_current_works.
  - intros Hn Hc. by apply Hn, Hset.
  - intros s st' Hst. unfold create, select in Hst.
    destruct (sections st !! s) as [p|]; destruct Hst as [Hst|Hst]; simpl in Hst; simplify_eq; by eexists.
  - by apply clean_clear.
  - by apply copy_clean_twice.
Qed.

(** a file is read, another object merged into it, a value read from one of its
    sections and one stored there *)
Definition sample_file : list byte := lit "[Server]" ++ [LF] ++ lit "IpPort=9999" ++ [LF].
Definition sample_other : list (list byte * list (list byte * list byte)) :=
  [(lit "S", [(lit "a", lit "b")])].
Definition result (o : outcome ini) : ini := match o with Ret st => st | _ => ini_new end.
Definition ini_read : ini := result (ini_parse true (Some sample_file)).
Definition ini_merged : ini := result (merge sample_other true ini_read).
Definition ini_selected : ini :=
  result ('(_, st) ← get3 (lit "Server") (lit "IpPort") [] ini_merged; Ret st).
Definition ini_stored : ini := result ('(_, st) ← set (lit "k") (lit "v") ini_selected; Ret st).

Lemma ini_operations_keep_invariant_witness :
  lookup_ini ini_stored (lit "S") (lit "a") = Some (lit "b") /\
  lookup_ini ini_stored (lit "Server") (lit "k") = Some (lit "v") /\
  wf_ini ini_stored /\ current_works ini_stored /\ current ini_stored <> CIndet /\
  clean ini_stored (objs ini_stored) = Ret (objs (clear ini_stored)) /\
  is_UB (heap ← clean ini_stored (objs ini_stored); clean ini_stored heap) = true.
Proof.
  assert (H0 : ini_parse true (Some sample_file) = Ret ini_read) by (vm_compute; reflexivity).
  assert (H1 : merge sample_other true ini_read = Ret ini_merged) by (vm_compute; reflexivity).
  assert (H2 : get3 (lit "Server") (lit "IpPort") [] ini_merged = Ret (lit "9999", ini_selected))
    by (vm_compute; reflexivity).
  assert (H3 : set (lit "k") (lit "v") ini_selected = Ret (true, ini_stored)) by (vm_compute; reflexivity).
  assert (Hs : rtc (ini_step true) ini_read ini_stored).
  { eapply rtc_l; [refine (Op_merge _ _ _ _ _ _ _ H1)|].
    - apply NoDup_singleton.
    - apply list.Forall_singleton. apply NoDup_singleton.
    - eapply rtc_l; [exact (Op_get3 _ _ _ _ _ _ _ H2)|]. apply rtc_once. exact (Op_set _ _ _ _ _ _ H3). }
  destruct (ini_operations_keep_invariant true (Some sample_file) ini_read ini_stored (or_intror H0) Hs)
    as (W & C & K & _ & D & T).
  split; [vm_compute; reflexivity|]. split; [vm_compute; reflexivity|].
  split; [exact W|]. split; [exact C|]. split; [apply K; vm_compute; discriminate|].
  split; [exact D|]. apply T. intros He.
  apply (f_equal (fun m => bool_decide (is_Some (m !! lit "S")))) in He. vm_compute in He. discriminate.
Defined.
