(* ===== verification/Format.v ===== *)
(** * Format
    The string formatting helper [include/format.hpp]: [util::format] with its
    items [{index}], [{index,alignment}] and [{index:format}]. An argument is
    the text its [operator<<] prints; the array of arguments is a parameter,
    since the function meant to fill it, [Transfer], is not declared. *)

From Stdlib Require Import ZArith Lia.
From Stdlib Require Import Strings.Byte.
From stdpp Require Import base numbers list option strings.
From S2P Require Import Prelude HexCodec Ini IniBinary IniConvert.

(** ** The library *)

(** [strtol(s, &endptr, 10)]: the value, clamped to [long], and the text at
    [endptr], which is [s] itself when there is no number *)
Definition strtol (s : list byte) : Z * list byte :=
  let r := drop (length (span isspace s)) s in
  let neg := bool_decide (hd_error r = Some x2d) in
  let sign := if neg || bool_decide (hd_error r = Some x2b) then 1%nat else 0%nat in
  let digits := span isdigit (drop sign r) in
  if decide (digits = []) then (0, s)
  else (Z.max long_min (Z.min long_max (signed_value neg digits)), drop (sign + length digits) r).

(** [s.find(c, start)], [s.substr(pos, n)] and [s[i]] *)
Definition str_find (c : byte) (s : list byte) (start : nat) : option nat :=
  (fun x => (start + x.1)%nat) <$> list_find (eq c) (drop start s).
Definition substr (s : list byte) (pos n : nat) : outcome (list byte) :=
  if decide (pos <= length s)%nat then Ret (take n (drop pos s)) else Throw "std::out_of_range".
Definition str_at (s : list byte) (i : nat) : outcome byte :=
  if decide (i <= length s)%nat then Ret (default NUL (s !! i)) else UB "operator[]".

(** ** [formatItem] *)

(** [Arg::format]: the format text is not used *)
Definition Arg_format (arg fmt : list byte) : list byte := arg.
(** the alignment: what it does to the next output *)
Definition align (alignment : Z) : outcome (list byte -> list byte) :=
  if 0 <? alignment then Ret (setw (Z.to_nat alignment) x20)
  else if alignment <? 0 then
    if alignment =? int_min then UB "-alignment overflows"
    else Ret (fun s => s ++ repeat x20 (Z.to_nat (- alignment) - length s))
  else Ret (fun s => s).
(** [formatItem(ss, item, args)]: what is appended to [ss] *)
Definition formatItem (item : list byte) (args : list (list byte)) : outcome (list byte) :=
  let '(index, endptr) := strtol item in
  if (index <? 0) || (Z.of_nat (length args) <=? index) then Ret []
  else
    '(pad, endptr2) ← match endptr with
                      | x2c :: r => let '(v, r') := strtol r in f ← align (i32 v); Ret (f, r')
                      | _ => Ret (fun s => s, endptr)
                      end;
    let fmt := match endptr2 with x3a :: r => r | _ => [] end in
    arg ← deref "args[index]" (args !! Z.to_nat index);
    Ret (pad (Arg_format arg fmt)).

(** ** [format] *)

Fixpoint format_loop (fuel : nat) (format : list byte) (args : list (list byte)) (start : nat) (ss : list byte)
    : outcome (list byte) :=
  match fuel with
  | O => Blocked
  | S fuel =>
      match str_find x7b format start with
      | None => t ← substr format start (length format); Ret (ss ++ t)
      | Some pos =>
          t ← substr format start (pos - start);
          c ← str_at format (pos + 1);
          if decide (c = x7b) then format_loop fuel format args (pos + 2) (ss ++ t ++ [x7b])
          else
            let start1 := (pos + 1)%nat in
            match str_find x7d format start1 with
            | None => t2 ← substr format (start1 - 1) (length format); Ret (ss ++ t ++ t2)
            | Some pos2 =>
                item ← substr format start1 (pos2 - start1);
                t2 ← formatItem item args;
                format_loop fuel format args (pos2 + 1) (ss ++ t ++ t2)
            end
      end
  end.
(** one round per opening brace, and one more *)
Definition util_format (format : list byte) (args : list (list byte)) : outcome (list byte) :=
  if decide (args = []) then Ret format else format_loop (S (length format)) format args 0 [].

(** ** What it computes *)

(** the text read once, character by character *)
Inductive mode : Type := Text | Item (acc : list byte).
Fixpoint render (args : list (list byte)) (m : mode) (s : list byte) : outcome (list byte) :=
  match s, m with
  | [], Text => Ret []
  | [], Item acc => Ret (x7b :: acc)
  | c :: s', Text =>
      if decide (c = x7b) then
        match s' with
        | x7b :: s'' => t ← render args Text s''; Ret (x7b :: t)
        | _ => render args (Item []) s'
        end
      else t ← render args Text s'; Ret (c :: t)
  | c :: s', Item acc =>
      if decide (c = x7d) then t1 ← formatItem acc args; t2 ← render args Text s'; Ret (t1 ++ t2)
      else render args (Item (acc ++ [c])) s'
  end.

Lemma str_find_spec c s start :
  match str_find c s start with
  | Some pos => exists t u, drop start s = t ++ c :: u /\ c ∉ t /\ pos = (start + length t)%nat /\ drop (S pos) s = u
  | None => c ∉ drop start s
  end.
Proof.
  unfold str_find. destruct (list_find (eq c) (drop start s)) as [[i b]|] eqn:Ef; simpl.
  - apply list_find_Some in Ef as (Hi & <- & Hb). pose proof (lookup_lt_Some _ _ _ Hi).
    exists (take i (drop start s)), (drop (S i) (drop start s)). split_and!.
    + by rewrite take_drop_middle.
    + intros (j & Hj)%list_elem_of_lookup. apply lookup_take_Some in Hj as [Hj Hlt]. by apply (Hb j c Hj).
    + rewrite length_take_le by lia. done.
    + rewrite drop_drop. f_equal. lia.
  - apply list_find_None in Ef. rewrite list.Forall_forall in Ef. intros Hin. by apply (Ef c Hin).
Qed.

Lemma render_text args t s : x7b ∉ t -> render args Text (t ++ s) = (u ← render args Text s; Ret (t ++ u)).
Proof.
  induction t as [|c t IH]; intros Ht; [simpl; by destruct (render args Text s)|].
  apply not_elem_of_cons in Ht as [Hc Ht]. cbn [app render]. rewrite decide_False, IH by done.
  by destruct (render args Text s).
Qed.
Lemma render_item args t s acc : x7d ∉ t -> render args (Item acc) (t ++ s) = render args (Item (acc ++ t)) s.
Proof.
  revert acc. induction t as [|c t IH]; intros acc Ht; [by rewrite app_nil_r|].
  apply not_elem_of_cons in Ht as [Hc Ht]. cbn [app render]. rewrite decide_False, IH, <- app_assoc by done. done.
Qed.
Lemma render_open args u :
  hd_error u <> Some x7b -> render args Text (x7b :: u) = render args (Item []) u.
Proof. intros Hu. destruct u as [|c u]; [done|]. by destruct c. Qed.

(** the text at a brace that was found *)
Lemma substr_found s start t c u :
  drop start s = t ++ c :: u -> (start <= length s)%nat ->
  substr s start (start + length t - start) = Ret t /\ (S (start + length t) <= length s)%nat /\
  drop (start + length t) s = c :: u.
Proof.
  intros Hd Hs. pose proof (f_equal length Hd) as Hl. rewrite length_drop, length_app in Hl. simpl in Hl.
  unfold substr. rewrite decide_True, Hd by done. replace (start + length t - start)%nat with (length t) by lia.
  rewrite take_app_length. split_and!; [done|lia|]. rewrite <- drop_drop, Hd. apply drop_app_length.
Qed.

Lemma format_loop_spec fuel s args start ss :
  (start <= length s)%nat -> (length s - start < fuel)%nat ->
  format_loop fuel s args start ss = (t ← render args Text (drop start s); Ret (ss ++ t)).
Proof.
  revert start ss. induction fuel as [|fuel IH]; intros start ss Hs Hf; [lia|]. cbn [format_loop].
  pose proof (str_find_spec x7b s start) as Hfind. destruct (str_find x7b s start) as [pos|].
  - destruct Hfind as (t & u & Hd & Ht & -> & Hu). destruct (substr_found s start t x7b u Hd Hs) as (-> & Hle & Hdp).
    cbn [mbind outcome_bind]. unfold str_at. rewrite decide_True by lia. cbn [mbind outcome_bind].
    assert (Eu : s !! (start + length t + 1)%nat = hd_error u).
    { rewrite Nat.add_1_r, <- (Nat.add_0_r (S _)), <- lookup_drop, Hu. by destruct u. }
    rewrite Eu, Hd, render_text by done. case_decide as Hc.
    + destruct u as [|c u]; [done|]. simpl in Hc. subst c. rewrite IH.
      * replace (drop (start + length t + 2) s) with u.
        { cbn [render]. rewrite decide_True by done. destruct (render args Text u); cbn [mbind outcome_bind]; [|done..].
          by rewrite <- !app_assoc. }
        replace (start + length t + 2)%nat with (S (start + length t) + 1)%nat by lia. rewrite <- drop_drop, Hu. done.
      * apply (f_equal length) in Hu. rewrite length_drop in Hu. simpl in Hu. lia.
      * lia.
    + rewrite render_open by (intros E; by rewrite E in Hc). rewrite Nat.add_1_r.
      pose proof (str_find_spec x7d s (S (start + length t))) as Hfind. rewrite Hu in Hfind.
      destruct (str_find x7d s (S (start + length t))) as [pos2|].
      * destruct Hfind as (t' & u' & Hd' & Ht' & -> & Hu'). rewrite <- Hu in Hd'.
        destruct (substr_found s _ t' x7d u' Hd' Hle) as (-> & Hle' & _). cbn [mbind outcome_bind].
        rewrite <- Hu, Hd', render_item by done. cbn [render app]. rewrite decide_True by done.
        destruct (formatItem t' args) as [t2| | |]; cbn [mbind outcome_bind]; [|done..].
        rewrite IH by lia. rewrite Nat.add_1_r, Hu'.
        destruct (render args Text u'); cbn [mbind outcome_bind]; [|done..]. by rewrite <- !app_assoc.
      * unfold substr. replace (S (start + length t) - 1)%nat with (start + length t)%nat by lia.
        rewrite decide_True, Hdp by lia. cbn [mbind outcome_bind].
        rewrite <- (app_nil_r u), render_item, app_nil_l by (by rewrite ?app_nil_r).
        cbn [render mbind outcome_bind]. rewrite app_nil_r, take_ge; [done|].
        apply (f_equal length) in Hdp. rewrite length_drop in Hdp. lia.
  - unfold substr. rewrite decide_True by done. cbn [mbind outcome_bind].
    rewrite <- (app_nil_r (drop start s)) at 2. rewrite render_text by done. cbn [render mbind outcome_bind].
    rewrite app_nil_r, take_ge by (rewrite length_drop; lia). done.
Qed.

(** ** Items *)

Lemma strtol_number neg ds rest :
  ds <> [] -> Forall (fun b => isdigit b = true) ds -> span isdigit rest = [] ->
  strtol (signed_text neg ds ++ rest) = (Z.max long_min (Z.min long_max (signed_value neg ds)), rest).
Proof.
  intros Hne Hall Hrest. pose proof (span_digits ds rest Hall Hrest) as Hspan. unfold strtol, signed_text.
  destruct neg.
  - cbn [app]. rewrite (span_none isspace x2d) by done. cbn [length drop hd_error].
    rewrite bool_decide_eq_true_2 by done. cbn [orb drop]. rewrite drop_0, Hspan, decide_False by done. cbn [Nat.add drop].
    by rewrite drop_app_length.
  - destruct ds as [|c ds]; [done|]. pose proof Hall as [Hc _]%list.Forall_cons.
    destruct (digit_not_space c Hc) as (Hsp & Hm & Hp). cbn [app] in *. rewrite (span_none isspace c) by done.
    cbn [length drop hd_error]. rewrite !bool_decide_eq_false_2 by congruence. cbn [orb drop].
    rewrite Hspan, decide_False by done. cbn [Nat.add length drop]. by rewrite drop_app_length.
Qed.
Lemma strtol_int n rest :
  long_min <= n <= long_max -> span isdigit rest = [] -> strtol (put_int n ++ rest) = (n, rest).
Proof.
  unfold long_min, long_max. intros Hn Hr. destruct (put_int_text n) as (neg & ds & -> & Hne & Hall & Hv); [lia|].
  rewrite strtol_number, Hv by done. f_equal. unfold long_min, long_max. lia.
Qed.
Lemma int_no_brace n : - 10 ^ 19 < n < 10 ^ 19 -> x7d ∉ put_int n /\ hd_error (put_int n) <> Some x7b.
Proof.
  intros Hn. destruct (put_int_text n) as (neg & ds & -> & Hne & Hall & _); [lia|].
  rewrite list.Forall_forall in Hall. split.
  - intros Hin. assert (Hd : x7d ∈ ds) by (destruct neg; [by apply elem_of_cons in Hin as [?|?]|done]). by apply Hall in Hd.
  - destruct neg; [done|]. destruct ds as [|c ds]; [done|]. intros [= ->]. by specialize (Hall x7b ltac:(by left)).
Qed.

(** an item alone *)
Lemma render_one args item :
  x7d ∉ item -> hd_error item <> Some x7b ->
  render args Text (x7b :: item ++ [x7d]) = formatItem item args.
Proof.
  intros Hi Hh. rewrite render_open by (by destruct item). rewrite render_item by done. cbn [render app].
  rewrite decide_True by done. destruct (formatItem item args); cbn [mbind outcome_bind render]; [|done..]. by rewrite app_nil_r.
Qed.

Section items.
Variables (args : list (list byte)) (i : nat) (a : list byte).
Hypotheses (Ha : args !! i = Some a) (Hi : Z.of_nat i < 2 ^ 63).

Lemma index_in : (Z.of_nat i <? 0) || (Z.of_nat (length args) <=? Z.of_nat i) = false.
Proof. pose proof (lookup_lt_Some _ _ _ Ha). apply orb_false_intro; [apply Z.ltb_ge|apply Z.leb_gt]; lia. Qed.
Lemma formatItem_index fmt :
  span isdigit fmt = [] -> hd_error fmt <> Some x2c -> formatItem (put_int (Z.of_nat i) ++ fmt) args = Ret a.
Proof.
  intros Hd Hc. unfold formatItem. rewrite strtol_int by (unfold long_min, long_max; lia || done).
  rewrite index_in. assert (E : (match fmt with
    | x2c :: r => let '(v, r') := strtol r in f ← align (i32 v); Ret (f, r')
    | _ => Ret (fun s : list byte => s, fmt) end) = Ret (fun s : list byte => s, fmt)).
  { destruct fmt as [|c fmt]; [done|]. by destruct c. }
  rewrite E. cbn [mbind outcome_bind]. by rewrite Nat2Z.id, Ha.
Qed.
Lemma formatItem_aligned w fmt :
  int_min < w <= int_max -> span isdigit fmt = [] ->
  formatItem (put_int (Z.of_nat i) ++ x2c :: put_int w ++ fmt) args =
  Ret (if 0 <=? w then setw (Z.to_nat w) x20 a else a ++ repeat x20 (Z.to_nat (- w) - length a)).
Proof.
  intros Hw Hd. unfold int_min, int_max in Hw. unfold formatItem. rewrite strtol_int by (unfold long_min, long_max; lia || done).
  rewrite index_in. rewrite strtol_int by (unfold long_min, long_max; lia || done).
  replace (i32 w) with w by (unfold i32; rewrite Z.mod_small; lia). unfold align.
  destruct (Z.ltb_spec 0 w), (Z.leb_spec 0 w), (Z.ltb_spec w 0); try lia; cbn [mbind outcome_bind].
  - by rewrite Nat2Z.id, Ha.
  - assert (w = 0) as -> by lia. by rewrite Nat2Z.id, Ha.
  - rewrite (proj2 (Z.eqb_neq w int_min)) by (unfold int_min; lia). cbn [mbind outcome_bind]. by rewrite Nat2Z.id, Ha.
Qed.
End items.

(** text in which every opening brace is doubled *)
Definition escape (s : list byte) : list byte := s ≫= fun c => if decide (c = x7b) then [x7b; x7b] else [c].
Lemma render_escape args s : render args Text (escape s) = Ret s.
Proof.
  induction s as [|c s IH]; [done|]. unfold escape. rewrite bind_cons. fold (escape s). case_decide as Hc.
  - subst c. cbn [app render]. rewrite decide_True by done. by rewrite IH.
  - cbn [app render]. rewrite decide_False by done. by rewrite IH.
Qed.
Lemma util_format_renders s args : args <> [] -> util_format s args = render args Text s.
Proof.
  intros Hn. unfold util_format. rewrite decide_False by done. rewrite format_loop_spec, drop_0 by lia.
  by destruct (render args Text s).
Qed.

(** C24. [format] with arguments always terminates, never leaves its text, and is
    one reading of it: text is copied, a doubled opening brace stands for
    one, an unclosed item is copied. So any text survives when its opening
    braces are doubled; [{i}] and [{i:...}] become the argument [i],
    [{i,w}] the argument set to the right in [w] columns and [{i,-w}] to the
    left; an index beyond the arguments gives nothing, and an item without a
    number, such as [{}], the first argument. *)
Theorem format_renders (args : list (list byte)) (s : list byte) :
  args <> [] ->
  util_format s args = render args Text s /\
  util_format (escape s) args = Ret s /\
  (forall i a, args !! i = Some a -> Z.of_nat i < 2 ^ 63 ->
     (forall fmt, x7d ∉ fmt -> util_format ([x7b] ++ put_int (Z.of_nat i) ++ [x3a] ++ fmt ++ [x7d]) args = Ret a) /\
     util_format ([x7b] ++ put_int (Z.of_nat i) ++ [x7d]) args = Ret a /\
     forall w, int_min < w <= int_max ->
       util_format ([x7b] ++ put_int (Z.of_nat i) ++ [x2c] ++ put_int w ++ [x7d]) args =
       Ret (if 0 <=? w then setw (Z.to_nat w) x20 a else a ++ repeat x20 (Z.to_nat (- w) - length a))) /\
  (forall n, Z.of_nat (length args) <= n < 2 ^ 63 -> util_format ([x7b] ++ put_int n ++ [x7d]) args = Ret []) /\
  util_format [x7b; x7d] args = Ret (default [] (args !! 0%nat)).
Proof.
  intros Hn. rewrite util_format_renders by done. split; [done|]. split; [rewrite util_format_renders by done; apply render_escape|].
  assert (Hone : forall n item, - 10 ^ 19 < n < 10 ^ 19 -> x7d ∉ item ->
    util_format ([x7b] ++ put_int n ++ item ++ [x7d]) args = formatItem (put_int n ++ item) args).
  { intros n item Hr Hi. destruct (int_no_brace n Hr) as [Hb Hh]. rewrite util_format_renders, (app_assoc (put_int n)) by done.
    apply render_one; [by rewrite not_elem_of_app|]. destruct (put_int_text n Hr) as (neg & ds & E & Hne & _).
    rewrite E in *. destruct neg; [done|]. by destruct ds. }
  assert (Hnil : forall n, - 10 ^ 19 < n < 10 ^ 19 ->
    util_format ([x7b] ++ put_int n ++ [x7d]) args = formatItem (put_int n ++ []) args).
  { intros n Hr. apply (Hone n []); [done|apply not_elem_of_nil]. }
  split_and!.
  - intros i a Ha Hi. split_and!.
    + intros fmt Hf. rewrite (app_assoc [x3a]). rewrite Hone by (lia || (apply not_elem_of_cons; split; [done|exact Hf])). by apply formatItem_index.
    + rewrite Hnil by lia. by apply formatItem_index.
    + intros w Hw. pose proof Hw as Hw'. unfold int_min, int_max in Hw'.
      rewrite (app_assoc [x2c]). rewrite Hone; [|lia|].
      * cbn [app]. rewrite <- (app_nil_r (put_int w)). by apply formatItem_aligned.
      * apply not_elem_of_cons. split; [done|]. by destruct (int_no_brace w ltac:(lia)).
  - intros n Hr. rewrite Hnil by lia. unfold formatItem. rewrite strtol_int by (unfold long_min, long_max; lia || done).
    by rewrite (proj2 (Z.leb_le _ _)), orb_true_r by lia.
  - rewrite util_format_renders by done. destruct args as [|a args]; [done|]. change [x7b; x7d] with (x7b :: [] ++ [x7d]).
    rewrite render_one by (done || apply not_elem_of_nil). unfold formatItem. cbn [strtol]. done.
Qed.
Lemma format_renders_witness :
  util_format (lit "{1,4}{0,-4}|{{}") [lit "ab"; lit "xyz"] = Ret (lit " xyzab  |{}") /\
  util_format (lit "{1,5}") [lit "ab"; lit "xyz"] = Ret (lit "  xyz").
Proof.
  destruct (format_renders [lit "ab"; lit "xyz"] (lit "{1,4}{0,-4}|{{}")) as (E & _ & Hi & _); [done|]. split.
  - rewrite E. vm_compute. reflexivity.
  - destruct (Hi 1%nat (lit "xyz") eq_refl eq_refl) as (_ & _ & Hw). exact (Hw 5 ltac:(by vm_compute)).
Defined.
