(* ===== verification/NetClient.v ===== *)
(** * NetClient
    [CanImpCanNet] of [libControlCAN/src/lib_control_can_imp_net.cc]: the back
    end that reaches a CAN device through a [can_agent] over TCP. Commands are
    one text line each; received frames are lines found in [rx_buff_].

    Every call that runs [io_context_.run()] takes the schedule of that run
    (see AsioRun); [tx] records the bytes the socket has accepted. *)

From Stdlib Require Import ZArith Lia.
From Stdlib Require Import Strings.Byte.
From stdpp Require Import base numbers list option gmap strings.
From S2P Require Import Prelude UsbCan HexCodec AsioRun Ini.

(** ** Platform *)

(** What the platform fixes: the signedness of [char] and the values of the
    error codes the source names. *)
Class Platform := {
  char_signed : bool;
  errc_operation_canceled : Z;  (* boost::system::errc::operation_canceled *)
  asio_operation_aborted : Z;   (* boost::asio::error::operation_aborted *)
  errc_timed_out : Z;           (* boost::system::errc::timed_out *)
  canceled_nonzero : errc_operation_canceled <> 0;
  aborted_nonzero : asio_operation_aborted <> 0;
  timed_out_nonzero : errc_timed_out <> 0;
  codes_int : is_i32 errc_operation_canceled /\ is_i32 asio_operation_aborted /\ is_i32 errc_timed_out;
}.

Definition linux_x86_64 : Platform := {|
  char_signed := true; errc_operation_canceled := 125;
  asio_operation_aborted := 125; errc_timed_out := 110;
  canceled_nonzero := ltac:(discriminate); aborted_nonzero := ltac:(discriminate);
  timed_out_nonzero := ltac:(discriminate);
  codes_int := ltac:(unfold is_i32; lia) |}.
Definition linux_arm : Platform := {|
  char_signed := false; errc_operation_canceled := 125;
  asio_operation_aborted := 125; errc_timed_out := 110;
  canceled_nonzero := ltac:(discriminate); aborted_nonzero := ltac:(discriminate);
  timed_out_nonzero := ltac:(discriminate);
  codes_int := ltac:(unfold is_i32; lia) |}.
Definition windows : Platform := {|
  char_signed := true; errc_operation_canceled := 105;
  asio_operation_aborted := 995; errc_timed_out := 138;
  canceled_nonzero := ltac:(discriminate); aborted_nonzero := ltac:(discriminate);
  timed_out_nonzero := ltac:(discriminate);
  codes_int := ltac:(unfold is_i32; lia) |}.

(** ** State *)

Record net := mk_net {
  connected : bool;        (* _connected *)
  sock_addr : list byte;   (* _str_sock_addr *)
  sock_port : list byte;   (* _str_sock_port *)
  rx_buff : list byte;     (* rx_buff_, the readable bytes *)
  sock_open : bool;        (* client_socket_ is open *)
  tx : list byte;          (* bytes written to the peer so far *)
}.

Definition set_connected (b : bool) (st : net) : net :=
  mk_net b (sock_addr st) (sock_port st) (rx_buff st) (sock_open st) (tx st).
Definition set_rx (r : list byte) (st : net) : net :=
  mk_net (connected st) (sock_addr st) (sock_port st) r (sock_open st) (tx st).
Definition set_open (b : bool) (st : net) : net :=
  mk_net (connected st) (sock_addr st) (sock_port st) (rx_buff st) b (tx st).
Definition add_tx (d : list byte) (st : net) : net :=
  mk_net (connected st) (sock_addr st) (sock_port st) (rx_buff st) (sock_open st) (tx st ++ d).
(** [_connected.store(false); client_socket_.close();] *)
Definition disconnect (st : net) : net := set_open false (set_connected false st).

Section client.
Context `{Platform}.

(** [CanImpCanNet::CanImpCanNet()]: [content] is [control_can.ini] *)
Definition CanImpCanNet (content : option (list byte)) : outcome net :=
  match content with
  | None => Ret (mk_net false [] [] [] false [])
  | Some _ =>
      ini0 ← ini_parse char_signed content;
      '(addr, ini1) ← index2 (lit "Server") (lit "IpAddr") ini0;
      '(port, _) ← index2 (lit "Server") (lit "IpPort") ini1;
      Ret (mk_net false addr port [] false [])
  end.

(** [CanImpCanNet::~CanImpCanNet()] *)
Definition CanImpCanNet_dtor (st : net) : net :=
  if connected st then set_open false st else st.

(** ** Connecting *)

(** handlers of [connect]; the user state is [error] *)
Definition connect_on_op (e : Z) (_ : Z) : outcome (Z * list action) :=
  Ret (e, if e =? errc_operation_canceled then [] else [CancelTimer]).
Definition connect_on_tm (e : Z) (error : Z) : outcome (Z * list action) :=
  if e =? 0 then Ret (errc_timed_out, [CancelSocket]) else Ret (error, []).

(** [connect(host, service, timeoutMs)]; [resolves] tells whether the name
    resolution of host and service finds an endpoint (it throws otherwise).
    [async_connect] opens the socket before its first attempt. *)
Definition connect (resolves : list byte -> list byte -> bool)
    (sched : list (event unit)) (host service : list byte) (st : net) : outcome (Z * net) :=
  if resolves host service then
    error ← io_run asio_operation_aborted (fun _ _ => None) (fun _ => true)
              connect_on_op connect_on_tm sched (mk_io OPending TPending 0);
    Ret (error, set_open true st)
  else Throw "resolve".

(** ** Writing a line *)

Record wr := mk_wr { wr_ec : Z; wr_sent : nat }.
Definition wr_deliver (len : nat) (n : nat) (u : wr) : option wr :=
  if decide (wr_sent u + n <= len)%nat then Some (mk_wr (wr_ec u) (wr_sent u + n)) else None.
Definition wr_can_succeed (len : nat) (u : wr) : bool := bool_decide (wr_sent u = len).
Definition write_on_op (e : Z) (u : wr) : outcome (wr * list action) :=
  Ret (mk_wr e (wr_sent u), if e =? 0 then [CancelTimer] else []).
Definition write_on_tm (e : Z) (u : wr) : outcome (wr * list action) :=
  if e =? 0 then Ret (mk_wr errc_operation_canceled (wr_sent u), [CancelSocket])
  else Ret (u, []).

Definition write_run (sched : list (event nat)) (len : nat) (ec : Z) : outcome wr :=
  io_run asio_operation_aborted (wr_deliver len) (wr_can_succeed len)
    write_on_op write_on_tm sched (mk_io OPending TPending (mk_wr ec 0)).

(** what [write_line] returns for the final [ec] *)
Definition write_ret (len : nat) (ec : Z) : Z :=
  if ec =? 0 then Z.of_nat len
  else if negb (ec =? errc_operation_canceled) then - Z.abs ec
  else 0.

(** [write_line(p, len, ec)]: the return value, [ec] and the new state *)
Definition write_line (sched : list (event nat)) (p : list byte) (ec : Z) (st : net)
    : outcome (Z * Z * net) :=
  u ← write_run sched (length p) ec;
  Ret (write_ret (length p) (wr_ec u), wr_ec u, add_tx (take (wr_sent u) p) st).

(** the statements after [bin2hex_fast] that every command repeats:
    [write_line]; on an error code, disconnect; compare the counts (a
    [size_t] with an [int]) *)
Definition send_line (bufsize : nat) (args : list arg) (sched : list (event nat)) (st : net)
    : outcome (bool * net) :=
  '(buff, size) ← bin2hex_fast (repeat NUL bufsize) 0 args;
  '(ierror, ec, st1) ← write_line sched (take size buff) 0 st;
  let st2 := if ec =? 0 then st1 else disconnect st1 in
  Ret (Z.of_nat size =? u64 ierror, st2).
Definition status (ok : bool) : vciReturnType := if ok then STATUS_OK else STATUS_ERR.

(** ** Commands *)

Definition DWORDp (v : Z) : arg := ABin (le_bytes 4 v).

Definition VCI_OpenDevice (resolves : list byte -> list byte -> bool)
    (sched_c : list (event unit)) (sched : list (event nat))
    (deviceType deviceInd reserved : Z) (st : net) : outcome (vciReturnType * net) :=
  if bool_decide (sock_addr st = []) || bool_decide (sock_port st = [])
  then Ret (STATUS_NET_CONN_FAIL, st)
  else
    '(ec, st1) ← (if connected st then Ret (0, st)
                  else connect resolves sched_c (sock_addr st) (sock_port st) st);
    if negb (ec =? 0) then Ret (STATUS_NET_CONN_FAIL, st1)
    else
      '(ok, st2) ← send_line 128 [AStr (lit "VCI_OpenDevice,"); DWORDp deviceType;
          DWORDp deviceInd; DWORDp reserved; AStr [LF]] sched (set_connected true st1);
      Ret (status ok, st2).

Definition VCI_CloseDevice (sched : list (event nat)) (deviceType deviceInd : Z) (st : net)
    : outcome (vciReturnType * net) :=
  if negb (connected st) then Ret (STATUS_ERR, st)
  else
    '(ok, st1) ← send_line 128 [AStr (lit "VCI_CloseDevice,"); DWORDp deviceType;
        DWORDp deviceInd; AStr [LF]] sched st;
    if negb ok then Ret (STATUS_ERR, st1) else Ret (STATUS_OK, disconnect st1).

Definition VCI_ReadBoardInfo (deviceType deviceInd : Z) (st : net) : vciReturnType := STATUS_ERR.

(** a null [pInitConfig] is dereferenced by [bin2hex_fast] *)
Definition VCI_InitCAN (sched : list (event nat)) (deviceType deviceInd canInd : Z)
    (pInitConfig : option VCI_INIT_CONFIG) (st : net) : outcome (vciReturnType * net) :=
  if negb (connected st) then Ret (STATUS_ERR, st)
  else
    cfg ← deref "null pInitConfig" pInitConfig;
    '(ok, st1) ← send_line 256 [AStr (lit "VCI_InitCAN,"); DWORDp deviceType;
        DWORDp deviceInd; DWORDp canInd; ABin (enc_INIT_CONFIG cfg); AStr [LF]] sched st;
    Ret (status ok, st1).

Definition VCI_ReadErrInfo (sched : list (event nat)) (deviceType deviceInd canInd : Z)
    (pErrInfo : option VCI_ERR_INFO) (st : net) : outcome (vciReturnType * net) :=
  match connected st, pErrInfo with
  | true, Some info =>
      '(ok, st1) ← send_line 256 [AStr (lit "VCI_ReadErrInfo,"); DWORDp deviceType;
          DWORDp deviceInd; DWORDp canInd; ABin (enc_ERR_INFO info); AStr [LF]] sched st;
      Ret (status ok, st1)
  | _, _ => Ret (STATUS_ERR, st)
  end.

Definition VCI_ReadCANStatus (deviceType deviceInd canInd : Z) (st : net) : vciReturnType :=
  STATUS_ERR.
Definition VCI_GetReference (deviceType deviceInd canInd refType : Z) (st : net)
    : vciReturnType := STATUS_ERR.
Definition VCI_SetReference (deviceType deviceInd canInd refType : Z) (st : net)
    : vciReturnType := STATUS_ERR.
Definition VCI_GetReceiveNum (deviceType deviceInd canInd : Z) (st : net) : Z := 1.

(** the three commands whose only arguments are the device and the channel *)
Definition channel_command (name : list byte) (sched : list (event nat))
    (deviceType deviceInd canInd : Z) (st : net) : outcome (vciReturnType * net) :=
  if negb (connected st) then Ret (STATUS_ERR, st)
  else
    '(ok, st1) ← send_line 256 [AStr name; DWORDp deviceType; DWORDp deviceInd;
        DWORDp canInd; AStr [LF]] sched st;
    Ret (status ok, st1).
Definition VCI_ClearBuffer := channel_command (lit "VCI_ClearBuffer,").
Definition VCI_StartCAN := channel_command (lit "VCI_StartCAN,").
Definition VCI_ResetCAN := channel_command (lit "VCI_ResetCAN,").

(** [VCI_Transmit]: one line per frame, [ec] shared by the iterations; [i] is
    the next index. A frame outside the caller's array is undefined. *)
Definition transmit_args (deviceType deviceInd canInd : Z) (o : VCI_CAN_OBJ) : list arg :=
  [AStr (lit "VCI_Transmit,"); DWORDp deviceType; DWORDp deviceInd; DWORDp canInd;
   ABin (enc_CAN_OBJ o); AStr [LF]].
Fixpoint transmit_loop (scheds : list (list (event nat))) (deviceType deviceInd canInd : Z)
    (pSend : list VCI_CAN_OBJ) (i : nat) (remaining : nat) (ec : Z) (st : net) {struct remaining}
    : outcome (vciReturnType * net) :=
  match remaining with
  | O => Ret (STATUS_OK, st)
  | S remaining' =>
      p ← deref "pSend[i]" (pSend !! i);
      '(line_buff, write_len) ← bin2hex_fast (repeat NUL 256) 0
          (transmit_args deviceType deviceInd canInd p);
      match scheds with
      | [] => Blocked
      | sched :: scheds' =>
          '(ret, ec', st1) ← write_line sched (take write_len line_buff) ec st;
          let st2 := if negb (ec' =? 0) && (ret <? 0) then disconnect st1 else st1 in
          if negb (u64 ret =? Z.of_nat write_len) then Ret (STATUS_ERR, st2)
          else transmit_loop scheds' deviceType deviceInd canInd pSend (S i) remaining' ec' st2
      end
  end.
Definition VCI_Transmit (scheds : list (list (event nat))) (deviceType deviceInd canInd : Z)
    (pSend : list VCI_CAN_OBJ) (len : nat) (st : net) : outcome (vciReturnType * net) :=
  if negb (connected st) then Ret (STATUS_ERR, st)
  else transmit_loop scheds deviceType deviceInd canInd pSend 0 len 0 st.

(** ** Receiving *)

(** [^(VCI_Receive,|VCI_Transmit,)[0-9a-fA-F]{32}]: the end of the match *)
Definition head_len (str : list byte) : option nat :=
  if decide (take 12 str = lit "VCI_Receive,") then Some 12%nat
  else if decide (take 13 str = lit "VCI_Transmit,") then Some 13%nat
  else None.
Definition receive_pattern2 (str : list byte) : option nat :=
  h ← head_len str;
  if bool_decide (length (slice str h 32) = 32%nat) && forallb is_hex (slice str h 32)
  then Some (h + 32)%nat else None.
(** [^(?:[0-9a-fA-F][0-9a-fA-F])+$] *)
Definition hex_str_pattern2 (pl : list byte) : bool :=
  negb (bool_decide (pl = [])) && Nat.even (length pl) && forallb is_hex pl.

(** [line_process(str, dst)]: [dst] is the object at offset [off] of [objs] *)
Definition line_process (str : list byte) (objs : list byte) (off : nat)
    : outcome (Z * list byte) :=
  match receive_pattern2 str with
  | None => Ret (-1, objs)
  | Some m =>
      if decide (m = length str) then Ret (-1, objs)
      else
        let pl := drop m str in
        if negb (hex_str_pattern2 pl) || (Z.of_nat (length pl) <? Z.of_nat (sizeof_CAN_OBJ * 2))
        then Ret (-1, objs)
        else objs' ← hex_string_to_bin_fastest pl (length pl) objs off; Ret (0, objs')
  end.

(** [asyncReadParam], the error code and the buffers the handler touches *)
Record rx := mk_rx {
  rx_data : list byte;   (* rx_buff_ *)
  rx_objs : list byte;   (* the caller's array *)
  can_objs : nat;        (* can_objs_, as an offset into it *)
  len_ : nat;
  read_cnt : nat;
  rx_ec : Z;
}.
(** [async_read_until] reads while the buffer has no line feed and succeeds
    when it has one *)
Definition rx_deliver (chunk : list byte) (u : rx) : option rx :=
  match split_lf (rx_data u) with
  | Some _ => None
  | None => Some (mk_rx (rx_data u ++ chunk) (rx_objs u) (can_objs u) (len_ u) (read_cnt u) (rx_ec u))
  end.
Definition rx_can_succeed (u : rx) : bool := bool_decide (is_Some (split_lf (rx_data u))).

(** [async_read]: its effect on the I/O objects *)
Definition async_read (u : rx) : list action :=
  if decide (len_ u <= read_cnt u)%nat then [CancelTimer] else [StartOp].
(** the completion handler of [async_read_until] *)
Definition read_on_op (e : Z) (u : rx) : outcome (rx * list action) :=
  match (e =? 0), split_lf (rx_data u) with
  | true, Some (line, rest) =>
      '(_, objs) ← line_process line (rx_objs u) (can_objs u);
      if decide (read_cnt u < len_ u)%nat then
        let u' := mk_rx rest objs (can_objs u + sizeof_CAN_OBJ) (len_ u) (S (read_cnt u)) e in
        Ret (u', async_read u')
      else Ret (mk_rx rest objs (can_objs u) (len_ u) (read_cnt u) e, [CancelTimer])
  | _, _ => Ret (mk_rx (rx_data u) (rx_objs u) (can_objs u) (len_ u) (read_cnt u) e, [])
  end.
Definition read_on_tm (e : Z) (u : rx) : outcome (rx * list action) :=
  Ret (u, if e =? 0 then [CancelSocket] else []).

(** the loop over the lines left in [rx_buff_]; [k] is [len - read_num] *)
Fixpoint drain (k : nat) (data objs : list byte) (read_num : nat)
    : outcome (nat * list byte * list byte) :=
  match k with
  | O => Ret (read_num, data, objs)
  | S k' =>
      match split_lf data with
      | None => Ret (read_num, data, objs)
      | Some (line, rest) =>
          '(_, objs') ← line_process line objs (read_num * sizeof_CAN_OBJ);
          drain k' rest objs' (S read_num)
      end
  end.

Definition fatal_error (ec : Z) : bool :=
  negb (ec =? 0) && negb (ec =? errc_operation_canceled) && negb (ec =? asio_operation_aborted).

Definition receive_run (sched : list (event (list byte))) (data objs : list byte) (len : nat)
    : outcome rx :=
  io_run asio_operation_aborted rx_deliver rx_can_succeed read_on_op read_on_tm sched
    (mk_io OPending TPending (mk_rx data objs 0 len 0 0)).

(** [VCI_Receive]: the count, the caller's array and the new state *)
Definition VCI_Receive (sched : list (event (list byte))) (deviceType deviceInd canInd : Z)
    (pReceive : option (list byte)) (len : nat) (waitTime : Z) (st : net)
    : outcome (nat * option (list byte) * net) :=
  match connected st, pReceive with
  | true, Some objs =>
      if decide (len = 0%nat) then Ret (0%nat, pReceive, st)
      else
        u ← receive_run sched (rx_buff st) objs len;
        let st1 := set_rx (rx_data u) (if fatal_error (rx_ec u) then disconnect st else st) in
        if connected st1 then
          '(read_num, data, objs') ← drain (len - read_cnt u) (rx_data u) (rx_objs u) (read_cnt u);
          Ret (read_num, Some objs', set_rx data st1)
        else Ret (read_cnt u, Some (rx_objs u), st1)
  | _, _ => Ret (0%nat, pReceive, st)
  end.
End client.
