(* ===== verification/NetClientFacts.v ===== *)
(** * NetClientFacts
    What the network client of NetClient.v guarantees: the frame parser, the
    receive loop as a refinement of "split the byte stream into lines and store
    the frames", the write path under every interleaving of completion and
    deadline, and the commands' wire format. *)

From Stdlib Require Import ZArith Lia.
From Stdlib Require Import Strings.Byte.
From stdpp Require Import base numbers list option gmap strings.
From S2P Require Import Prelude UsbCan HexCodec AsioRun Ini NetClient.

(** ** The frame parser *)

(** the payload digits of a line the parser accepts *)
Definition payload (str : list byte) : option (list byte) :=
  match receive_pattern2 str with
  | None => None
  | Some m =>
      if decide (m = length str) then None
      else
        let pl := drop m str in
        if hex_str_pattern2 pl && (sizeof_CAN_OBJ * 2 <=? length pl)%nat then Some pl else None
  end.

Lemma forallb_Forall (f : byte -> bool) l : forallb f l = true <-> Forall (fun b => f b = true) l.
Proof.
  rewrite forallb_forall, Forall_forall. by setoid_rewrite list_elem_of_In.
Qed.

Lemma hex_str_pattern2_inv pl :
  hex_str_pattern2 pl = true ->
  exists n, length pl = (2 * n)%nat /\ (0 < n)%nat /\ Forall (fun c => is_hex c = true) pl.
Proof.
  unfold hex_str_pattern2. intros [[Hne He]%andb_prop Hh]%andb_prop.
  apply Nat.even_spec in He as [n Hn]. exists n. split_and!; [done| |by apply forallb_Forall].
  destruct pl; [done|]. simpl in Hn. lia.
Qed.

(** The parser stores the decoded payload of an accepted line, in one piece,
    and touches nothing otherwise. *)
Lemma line_process_spec str objs off :
  line_process str objs off =
  match payload str with
  | None => Ret (-1, objs)
  | Some pl => objs' ← write_at objs off (unhex pl); Ret (0, objs')
  end.
Proof.
  unfold line_process, payload. destruct (receive_pattern2 str) as [m|]; [|done].
  case_decide; [done|]. cbv zeta.
  destruct (hex_str_pattern2 (drop m str)) eqn:Hp; [|done]. simpl negb. cbn [orb andb].
  destruct (Nat.leb_spec (sizeof_CAN_OBJ * 2) (length (drop m str))) as [Hle|Hgt].
  - rewrite (proj2 (Z.ltb_ge _ _)) by lia.
    apply hex_str_pattern2_inv in Hp as (n & Hlen & Hn & Hhex).
    by rewrite (fastest_store n).
  - rewrite (proj2 (Z.ltb_lt _ _)) by lia. done.
Qed.

Lemma payload_length str pl :
  payload str = Some pl -> exists n, length pl = (2 * n)%nat /\ (sizeof_CAN_OBJ <= n)%nat.
Proof.
  unfold payload. destruct (receive_pattern2 str) as [m|]; [|done].
  case_decide; [done|]. cbv zeta.
  destruct (hex_str_pattern2 _) eqn:Hp; [|done]. cbn [andb].
  destruct (Nat.leb_spec (sizeof_CAN_OBJ * 2) (length (drop m str))); [|done].
  intros [= <-]. apply hex_str_pattern2_inv in Hp as (n & Hlen & _). exists n. lia.
Qed.

(** a line with the receive head, 32 digits and a payload is accepted when the
    payload has the digits of a frame *)
Lemma payload_receive_len hx pl n :
  length hx = 32%nat -> Forall (fun c => is_hex c = true) hx ->
  length pl = (2 * n)%nat -> Forall (fun c => is_hex c = true) pl ->
  payload (lit "VCI_Receive," ++ hx ++ pl) = if (sizeof_CAN_OBJ <=? n)%nat then Some pl else None.
Proof.
  intros Hx Hhx Hpl Hhpl. unfold payload, receive_pattern2, head_len.
  rewrite decide_True by done. cbn [mbind option_bind].
  assert (Hs : slice (lit "VCI_Receive," ++ hx ++ pl) 12 32 = hx).
  { unfold slice. rewrite drop_app_length' by done. by rewrite take_app_length'. }
  rewrite Hs, bool_decide_eq_true_2 by done.
  rewrite (proj2 (forallb_Forall _ _)) by done. cbn [andb].
  rewrite !length_app, Hx, Hpl. destruct n as [|n].
  { by rewrite decide_True by (simpl; lia). }
  rewrite decide_False by (simpl; lia). cbv zeta.
  assert (drop (12 + 32) (lit "VCI_Receive," ++ hx ++ pl) = pl) as ->.
  { by rewrite app_assoc, drop_app_length' by (rewrite length_app, Hx; done). }
  unfold hex_str_pattern2. rewrite (proj2 (forallb_Forall _ _)) by done.
  rewrite Hpl, Nat.even_mul. cbn [Nat.even orb andb].
  rewrite bool_decide_eq_false_2 by (intros ->; done). cbn [negb andb].
  destruct (Nat.leb_spec (sizeof_CAN_OBJ * 2) (2 * S n)), (Nat.leb_spec sizeof_CAN_OBJ (S n));
    try done; lia.
Qed.
Lemma payload_receive hx pl n :
  length hx = 32%nat -> Forall (fun c => is_hex c = true) hx ->
  length pl = (2 * n)%nat -> (sizeof_CAN_OBJ <= n)%nat -> Forall (fun c => is_hex c = true) pl ->
  payload (lit "VCI_Receive," ++ hx ++ pl) = Some pl.
Proof.
  intros. rewrite (payload_receive_len hx pl n) by done.
  by rewrite (proj2 (Nat.leb_le _ _)).
Qed.

(** ** Storing a sequence of lines *)

(** line [i] goes to slot [i] of the caller's array, when it is a frame *)
Fixpoint store_lines (ls : list (list byte)) (objs : list byte) (i : nat) : outcome (list byte) :=
  match ls with
  | [] => Ret objs
  | l :: ls =>
      '(_, objs') ← line_process l objs (i * sizeof_CAN_OBJ);
      store_lines ls objs' (S i)
  end.

Lemma store_lines_snoc ls l objs i :
  store_lines (ls ++ [l]) objs i =
  (objs1 ← store_lines ls objs i;
   '(_, objs2) ← line_process l objs1 ((i + length ls) * sizeof_CAN_OBJ); Ret objs2).
Proof.
  revert objs i. induction ls as [|l0 ls IH]; intros objs i; cbn [store_lines app length].
  - rewrite Nat.add_0_r. done.
  - destruct (line_process l0 objs _) as [[r o]| | |]; try done. cbn [mbind outcome_bind].
    rewrite IH. by replace (S i + length ls)%nat with (i + S (length ls))%nat by lia.
Qed.

Lemma store_lines_app l1 l2 objs i :
  store_lines (l1 ++ l2) objs i =
  (objs1 ← store_lines l1 objs i; store_lines l2 objs1 (i + length l1)).
Proof.
  revert objs i. induction l1 as [|l0 l1 IH]; intros objs i; cbn [store_lines app length].
  - by rewrite Nat.add_0_r.
  - destruct (line_process l0 objs _) as [[r o]| | |]; try done. cbn [mbind outcome_bind].
    rewrite IH. by replace (S i + length l1)%nat with (i + S (length l1))%nat by lia.
Qed.

Lemma line_process_length str objs off r objs' :
  line_process str objs off = Ret (r, objs') -> length objs' = length objs.
Proof.
  rewrite line_process_spec. destruct (payload str) as [pl|].
  - intros (o & Hw & [= _ <-])%bind_Ret_inv. by eapply write_at_length.
  - by intros [= _ <-].
Qed.

Lemma line_process_before str objs off r objs' o n :
  line_process str objs off = Ret (r, objs') -> (o + n <= off)%nat ->
  slice objs' o n = slice objs o n.
Proof.
  rewrite line_process_spec. destruct (payload str) as [pl|].
  - intros (b & Hw & [= _ <-])%bind_Ret_inv ?. by eapply slice_write_before.
  - by intros [= _ <-].
Qed.

Lemma store_lines_before ls objs i objs' o n :
  store_lines ls objs i = Ret objs' -> (o + n <= i * sizeof_CAN_OBJ)%nat ->
  slice objs' o n = slice objs o n.
Proof.
  revert objs i. induction ls as [|l ls IH]; intros objs i H Hle; cbn [store_lines] in H.
  - by injection H as <-.
  - apply bind_Ret_inv in H as ([r o1] & Hl & H).
    rewrite (IH _ _ H) by (unfold sizeof_CAN_OBJ in *; lia).
    by eapply line_process_before.
Qed.

(** A line with exactly one frame determines its slot, whatever follows. *)
Lemma store_lines_slot ls objs objs' i l pl :
  store_lines ls objs 0 = Ret objs' -> ls !! i = Some l ->
  payload l = Some pl -> length pl = (2 * sizeof_CAN_OBJ)%nat ->
  slice objs' (i * sizeof_CAN_OBJ) sizeof_CAN_OBJ = unhex pl.
Proof.
  intros H Hi Hp Hlen. apply list_elem_of_split_length in Hi as (l1 & l2 & -> & Hl1).
  rewrite store_lines_app in H. apply bind_Ret_inv in H as (o1 & H1 & H).
  cbn [store_lines] in H. apply bind_Ret_inv in H as ([r o2] & H2 & H).
  rewrite (store_lines_before _ _ _ _ _ _ H) by (unfold sizeof_CAN_OBJ; lia).
  rewrite line_process_spec, Hp in H2. apply bind_Ret_inv in H2 as (o3 & Hw & [= _ <-]).
  apply slice_write_same in Hw. rewrite (length_unhex sizeof_CAN_OBJ) in Hw by done.
  by subst i.
Qed.

Section receive.
Context `{Platform}.

Lemma drain_spec k data objs n m data' objs' :
  drain k data objs n = Ret (m, data', objs') ->
  exists ls, lf_free ls /\ m = (n + length ls)%nat /\ (length ls <= k)%nat /\
    data = lines_text ls ++ data' /\ store_lines ls objs n = Ret objs' /\
    (length ls = k \/ LF ∉ data').
Proof.
  revert data objs n. induction k as [|k IH]; intros data objs n Hd; cbn [drain] in Hd.
  - injection Hd as <- <- <-. exists []. split_and!; [constructor|simpl; lia|simpl; lia|done|done|by left].
  - destruct (split_lf data) as [[line rest]|] eqn:E.
    + apply bind_Ret_inv in Hd as ([r o1] & Hl & Hd).
      apply IH in Hd as (ls & Hf & -> & Hle & -> & Hs & Hend).
      apply split_lf_inv in E as [-> Hline].
      exists (line :: ls). split_and!; simpl.
      * by constructor.
      * lia.
      * lia.
      * by rewrite lines_text_cons, <- app_assoc.
      * by rewrite Hl.
      * destruct Hend as [->|?]; auto.
    + injection Hd as <- <- <-. exists []. split_and!; [constructor|simpl; lia|simpl; lia|done|done|].
      right. by apply split_lf_None.
Qed.

(** the bytes a schedule transfers *)
Definition received (sched : list (event (list byte))) : list byte :=
  sched ≫= fun ev => match ev with EvTransfer c => c | _ => [] end.
Lemma received_snoc tr ev :
  received (tr ++ [ev]) = received tr ++ match ev with EvTransfer c => c | _ => [] end.
Proof. unfold received. rewrite bind_app. simpl. by rewrite app_nil_r. Qed.

(** The state of [VCI_Receive] inside [run()]: the lines consumed so far are a
    prefix of the byte stream and fill the first slots of the array. *)
Definition rx_ok (data0 objs0 : list byte) (len : nat) (tr : list (event (list byte)))
    (u : rx) : Prop :=
  len_ u = len /\ (read_cnt u <= len)%nat /\ can_objs u = (read_cnt u * sizeof_CAN_OBJ)%nat /\
  exists ls, lf_free ls /\ length ls = read_cnt u /\
    data0 ++ received tr = lines_text ls ++ rx_data u /\
    store_lines ls objs0 0 = Ret (rx_objs u).
Definition rx_inv (data0 objs0 : list byte) (len : nat) (tr : list (event (list byte)))
    (i : io rx) : Prop :=
  rx_ok data0 objs0 len tr (user i) /\ (op i <> OIdle -> (read_cnt (user i) < len)%nat).

Lemma rx_ok_quiet data0 objs0 len tr ev u :
  match ev with EvTransfer _ => False | _ => True end ->
  rx_ok data0 objs0 len tr u -> rx_ok data0 objs0 len (tr ++ [ev]) u.
Proof.
  intros Hev (? & ? & ? & ls & Hls). unfold rx_ok. rewrite received_snoc.
  split_and!; try done. exists ls. destruct ev; try done; by rewrite app_nil_r.
Qed.

Lemma read_on_op_ok data0 objs0 len tr e u u' acts :
  rx_ok data0 objs0 len tr u -> (read_cnt u < len)%nat ->
  read_on_op e u = Ret (u', acts) ->
  rx_ok data0 objs0 len tr u' /\
  (acts = [] \/ acts = [CancelTimer] \/ (acts = [StartOp] /\ (read_cnt u' < len)%nat)).
Proof.
  intros (Hlen & Hle & Hoff & ls & Hf & Hcnt & Hstream & Hst) Hlt Hop.
  unfold read_on_op in Hop.
  destruct (e =? 0); [destruct (split_lf (rx_data u)) as [[line rest]|] eqn:E|].
  - apply bind_Ret_inv in Hop as ([r o1] & Hl & Hop).
    rewrite decide_True in Hop by lia. injection Hop as <- <-.
    apply split_lf_inv in E as [E Hline]. split.
    + unfold rx_ok. simpl. split_and!; [done|lia|unfold sizeof_CAN_OBJ in *; lia|].
      exists (ls ++ [line]). split_and!.
      * apply Forall_app. split; [done|]. by apply list.Forall_singleton.
      * rewrite length_app. simpl. lia.
      * rewrite Hstream, E, lines_text_app, lines_text_cons, <- !app_assoc. done.
      * rewrite store_lines_snoc, Hst. cbn [mbind outcome_bind].
        rewrite Nat.add_0_l, Hcnt, <- Hoff, Hl. done.
    + unfold async_read. simpl. case_decide; [by right; left|]. right; right. split; [done|lia].
  - injection Hop as <- <-. split; [|by left]. unfold rx_ok. simpl. split_and!; eauto.
  - injection Hop as <- <-. split; [|by left]. unfold rx_ok. simpl. split_and!; eauto.
Qed.

Lemma rx_step data0 objs0 len tr ev i i' :
  rx_inv data0 objs0 len tr i ->
  step asio_operation_aborted rx_deliver rx_can_succeed read_on_op read_on_tm ev i = Ret i' ->
  rx_inv data0 objs0 len (tr ++ [ev]) i'.
Proof.
  intros [Hok Hpend] Hs. destruct ev as [c|e| | |]; cbn [step] in Hs.
  - destruct (op i) eqn:Eo; try done. unfold rx_deliver in Hs.
    destruct (split_lf (rx_data (user i))); [done|]. injection Hs as <-.
    destruct Hok as (Hlen & Hle & Hoff & ls & Hf & Hcnt & Hstream & Hst).
    split; [|intros _; by apply Hpend]. unfold rx_ok. simpl. rewrite received_snoc.
    split_and!; try done. exists ls. split_and!; try done. by rewrite !app_assoc, Hstream.
  - destruct (op i) eqn:Eo; try done. destruct (_ || _); [done|]. injection Hs as <-.
    split; [by apply rx_ok_quiet|]. intros _. by apply Hpend.
  - destruct (tm i) eqn:Et; try done. injection Hs as <-.
    split; [by apply rx_ok_quiet|]. done.
  - destruct (op i) eqn:Eo; try done. apply bind_Ret_inv in Hs as ([u acts] & Hu & [= <-]).
    apply (read_on_op_ok data0 objs0 len tr) in Hu as [Hok' Hacts]; [|done|by apply Hpend].
    unfold rx_inv. rewrite user_do_actions. split; [by apply rx_ok_quiet|].
    destruct Hacts as [->|[->|[-> Hlt]]]; simpl; [congruence| |done].
    destruct (tm i); simpl; congruence.
  - destruct (tm i) eqn:Et; try done. apply bind_Ret_inv in Hs as ([u acts] & Hu & [= <-]).
    injection Hu as <- <-. unfold rx_inv. rewrite user_do_actions. simpl.
    split; [by apply rx_ok_quiet|]. destruct (e =? 0); [|done].
    simpl. destruct (op i); simpl; try done. intros _. by apply Hpend.
Qed.

Lemma rx_inv_start data0 objs0 len :
  (0 < len)%nat ->
  rx_inv data0 objs0 len [] (mk_io OPending TPending (mk_rx data0 objs0 0 len 0 0)).
Proof.
  intros Hlen. split; [|done]. unfold rx_ok. simpl. split_and!; [done|lia|lia|].
  exists []. split_and!; [constructor|done| |done]. unfold received. simpl. by rewrite app_nil_r.
Qed.

Lemma receive_run_ok sched data0 objs0 len u :
  (0 < len)%nat -> receive_run sched data0 objs0 len = Ret u ->
  rx_ok data0 objs0 len sched u.
Proof.
  intros Hlen Hr. unfold receive_run in Hr. apply io_run_inv in Hr.
  eapply (run_trace_invariant _ _ _ _ _ (rx_inv data0 objs0 len)) with (tr := []) in Hr.
  - by destruct Hr as [? _].
  - intros. by eapply rx_step.
  - by apply rx_inv_start.
Qed.

(** The functional specification of [VCI_Receive]. *)
Lemma VCI_Receive_spec sched dt di ci objs len wt st n pr' st' :
  connected st = true -> (0 < len)%nat ->
  VCI_Receive sched dt di ci (Some objs) len wt st = Ret (n, pr', st') ->
  exists ls objs', pr' = Some objs' /\ lf_free ls /\ length ls = n /\ (n <= len)%nat /\
    rx_buff st ++ received sched = lines_text ls ++ rx_buff st' /\
    store_lines ls objs 0 = Ret objs' /\ tx st' = tx st /\
    (connected st' = true -> n = len \/ LF ∉ rx_buff st').
Proof.
  intros Hc Hlen Hv. unfold VCI_Receive in Hv. rewrite Hc in Hv.
  rewrite decide_False in Hv by lia.
  apply bind_Ret_inv in Hv as (u & Hu & Hv).
  apply receive_run_ok in Hu; [|done].
  destruct Hu as (Hl & Hle & _ & ls & Hf & Hcnt & Hstream & Hst).
  set (st1 := set_rx (rx_data u) _) in Hv.
  assert (Htx : tx st1 = tx st) by (unfold st1; by destruct (fatal_error _)).
  destruct (connected st1) eqn:Ec1.
  - apply bind_Ret_inv in Hv as ([[m d] o] & Hd & [= <- <- <-]).
    apply drain_spec in Hd as (ls' & Hf' & -> & Hle' & Hdata & Hst' & Hend).
    exists (ls ++ ls'), o. split_and!; try done.
    + by apply Forall_app.
    + rewrite length_app. lia.
    + lia.
    + by rewrite Hstream, Hdata, lines_text_app, <- app_assoc.
    + rewrite store_lines_app, Hst. cbn [mbind outcome_bind]. by rewrite Nat.add_0_l, Hcnt.
    + intros _. destruct Hend as [He|He]; [left; lia|by right].
  - injection Hv as <- <- <-. exists ls, (rx_objs u). split_and!; try done.
    by rewrite Ec1.
Qed.

Lemma store_lines_length ls o i o' :
  store_lines ls o i = Ret o' -> length o' = length o.
Proof.
  revert o i. induction ls as [|l ls IH]; intros o i Hs; cbn [store_lines] in Hs.
  - by injection Hs as <-.
  - apply bind_Ret_inv in Hs as ([r o1] & Hl & Hs). apply IH in Hs. rewrite Hs.
    by eapply line_process_length.
Qed.

(** A line is safe for a one-object destination when it holds at most one
    frame. *)
Definition one_frame (l : list byte) : Prop :=
  forall pl, payload l = Some pl -> length pl = (2 * sizeof_CAN_OBJ)%nat.

Lemma line_process_defined l o i len :
  one_frame l -> length o = (len * sizeof_CAN_OBJ)%nat -> (i < len)%nat ->
  is_UB (line_process l o (i * sizeof_CAN_OBJ)) = false.
Proof.
  intros H1 Ho Hi. rewrite line_process_spec. destruct (payload l) as [pl|] eqn:Ep; [|done].
  rewrite write_at_Ret; [done|].
  rewrite (length_unhex sizeof_CAN_OBJ) by (by apply H1). unfold sizeof_CAN_OBJ in *. lia.
Qed.

Section defined.
Context (data0 objs0 : list byte) (len : nat) (B : list (list byte)) (y : list byte).
Context (HB : lf_free B) (Hy : LF ∉ y) (H1 : Forall one_frame B).
Context (Ho : length objs0 = (len * sizeof_CAN_OBJ)%nat).

Lemma next_line_one_frame ls line rest later :
  lf_free ls -> LF ∉ line ->
  (lines_text ls ++ line ++ LF :: rest) ++ later = lines_text B ++ y -> one_frame line.
Proof.
  intros Hls Hline E.
  assert (lines_text (ls ++ [line]) ++ rest ++ later = lines_text B ++ y) as E'.
  { rewrite <- E, lines_text_app, lines_text_cons, <- !app_assoc. done. }
  destruct (lines_text_prefix _ _ _ _ (lf_free_snoc _ _ Hls Hline) HB Hy E') as (C & EB & _).
  rewrite EB in H1. clear -H1.
  rewrite !Forall_app in H1. destruct H1 as [[_ H1'] _]. exact (proj1 (list.Forall_singleton _ _) H1').
Qed.

Lemma read_on_op_defined tr later e u :
  rx_ok data0 objs0 len tr u -> (read_cnt u < len)%nat ->
  data0 ++ received tr ++ later = lines_text B ++ y ->
  is_UB (read_on_op e u) = false.
Proof.
  intros (Hlen & Hle & Hoff & ls & Hf & Hcnt & Hstream & Hst) Hlt Htot.
  unfold read_on_op. destruct (e =? 0); [|done].
  destruct (split_lf (rx_data u)) as [[line rest]|] eqn:E; [|done].
  apply split_lf_inv in E as [E Hline].
  apply bind_defined; [|intros [r o] _; by case_decide].
  rewrite Hoff. apply (line_process_defined _ _ _ len); [|by erewrite store_lines_length|done].
  apply (next_line_one_frame ls line rest later); [done..|].
  by rewrite <- E, <- Hstream, <- app_assoc.
Qed.

Lemma rx_step_defined tr ev sched2 i :
  rx_inv data0 objs0 len tr i ->
  data0 ++ received (tr ++ ev :: sched2) = lines_text B ++ y ->
  is_UB (step asio_operation_aborted rx_deliver rx_can_succeed read_on_op read_on_tm ev i)
    = false.
Proof.
  intros [Hok Hpend] Htot. destruct ev as [c|e| | |]; cbn [step].
  - destruct (op i); try done. by destruct (rx_deliver _ _).
  - destruct (op i); try done. by destruct (_ || _).
  - by destruct (tm i).
  - destruct (op i) eqn:Eo; try done. apply bind_defined; [|by intros []].
    eapply read_on_op_defined; [done|by apply Hpend|].
    unfold received in *. by rewrite bind_app in Htot.
  - by destruct (tm i).
Qed.

Lemma drain_defined k data objs n :
  length objs = (len * sizeof_CAN_OBJ)%nat -> (n + k <= len)%nat ->
  (exists ls, lf_free ls /\ lines_text ls ++ data = lines_text B ++ y) ->
  is_UB (drain k data objs n) = false.
Proof.
  revert data objs n. induction k as [|k IH]; intros data objs n Hl Hn (ls & Hls & E); [done|].
  cbn [drain]. destruct (split_lf data) as [[line rest]|] eqn:Es; [|done].
  apply split_lf_inv in Es as [-> Hline]. apply bind_defined.
  - apply (line_process_defined _ _ _ len); [|done|lia].
    apply (next_line_one_frame ls line rest []); [done..|]. by rewrite app_nil_r.
  - intros [r o] Hlp. apply IH; [by erewrite line_process_length|lia|].
    exists (ls ++ [line]). split; [by apply lf_free_snoc|].
    by rewrite <- E, lines_text_app, lines_text_cons, <- !app_assoc.
Qed.

Lemma VCI_Receive_defined sched dt di ci wt st :
  rx_buff st = data0 -> data0 ++ received sched = lines_text B ++ y ->
  is_UB (VCI_Receive sched dt di ci (Some objs0) len wt st) = false.
Proof.
  intros Hdata Htot. unfold VCI_Receive. destruct (connected st); [|done].
  case_decide as Hz; [done|]. rewrite Hdata. apply bind_defined.
  - unfold receive_run, io_run. apply bind_defined; [|intros j _; by destruct (finished j)].
    apply (run_trace_defined _ _ _ _ _ (rx_inv data0 objs0 len)).
    + intros. by eapply rx_step.
    + intros tr ev later i <- Hi. by eapply rx_step_defined.
    + apply rx_inv_start; lia.
  - intros u Hu. apply receive_run_ok in Hu; [|lia].
    destruct Hu as (Hl & Hle & _ & ls & Hf & Hcnt & Hstream & Hst).
    destruct (connected _); [|done]. apply bind_defined; [|by intros [[] ] _].
    apply drain_defined; [by erewrite store_lines_length|lia|].
    exists ls. split; [done|]. by rewrite <- Hstream.
Qed.
End defined.
End receive.

(** ** Writing *)

Section write.
Context `{Platform}.

(** What holds of a write at every moment of [run()]. *)
Record wr_inv (len : nat) (i : io wr) : Prop := {
  wr_sent_le : (wr_sent (user i) <= len)%nat;
  wr_ready : op i = OReady 0 -> wr_sent (user i) = len;
  wr_done : op i = OIdle -> wr_ec (user i) = 0 -> wr_sent (user i) = len;
  wr_code : op i <> OPending -> op i = OIdle -> is_i32 (wr_ec (user i));
  wr_ready_int : forall e, op i = OReady e -> is_i32 e;
}.

Lemma wr_step len ev i i' :
  wr_inv len i ->
  step asio_operation_aborted (wr_deliver len) (wr_can_succeed len) write_on_op write_on_tm ev i
    = Ret i' ->
  wr_inv len i'.
Proof.
  pose proof canceled_nonzero. pose proof aborted_nonzero. pose proof codes_int as (? & ? & _).
  intros [Hle Hr Hd Hc Hi] Hs. destruct ev as [n|e| | |]; cbn [step] in Hs.
  - destruct (op i) eqn:Eo; try done. unfold wr_deliver in Hs.
    case_decide; [|done]. injection Hs as <-. by split.
  - destruct (op i) eqn:Eo; try done.
    destruct (Z.eqb_spec e 0) as [->|He]; unfold wr_can_succeed in Hs.
    + destruct (bool_decide_reflect (wr_sent (user i) = len)); [|done].
      simpl in Hs. injection Hs as <-. split; simpl; try done. by intros ? [= <-].
    + simpl in Hs. destruct (bool_decide_reflect (is_i32 e)); [|done].
      injection Hs as <-. split; simpl; try done; congruence.
  - destruct (tm i) eqn:Et; try done. injection Hs as <-. by split.
  - destruct (op i) as [| |e] eqn:Eo; try done.
    apply bind_Ret_inv in Hs as ([u acts] & [= <- <-] & [= <-]).
    destruct (Z.eqb_spec e 0) as [->|He]; simpl.
    + destruct (tm i); split; simpl; try done; intros; by apply Hr || by apply Hi.
    + split; simpl; try done. intros _ _. by apply Hi.
  - destruct (tm i) as [| |e] eqn:Et; try done.
    apply bind_Ret_inv in Hs as ([u acts] & Hu & [= <-]). unfold write_on_tm in Hu.
    destruct (Z.eqb_spec e 0) as [->|He]; injection Hu as <- <-; simpl; [|by split].
    destruct (op i) eqn:Eo; split; simpl; try done; congruence.
Qed.

Lemma write_run_inv sched len ec u :
  write_run sched len ec = Ret u -> wr_inv len (mk_io OIdle TIdle u).
Proof.
  intros Hr. eapply (io_run_invariant _ _ _ _ _ (wr_inv len)); [| |exact Hr].
  - intros ???. apply wr_step.
  - split; simpl; try done; lia.
Qed.

(** A [write_line] that reports all bytes has sent them all. *)
Lemma write_line_spec sched p ec st r ec' st' :
  p <> [] -> Z.of_nat (length p) < 2 ^ 31 ->
  write_line sched p ec st = Ret (r, ec', st') ->
  exists n, (n <= length p)%nat /\ st' = add_tx (take n p) st /\
    (ec' = 0 -> n = length p) /\
    (u64 r = Z.of_nat (length p) <-> ec' = 0) /\ (r < 0 -> ec' <> 0).
Proof.
  intros Hne Hlen Hw. unfold write_line in Hw.
  apply bind_Ret_inv in Hw as (u & Hu & [= <- <- <-]).
  apply write_run_inv in Hu as [Hle _ Hd Hc _]. simpl in *.
  exists (wr_sent u). split_and!; try done; [by apply Hd| |].
  - assert (Hpos : 0 < Z.of_nat (length p)) by (destruct p; [done|simpl; lia]).
    assert (Hi : is_i32 (wr_ec u)) by (by apply Hc). unfold is_i32 in Hi.
    unfold write_ret. destruct (Z.eqb_spec (wr_ec u) 0) as [E|E].
    + split; [done|]. intros _. unfold u64. apply Z.mod_small. lia.
    + split; [|done]. intros Hr. exfalso. destruct (negb _) eqn:En; unfold u64 in Hr.
      * rewrite <- (Z.mod_add _ 1), Z.mod_small in Hr by lia. lia.
      * rewrite Z.mod_0_l in Hr by lia. lia.
  - unfold write_ret. destruct (Z.eqb_spec (wr_ec u) 0); [lia|done].
Qed.

(** ** Commands *)

Lemma bin2hex_line bufsize args :
  (length (text_of args) < bufsize)%nat ->
  exists buff, bin2hex_fast (repeat NUL bufsize) 0 args = Ret (buff, length (text_of args)) /\
    take (length (text_of args)) buff = text_of args.
Proof.
  intros Hfit. rewrite bin2hex_fast_fits by (rewrite repeat_length; lia).
  rewrite write_at_Ret by (rewrite repeat_length, length_app; simpl; lia).
  cbn [mbind outcome_bind]. eexists. split; [done|].
  by rewrite take_0, app_nil_l, <- app_assoc, take_app_length.
Qed.

(** a line that fits its buffer is sent whole or reported, never half of a
    buffer overrun *)
Lemma send_line_spec bufsize args sched st ok st' :
  (length (text_of args) < bufsize)%nat -> Z.of_nat bufsize < 2 ^ 31 -> text_of args <> [] ->
  send_line bufsize args sched st = Ret (ok, st') ->
  exists n, (n <= length (text_of args))%nat /\
    (if ok then n = length (text_of args) /\ st' = add_tx (text_of args) st
     else st' = disconnect (add_tx (take n (text_of args)) st)).
Proof.
  intros Hfit Hsz Hne Hs. unfold send_line in Hs.
  destruct (bin2hex_line bufsize args Hfit) as (buff & Hb & Ht). rewrite Hb in Hs.
  cbn [mbind outcome_bind] in Hs. rewrite Ht in Hs. apply bind_Ret_inv in Hs as ([[r ec] st1] & Hw & [= <- <-]).
  apply write_line_spec in Hw as (n & Hn & -> & H0 & Hr & _); [|done|lia].
  exists n. split; [done|]. destruct (Z.eqb_spec ec 0) as [E|E].
  - rewrite (proj2 Hr E), Z.eqb_refl. rewrite (H0 E), take_ge by done. done.
  - destruct (Z.eqb_spec (Z.of_nat (length (text_of args))) (u64 r)) as [E'|E']; [|done].
    exfalso. by apply E, Hr.
Qed.

Lemma send_line_defined bufsize args sched st :
  (length (text_of args) < bufsize)%nat -> is_UB (send_line bufsize args sched st) = false.
Proof.
  intros Hfit. unfold send_line.
  destruct (bin2hex_line bufsize args Hfit) as (buff & -> & Ht). cbn [mbind outcome_bind].
  unfold write_line. apply bind_defined; [|by intros [[] ] _].
  apply bind_defined; [|done]. apply io_run_defined; [done|].
  intros e u. unfold write_on_tm. by destruct (e =? 0).
Qed.
End write.

(** ** Termination of the blocking calls *)

Section termination.
Context `{Platform}.

(** the I/O objects after the events so far *)
Definition write_steps (sched : list (event nat)) (len : nat) (ec : Z) : outcome (io wr) :=
  run asio_operation_aborted (wr_deliver len) (wr_can_succeed len) write_on_op write_on_tm
    sched (mk_io OPending TPending (mk_wr ec 0)).
Definition connect_steps (sched : list (event unit)) : outcome (io Z) :=
  run asio_operation_aborted (fun (_ : unit) _ => None) (fun _ => true) connect_on_op connect_on_tm
    sched (mk_io OPending TPending 0).
Definition receive_steps (sched : list (event (list byte))) (data objs : list byte) (len : nat)
    : outcome (io rx) :=
  run asio_operation_aborted rx_deliver rx_can_succeed read_on_op read_on_tm sched
    (mk_io OPending TPending (mk_rx data objs 0 len 0 0)).

Lemma write_no_restart : no_restart write_on_op write_on_tm.
Proof.
  split.
  - intros e u u' acts [= <- <-]. destruct (e =? 0); set_solver.
  - intros e u u' acts. unfold write_on_tm. destruct (e =? 0); intros [= <- <-]; set_solver.
Qed.
Lemma connect_no_restart : no_restart connect_on_op connect_on_tm.
Proof.
  split.
  - intros e u u' acts [= <- <-]. destruct (e =? _); set_solver.
  - intros e u u' acts. unfold connect_on_tm. destruct (e =? 0); intros [= <- <-]; set_solver.
Qed.

Lemma write_deadline_cancels : deadline_cancels write_on_tm.
Proof. intros u u' acts [= <- <-]. set_solver. Qed.
Lemma connect_deadline_cancels : deadline_cancels connect_on_tm.
Proof. intros u u' acts [= <- <-]. set_solver. Qed.

(** The reading loop starts the next read from the completion handler of the
    last one, the deadline handler cancels only a pending read: the deadline is
    overtaken when its handler runs while a successful completion is queued. *)
Definition overtaken (sched : list (event (list byte))) (data objs : list byte) (len : nat) : Prop :=
  exists s1 s2 i, sched = s1 ++ EvRunTm :: s2 /\
    receive_steps s1 data objs len = Ret i /\ tm i = TReady 0 /\ op i = OReady 0.

(** the timer still stands for every read there is or will be *)
Definition rx_watched (i : io rx) : Prop :=
  match tm i with
  | TPending => True
  | TReady e => e = 0 \/ op i = OIdle
  | TIdle => op i = OIdle \/ exists e, op i = OReady e /\ e <> 0
  end.

Lemma rx_watched_watched i : rx_watched i -> watched i.
Proof.
  unfold rx_watched, watched. intros Hw Ho. rewrite Ho in Hw.
  destruct (tm i) as [| |e]; [|by left|].
  - by destruct Hw as [|(e & [=] & _)].
  - destruct Hw as [->|]; [by right|done].
Qed.

Lemma async_read_watched (t : tm_state) (u : rx) :
  (t = TIdle -> False) -> (forall e, t = TReady e -> e = 0) ->
  rx_watched (do_actions asio_operation_aborted (async_read u) (mk_io OIdle t u)).
Proof.
  intros H1 H2. unfold async_read, rx_watched. case_decide; simpl; destruct t; simpl; auto; naive_solver.
Qed.

Lemma rx_step_watched ev i i' :
  rx_watched i -> (ev = EvRunTm -> tm i = TReady 0 -> op i = OReady 0 -> False) ->
  step asio_operation_aborted rx_deliver rx_can_succeed read_on_op read_on_tm ev i = Ret i' ->
  rx_watched i'.
Proof.
  intros Hw Hno Hs. pose proof aborted_nonzero as Hab. destruct ev as [p|e| | |]; cbn [step] in Hs.
  - destruct (op i) eqn:Ei; try done. destruct (rx_deliver _ _); [|done]. injection Hs as <-.
    unfold rx_watched in *. simpl. by rewrite Ei in Hw.
  - destruct (op i) eqn:Ei; try done. destruct (_ || _); [done|]. injection Hs as <-.
    unfold rx_watched in *. simpl. rewrite Ei in Hw. destruct (tm i); [|done|].
    + by destruct Hw as [|(? & [=] & _)].
    + destruct Hw as [|]; [by left|done].
  - destruct (tm i) eqn:Ei; try done. injection Hs as <-. by left.
  - destruct (op i) as [| |e] eqn:Ei; try done. apply bind_Ret_inv in Hs as ([u acts] & Hu & [= <-]).
    unfold rx_watched in Hw. rewrite Ei in Hw. unfold read_on_op in Hu.
    assert (Hidle : rx_watched (mk_io OIdle (tm i) u)).
    { unfold rx_watched. simpl. destruct (tm i); auto. }
    destruct (e =? 0) eqn:Ee; [destruct (split_lf _) as [[line rest]|]|]; [|by injection Hu as <- <-..].
    apply bind_Ret_inv in Hu as ([r o1] & _ & Hu). apply Z.eqb_eq in Ee as ->. case_decide.
    + injection Hu as <- <-. apply async_read_watched; destruct (tm i); try done.
      * by destruct Hw as [|(? & [= <-] & ?)].
      * intros e1 [= <-]. by destruct Hw.
    + injection Hu as <- <-. unfold rx_watched in *. simpl in *. destruct (tm i); naive_solver.
  - destruct (tm i) as [| |e] eqn:Ei; try done. apply bind_Ret_inv in Hs as ([u acts] & [= <- <-] & [= <-]).
    unfold rx_watched in *. rewrite Ei in Hw. destruct Hw as [->|Hi].
    + simpl. destruct (op i) as [| |e] eqn:Eo; simpl; [by left|by right; eauto|].
      right. exists e. split; [done|]. intros ->. by apply Hno.
    + rewrite Hi. destruct (e =? 0); simpl; by left.
Qed.

(** As long as the deadline is not overtaken, no read waits without it. *)
Lemma receive_watched sched data objs len i :
  receive_steps sched data objs len = Ret i -> ~ overtaken sched data objs len -> watched i.
Proof.
  intros Hr Hno. apply rx_watched_watched.
  pose proof (run_trace_invariant asio_operation_aborted rx_deliver rx_can_succeed read_on_op read_on_tm
    (fun tr j => receive_steps tr data objs len = Ret j /\ (rx_watched j \/ overtaken tr data objs len)))
    as Hinv.
  apply (Hinv) with (sched := sched) (tr := []) (i := mk_io OPending TPending (mk_rx data objs 0 len 0 0))
    in Hr as [_ [|]]; [done|done| |by split; [|left]].
  intros tr ev j j' [Hj Hw] Hs. split.
  - unfold receive_steps in *. rewrite run_app, Hj. cbn [mbind outcome_bind run]. by rewrite Hs.
  - destruct Hw as [Hw|(s1 & s2 & i1 & -> & Hi)]; [|right; exists s1, (s2 ++ [ev]), i1; by rewrite <- app_assoc].
    destruct (decide (tm j = TReady 0 /\ op j = OReady 0)) as [[Ht Ho]|Hn].
    + destruct ev; [left; eapply rx_step_watched; [exact Hw| |exact Hs]; done..|].
      right. by exists tr, [], j.
    + left. eapply rx_step_watched; [exact Hw| |exact Hs]. intros _ Ht Ho. by apply Hn.
Qed.

Definition rx_measure (i : io rx) : nat :=
  rank i + 2 * (len_ (user i) - read_cnt (user i)).

Lemma async_read_rank o t u :
  (rank (do_actions asio_operation_aborted (async_read u) (mk_io o t u)) <= 2 + tm_rank t)%nat \/
  (len_ u <= read_cnt u)%nat /\
  (rank (do_actions asio_operation_aborted (async_read u) (mk_io o t u)) <= op_rank o + tm_rank t)%nat.
Proof.
  unfold async_read. case_decide as E.
  - right. split; [done|]. unfold rank. simpl. destruct t; simpl; lia.
  - left. done.
Qed.

Lemma rx_step_measure ev i i' :
  step asio_operation_aborted rx_deliver rx_can_succeed read_on_op read_on_tm ev i = Ret i' ->
  if is_transfer ev then (rx_measure i' <= rx_measure i)%nat
  else (rx_measure i' < rx_measure i)%nat.
Proof.
  unfold rx_measure. intros Hs. destruct ev as [c|e| | |]; cbn [step is_transfer] in *.
  - destruct (op i) eqn:Eo; try done. unfold rx_deliver in Hs.
    destruct (split_lf _); [done|]. injection Hs as <-. unfold rank. simpl. rewrite Eo. simpl. lia.
  - destruct (op i) eqn:Eo; try done. destruct (_ || _); [done|]. injection Hs as <-.
    unfold rank. simpl. rewrite Eo. simpl. lia.
  - destruct (tm i) eqn:Et; try done. injection Hs as <-. unfold rank. simpl. rewrite Et. simpl. lia.
  - destruct (op i) eqn:Eo; try done. apply bind_Ret_inv in Hs as ([u acts] & Hu & [= <-]).
    rewrite user_do_actions. cbn [user]. unfold read_on_op in Hu. unfold rank at 2. rewrite Eo.
    cbn [op_rank]. destruct (e =? 0); [destruct (split_lf _) as [[line rest]|]|].
    + apply bind_Ret_inv in Hu as ([r o1] & _ & Hu). case_decide as Hlt.
      * injection Hu as <- <-. cbn [len_ read_cnt].
        match goal with |- context [do_actions _ (async_read ?w) (mk_io ?o ?t ?w)] =>
          pose proof (async_read_rank o t w) as Hr end.
        cbn [len_ read_cnt op_rank] in Hr. lia.
      * injection Hu as <- <-. unfold rank. simpl. destruct (tm i); simpl; lia.
    + injection Hu as <- <-. unfold rank. simpl. lia.
    + injection Hu as <- <-. unfold rank. simpl. lia.
  - destruct (tm i) eqn:Et; try done. apply bind_Ret_inv in Hs as ([u acts] & [= <- <-] & [= <-]).
    rewrite user_do_actions. cbn [user]. unfold rank at 2. rewrite Et.
    destruct (e =? 0); unfold rank; simpl; [|lia]. destruct (op i); simpl; lia.
Qed.

Lemma read_on_op_not_Blocked e u : read_on_op e u <> Blocked.
Proof.
  unfold read_on_op. destruct (e =? 0); [|done]. destruct (split_lf _) as [[line rest]|]; [|done].
  apply bind_not_Blocked; [|intros [r o]; by case_decide].
  rewrite line_process_spec. destruct (payload line); [|done].
  apply bind_not_Blocked; [|done]. unfold write_at. by case_decide.
Qed.
End termination.
