(* ===== verification/NetClientProps.v ===== *)
(** * NetClientProps
    The properties of the network client: its parser against the agent's line
    format, the receive loop, the write path and the commands. *)

From Stdlib Require Import ZArith Lia.
From Stdlib Require Import Strings.Byte.
From stdpp Require Import base numbers list option gmap strings.
From S2P Require Import Prelude UsbCan HexCodec AsioRun Ini NetClient NetClientFacts.

(** ** The line format *)

(** a [VCI_Receive] line without its line feed: a 64-bit number, a 64-bit time
    stamp and a frame, in hexadecimal *)
Definition receive_line (num tick : Z) (o : VCI_CAN_OBJ) : list byte :=
  lit "VCI_Receive," ++ hex_of (le_bytes 8 num) ++ hex_of (le_bytes 8 tick) ++ hex_of (enc_CAN_OBJ o).

Lemma receive_line_payload num tick o :
  wf_CAN_OBJ o -> payload (receive_line num tick o) = Some (hex_of (enc_CAN_OBJ o)).
Proof.
  intros Hwf. unfold receive_line. rewrite (app_assoc (hex_of (le_bytes 8 num))), <- hex_of_app.
  apply (payload_receive _ _ sizeof_CAN_OBJ); auto using hex_of_is_hex.
  by rewrite length_hex_of, length_enc_CAN_OBJ.
Qed.

Lemma hex_no_LF s : Forall (fun c => is_hex c = true) s -> LF ∉ s.
Proof.
  intros Hs Hin. rewrite Forall_forall in Hs. by apply Hs, is_hex_not_special in Hin as [].
Qed.

Lemma receive_line_lf_free num tick o : LF ∉ receive_line num tick o.
Proof.
  unfold receive_line. rewrite !not_elem_of_app.
  split_and!; try (apply hex_no_LF, hex_of_is_hex).
  apply (bool_decide_unpack _). by vm_compute.
Qed.

(** the line [VCI_Transmit] sends, without its line feed *)
Definition transmit_line (deviceType deviceInd canInd : Z) (o : VCI_CAN_OBJ) : list byte :=
  lit "VCI_Transmit," ++ hex_of (le_bytes 4 deviceType) ++ hex_of (le_bytes 4 deviceInd)
    ++ hex_of (le_bytes 4 canInd) ++ hex_of (enc_CAN_OBJ o).

Lemma transmit_text dt di ci o :
  text_of (transmit_args dt di ci o) = transmit_line dt di ci o ++ [LF].
Proof.
  unfold transmit_args, transmit_line, text_of, DWORDp. cbn [mbind list_bind arg_text].
  by rewrite app_nil_r, <- !app_assoc.
Qed.

Lemma transmit_line_length dt di ci o :
  wf_CAN_OBJ o -> length (transmit_line dt di ci o) = 85%nat.
Proof.
  intros Hwf. unfold transmit_line.
  rewrite !length_app, !length_hex_of, !length_le_bytes, length_enc_CAN_OBJ by done. done.
Qed.

(** Too few digits follow the 32 the pattern takes. *)
Lemma transmit_line_payload dt di ci o :
  wf_CAN_OBJ o -> payload (transmit_line dt di ci o) = None.
Proof.
  intros Hwf. unfold payload, receive_pattern2.
  assert (head_len (transmit_line dt di ci o) = Some 13%nat) as ->.
  { unfold head_len, transmit_line. rewrite decide_False by done. by rewrite decide_True. }
  cbn [mbind option_bind]. destruct (_ && _); [|done].
  rewrite transmit_line_length by done. rewrite decide_False by done. cbv zeta.
  rewrite length_drop, transmit_line_length by done. by rewrite andb_false_r.
Qed.

(** ** Properties of the parser *)

(** The client cannot read its own transmit lines: although the head
    pattern admits [VCI_Transmit,], the 32 digits it then takes leave 40 of the
    72 digits [VCI_Transmit] sends, fewer than a frame, so [line_process]
    rejects every such line and stores nothing. *)
Lemma transmit_line_rejected (deviceType deviceInd canInd : Z) (o : VCI_CAN_OBJ)
    (objs : list byte) (off : nat) :
  wf_CAN_OBJ o ->
  text_of (transmit_args deviceType deviceInd canInd o)
    = transmit_line deviceType deviceInd canInd o ++ [LF] /\
  line_process (transmit_line deviceType deviceInd canInd o) objs off = Ret (-1, objs).
Proof.
  intros Hwf. split; [apply transmit_text|].
  by rewrite line_process_spec, transmit_line_payload.
Qed.

(** C25. Every line an agent emits for a frame is understood: [line_process]
    accepts the line for any frame, number and time stamp and stores exactly
    the 24 bytes of that frame in the destination object, which decode to it;
    the rest of the array is untouched. The lines of the client's own
    [VCI_Transmit], which the head pattern admits too, are all rejected and
    nothing is stored: their header has 24 digits and the pattern takes 32. *)
Theorem agent_line_roundtrip (num tick : Z) (o : VCI_CAN_OBJ) (objs : list byte) (off : nat) :
  wf_CAN_OBJ o -> (off + sizeof_CAN_OBJ <= length objs)%nat ->
  exists objs', line_process (receive_line num tick o) objs off = Ret (0, objs') /\
    dec_CAN_OBJ (slice objs' off sizeof_CAN_OBJ) = o /\
    take off objs' = take off objs /\
    drop (off + sizeof_CAN_OBJ) objs' = drop (off + sizeof_CAN_OBJ) objs /\
    forall deviceType deviceInd canInd,
      text_of (transmit_args deviceType deviceInd canInd o) = transmit_line deviceType deviceInd canInd o ++ [LF] /\
      line_process (transmit_line deviceType deviceInd canInd o) objs off = Ret (-1, objs).
Proof.
  intros Hwf Hfit. pose proof (length_enc_CAN_OBJ o Hwf) as Hl.
  rewrite line_process_spec, receive_line_payload, unhex_hex_of by done.
  rewrite write_at_Ret by lia. cbn [mbind outcome_bind]. eexists. split; [done|].
  rewrite Hl. assert (Ht : length (take off objs) = off) by (rewrite length_take; lia).
  split_and!.
  - unfold slice. rewrite drop_app_length' by done. rewrite take_app_length' by done.
    by apply dec_enc_CAN_OBJ.
  - by rewrite take_app_length' by done.
  - rewrite app_assoc, drop_app_length'; [done|]. rewrite length_app, Ht, Hl. done.
  - intros dt di ci. by apply transmit_line_rejected.
Qed.
Lemma agent_line_roundtrip_witness :
  exists objs', line_process (receive_line 1 2 (dec_CAN_OBJ (repeat x07 24))) (repeat NUL 48) 24
    = Ret (0, objs') /\
    dec_CAN_OBJ (slice objs' 24 sizeof_CAN_OBJ) = dec_CAN_OBJ (repeat x07 24) /\
    take 24 objs' = take 24 (repeat NUL 48) /\
    line_process (transmit_line 4 0 1 (dec_CAN_OBJ (repeat x07 24))) (repeat NUL 48) 24 = Ret (-1, repeat NUL 48).
Proof.
  destruct (agent_line_roundtrip 1 2 (dec_CAN_OBJ (repeat x07 24)) (repeat NUL 48) 24)
    as (objs' & H1 & H2 & H3 & _ & H4).
  - by apply wf_dec_CAN_OBJ.
  - vm_compute. lia.
  - exists objs'. split_and!; [exact H1|exact H2|exact H3|exact (proj2 (H4 4 0 1))].
Defined.

(** C37. [line_process] is safe for a destination of one object only when the
    payload is one frame long: an accepted line whose payload has more than 48
    digits is stored past the object, since the length check only has a lower
    bound; on a line with exactly 48 digits it always returns. *)
Theorem line_process_bounds (hx pl : list byte) (n : nat) (obj : list byte) :
  length hx = 32%nat -> Forall (fun c => is_hex c = true) hx ->
  length pl = (2 * n)%nat -> Forall (fun c => is_hex c = true) pl ->
  length obj = sizeof_CAN_OBJ ->
  line_process (lit "VCI_Receive," ++ hx ++ pl) obj 0 =
    if (n <? sizeof_CAN_OBJ)%nat then Ret (-1, obj)
    else if (n =? sizeof_CAN_OBJ)%nat then Ret (0, unhex pl)
    else UB "store outside the buffer".
Proof.
  intros Hx Hhx Hpl Hhpl Ho. rewrite line_process_spec, (payload_receive_len hx pl n) by done.
  destruct (Nat.ltb_spec n sizeof_CAN_OBJ) as [Hlt|Hge].
  { by rewrite (proj2 (Nat.leb_gt _ _)). }
  rewrite (proj2 (Nat.leb_le _ _)) by done. pose proof (length_unhex n pl Hpl) as Hu.
  destruct (Nat.eqb_spec n sizeof_CAN_OBJ) as [->|Hne].
  - rewrite write_at_Ret by lia. cbn [mbind outcome_bind].
    rewrite drop_ge, app_nil_r by lia. done.
  - rewrite write_at_overflow by lia. done.
Qed.
Lemma line_process_bounds_witness :
  line_process (lit "VCI_Receive," ++ repeat x30 32 ++ repeat x31 50) (repeat NUL 24) 0
    = UB "store outside the buffer".
Proof.
  apply (line_process_bounds (repeat x30 32) (repeat x31 50) 25 (repeat NUL 24)); try done;
    by apply forallb_Forall.
Defined.

(** ** Properties of the receive loop *)

Section properties.
Context `{Platform}.

(** C10. Receiving is reading lines: whatever the interleaving of arriving
    data, completions, errors and the deadline, [VCI_Receive] consumes the
    first [n] complete lines of the byte stream (what was buffered followed by
    what arrived), in order and each once, returns [n <= len], keeps every
    other byte buffered, and stores the frame of line [i] in slot [i]; a line
    that is no frame is counted and leaves its slot alone. While the
    connection lives, it stops short of [len] only when no complete line is
    left. *)
Theorem receive_is_line_reading (sched : list (event (list byte))) (dt di ci : Z)
    (objs : list byte) (len : nat) (wt : Z) (st st' : net) (n : nat) (pr' : option (list byte)) :
  connected st = true -> (0 < len)%nat ->
  VCI_Receive sched dt di ci (Some objs) len wt st = Ret (n, pr', st') ->
  exists ls objs', pr' = Some objs' /\ lf_free ls /\ length ls = n /\ (n <= len)%nat /\
    rx_buff st ++ received sched = lines_text ls ++ rx_buff st' /\
    store_lines ls objs 0 = Ret objs' /\ tx st' = tx st /\
    (connected st' = true -> n = len \/ LF ∉ rx_buff st').
Proof. apply VCI_Receive_spec. Qed.

(** the stream an agent produces for frames stamped with numbers and times *)
Definition agent_lines (fs : list (Z * Z * VCI_CAN_OBJ)) : list (list byte) :=
  (fun f => receive_line f.1.1 f.1.2 f.2) <$> fs.

Lemma agent_lines_ok fs :
  Forall (fun f => wf_CAN_OBJ f.2) fs -> lf_free (agent_lines fs) /\ Forall one_frame (agent_lines fs).
Proof.
  intros Hwf. unfold lf_free, agent_lines. split; apply Forall_fmap; [|eapply Forall_impl; [exact Hwf|]].
  - apply Forall_true. intros f. exact (receive_line_lf_free f.1.1 f.1.2 f.2).
  - intros f Hf pl. simpl. rewrite receive_line_payload by done. intros [= <-].
    by rewrite length_hex_of, length_enc_CAN_OBJ.
Qed.

Lemma stored_frame fs objs objs' i f n :
  Forall (fun f => wf_CAN_OBJ f.2) fs -> (i < n)%nat -> fs !! i = Some f ->
  store_lines (take n (agent_lines fs)) objs 0 = Ret objs' ->
  dec_CAN_OBJ (slice objs' (i * sizeof_CAN_OBJ) sizeof_CAN_OBJ) = f.2.
Proof.
  intros Hwf Hi Hf Hst. rewrite Forall_lookup in Hwf. pose proof (Hwf i f Hf) as Hwf'.
  rewrite (store_lines_slot _ _ _ i (receive_line f.1.1 f.1.2 f.2) (hex_of (enc_CAN_OBJ f.2)) Hst).
  - rewrite unhex_hex_of. by apply dec_enc_CAN_OBJ.
  - rewrite lookup_take_lt by done. unfold agent_lines. by rewrite list_lookup_fmap, Hf.
  - by apply receive_line_payload.
  - by rewrite length_hex_of, length_enc_CAN_OBJ.
Qed.

Lemma receive_frames (sched : list (event (list byte))) (dt di ci : Z)
    (objs : list byte) (len : nat) (wt : Z) (st : net)
    (fs : list (Z * Z * VCI_CAN_OBJ)) (y : list byte) :
  connected st = true -> (0 < len)%nat -> length objs = (len * sizeof_CAN_OBJ)%nat ->
  Forall (fun f => wf_CAN_OBJ f.2) fs -> LF ∉ y ->
  rx_buff st ++ received sched = lines_text (agent_lines fs) ++ y ->
  is_UB (VCI_Receive sched dt di ci (Some objs) len wt st) = false /\
  forall n pr' st', VCI_Receive sched dt di ci (Some objs) len wt st = Ret (n, pr', st') ->
    exists objs', pr' = Some objs' /\ (n <= len)%nat /\ (n <= length fs)%nat /\
      (forall i f, (i < n)%nat -> fs !! i = Some f ->
         dec_CAN_OBJ (slice objs' (i * sizeof_CAN_OBJ) sizeof_CAN_OBJ) = f.2) /\
      rx_buff st' = lines_text (agent_lines (drop n fs)) ++ y /\
      (connected st' = true -> n = Nat.min len (length fs)).
Proof.
  intros Hc Hlen Ho Hwf Hy Hstream. destruct (agent_lines_ok fs Hwf) as [Hlf H1].
  split; [by eapply VCI_Receive_defined|]. intros n pr' st' Hv.
  apply VCI_Receive_spec in Hv as (ls & objs' & -> & Hls & Hn & Hnl & Hs & Hst & _ & Hend); [|done..].
  rewrite Hstream in Hs. symmetry in Hs.
  apply lines_text_prefix in Hs as (C & HC & HD); [|done..].
  assert (Htake : ls = take n (agent_lines fs)) by (by rewrite HC, take_app_length').
  assert (Hdrop : C = agent_lines (drop n fs)).
  { unfold agent_lines in *. by rewrite fmap_drop, HC, drop_app_length'. }
  assert (Hle : (n <= length fs)%nat).
  { apply (f_equal length) in HC. unfold agent_lines in HC.
    rewrite length_fmap, length_app in HC. lia. }
  exists objs'. split_and!; try done.
  - intros i f Hi Hf. rewrite Htake in Hst. by eapply stored_frame.
  - by rewrite HD, Hdrop.
  - intros Hc'. destruct (Hend Hc') as [->|Hno]; [lia|].
    assert (Hd : drop n fs = []); [|apply (f_equal length) in Hd; rewrite length_drop in Hd; simpl in Hd; lia].
    rewrite HD, Hdrop in Hno. destruct (drop n fs); [done|]. exfalso. apply Hno.
    unfold agent_lines. rewrite fmap_cons, lines_text_cons, !elem_of_app. left; right. by left.
Qed.

(** C4. Frames are delivered: when the stream is what an agent sends for the
    frames [fs] (the last line perhaps unfinished), [VCI_Receive] stays inside
    the caller's array under every schedule, and when it returns [n] the
    first [n] frames are in the array in order, unchanged, the remaining
    frames and the unfinished line are still buffered for the next call, and
    on a live connection [n] is the smaller of [len] and the number of
    frames. *)
Theorem receive_delivers_frames (sched : list (event (list byte))) (dt di ci : Z)
    (objs : list byte) (len : nat) (wt : Z) (st : net)
    (fs : list (Z * Z * VCI_CAN_OBJ)) (y : list byte) :
  connected st = true -> (0 < len)%nat -> length objs = (len * sizeof_CAN_OBJ)%nat ->
  Forall (fun f => wf_CAN_OBJ f.2) fs -> LF ∉ y ->
  rx_buff st ++ received sched = lines_text (agent_lines fs) ++ y ->
  is_UB (VCI_Receive sched dt di ci (Some objs) len wt st) = false /\
  forall n pr' st', VCI_Receive sched dt di ci (Some objs) len wt st = Ret (n, pr', st') ->
    exists objs', pr' = Some objs' /\ (n <= len)%nat /\ (n <= length fs)%nat /\
      (forall i f, (i < n)%nat -> fs !! i = Some f ->
         dec_CAN_OBJ (slice objs' (i * sizeof_CAN_OBJ) sizeof_CAN_OBJ) = f.2) /\
      rx_buff st' = lines_text (agent_lines (drop n fs)) ++ y /\
      (connected st' = true -> n = Nat.min len (length fs)).
Proof. apply receive_frames. Qed.




End properties.

(** a frame, and a run in which its line arrives in two pieces before the
    deadline *)
Definition sample_frame : VCI_CAN_OBJ := dec_CAN_OBJ (repeat x07 24).
Definition sample_line : list byte := receive_line 1 2 sample_frame.
Definition sample_receive : list (event (list byte)) :=
  [EvTransfer (take 20 sample_line); EvTransfer (drop 20 sample_line ++ [LF]);
   EvComplete 0; EvRunOp; EvExpire; EvRunTm; EvRunOp].
Definition sample_net : net := mk_net true (lit "127.0.0.1") (lit "9999") [] true [].

Lemma receive_is_line_reading_witness :
  exists ls objs', Some (repeat x07 24 ++ repeat NUL 24) = Some objs' /\
    lf_free ls /\ length ls = 1%nat /\ (1 <= 2)%nat /\
    rx_buff sample_net ++ received sample_receive = lines_text ls ++ rx_buff sample_net /\
    store_lines ls (repeat NUL 48) 0 = Ret objs' /\ tx sample_net = tx sample_net /\
    (connected sample_net = true -> 1%nat = 2%nat \/ LF ∉ rx_buff sample_net).
Proof.
  apply (receive_is_line_reading (H := linux_x86_64) sample_receive 4 0 0 (repeat NUL 48) 2 10
    sample_net sample_net 1 (Some (repeat x07 24 ++ repeat NUL 24))); [done|lia|by vm_compute].
Defined.

Lemma receive_delivers_frames_witness :
  is_UB (VCI_Receive (H := linux_x86_64) sample_receive 4 0 0 (Some (repeat NUL 48)) 2 10 sample_net)
    = false /\
  forall n pr' st', VCI_Receive (H := linux_x86_64) sample_receive 4 0 0 (Some (repeat NUL 48)) 2 10
      sample_net = Ret (n, pr', st') ->
    exists objs', pr' = Some objs' /\ (n <= 2)%nat /\ (n <= 1)%nat /\
      (forall i f, (i < n)%nat -> [(1, 2, sample_frame)] !! i = Some f ->
         dec_CAN_OBJ (slice objs' (i * sizeof_CAN_OBJ) sizeof_CAN_OBJ) = f.2) /\
      rx_buff st' = lines_text (agent_lines (drop n [(1, 2, sample_frame)])) ++ [] /\
      (connected st' = true -> n = Nat.min 2 1).
Proof.
  apply (receive_delivers_frames (H := linux_x86_64) sample_receive 4 0 0 (repeat NUL 48) 2 10
    sample_net [(1, 2, sample_frame)] []); try done.
  - lia.
  - apply list.Forall_singleton. by apply wf_dec_CAN_OBJ.
  - by apply not_elem_of_nil.
Defined.


(** ** Properties of the write path and of the commands *)

(** The completion handler of the write runs before the one of the deadline. *)
Definition completion_first (sched : list (event nat)) : Prop :=
  exists s1 s2, sched = s1 ++ EvRunOp :: s2 /\ EvRunTm ∉ s1.

Section write_properties.
Context `{Platform}.

(** the write has completed with success or with the deadline's code *)
Definition settled (i : io wr) : Prop :=
  op i = OIdle /\ (wr_ec (user i) = 0 \/ wr_ec (user i) = errc_operation_canceled).

Lemma before_completion len s i i' :
  op i <> OIdle -> (tm i = TPending \/ tm i = TReady 0) -> EvRunTm ∉ s -> EvRunOp ∉ s ->
  run asio_operation_aborted (wr_deliver len) (wr_can_succeed len) write_on_op write_on_tm s i
    = Ret i' ->
  op i' <> OIdle /\ (tm i' = TPending \/ tm i' = TReady 0).
Proof.
  revert i. induction s as [|ev s IH]; intros i Ho Ht Htm Hop Hr.
  { by injection Hr as <-. }
  apply not_elem_of_cons in Htm as [Htm' Htm]. apply not_elem_of_cons in Hop as [Hop' Hop].
  cbn [run] in Hr. apply bind_Ret_inv in Hr as (j & Hj & Hr).
  revert Hr. apply IH; [| |done|done]; destruct ev as [c|e| | |]; try done; cbn [step] in Hj.
  all: try (destruct (op i) eqn:Eo; try done).
  all: try (destruct (wr_deliver _ _ _); try done).
  all: try (destruct (_ || _); try done).
  all: try (destruct (tm i) eqn:Et; try done).
  all: injection Hj as <-; simpl; rewrite ?Eo; auto.
Qed.

(** what [run()] can still do once the write has completed *)
Lemma after_completion len s e t u i' :
  (t = TPending /\ e <> 0 \/ t = TReady 0 \/ t = TIdle /\ settled (mk_io OIdle t u) \/
   exists a, t = TReady a /\ a <> 0 /\ wr_ec u = 0) ->
  run asio_operation_aborted (wr_deliver len) (wr_can_succeed len) write_on_op write_on_tm s
    (mk_io OIdle t u) = Ret i' -> finished i' = true -> settled i'.
Proof.
  revert e t u. induction s as [|ev s IH]; intros e t u Ht Hr Hf.
  - injection Hr as <-. unfold finished in Hf. simpl in Hf.
    destruct Ht as [[-> _]|[->|[[-> Hs]|(a & -> & _)]]]; done.
  - cbn [run] in Hr. apply bind_Ret_inv in Hr as (j & Hj & Hr).
    destruct ev as [c|e'| | |]; cbn [step op tm] in Hj; try done.
    + destruct t; try done. injection Hj as <-. apply (IH e (TReady 0) u); auto.
    + destruct t as [| |a]; try done. apply bind_Ret_inv in Hj as ([u' acts] & Hu & [= <-]).
      unfold write_on_tm in Hu.
      destruct Ht as [[[=] _]|[[= ->]|[[[=] _]|(b & [= ->] & Hb & Hec)]]].
      * injection Hu as <- <-. simpl in Hr. apply (IH e TIdle _) in Hr; [done| |done].
        right; right; left. split; [done|]. split; [done|by right].
      * simpl in Hu. rewrite (proj2 (Z.eqb_neq _ _)) in Hu by done. injection Hu as <- <-.
        simpl in Hr. apply (IH e TIdle _) in Hr; [done| |done].
        right; right; left. split; [done|]. split; [done|by left].
Qed.

Lemma completion_first_settled sched len ec u :
  completion_first sched -> write_run sched len ec = Ret u ->
  wr_ec u = 0 \/ wr_ec u = errc_operation_canceled.
Proof.
  intros (s1 & s2 & -> & Htm) Hr. unfold write_run in Hr. apply io_run_inv in Hr.
  (* the first completion *)
  assert (exists p q, s1 ++ EvRunOp :: s2 = p ++ EvRunOp :: q /\ EvRunOp ∉ p /\ EvRunTm ∉ p)
    as (p & q & E & Hp1 & Hp2).
  { clear Hr. induction s1 as [|ev s1 IH]; [exists [], s2; set_solver|].
    apply not_elem_of_cons in Htm as [Htm' Htm]. destruct (IH Htm) as (p & q & E & H1 & H2).
    destruct ev as [c|e| | |]; try done; try (exists (EvTransfer c :: p), q; simpl; rewrite E; set_solver).
    - exists (EvComplete e :: p), q. simpl. rewrite E. set_solver.
    - exists (EvExpire :: p), q. simpl. rewrite E. set_solver.
    - exists [], (s1 ++ EvRunOp :: s2). set_solver. }
  rewrite E, run_app in Hr. apply bind_Ret_inv in Hr as (i1 & H1 & Hr).
  apply before_completion in H1 as [Ho Ht]; [|done|by left|done|done].
  cbn [run] in Hr. apply bind_Ret_inv in Hr as (i2 & H2 & Hr). cbn [step] in H2.
  destruct (op i1) as [| |e] eqn:Eo; try done.
  apply bind_Ret_inv in H2 as ([u1 acts] & [= <- <-] & [= <-]).
  assert (Hset : settled (mk_io OIdle TIdle u)); [|by destruct Hset].
  pose proof aborted_nonzero.
  destruct (Z.eqb_spec e 0) as [->|He]; simpl in Hr.
  - destruct Ht as [Et|Et]; rewrite Et in Hr; simpl in Hr;
      (eapply (after_completion _ _ 0); [|exact Hr|done]).
    + right; right; right. by eexists.
    + by right; left.
  - eapply (after_completion _ _ e); [|exact Hr|done].
    destruct Ht as [->| ->]; [by left|by right; left].
Qed.

(** [write_line] tells the truth about success: it returns the full length
    exactly when its error code is clear, the whole line has then been handed
    to the peer, and in every other case it has sent a prefix of the line and
    returns a non-positive number; the deadline, a completion and their
    handlers may interleave in any order. *)
Theorem write_line_truthful (sched : list (event nat)) (p : list byte) (ec : Z) (st st' : net)
    (r ec' : Z) :
  p <> [] -> Z.of_nat (length p) < 2 ^ 31 ->
  write_line sched p ec st = Ret (r, ec', st') ->
  exists n, (n <= length p)%nat /\ st' = add_tx (take n p) st /\
    (ec' = 0 -> n = length p /\ r = Z.of_nat (length p)) /\ (ec' <> 0 -> r <= 0) /\
    (u64 r = Z.of_nat (length p) <-> ec' = 0).
Proof.
  intros Hne Hlen Hw. pose proof Hw as Hw'.
  apply write_line_spec in Hw as (n & Hn & -> & H0 & Hr & _); [|done..].
  exists n. split_and!; try done.
  - intros E. split; [by apply H0|]. unfold write_line in Hw'.
    apply bind_Ret_inv in Hw' as (u & _ & [= <- Eec _]). unfold write_ret. by rewrite Eec, E.
  - intros E. unfold write_line in Hw'. apply bind_Ret_inv in Hw' as (u & _ & [= <- Eec _]).
    unfold write_ret. rewrite Eec, (proj2 (Z.eqb_neq _ _)) by done. destruct (negb _); lia.
Qed.

Lemma transmit_loop_masked scheds dt di ci pSend i k ec st ret st' :
  Forall completion_first scheds ->
  transmit_loop scheds dt di ci pSend i k ec st = Ret (ret, st') -> connected st' = connected st.
Proof.
  revert scheds i ec st. induction k as [|k IH]; intros scheds i ec st Hc Ht; cbn [transmit_loop] in Ht.
  { by injection Ht as _ <-. }
  apply bind_Ret_inv in Ht as (p & _ & Ht). apply bind_Ret_inv in Ht as ([buf wl] & _ & Ht).
  destruct scheds as [|sched scheds]; [done|]. apply list.Forall_cons in Hc as [Hc Hcs].
  apply bind_Ret_inv in Ht as ([[r e] st1] & Hw & Ht).
  unfold write_line in Hw. apply bind_Ret_inv in Hw as (u & Hu & [= <- <- <-]).
  apply completion_first_settled in Hu; [|done].
  assert (negb (wr_ec u =? 0) && (write_ret (length (take wl buf)) (wr_ec u) <? 0) = false) as E.
  { pose proof canceled_nonzero. unfold write_ret. destruct Hu as [-> | ->]; [done|].
    rewrite (proj2 (Z.eqb_neq _ _)), Z.eqb_refl by done. done. }
  cbv zeta in Ht. rewrite E in Ht. destruct (negb _); [by injection Ht as _ <-|].
  by apply IH in Ht.
Qed.

(** C38. A failed transmission is not noticed: when the write completes, with
    any error code, before the deadline's handler runs, the handler of the
    still armed deadline overwrites the error with [operation_canceled] (a
    success is only ever kept or replaced by it), [write_line] returns 0
    instead of a negative code, and [VCI_Transmit], which disconnects only on
    a negative code, leaves the client connected. *)
Theorem write_error_masked (sched : list (event nat)) (scheds : list (list (event nat)))
    (p : list byte) (ec : Z) (dt di ci : Z) (pSend : list VCI_CAN_OBJ) (len : nat)
    (st st' : net) (r ec' : Z) (ret : vciReturnType) :
  (completion_first sched -> write_line sched p ec st = Ret (r, ec', st') ->
   ec' = 0 \/ ec' = errc_operation_canceled /\ r = 0) /\
  (Forall completion_first scheds ->
   VCI_Transmit scheds dt di ci pSend len st = Ret (ret, st') ->
   connected st' = connected st).
Proof.
  split.
  - intros Hc Hw. unfold write_line in Hw. apply bind_Ret_inv in Hw as (u & Hu & [= <- <- <-]).
    apply completion_first_settled in Hu; [|done]. pose proof canceled_nonzero.
    destruct Hu as [E|E]; [by left|right]. split; [done|]. unfold write_ret.
    rewrite E, (proj2 (Z.eqb_neq _ _)), Z.eqb_refl by done. done.
  - intros Hc Ht. unfold VCI_Transmit in Ht. destruct (connected st) eqn:Ec.
    + simpl in Ht. apply transmit_loop_masked in Ht; [congruence|done].
    + simpl in Ht. by injection Ht as _ <-.
Qed.
End write_properties.

(** the peer resets the connection after ten bytes of the line *)
Definition sample_reset : list (event nat) :=
  [EvTransfer 10%nat; EvComplete 104; EvRunOp; EvExpire; EvRunTm].
Lemma sample_reset_first : completion_first sample_reset.
Proof. exists [EvTransfer 10%nat; EvComplete 104], [EvExpire; EvRunTm]. split; [done|set_solver]. Defined.

Lemma write_line_truthful_witness :
  exists n, (n <= 11)%nat /\
    add_tx (take 10 (lit "VCI_StartCA")) sample_net = add_tx (take n (lit "VCI_StartCA")) sample_net /\
    (125 = 0 -> n = 11%nat /\ 0 = 11) /\ (125 <> 0 -> 0 <= 0) /\ (u64 0 = 11 <-> 125 = 0).
Proof.
  apply (write_line_truthful (H := linux_x86_64) sample_reset (lit "VCI_StartCA") 0 sample_net
    (add_tx (take 10 (lit "VCI_StartCA")) sample_net) 0 125); [done|by vm_compute|by vm_compute].
Defined.
Lemma write_error_masked_witness :
  (125 = 0 \/ 125 = 125 /\ 0 = 0) /\
  connected (add_tx (take 10 (transmit_line 4 0 0 sample_frame)) sample_net) = connected sample_net.
Proof.
  destruct (write_error_masked (H := linux_x86_64) sample_reset [sample_reset]
    (transmit_line 4 0 0 sample_frame ++ [LF]) 0 4 0 0 [sample_frame] 1 sample_net
    (add_tx (take 10 (transmit_line 4 0 0 sample_frame)) sample_net) 0 125 STATUS_ERR) as [H1 H2].
  split.
  - apply H1; [exact sample_reset_first|]. by vm_compute.
  - apply H2; [|by vm_compute]. apply list.Forall_singleton, sample_reset_first.
Defined.
