(* ===== verification/NetCommands.v ===== *)
(** * NetCommands
    The commands of the network client as a protocol: what each sends, what it
    reports, how the connection state evolves, and the client as a state
    machine over all its operations. *)

From Stdlib Require Import ZArith Lia.
From Stdlib Require Import Strings.Byte.
From stdpp Require Import base numbers list option gmap strings.
From S2P Require Import Prelude UsbCan HexCodec AsioRun Ini NetClient NetClientFacts NetClientProps.

(** ** One command, one line *)

Inductive command : Type :=
| COpen (deviceType deviceInd reserved : Z)
| CClose (deviceType deviceInd : Z)
| CInit (deviceType deviceInd canInd : Z) (cfg : VCI_INIT_CONFIG)
| CReadErr (deviceType deviceInd canInd : Z) (info : VCI_ERR_INFO)
| CClear (deviceType deviceInd canInd : Z)
| CStart (deviceType deviceInd canInd : Z)
| CReset (deviceType deviceInd canInd : Z).

(** the name and the words that follow it on the wire *)
Definition cmd_name (c : command) : list byte :=
  match c with
  | COpen _ _ _ => lit "VCI_OpenDevice,"
  | CClose _ _ => lit "VCI_CloseDevice,"
  | CInit _ _ _ _ => lit "VCI_InitCAN,"
  | CReadErr _ _ _ _ => lit "VCI_ReadErrInfo,"
  | CClear _ _ _ => lit "VCI_ClearBuffer,"
  | CStart _ _ _ => lit "VCI_StartCAN,"
  | CReset _ _ _ => lit "VCI_ResetCAN,"
  end.
Definition words (ws : list Z) : list byte := ws ≫= fun w => hex_of (le_bytes 4 w).
Definition cmd_body (c : command) : list byte :=
  match c with
  | COpen t i r => words [t; i; r]
  | CClose t i => words [t; i]
  | CInit t i c cfg => words [t; i; c] ++ hex_of (enc_INIT_CONFIG cfg)
  | CReadErr t i c e => words [t; i; c] ++ hex_of (enc_ERR_INFO e)
  | CClear t i c | CStart t i c | CReset t i c => words [t; i; c]
  end.
Definition cmd_line (c : command) : list byte := cmd_name c ++ cmd_body c ++ [LF].
Definition wf_command (c : command) : Prop :=
  match c with CReadErr _ _ _ e => wf_ERR_INFO e | _ => True end.
Definition is_close (c : command) : bool := match c with CClose _ _ => true | _ => false end.

Section commands.
Context `{Platform}.
Variable resolves : list byte -> list byte -> bool.

(** the member function the command stands for *)
Definition cmd_run (c : command) (sched_c : list (event unit)) (sched : list (event nat)) (st : net)
    : outcome (vciReturnType * net) :=
  match c with
  | COpen t i r => VCI_OpenDevice resolves sched_c sched t i r st
  | CClose t i => VCI_CloseDevice sched t i st
  | CInit t i c cfg => VCI_InitCAN sched t i c (Some cfg) st
  | CReadErr t i c e => VCI_ReadErrInfo sched t i c (Some e) st
  | CClear t i c => VCI_ClearBuffer sched t i c st
  | CStart t i c => VCI_StartCAN sched t i c st
  | CReset t i c => VCI_ResetCAN sched t i c st
  end.

(** the buffer and the argument list the member function hands to
    [bin2hex_fast] *)
Definition cmd_args (c : command) : list arg :=
  match c with
  | COpen t i r => [AStr (cmd_name c); DWORDp t; DWORDp i; DWORDp r; AStr [LF]]
  | CClose t i => [AStr (cmd_name c); DWORDp t; DWORDp i; AStr [LF]]
  | CInit t i ci cfg =>
      [AStr (cmd_name c); DWORDp t; DWORDp i; DWORDp ci; ABin (enc_INIT_CONFIG cfg); AStr [LF]]
  | CReadErr t i ci e =>
      [AStr (cmd_name c); DWORDp t; DWORDp i; DWORDp ci; ABin (enc_ERR_INFO e); AStr [LF]]
  | CClear t i ci | CStart t i ci | CReset t i ci =>
      [AStr (cmd_name c); DWORDp t; DWORDp i; DWORDp ci; AStr [LF]]
  end.
Definition cmd_bufsize (c : command) : nat :=
  match c with COpen _ _ _ | CClose _ _ => 128 | _ => 256 end.

Lemma cmd_args_text c : text_of (cmd_args c) = cmd_line c.
Proof.
  unfold cmd_line, text_of, DWORDp. destruct c;
    cbn [cmd_args mbind list_bind arg_text cmd_name cmd_body words];
    by rewrite ?app_nil_r, <- ?app_assoc.
Qed.

Lemma cmd_line_fits c : wf_command c -> (length (cmd_line c) < cmd_bufsize c)%nat.
Proof.
  intros Hwf. unfold cmd_line. rewrite !length_app.
  destruct c; cbn [cmd_body words mbind list_bind cmd_bufsize];
    rewrite ?length_app, ?length_hex_of, ?length_le_bytes, ?length_enc_INIT_CONFIG,
      ?length_enc_ERR_INFO by done; simpl; lia.
Qed.

Lemma cmd_line_nonempty c : cmd_line c <> [].
Proof. by destruct c. Qed.

(** the state in which the line is sent *)
Definition ready (c : command) (st : net) : Prop :=
  connected st = true /\
  match c with COpen _ _ _ => sock_addr st <> [] /\ sock_port st <> [] | _ => True end.

(** A connected client's command is [send_line] of its arguments; closing also
    closes the socket on success. *)
Lemma cmd_run_send c sched_c sched st :
  ready c st ->
  cmd_run c sched_c sched st =
  ('(ok, st1) ← send_line (cmd_bufsize c) (cmd_args c) sched st;
   Ret (status ok, if ok && is_close c then disconnect st1 else st1)).
Proof.
  intros [Hc Ho].
  assert (Hset : set_connected true st = st) by (destruct st; simpl in *; by subst).
  destruct c; cbn [cmd_run cmd_bufsize cmd_args is_close cmd_name];
    rewrite ?andb_false_r.
  - destruct Ho as [Ha Hp]. unfold VCI_OpenDevice.
    rewrite !bool_decide_eq_false_2, Hc by done. cbn [orb mbind outcome_bind Z.eqb negb].
    rewrite Hset. apply bind_ext. intros [ok st1]. by rewrite andb_false_r.
  - unfold VCI_CloseDevice. rewrite Hc. cbn [negb]. apply bind_ext. by intros [[] st1].
  - unfold VCI_InitCAN. rewrite Hc. cbn [negb deref mbind outcome_bind]. apply bind_ext.
    intros [ok st1]. by rewrite andb_false_r.
  - unfold VCI_ReadErrInfo. rewrite Hc. apply bind_ext. intros [ok st1]. by rewrite andb_false_r.
  - unfold VCI_ClearBuffer, channel_command. rewrite Hc. apply bind_ext.
    intros [ok st1]. by rewrite andb_false_r.
  - unfold VCI_StartCAN, channel_command. rewrite Hc. apply bind_ext.
    intros [ok st1]. by rewrite andb_false_r.
  - unfold VCI_ResetCAN, channel_command. rewrite Hc. apply bind_ext.
    intros [ok st1]. by rewrite andb_false_r.
Qed.

(** C19. Every command is one line: on a connected client a command never
    overruns its stack buffer, and when it returns it has either reported
    [STATUS_OK], having sent exactly its line (name, 32-bit words and
    structure in hexadecimal, line feed) and, for [VCI_CloseDevice] alone,
    disconnected; or reported [STATUS_ERR], having sent a prefix of the line
    and closed the connection. *)
Theorem command_protocol (c : command) (sched_c : list (event unit)) (sched : list (event nat))
    (st : net) :
  wf_command c -> ready c st ->
  is_UB (cmd_run c sched_c sched st) = false /\
  forall r st', cmd_run c sched_c sched st = Ret (r, st') ->
    r = STATUS_OK /\ tx st' = tx st ++ cmd_line c /\ connected st' = negb (is_close c) /\
      rx_buff st' = rx_buff st \/
    r = STATUS_ERR /\ connected st' = false /\ sock_open st' = false /\
      exists k, tx st' = tx st ++ take k (cmd_line c).
Proof.
  intros Hwf Hr. pose proof (cmd_line_fits c Hwf) as Hfit. rewrite <- cmd_args_text in Hfit.
  rewrite cmd_run_send by done. split.
  - apply bind_defined; [by apply send_line_defined|]. by intros [].
  - intros r st' (x & Hs & Hx)%bind_Ret_inv. destruct x as [ok st1]. injection Hx as <- <-.
    apply send_line_spec in Hs as (k & Hk & Hs);
      [|done|destruct c; simpl; lia|rewrite cmd_args_text; apply cmd_line_nonempty].
    rewrite cmd_args_text in Hs. destruct Hr as [Hc _]. destruct ok.
    + left. destruct Hs as [_ ->]. by destruct c; simpl; rewrite ?Hc.
    + right. subst st1. simpl. split_and!; try done. by exists k.
Qed.

(** Without a connection nothing is sent: every command but
    [VCI_OpenDevice], [VCI_Transmit] and [VCI_Receive] fail at once and leave
    the state alone; opening without a configured address or port, or when
    the connection attempt fails, reports [STATUS_NET_CONN_FAIL], stays
    disconnected and sends nothing. *)
Theorem offline_is_silent (c : command) (sched_c : list (event unit)) (sched : list (event nat))
    (scheds : list (list (event nat))) (rsched : list (event (list byte)))
    (t i ci r : Z) (pSend : list VCI_CAN_OBJ) (pr : option (list byte)) (len : nat) (wt : Z)
    (st : net) :
  connected st = false ->
  (match c with COpen _ _ _ => True
   | _ => cmd_run c sched_c sched st = Ret (STATUS_ERR, st) end) /\
  VCI_Transmit scheds t i ci pSend len st = Ret (STATUS_ERR, st) /\
  VCI_Receive rsched t i ci pr len wt st = Ret (0%nat, pr, st) /\
  (sock_addr st = [] \/ sock_port st = [] ->
   VCI_OpenDevice resolves sched_c sched t i r st = Ret (STATUS_NET_CONN_FAIL, st)) /\
  (forall e st1, sock_addr st <> [] -> sock_port st <> [] -> e <> 0 ->
   connect resolves sched_c (sock_addr st) (sock_port st) st = Ret (e, st1) ->
   VCI_OpenDevice resolves sched_c sched t i r st = Ret (STATUS_NET_CONN_FAIL, st1) /\
   connected st1 = false /\ tx st1 = tx st).
Proof.
  intros Hc. split_and!.
  - destruct c; cbn [cmd_run]; try done.
    + unfold VCI_CloseDevice. by rewrite Hc.
    + unfold VCI_InitCAN. by rewrite Hc.
    + unfold VCI_ReadErrInfo. by rewrite Hc.
    + unfold VCI_ClearBuffer, channel_command. by rewrite Hc.
    + unfold VCI_StartCAN, channel_command. by rewrite Hc.
    + unfold VCI_ResetCAN, channel_command. by rewrite Hc.
  - unfold VCI_Transmit. by rewrite Hc.
  - unfold VCI_Receive. by rewrite Hc.
  - intros E. unfold VCI_OpenDevice.
    destruct E as [-> | ->]; [done|]. by rewrite orb_true_r.
  - intros e st1 Ha Hp He Hcon. unfold VCI_OpenDevice.
    rewrite !bool_decide_eq_false_2, Hc, Hcon by done. cbn [orb mbind outcome_bind].
    rewrite (proj2 (Z.eqb_neq _ _)) by done. split; [done|].
    unfold connect in Hcon. destruct (resolves _ _); [|done].
    apply bind_Ret_inv in Hcon as (x & _ & [= _ <-]). done.
Qed.
End commands.

Definition sample_ok : list (event nat) :=
  [EvTransfer 38%nat; EvComplete 0; EvRunOp; EvRunTm].
Lemma command_protocol_witness :
  is_UB (cmd_run (H := linux_x86_64) (fun _ _ => true) (CStart 4 0 1) [] sample_ok sample_net) = false /\
  exists st', cmd_run (H := linux_x86_64) (fun _ _ => true) (CStart 4 0 1) [] sample_ok sample_net
      = Ret (STATUS_OK, st') /\
    (STATUS_OK = STATUS_OK /\ tx st' = tx sample_net ++ cmd_line (CStart 4 0 1) /\
       connected st' = negb (is_close (CStart 4 0 1)) /\ rx_buff st' = rx_buff sample_net \/
     STATUS_OK = STATUS_ERR /\ connected st' = false /\ sock_open st' = false /\
       exists k, tx st' = tx sample_net ++ take k (cmd_line (CStart 4 0 1))).
Proof.
  destruct (command_protocol (H := linux_x86_64) (fun _ _ => true) (CStart 4 0 1) [] sample_ok sample_net)
    as [H1 H2]; [done|by split|]. split; [exact H1|].
  eexists. split; [by vm_compute|]. apply H2. by vm_compute.
Defined.

Lemma offline_is_silent_witness :
  VCI_OpenDevice (H := linux_x86_64) (fun _ _ => true) [EvComplete 111; EvRunOp; EvRunTm] [] 4 0 0
    (mk_net false (lit "localhost") (lit "9999") [] false [])
  = Ret (STATUS_NET_CONN_FAIL, mk_net false (lit "localhost") (lit "9999") [] true []).
Proof.
  destruct (offline_is_silent (H := linux_x86_64) (fun _ _ => true) (CClose 0 0)
    [EvComplete 111; EvRunOp; EvRunTm] [] [] [] 4 0 0 0 [] None 0 0
    (mk_net false (lit "localhost") (lit "9999") [] false [])) as (_ & _ & _ & _ & Ho); [done|].
  apply (Ho 111); [done|done|done|by vm_compute].
Defined.

(** ** Transmitting *)

Section transmit.
Context `{Platform}.

Definition transmit_text_of (t i ci : Z) (os : list VCI_CAN_OBJ) : list byte :=
  lines_text (transmit_line t i ci <$> os).

Lemma transmit_args_fit t i ci o :
  wf_CAN_OBJ o -> (length (text_of (transmit_args t i ci o)) < 256)%nat.
Proof.
  intros Hwf. rewrite transmit_text, length_app, transmit_line_length by done. simpl. lia.
Qed.

(** one iteration sends one line or stops *)
Lemma transmit_loop_spec t i ci pSend : Forall wf_CAN_OBJ pSend ->
  forall rem scheds n ec st, (n + rem <= length pSend)%nat ->
  is_UB (transmit_loop scheds t i ci pSend n rem ec st) = false /\
  forall r st', transmit_loop scheds t i ci pSend n rem ec st = Ret (r, st') ->
    (r = STATUS_OK /\ st' = add_tx (transmit_text_of t i ci (take rem (drop n pSend))) st) \/
    (r = STATUS_ERR /\ exists k m, (k < rem)%nat /\ (m <= 86)%nat /\
       tx st' = tx st ++ transmit_text_of t i ci (take k (drop n pSend)) ++
         take m (transmit_text_of t i ci (take 1 (drop (n + k) pSend)))).
Proof.
  intros Hwf. induction rem as [|rem IH]; intros scheds n ec st Hle; cbn [transmit_loop].
  - split; [done|]. intros r st' [= <- <-]. left. split; [done|].
    unfold transmit_text_of, add_tx. rewrite take_0. simpl. rewrite app_nil_r. by destruct st.
  - destruct (lookup_lt_is_Some_2 pSend n) as [o Ho]; [lia|].
    rewrite Ho. cbn [deref mbind outcome_bind].
    assert (Hwo : wf_CAN_OBJ o) by (rewrite Forall_lookup in Hwf; by eapply Hwf).
    destruct (bin2hex_line 256 _ (transmit_args_fit t i ci o Hwo)) as (buff & -> & Ht).
    cbn [mbind outcome_bind]. destruct scheds as [|sched scheds]; [done|]. rewrite Ht.
    rewrite (drop_S _ _ _ Ho). cbn [take].
    assert (Hlen : length (text_of (transmit_args t i ci o)) = 86%nat).
    { by rewrite transmit_text, length_app, transmit_line_length. }
    assert (Hone : transmit_text_of t i ci [o] = text_of (transmit_args t i ci o)).
    { rewrite transmit_text. unfold transmit_text_of, lines_text. simpl. by rewrite app_nil_r. }
    split.
    + apply bind_defined.
      { unfold write_line. apply bind_defined; [|done]. apply io_run_defined; [done|].
        intros e u. unfold write_on_tm. by destruct (e =? 0). }
      intros [[ret e'] st1] _. cbv zeta. destruct (negb (u64 ret =? _)); [done|].
      apply IH. lia.
    + intros r st' ([[ret e'] st1] & Hw & Hk)%bind_Ret_inv. cbv zeta in Hk.
      apply write_line_spec in Hw as (m & Hm & -> & H0 & Hr & Hneg);
        [|intros E; by rewrite E in Hlen|lia].
      rewrite Hlen in Hm.
      destruct (Z.eqb_spec (u64 ret) (Z.of_nat (length (text_of (transmit_args t i ci o))))) as [E|E].
      * apply Hr in E. subst e'. rewrite (H0 eq_refl), firstn_all in Hk. cbn [negb Z.eqb andb] in Hk.
        apply IH in Hk as [[-> ->]|(-> & k & m' & Hk1 & Hm' & ->)]; [| |lia].
        -- left. split; [done|]. unfold transmit_text_of, add_tx. cbn [fmap list_fmap].
           rewrite lines_text_cons, transmit_text.
           cbn [connected sock_addr sock_port rx_buff sock_open tx]. by rewrite <- !app_assoc.
        -- right. split; [done|]. exists (S k), m'. split_and!; [lia|done|].
           cbn [take]. unfold transmit_text_of at 3. cbn [fmap list_fmap].
           rewrite lines_text_cons. simpl tx. rewrite transmit_text, <- !app_assoc. simpl.
           by replace (n + S k)%nat with (S (n + k)) by lia.
      * cbn [negb] in Hk. injection Hk as <- <-. right. split; [done|]. exists 0%nat, m.
        split_and!; [lia|done|]. rewrite take_0. unfold transmit_text_of at 1.
        cbn [fmap list_fmap lines_text mbind list_bind app]. rewrite Nat.add_0_r, (drop_S _ _ _ Ho).
        change (take 1 (o :: drop (S n) pSend)) with [o]. rewrite Hone.
        by destruct (_ && _).
Qed.
End transmit.

(** C20. Frames are sent in order: on a connected client [VCI_Transmit] stays
    inside its line buffer and the caller's array; [STATUS_OK] means that the
    lines of all [len] frames have been sent, in order and nothing else, and
    [STATUS_ERR] that the lines of the first [k] frames and a part of the next
    one have been sent. *)
Theorem transmit_in_order `{Platform} (scheds : list (list (event nat))) (t i ci : Z)
    (pSend : list VCI_CAN_OBJ) (len : nat) (st : net) :
  connected st = true -> Forall wf_CAN_OBJ pSend -> (len <= length pSend)%nat ->
  is_UB (VCI_Transmit scheds t i ci pSend len st) = false /\
  forall r st', VCI_Transmit scheds t i ci pSend len st = Ret (r, st') ->
    (r = STATUS_OK /\ st' = add_tx (transmit_text_of t i ci (take len pSend)) st) \/
    (r = STATUS_ERR /\ exists k m, (k < len)%nat /\ (m <= 86)%nat /\
       tx st' = tx st ++ transmit_text_of t i ci (take k pSend) ++
         take m (transmit_text_of t i ci (take 1 (drop k pSend)))).
Proof.
  intros Hc Hwf Hle. unfold VCI_Transmit. rewrite Hc.
  exact (transmit_loop_spec t i ci pSend Hwf len scheds 0 0 st Hle).
Qed.
Lemma transmit_in_order_witness :
  is_UB (VCI_Transmit (H := linux_x86_64) [sample_reset] 4 0 0 [sample_frame] 1 sample_net) = false /\
  forall r st', VCI_Transmit (H := linux_x86_64) [sample_reset] 4 0 0 [sample_frame] 1 sample_net
      = Ret (r, st') ->
    (r = STATUS_OK /\ st' = add_tx (transmit_text_of 4 0 0 (take 1 [sample_frame])) sample_net) \/
    (r = STATUS_ERR /\ exists k m, (k < 1)%nat /\ (m <= 86)%nat /\
       tx st' = tx sample_net ++ transmit_text_of 4 0 0 (take k [sample_frame]) ++
         take m (transmit_text_of 4 0 0 (take 1 (drop k [sample_frame])))).
Proof.
  apply transmit_in_order; [done| |done]. apply list.Forall_singleton. by apply wf_dec_CAN_OBJ.
Defined.

(** ** The client as a state machine *)

Section client_machine.
Context `{Platform}.
Variable resolves : list byte -> list byte -> bool.

(** a call of a member function that returned; the functions without a rule
    ([VCI_ReadBoardInfo], [VCI_ReadCANStatus], ...) do not touch the object *)
Inductive client_step (st : net) : net -> Prop :=
| St_Open sc sw t i r ret st' :
    VCI_OpenDevice resolves sc sw t i r st = Ret (ret, st') -> client_step st st'
| St_Close sw t i ret st' :
    VCI_CloseDevice sw t i st = Ret (ret, st') -> client_step st st'
| St_Init sw t i ci cfg ret st' :
    VCI_InitCAN sw t i ci cfg st = Ret (ret, st') -> client_step st st'
| St_ReadErr sw t i ci info ret st' :
    VCI_ReadErrInfo sw t i ci info st = Ret (ret, st') -> client_step st st'
| St_Clear sw t i ci ret st' :
    VCI_ClearBuffer sw t i ci st = Ret (ret, st') -> client_step st st'
| St_Start sw t i ci ret st' :
    VCI_StartCAN sw t i ci st = Ret (ret, st') -> client_step st st'
| St_Reset sw t i ci ret st' :
    VCI_ResetCAN sw t i ci st = Ret (ret, st') -> client_step st st'
| St_Transmit sws t i ci ps len ret st' :
    VCI_Transmit sws t i ci ps len st = Ret (ret, st') -> client_step st st'
| St_Receive sr t i ci pr len wt n pr' st' :
    VCI_Receive sr t i ci pr len wt st = Ret (n, pr', st') -> client_step st st'.

(** what a call that does not connect may change *)
Record evolves (st st' : net) : Prop := {
  ev_addr : sock_addr st' = sock_addr st;
  ev_port : sock_port st' = sock_port st;
  ev_conn : connected st' = true -> connected st = true /\ sock_open st' = sock_open st;
  ev_tx : tx st `prefix_of` tx st';
}.
#[export] Instance evolves_preorder : PreOrder evolves.
Proof.
  split.
  - intros st. by split.
  - intros a b c [A1 A2 A3 A4] [B1 B2 B3 B4]. split; try congruence.
    + intros Hc. destruct (B3 Hc) as [Hb Ho]. destruct (A3 Hb) as [Ha Ho']. split; congruence.
    + by trans (tx b).
Qed.

Lemma evolves_add_tx d st : evolves st (add_tx d st).
Proof. split; try done. by apply prefix_app_r. Qed.
Lemma evolves_disconnect st : evolves st (disconnect st).
Proof. by split. Qed.
Lemma evolves_set_rx r st : evolves st (set_rx r st).
Proof. by split. Qed.

Lemma write_line_evolves sw p ec st r ec' st' :
  write_line sw p ec st = Ret (r, ec', st') -> evolves st st'.
Proof. intros (u & _ & [= _ _ <-])%bind_Ret_inv. apply evolves_add_tx. Qed.

Lemma send_line_evolves n args sw st ok st' :
  send_line n args sw st = Ret (ok, st') -> evolves st st'.
Proof.
  intros ([buff size] & _ & Hs)%bind_Ret_inv.
  apply bind_Ret_inv in Hs as ([[r ec] st1] & Hw & [= _ <-]).
  apply write_line_evolves in Hw. destruct (ec =? 0); [done|].
  etrans; [exact Hw|]. apply evolves_disconnect.
Qed.

Lemma command_evolves n args sw st (r : vciReturnType) st' :
  ('(ok, st1) ← send_line n args sw st; Ret (status ok, st1)) = Ret (r, st') -> evolves st st'.
Proof. intros ([ok st1] & Hs & [= _ <-])%bind_Ret_inv. by apply send_line_evolves in Hs. Qed.

Lemma channel_command_evolves name sw t i ci st r st' :
  channel_command name sw t i ci st = Ret (r, st') -> evolves st st'.
Proof.
  unfold channel_command. destruct (negb _); [by intros [= _ <-]|]. apply command_evolves.
Qed.

Lemma transmit_loop_evolves scheds t i ci ps n k ec st r st' :
  transmit_loop scheds t i ci ps n k ec st = Ret (r, st') -> evolves st st'.
Proof.
  revert scheds n ec st. induction k as [|k IH]; intros scheds n ec st Ht; cbn [transmit_loop] in Ht.
  { by injection Ht as _ <-. }
  apply bind_Ret_inv in Ht as (p & _ & Ht). apply bind_Ret_inv in Ht as ([buf wl] & _ & Ht).
  destruct scheds as [|sw scheds]; [done|].
  apply bind_Ret_inv in Ht as ([[rt e] st1] & Hw & Ht). cbv zeta in Ht.
  apply write_line_evolves in Hw.
  set (st2 := if _ && _ then disconnect st1 else st1) in Ht.
  assert (evolves st st2) as H2.
  { etrans; [exact Hw|]. unfold st2. destruct (_ && _); [apply evolves_disconnect|done]. }
  clearbody st2. destruct (negb _); [by injection Ht as _ <-|]. etrans; [exact H2|]. by eapply IH.
Qed.

Lemma receive_evolves sr t i ci pr len wt st n pr' st' :
  VCI_Receive sr t i ci pr len wt st = Ret (n, pr', st') -> evolves st st'.
Proof.
  unfold VCI_Receive. destruct (connected st) eqn:Hc; [|by intros [= _ _ <-]].
  destruct pr as [objs|]; [|by intros [= _ _ <-]]. case_decide; [by intros [= _ _ <-]|].
  intros (u & _ & Hv)%bind_Ret_inv.
  set (st1 := set_rx _ _) in Hv.
  assert (evolves st st1) as H1.
  { unfold st1. etrans; [|apply evolves_set_rx]. destruct (fatal_error _); [apply evolves_disconnect|done]. }
  destruct (connected st1).
  - apply bind_Ret_inv in Hv as ([[m d] o] & _ & [= _ _ <-]). etrans; [exact H1|apply evolves_set_rx].
  - by injection Hv as _ _ <-.
Qed.

(** a connected client has an address and an open socket *)
Definition net_inv (st : net) : Prop :=
  connected st = true -> sock_open st = true /\ sock_addr st <> [] /\ sock_port st <> [].

Lemma evolves_inv st st' : evolves st st' -> net_inv st -> net_inv st'.
Proof.
  intros [Ha Hp Hc _] Hi Hc'. destruct (Hc Hc') as [H1 H2]. rewrite Ha, Hp, H2. by apply Hi.
Qed.

Lemma open_step sc sw t i r st ret st' :
  net_inv st -> VCI_OpenDevice resolves sc sw t i r st = Ret (ret, st') ->
  net_inv st' /\ sock_addr st' = sock_addr st /\ sock_port st' = sock_port st /\
  tx st `prefix_of` tx st'.
Proof.
  intros Hi. unfold VCI_OpenDevice.
  destruct (bool_decide_reflect (sock_addr st = [])) as [|Ha]; [by intros [= _ <-]|].
  destruct (bool_decide_reflect (sock_port st = [])) as [|Hp]; [by intros [= _ <-]|].
  cbn [orb]. intros ([ec st1] & Hc & Hv)%bind_Ret_inv.
  assert (st1 = st /\ connected st = true \/ st1 = set_open true st /\ connected st = false) as Hst1.
  { destruct (connected st); [injection Hc as _ <-; by left|]. right. unfold connect in Hc.
    destruct (resolves _ _); [|done]. by apply bind_Ret_inv in Hc as (e & _ & [= _ <-]). }
  assert (Hi1 : sock_open st1 = true /\ sock_addr st1 = sock_addr st /\ sock_port st1 = sock_port st
    /\ tx st1 = tx st).
  { destruct Hst1 as [[-> Hc1]|[-> _]]; [|done]. split; [|done]. by apply Hi. }
  destruct Hi1 as (Ho1 & Ha1 & Hp1 & Ht1).
  destruct (negb (ec =? 0)).
  - injection Hv as _ <-. split_and!; [|done|done|by rewrite Ht1].
    intros _. rewrite Ho1, Ha1, Hp1. done.
  - apply command_evolves in Hv. destruct Hv as [Va Vp Vc Vt]. simpl in *. split_and!.
    + intros Hc'. destruct (Vc Hc') as [_ Ho']. rewrite Va, Vp, Ho', Ha1, Hp1. done.
    + congruence.
    + congruence.
    + by rewrite <- Ht1.
Qed.

Lemma client_step_inv st st' :
  client_step st st' -> net_inv st ->
  net_inv st' /\ sock_addr st' = sock_addr st /\ sock_port st' = sock_port st /\
  tx st `prefix_of` tx st'.
Proof.
  intros Hs Hi.
  assert (Hev : evolves st st' -> net_inv st' /\ sock_addr st' = sock_addr st /\
    sock_port st' = sock_port st /\ tx st `prefix_of` tx st').
  { intros E. split; [by eapply evolves_inv|]. by destruct E. }
  destruct Hs as [sc sw t i r ret st' E|sw t i ret st' E|sw t i ci cfg ret st' E|sw t i ci info ret st' E
    |sw t i ci ret st' E|sw t i ci ret st' E|sw t i ci ret st' E|sws t i ci ps len ret st' E
    |sr t i ci pr len wt n pr' st' E]; [by eapply open_step|apply Hev..].
  - revert E. unfold VCI_CloseDevice. destruct (negb _); [by intros [= _ <-]|].
    intros ([ok st1] & Hsl & E)%bind_Ret_inv. apply send_line_evolves in Hsl.
    destruct ok; injection E as _ <-; [|done]. etrans; [exact Hsl|apply evolves_disconnect].
  - revert E. unfold VCI_InitCAN. destruct (negb _); [by intros [= _ <-]|].
    intros (c & _ & E)%bind_Ret_inv. by apply command_evolves in E.
  - revert E. unfold VCI_ReadErrInfo. destruct (connected st); [|by intros [= _ <-]].
    destruct info; [|by intros [= _ <-]]. apply command_evolves.
  - by eapply channel_command_evolves.
  - by eapply channel_command_evolves.
  - by eapply channel_command_evolves.
  - revert E. unfold VCI_Transmit. destruct (negb _); [by intros [= _ <-]|]. apply transmit_loop_evolves.
  - by eapply receive_evolves.
Qed.

Lemma clients_inv st st' :
  rtc client_step st st' -> net_inv st ->
  net_inv st' /\ sock_addr st' = sock_addr st /\ sock_port st' = sock_port st /\
  tx st `prefix_of` tx st'.
Proof.
  induction 1 as [st|st1 st2 st3 Hs _ IH]; intros Hi; [done|].
  apply client_step_inv in Hs as (Hi2 & Ha & Hp & Ht); [|done].
  destruct (IH Hi2) as (? & ? & ? & ?). split_and!; [done|congruence|congruence|by trans (tx st2)].
Qed.

(** C21. The state machine of the client: from the constructor, through any
    sequence of calls with any outcome of the network, a client that believes
    it is connected has an open socket and a configured address and port, the
    address and port never change, and the bytes sent only ever grow. *)
Theorem client_invariant (content : option (list byte)) (st0 st : net) :
  CanImpCanNet content = Ret st0 -> rtc client_step st0 st ->
  net_inv st /\ sock_addr st = sock_addr st0 /\ sock_port st = sock_port st0 /\
  tx st0 `prefix_of` tx st.
Proof.
  intros H0 Hs. apply clients_inv; [done|]. intros Hc. exfalso.
  unfold CanImpCanNet in H0. destruct content as [c|]; [|by injection H0 as <-].
  apply bind_Ret_inv in H0 as (i0 & _ & H0). apply bind_Ret_inv in H0 as ([a i1] & _ & H0).
  apply bind_Ret_inv in H0 as ([p i2] & _ & H0). by injection H0 as <-.
Qed.
End client_machine.

(** a client configured from a file connects to the agent, opens a device,
    starts a channel and loses the connection in the middle of a reset *)
Definition config_text : list byte :=
  lit "[Server]" ++ [LF] ++ lit "IpAddr=127.0.0.1" ++ [LF] ++ lit "IpPort=9999" ++ [LF].
Definition fresh_client : net := mk_net false (lit "127.0.0.1") (lit "9999") [] false [].
Definition started_text : list byte := cmd_line (COpen 4 0 0) ++ cmd_line (CStart 4 0 1).
Definition started_client : net :=
  mk_net true (lit "127.0.0.1") (lit "9999") [] true started_text.
Definition lost_client : net :=
  mk_net false (lit "127.0.0.1") (lit "9999") [] false (started_text ++ take 5 (cmd_line (CReset 4 0 1))).

Lemma started_reached :
  rtc (client_step (H := linux_x86_64) (fun _ _ => true)) fresh_client started_client.
Proof.
  eapply rtc_l; [|apply rtc_once].
  - apply (St_Open _ _ [EvComplete 0; EvRunOp; EvRunTm]
      [EvTransfer 40%nat; EvComplete 0; EvRunOp; EvRunTm] 4 0 0 STATUS_OK). vm_compute. reflexivity.
  - apply (St_Start _ _ sample_ok 4 0 1 STATUS_OK). vm_compute. reflexivity.
Qed.
Lemma lost_reached :
  client_step (H := linux_x86_64) (fun _ _ => true) started_client lost_client.
Proof.
  apply (St_Reset _ _ [EvTransfer 5%nat; EvExpire; EvRunTm; EvRunOp] 4 0 1 STATUS_ERR).
  vm_compute. reflexivity.
Qed.

Lemma client_invariant_witness :
  CanImpCanNet (H := linux_x86_64) (Some config_text) = Ret fresh_client /\
  (connected started_client = true /\ net_inv started_client /\
   sock_addr started_client = sock_addr fresh_client /\
   sock_port started_client = sock_port fresh_client /\
   tx fresh_client `prefix_of` tx started_client) /\
  (connected lost_client = false /\ net_inv lost_client /\
   sock_addr lost_client = sock_addr fresh_client /\ sock_port lost_client = sock_port fresh_client /\
   tx fresh_client `prefix_of` tx lost_client).
Proof.
  assert (Hc : CanImpCanNet (H := linux_x86_64) (Some config_text) = Ret fresh_client) by (by vm_compute).
  split; [exact Hc|]. split; (split; [reflexivity|]).
  - apply (client_invariant (H := linux_x86_64) (fun _ _ => true) (Some config_text)); [exact Hc|].
    exact started_reached.
  - apply (client_invariant (H := linux_x86_64) (fun _ _ => true) (Some config_text)); [exact Hc|].
    eapply rtc_r; [exact started_reached|exact lost_reached].
Defined.

(** ** Construction *)

Lemma index2_present s k v st : lookup_ini st s k = Some v -> index2 s k st = Ret (v, st).
Proof.
  unfold lookup_ini, index2, index. destruct (sections st !! s) as [p|]; [|done].
  simpl. destruct (objs st !! p) as [ks|]; [|done]. simpl. by intros ->.
Qed.

(** The constructor reads its configuration: from a [control_can.ini] as
    [Ini::save] writes it, with [IpAddr] and [IpPort] in section [Server], the
    client takes exactly those two values and starts disconnected with empty
    buffers; without the file it has no address. *)
Theorem constructor_reads_config `{Platform}
    (secs : list (list byte * list (list byte * list byte))) (addr port : list byte) :
  ok_sections secs ->
  lookup_list secs (lit "Server") (lit "IpAddr") = Some addr ->
  lookup_list secs (lit "Server") (lit "IpPort") = Some port ->
  CanImpCanNet (Some (save secs)) = Ret (mk_net false addr port [] false []) /\
  CanImpCanNet None = Ret (mk_net false [] [] [] false []).
Proof.
  intros Hok Ha Hp. split; [|done]. unfold CanImpCanNet.
  destruct (save_parse char_signed secs Hok) as (st & -> & Hwf & Hl). cbn [mbind outcome_bind].
  rewrite (index2_present _ _ addr) by (by rewrite Hl). cbn [mbind outcome_bind].
  by rewrite (index2_present _ _ port) by (by rewrite Hl).
Qed.
Definition shipped_config : list (list byte * list (list byte * list byte)) :=
  [(lit "Server", [(lit "IpAddr", lit "127.0.0.1"); (lit "IpPort", lit "9999")])].
Lemma constructor_reads_config_witness :
  CanImpCanNet (H := linux_x86_64) (Some (save shipped_config))
    = Ret (mk_net false (lit "127.0.0.1") (lit "9999") [] false []) /\
  CanImpCanNet (H := linux_x86_64) None = Ret (mk_net false [] [] [] false []).
Proof.
  apply constructor_reads_config; [|by vm_compute|by vm_compute].
  unfold shipped_config, ok_sections, ok_kv, ok_section. cbn [fst snd fmap list_fmap].
  split; [apply NoDup_singleton|]. apply list.Forall_singleton. split_and!; try done.
  - apply (bool_decide_unpack _). vm_compute. exact I.
  - apply (bool_decide_unpack _). vm_compute. exact I.
  - vm_compute. lia.
  - apply (bool_decide_unpack _). vm_compute. exact I.
  - repeat apply list.Forall_cons_2; [..|constructor]; cbn [fst snd]; split_and!; try done;
      try (apply (bool_decide_unpack _); vm_compute; exact I).
Defined.
