(* ===== verification/ExePath.v ===== *)
(** * ExePath
    Where the library looks for its files: [getexepath()] of
    [libControlCAN/inc/misc.hpp] on Linux and the paths the constructors of the
    back ends derive from it. What [readlink] finds is a parameter. *)

From Stdlib Require Import ZArith Lia.
From Stdlib Require Import Strings.Byte.
From stdpp Require Import base numbers list option strings.
From S2P Require Import Prelude.

Definition PATH_MAX : nat := 4096.
Definition SLASH : byte := x2f.

(** [readlink("/proc/self/exe", result, size)]: the count and the bytes it
    stores, without a terminator; the text is cut at [size] *)
Definition readlink (target : option (list byte)) (size : nat) : Z * list byte :=
  match target with Some t => (Z.of_nat (length (take size t)), take size t) | None => (-1, []) end.
Definition getexepath (target : option (list byte)) : list byte :=
  let '(count, result) := readlink target PATH_MAX in
  if 0 <? count then take (Z.to_nat count) result else [].

(** [std::filesystem::path]: [parent_path()] of a canonical name, and [p / name] with a
    relative name *)
Fixpoint last_slash (s : list byte) : option nat :=
  match s with
  | [] => None
  | c :: s =>
      match last_slash s with
      | Some i => Some (S i)
      | None => if decide (c = SLASH) then Some 0%nat else None
      end
  end.
Definition parent_path (p : list byte) : list byte :=
  match last_slash p with
  | Some 0%nat => [SLASH]
  | Some i => take i p
  | None => []
  end.
Definition path_append (p name : list byte) : list byte :=
  match last p with
  | Some c => if decide (c = SLASH) then p ++ name else p ++ SLASH :: name
  | None => name
  end.

(** [dir_path / "kerneldlls" / "kerneldll.ini"] and [dir_path / "control_can.ini"] *)
Definition kerneldll_ini (target : option (list byte)) : list byte :=
  path_append (path_append (parent_path (getexepath target)) (lit "kerneldlls")) (lit "kerneldll.ini").
Definition control_can_ini (target : option (list byte)) : list byte :=
  path_append (parent_path (getexepath target)) (lit "control_can.ini").

Lemma getexepath_spec target : getexepath target = take PATH_MAX (default [] target).
Proof.
  unfold getexepath, readlink. destruct target as [t|]; [|done]. simpl.
  destruct (Z.ltb_spec 0 (Z.of_nat (length (take PATH_MAX t)))) as [_|Hle].
  - by rewrite Nat2Z.id, firstn_all.
  - symmetry. apply nil_length_inv. lia.
Qed.
Lemma last_slash_none s : SLASH ∉ s -> last_slash s = None.
Proof.
  induction s as [|c s IH]; intros Hs; [done|]. apply not_elem_of_cons in Hs as [Hc Hs]. simpl. rewrite IH by done.
  by rewrite decide_False.
Qed.
Lemma last_slash_app d name : SLASH ∉ name -> last_slash (d ++ SLASH :: name) = Some (length d).
Proof.
  intros Hn. induction d as [|c d IH]; simpl; [by rewrite last_slash_none|]. by rewrite IH.
Qed.

(** The files are looked for beside the executable: in its own directory when
    its path fits the buffer; in the working directory when the link cannot be
    read; and beside whatever the cut path names when it is longer. *)
Theorem configuration_paths (d name : list byte) (t : list byte) :
  (d <> [] -> last d <> Some SLASH -> SLASH ∉ name -> (length d + length name < PATH_MAX)%nat ->
   kerneldll_ini (Some (d ++ SLASH :: name)) = d ++ lit "/kerneldlls/kerneldll.ini" /\
   control_can_ini (Some (d ++ SLASH :: name)) = d ++ lit "/control_can.ini") /\
  kerneldll_ini None = lit "kerneldlls/kerneldll.ini" /\ control_can_ini None = lit "control_can.ini" /\
  (kerneldll_ini (Some t) = kerneldll_ini (Some (take PATH_MAX t))).
Proof.
  split_and!; [|done|done|].
  - intros Hd Hl Hn Hlen. unfold kerneldll_ini, control_can_ini. rewrite getexepath_spec. cbn [from_option]. unfold id.
    rewrite take_ge by (rewrite length_app; simpl; lia).
    assert (Ep : parent_path (d ++ SLASH :: name) = d).
    { unfold parent_path. rewrite last_slash_app by done. destruct (length d) eqn:E; [by destruct d|].
      by rewrite <- E, take_app_length. }
    assert (Ha : forall n, path_append d n = d ++ SLASH :: n).
    { intros n. unfold path_append. destruct (last d) as [c|] eqn:E; [|by apply last_None in E].
      rewrite decide_False by congruence. done. }
    rewrite Ep, !Ha. split; [|done]. unfold path_append. rewrite last_app. simpl.
    by rewrite <- app_assoc.
  - unfold kerneldll_ini. rewrite !getexepath_spec. cbn [from_option]. unfold id. by rewrite take_take, Nat.min_id.
Qed.
