(* ===== verification/CanImp.v ===== *)
(** * CanImp
    [CanImpInterface] of [libControlCAN/include/lib_control_can_imp.h], the
    interface the back ends implement and the facade is written against, and the
    vendor libraries of [libControlCAN/inc/lib_control_can_define.hpp].

    A pointer parameter is the object it points to, [None] when null; an
    output object is part of the result. The world a call runs in consists of
    the state behind the vendor libraries and of what the network will do: the
    events of the connection attempts, writes and reads still to come. *)

From Stdlib Require Import ZArith Lia.
From Stdlib Require Import Strings.Byte.
From stdpp Require Import base numbers list option gmap strings.
From S2P Require Import Prelude UsbCan AsioRun Ini NetClient.

(** ** Vendor libraries *)

(** [dll_load_dll_type]: the entry points a vendor library must export, as
    functions on the state [V] behind the libraries. Importing a missing symbol
    throws, so a loaded library has them all. *)
Record dll_load_dll_type (V : Type) := mk_dll {
  path : list byte;
  fOpenDevice : Z -> Z -> Z -> V -> Z * V;
  fCloseDevice : Z -> Z -> V -> Z * V;
  fResetCan : Z -> Z -> Z -> V -> Z * V;
  fInitCan : Z -> Z -> Z -> option VCI_INIT_CONFIG -> V -> Z * V;
  fReadBoardInfo : Z -> Z -> option VCI_BOARD_INFO -> V -> Z * option VCI_BOARD_INFO * V;
  fReadErrInfo : Z -> Z -> Z -> option VCI_ERR_INFO -> V -> Z * option VCI_ERR_INFO * V;
  fReadCanStatus : Z -> Z -> Z -> option VCI_CAN_STATUS -> V -> Z * option VCI_CAN_STATUS * V;
  fGetReference : Z -> Z -> Z -> Z -> option (list byte) -> V -> Z * option (list byte) * V;
  fSetReference : Z -> Z -> Z -> Z -> option (list byte) -> V -> Z * V;
  fGetReceiveNum : Z -> Z -> Z -> V -> Z * V;
  fClearBuffer : Z -> Z -> Z -> V -> Z * V;
  fStartCan : Z -> Z -> Z -> V -> Z * V;
  fTransmit : Z -> Z -> Z -> list VCI_CAN_OBJ -> nat -> V -> Z * V;
  fReceive : Z -> Z -> Z -> option (list byte) -> nat -> Z -> V -> nat * option (list byte) * V;
}.
Arguments mk_dll {V}.
Arguments path {V} d : rename.
Arguments fOpenDevice {V} d : rename.
Arguments fCloseDevice {V} d : rename.
Arguments fResetCan {V} d : rename.
Arguments fInitCan {V} d : rename.
Arguments fReadBoardInfo {V} d : rename.
Arguments fReadErrInfo {V} d : rename.
Arguments fReadCanStatus {V} d : rename.
Arguments fGetReference {V} d : rename.
Arguments fSetReference {V} d : rename.
Arguments fGetReceiveNum {V} d : rename.
Arguments fClearBuffer {V} d : rename.
Arguments fStartCan {V} d : rename.
Arguments fTransmit {V} d : rename.
Arguments fReceive {V} d : rename.

(** the constructor stores the path it loads *)
Definition set_path {V} (p : list byte) (l : dll_load_dll_type V) : dll_load_dll_type V :=
  mk_dll p (fOpenDevice l) (fCloseDevice l) (fResetCan l) (fInitCan l) (fReadBoardInfo l) (fReadErrInfo l)
    (fReadCanStatus l) (fGetReference l) (fSetReference l) (fGetReceiveNum l) (fClearBuffer l) (fStartCan l)
    (fTransmit l) (fReceive l).

(** ** The host *)

(** What the process finds around it: the configuration files next to the
    executable, the file system, the dynamic loader (a library's entry points,
    and what becomes of the state behind the libraries, their static data
    included, when a library is loaded and unloaded), the text-to-number
    conversion of Boost, the order in which an [unordered_map] is traversed and
    the name service. *)
Class Host (V : Type) := {
  platform :: Platform;
  kernel_ini : option (list byte);              (* kerneldlls/kerneldll.ini *)
  control_ini : option (list byte);             (* control_can.ini *)
  sub_path : list byte -> list byte;            (* kerneldlls / name *)
  file_exists : list byte -> bool;
  try_lexical_convert : list byte -> option Z;  (* to uint32_t *)
  traversal : gmap (list byte) (list byte) -> list (list byte * list byte);
  shared_library : list byte -> outcome (dll_load_dll_type V);
  dl_load : list byte -> V -> V;                (* what loading a library does *)
  dl_unload : list byte -> V -> V;              (* and what unloading it does *)
  resolves : list byte -> list byte -> bool;
}.
(** the documented behaviour the properties rely on *)
Class HostLaws (V : Type) `{Host V} : Prop := {
  traversal_perm m : traversal m ≡ₚ map_to_list m;
  convert_range s t : try_lexical_convert s = Some t -> is_u32 t;
}.

(** ** The world of a call *)

Record world (V : Type) := mk_world {
  vendor : V;
  conn_ev : list (list (event unit));
  write_ev : list (list (event nat));
  read_ev : list (list (event (list byte)));
}.
Arguments mk_world {V}.
Arguments vendor {V} w : rename.
Arguments conn_ev {V} w : rename.
Arguments write_ev {V} w : rename.
Arguments read_ev {V} w : rename.

Section interface.
Context {V : Type}.

Definition set_vendor (v : V) (w : world V) : world V :=
  mk_world v (conn_ev w) (write_ev w) (read_ev w).

(** a call on an object of type [I]: its result, the object and the world
    afterwards *)
Definition method (I A : Type) : Type := I -> world V -> outcome (A * I * world V).

(** [class CanImpInterface] *)
Class CanImpInterface (I : Type) := {
  imp_OpenDevice : Z -> Z -> Z -> method I vciReturnType;
  imp_CloseDevice : Z -> Z -> method I vciReturnType;
  imp_ReadBoardInfo : Z -> Z -> option VCI_BOARD_INFO -> method I (vciReturnType * option VCI_BOARD_INFO);
  imp_InitCAN : Z -> Z -> Z -> option VCI_INIT_CONFIG -> method I vciReturnType;
  imp_ReadErrInfo : Z -> Z -> Z -> option VCI_ERR_INFO -> method I (vciReturnType * option VCI_ERR_INFO);
  imp_ReadCANStatus : Z -> Z -> Z -> option VCI_CAN_STATUS -> method I (vciReturnType * option VCI_CAN_STATUS);
  imp_GetReference : Z -> Z -> Z -> Z -> option (list byte) -> method I (vciReturnType * option (list byte));
  imp_SetReference : Z -> Z -> Z -> Z -> option (list byte) -> method I vciReturnType;
  imp_GetReceiveNum : Z -> Z -> Z -> method I Z;
  imp_ClearBuffer : Z -> Z -> Z -> method I vciReturnType;
  imp_StartCAN : Z -> Z -> Z -> method I vciReturnType;
  imp_ResetCAN : Z -> Z -> Z -> method I vciReturnType;
  imp_Transmit : Z -> Z -> Z -> list VCI_CAN_OBJ -> nat -> method I vciReturnType;
  imp_Receive : Z -> Z -> Z -> option (list byte) -> nat -> Z -> method I (nat * option (list byte));
}.

(** ** Calls as data *)

Inductive call : Type :=
| KOpen (t i r : Z)
| KClose (t i : Z)
| KReadBoardInfo (t i : Z) (p : option VCI_BOARD_INFO)
| KInitCAN (t i ci : Z) (p : option VCI_INIT_CONFIG)
| KReadErrInfo (t i ci : Z) (p : option VCI_ERR_INFO)
| KReadCANStatus (t i ci : Z) (p : option VCI_CAN_STATUS)
| KGetReference (t i ci r : Z) (p : option (list byte))
| KSetReference (t i ci r : Z) (p : option (list byte))
| KGetReceiveNum (t i ci : Z)
| KClearBuffer (t i ci : Z)
| KStartCAN (t i ci : Z)
| KResetCAN (t i ci : Z)
| KTransmit (t i ci : Z) (ps : list VCI_CAN_OBJ) (len : nat)
| KReceive (t i ci : Z) (pr : option (list byte)) (len : nat) (wt : Z).
Inductive reply : Type :=
| RStatus (r : vciReturnType)
| RBoardInfo (r : vciReturnType) (p : option VCI_BOARD_INFO)
| RErrInfo (r : vciReturnType) (p : option VCI_ERR_INFO)
| RCANStatus (r : vciReturnType) (p : option VCI_CAN_STATUS)
| RReference (r : vciReturnType) (p : option (list byte))
| RNum (n : Z)
| RFrames (n : nat) (pr : option (list byte)).

Definition call_type (c : call) : Z :=
  match c with
  | KOpen t _ _ | KClose t _ | KReadBoardInfo t _ _ | KInitCAN t _ _ _ | KReadErrInfo t _ _ _
  | KReadCANStatus t _ _ _ | KGetReference t _ _ _ _ | KSetReference t _ _ _ _
  | KGetReceiveNum t _ _ | KClearBuffer t _ _ | KStartCAN t _ _ | KResetCAN t _ _
  | KTransmit t _ _ _ _ | KReceive t _ _ _ _ _ => t
  end.

(** the failure of a call: nothing is written through its pointer *)
Definition failure (c : call) : reply :=
  match c with
  | KReadBoardInfo _ _ p => RBoardInfo STATUS_ERR p
  | KReadErrInfo _ _ _ p => RErrInfo STATUS_ERR p
  | KReadCANStatus _ _ _ p => RCANStatus STATUS_ERR p
  | KGetReference _ _ _ _ p => RReference STATUS_ERR p
  | KGetReceiveNum _ _ _ => RNum 0
  | KReceive _ _ _ pr _ _ => RFrames 0 pr
  | _ => RStatus STATUS_ERR
  end.

Definition wrap {I A} (f : A -> reply) (m : outcome (A * I * world V))
    : outcome (reply * I * world V) := '(a, x, w) ← m; Ret (f a, x, w).

(** the member function a call stands for *)
Definition invoke {I} `{CanImpInterface I} (c : call) : method I reply := fun x w =>
  match c with
  | KOpen t i r => wrap RStatus (imp_OpenDevice t i r x w)
  | KClose t i => wrap RStatus (imp_CloseDevice t i x w)
  | KReadBoardInfo t i p => wrap (fun a => RBoardInfo a.1 a.2) (imp_ReadBoardInfo t i p x w)
  | KInitCAN t i ci p => wrap RStatus (imp_InitCAN t i ci p x w)
  | KReadErrInfo t i ci p => wrap (fun a => RErrInfo a.1 a.2) (imp_ReadErrInfo t i ci p x w)
  | KReadCANStatus t i ci p => wrap (fun a => RCANStatus a.1 a.2) (imp_ReadCANStatus t i ci p x w)
  | KGetReference t i ci r p => wrap (fun a => RReference a.1 a.2) (imp_GetReference t i ci r p x w)
  | KSetReference t i ci r p => wrap RStatus (imp_SetReference t i ci r p x w)
  | KGetReceiveNum t i ci => wrap RNum (imp_GetReceiveNum t i ci x w)
  | KClearBuffer t i ci => wrap RStatus (imp_ClearBuffer t i ci x w)
  | KStartCAN t i ci => wrap RStatus (imp_StartCAN t i ci x w)
  | KResetCAN t i ci => wrap RStatus (imp_ResetCAN t i ci x w)
  | KTransmit t i ci ps len => wrap RStatus (imp_Transmit t i ci ps len x w)
  | KReceive t i ci pr len wt => wrap (fun a => RFrames a.1 a.2) (imp_Receive t i ci pr len wt x w)
  end.

(** a sequence of calls on one object *)
Fixpoint invokes {I} `{CanImpInterface I} (cs : list call) : method I (list reply) := fun x w =>
  match cs with
  | [] => Ret ([], x, w)
  | c :: cs =>
      '(r, x1, w1) ← invoke c x w;
      '(rs, x2, w2) ← invokes cs x1 w1;
      Ret (r :: rs, x2, w2)
  end.

(** ** The network client behind the interface *)

Context `{Host V}.

(** the events of the next operation of a kind; none when the network does
    nothing more *)
Definition next_ev {P} (l : list (list (event P))) : list (event P) := default [] (head l).

(** a call that may write one line takes the events of one write *)
Definition with_write {A} (f : list (event nat) -> outcome (A * net)) (w : world V)
    : outcome (A * net * world V) :=
  '(a, st) ← f (next_ev (write_ev w));
  Ret (a, st, mk_world (vendor w) (conn_ev w) (tail (write_ev w)) (read_ev w)).

Definition net_OpenDevice (t i r : Z) : method net vciReturnType := fun st w =>
  '(a, st') ← VCI_OpenDevice resolves (next_ev (conn_ev w)) (next_ev (write_ev w)) t i r st;
  Ret (a, st', mk_world (vendor w) (tail (conn_ev w)) (tail (write_ev w)) (read_ev w)).
Definition net_Transmit (t i ci : Z) (ps : list VCI_CAN_OBJ) (len : nat)
    : method net vciReturnType := fun st w =>
  '(a, st') ← VCI_Transmit (take len (write_ev w)) t i ci ps len st;
  Ret (a, st', mk_world (vendor w) (conn_ev w) (drop len (write_ev w)) (read_ev w)).
Definition net_Receive (t i ci : Z) (pr : option (list byte)) (len : nat) (wt : Z)
    : method net (nat * option (list byte)) := fun st w =>
  '(n, pr', st') ← VCI_Receive (next_ev (read_ev w)) t i ci pr len wt st;
  Ret ((n, pr'), st', mk_world (vendor w) (conn_ev w) (write_ev w) (tail (read_ev w))).

#[export] Instance CanImpCanNet_imp : CanImpInterface net := {|
  imp_OpenDevice := net_OpenDevice;
  imp_CloseDevice t i st w := with_write (fun s => VCI_CloseDevice s t i st) w;
  imp_ReadBoardInfo t i p st w := Ret (VCI_ReadBoardInfo t i st, p, st, w);
  imp_InitCAN t i ci p st w := with_write (fun s => VCI_InitCAN s t i ci p st) w;
  imp_ReadErrInfo t i ci p st w :=
    '(a, st', w') ← with_write (fun s => VCI_ReadErrInfo s t i ci p st) w; Ret ((a, p), st', w');
  imp_ReadCANStatus t i ci p st w := Ret (VCI_ReadCANStatus t i ci st, p, st, w);
  imp_GetReference t i ci r p st w := Ret (VCI_GetReference t i ci r st, p, st, w);
  imp_SetReference t i ci r p st w := Ret (VCI_SetReference t i ci r st, st, w);
  imp_GetReceiveNum t i ci st w := Ret (VCI_GetReceiveNum t i ci st, st, w);
  imp_ClearBuffer t i ci st w := with_write (fun s => VCI_ClearBuffer s t i ci st) w;
  imp_StartCAN t i ci st w := with_write (fun s => VCI_StartCAN s t i ci st) w;
  imp_ResetCAN t i ci st w := with_write (fun s => VCI_ResetCAN s t i ci st) w;
  imp_Transmit := net_Transmit;
  imp_Receive := net_Receive;
|}.
End interface.
