(* ===== verification/DirectCan.v ===== *)
(** * DirectCan
    The two back ends that load a vendor library: [CanImpDirectCan]
    ([libControlCAN/src/lib_control_can_imp_dc.cc]), which loads every library
    of [kerneldll.ini] when it is constructed, and [CanImpDirectCan2]
    ([lib_control_can_imp_dc2.cc]), which loads the one that is opened and
    unloads it at the next open or close. Loading and unloading act on the state
    behind the libraries ([dl_load], [dl_unload]). *)

From Stdlib Require Import ZArith Lia.
From Stdlib Require Import Strings.Byte.
From stdpp Require Import base numbers list option gmap strings.
From S2P Require Import Prelude UsbCan Ini NetClient CanImp.

Section direct.
Context {V : Type} `{Host V}.

(** [load_library] and [load_library_s]: [new] does not yield a null pointer,
    loading fails by an exception *)
Definition load_library (p : list byte) : outcome (dll_load_dll_type V) :=
  l ← shared_library p; Ret (set_path p l).

(** [auto sec = ini["KERNELDLL"]]: the entries in the order of the loop,
    [None] when the file does not exist *)
Definition kernel_keys : outcome (option (list (list byte * list byte))) :=
  match kernel_ini with
  | None => Ret None
  | Some _ =>
      ini0 ← ini_parse char_signed kernel_ini;
      let '(p, ini1) := index (lit "KERNELDLL") ini0 in
      ks ← deref "section object" (objs ini1 !! p);
      Ret (Some (traversal ks))
  end.

(** ** [CanImpDirectCan] *)

Record dc := mk_dc { lib_map_ : gmap Z (dll_load_dll_type V) }.

(** the loop of the constructor; [insert] keeps an entry that is there, and the
    library just loaded goes with the pair *)
Fixpoint DC_load (keys : list (list byte * list byte)) (m : gmap Z (dll_load_dll_type V)) (v : V)
    : outcome (gmap Z (dll_load_dll_type V) * V) :=
  match keys with
  | [] => Ret (m, v)
  | (first, second) :: keys =>
      match try_lexical_convert first with
      | None => DC_load keys m v
      | Some type =>
          if negb (file_exists (sub_path second)) then DC_load keys m v
          else
            up ← load_library (sub_path second);
            let v1 := dl_load (path up) v in
            match m !! type with
            | Some _ => DC_load keys m (dl_unload (path up) v1)
            | None => DC_load keys (<[type := up]> m) v1
            end
      end
  end.
Definition CanImpDirectCan (v : V) : outcome (dc * V) :=
  keys ← kernel_keys;
  match keys with
  | Some keys => '(m, v') ← DC_load keys ∅ v; Ret (mk_dc m, v')
  | None => Ret (mk_dc ∅, v)
  end.

Definition DC_VCI_OpenDevice (t i r : Z)
    : method (V := V) dc vciReturnType := fun d w =>
  match lib_map_ d !! t with
  | Some it => let '(err, v) := fOpenDevice it t i r (vendor w) in Ret (DWORD_to_ret err, d, set_vendor v w)
  | None => Ret (STATUS_ERR, d, w)
  end.
Definition DC_VCI_CloseDevice (t i : Z)
    : method (V := V) dc vciReturnType := fun d w =>
  match lib_map_ d !! t with
  | Some it => let '(err, v) := fCloseDevice it t i (vendor w) in Ret (DWORD_to_ret err, d, set_vendor v w)
  | None => Ret (STATUS_ERR, d, w)
  end.
Definition DC_VCI_ReadBoardInfo (t i : Z) (pInfo : option VCI_BOARD_INFO)
    : method (V := V) dc (vciReturnType * option VCI_BOARD_INFO) := fun d w =>
  match lib_map_ d !! t with
  | Some it => let '(err, p, v) := fReadBoardInfo it t i pInfo (vendor w) in Ret ((DWORD_to_ret err, p), d, set_vendor v w)
  | None => Ret ((STATUS_ERR, pInfo), d, w)
  end.
Definition DC_VCI_InitCAN (t i ci : Z) (pInitConfig : option VCI_INIT_CONFIG)
    : method (V := V) dc vciReturnType := fun d w =>
  match lib_map_ d !! t with
  | Some it => let '(err, v) := fInitCan it t i ci pInitConfig (vendor w) in Ret (DWORD_to_ret err, d, set_vendor v w)
  | None => Ret (STATUS_ERR, d, w)
  end.
Definition DC_VCI_ReadErrInfo (t i ci : Z) (pErrInfo : option VCI_ERR_INFO)
    : method (V := V) dc (vciReturnType * option VCI_ERR_INFO) := fun d w =>
  match lib_map_ d !! t with
  | Some it => let '(err, p, v) := fReadErrInfo it t i ci pErrInfo (vendor w) in Ret ((DWORD_to_ret err, p), d, set_vendor v w)
  | None => Ret ((STATUS_ERR, pErrInfo), d, w)
  end.
Definition DC_VCI_ReadCANStatus (t i ci : Z) (pCANStatus : option VCI_CAN_STATUS)
    : method (V := V) dc (vciReturnType * option VCI_CAN_STATUS) := fun d w =>
  match lib_map_ d !! t with
  | Some it => let '(err, p, v) := fReadCanStatus it t i ci pCANStatus (vendor w) in Ret ((DWORD_to_ret err, p), d, set_vendor v w)
  | None => Ret ((STATUS_ERR, pCANStatus), d, w)
  end.
Definition DC_VCI_GetReference (t i ci refType : Z) (pData : option (list byte))
    : method (V := V) dc (vciReturnType * option (list byte)) := fun d w =>
  match lib_map_ d !! t with
  | Some it => let '(err, p, v) := fGetReference it t i ci refType pData (vendor w) in Ret ((DWORD_to_ret err, p), d, set_vendor v w)
  | None => Ret ((STATUS_ERR, pData), d, w)
  end.
Definition DC_VCI_SetReference (t i ci refType : Z) (pData : option (list byte))
    : method (V := V) dc vciReturnType := fun d w =>
  match lib_map_ d !! t with
  | Some it => let '(err, v) := fSetReference it t i ci refType pData (vendor w) in Ret (DWORD_to_ret err, d, set_vendor v w)
  | None => Ret (STATUS_ERR, d, w)
  end.
Definition DC_VCI_GetReceiveNum (t i ci : Z)
    : method (V := V) dc Z := fun d w =>
  match lib_map_ d !! t with
  | Some it => let '(err, v) := fGetReceiveNum it t i ci (vendor w) in Ret (err, d, set_vendor v w)
  | None => Ret (0, d, w)
  end.
Definition DC_VCI_ClearBuffer (t i ci : Z)
    : method (V := V) dc vciReturnType := fun d w =>
  match lib_map_ d !! t with
  | Some it => let '(err, v) := fClearBuffer it t i ci (vendor w) in Ret (DWORD_to_ret err, d, set_vendor v w)
  | None => Ret (STATUS_ERR, d, w)
  end.
Definition DC_VCI_StartCAN (t i ci : Z)
    : method (V := V) dc vciReturnType := fun d w =>
  match lib_map_ d !! t with
  | Some it => let '(err, v) := fStartCan it t i ci (vendor w) in Ret (DWORD_to_ret err, d, set_vendor v w)
  | None => Ret (STATUS_ERR, d, w)
  end.
Definition DC_VCI_ResetCAN (t i ci : Z)
    : method (V := V) dc vciReturnType := fun d w =>
  match lib_map_ d !! t with
  | Some it => let '(err, v) := fResetCan it t i ci (vendor w) in Ret (DWORD_to_ret err, d, set_vendor v w)
  | None => Ret (STATUS_ERR, d, w)
  end.
Definition DC_VCI_Transmit (t i ci : Z) (pSend : list VCI_CAN_OBJ) (len : nat)
    : method (V := V) dc vciReturnType := fun d w =>
  match lib_map_ d !! t with
  | Some it => let '(err, v) := fTransmit it t i ci pSend len (vendor w) in Ret (DWORD_to_ret err, d, set_vendor v w)
  | None => Ret (STATUS_ERR, d, w)
  end.
Definition DC_VCI_Receive (t i ci : Z) (pReceive : option (list byte)) (len : nat) (waitTime : Z)
    : method (V := V) dc (nat * option (list byte)) := fun d w =>
  match lib_map_ d !! t with
  | Some it => let '(err, p, v) := fReceive it t i ci pReceive len waitTime (vendor w) in Ret ((err, p), d, set_vendor v w)
  | None => Ret ((0%nat, pReceive), d, w)
  end.

#[export] Instance DC_imp : CanImpInterface (V := V) dc := {|
  imp_OpenDevice := DC_VCI_OpenDevice;
  imp_CloseDevice := DC_VCI_CloseDevice;
  imp_ReadBoardInfo := DC_VCI_ReadBoardInfo;
  imp_InitCAN := DC_VCI_InitCAN;
  imp_ReadErrInfo := DC_VCI_ReadErrInfo;
  imp_ReadCANStatus := DC_VCI_ReadCANStatus;
  imp_GetReference := DC_VCI_GetReference;
  imp_SetReference := DC_VCI_SetReference;
  imp_GetReceiveNum := DC_VCI_GetReceiveNum;
  imp_ClearBuffer := DC_VCI_ClearBuffer;
  imp_StartCAN := DC_VCI_StartCAN;
  imp_ResetCAN := DC_VCI_ResetCAN;
  imp_Transmit := DC_VCI_Transmit;
  imp_Receive := DC_VCI_Receive;
|}.

(** ** [CanImpDirectCan2] *)

Record dc2 := mk_dc2 { _lib : option (dll_load_dll_type V); _dev_type : option Z }.

(** [CanImpDirectCan2()] *)
Definition CanImpDirectCan2 : dc2 := mk_dc2 None None.

(** the loop of [VCI_OpenDevice]: the first usable entry of the type *)
Fixpoint DC2_find (deviceType : Z) (keys : list (list byte * list byte))
    : outcome (option (Z * dll_load_dll_type V)) :=
  match keys with
  | [] => Ret None
  | (first, second) :: keys =>
      match try_lexical_convert first with
      | None => DC2_find deviceType keys
      | Some type =>
          if negb (type =? deviceType) then DC2_find deviceType keys
          else if negb (file_exists (sub_path second)) then DC2_find deviceType keys
          else up ← load_library (sub_path second); Ret (Some (type, up))
      end
  end.

(** [_dev_type && _lib && *_dev_type == deviceType] *)
Definition dc2_match (d : dc2) (deviceType : Z) : option (dll_load_dll_type V) :=
  match _dev_type d, _lib d with
  | Some type, Some lib => if type =? deviceType then Some lib else None
  | _, _ => None
  end.

(** [_lib.reset()], also by the destructor *)
Definition drop_lib (d : dc2) (v : V) : V :=
  match _lib d with Some l => dl_unload (path l) v | None => v end.

Definition DC2_VCI_OpenDevice (t i r : Z) : method (V := V) dc2 vciReturnType := fun d0 w =>
  keys ← kernel_keys;
  let v0 := drop_lib d0 (vendor w) in
  found ← (match keys with Some keys => DC2_find t keys | None => Ret None end);
  let '(d, v1) := match found with
                  | Some (type, up) => (mk_dc2 (Some up) (Some type), dl_load (path up) v0)
                  | None => (mk_dc2 None None, v0)
                  end in
  match _dev_type d, _lib d with
  | Some _, Some lib =>
      let '(err, v) := fOpenDevice lib t i r v1 in
      Ret (DWORD_to_ret err, d, set_vendor v w)
  | _, _ => Ret (STATUS_ERR, d, set_vendor v1 w)
  end.
(** both ways out drop the library *)
Definition DC2_VCI_CloseDevice (t i : Z) : method (V := V) dc2 vciReturnType := fun d w =>
  match dc2_match d t with
  | Some it =>
      let '(err, v) := fCloseDevice it t i (vendor w) in
      Ret (DWORD_to_ret err, mk_dc2 None None, set_vendor (drop_lib d v) w)
  | None => Ret (STATUS_ERR, mk_dc2 None None, set_vendor (drop_lib d (vendor w)) w)
  end.
Definition DC2_VCI_ReadBoardInfo (t i : Z) (pInfo : option VCI_BOARD_INFO)
    : method (V := V) dc2 (vciReturnType * option VCI_BOARD_INFO) := fun d w =>
  match dc2_match d t with
  | Some it => let '(err, p, v) := fReadBoardInfo it t i pInfo (vendor w) in Ret ((DWORD_to_ret err, p), d, set_vendor v w)
  | None => Ret ((STATUS_ERR, pInfo), d, w)
  end.
Definition DC2_VCI_InitCAN (t i ci : Z) (pInitConfig : option VCI_INIT_CONFIG)
    : method (V := V) dc2 vciReturnType := fun d w =>
  match dc2_match d t with
  | Some it => let '(err, v) := fInitCan it t i ci pInitConfig (vendor w) in Ret (DWORD_to_ret err, d, set_vendor v w)
  | None => Ret (STATUS_ERR, d, w)
  end.
Definition DC2_VCI_ReadErrInfo (t i ci : Z) (pErrInfo : option VCI_ERR_INFO)
    : method (V := V) dc2 (vciReturnType * option VCI_ERR_INFO) := fun d w =>
  match dc2_match d t with
  | Some it => let '(err, p, v) := fReadErrInfo it t i ci pErrInfo (vendor w) in Ret ((DWORD_to_ret err, p), d, set_vendor v w)
  | None => Ret ((STATUS_ERR, pErrInfo), d, w)
  end.
Definition DC2_VCI_ReadCANStatus (t i ci : Z) (pCANStatus : option VCI_CAN_STATUS)
    : method (V := V) dc2 (vciReturnType * option VCI_CAN_STATUS) := fun d w =>
  match dc2_match d t with
  | Some it => let '(err, p, v) := fReadCanStatus it t i ci pCANStatus (vendor w) in Ret ((DWORD_to_ret err, p), d, set_vendor v w)
  | None => Ret ((STATUS_ERR, pCANStatus), d, w)
  end.
Definition DC2_VCI_GetReference (t i ci refType : Z) (pData : option (list byte))
    : method (V := V) dc2 (vciReturnType * option (list byte)) := fun d w =>
  match dc2_match d t with
  | Some it => let '(err, p, v) := fGetReference it t i ci refType pData (vendor w) in Ret ((DWORD_to_ret err, p), d, set_vendor v w)
  | None => Ret ((STATUS_ERR, pData), d, w)
  end.
Definition DC2_VCI_SetReference (t i ci refType : Z) (pData : option (list byte))
    : method (V := V) dc2 vciReturnType := fun d w =>
  match dc2_match d t with
  | Some it => let '(err, v) := fSetReference it t i ci refType pData (vendor w) in Ret (DWORD_to_ret err, d, set_vendor v w)
  | None => Ret (STATUS_ERR, d, w)
  end.
Definition DC2_VCI_GetReceiveNum (t i ci : Z)
    : method (V := V) dc2 Z := fun d w =>
  match dc2_match d t with
  | Some it => let '(err, v) := fGetReceiveNum it t i ci (vendor w) in Ret (err, d, set_vendor v w)
  | None => Ret (0, d, w)
  end.
Definition DC2_VCI_ClearBuffer (t i ci : Z)
    : method (V := V) dc2 vciReturnType := fun d w =>
  match dc2_match d t with
  | Some it => let '(err, v) := fClearBuffer it t i ci (vendor w) in Ret (DWORD_to_ret err, d, set_vendor v w)
  | None => Ret (STATUS_ERR, d, w)
  end.
Definition DC2_VCI_StartCAN (t i ci : Z)
    : method (V := V) dc2 vciReturnType := fun d w =>
  match dc2_match d t with
  | Some it => let '(err, v) := fStartCan it t i ci (vendor w) in Ret (DWORD_to_ret err, d, set_vendor v w)
  | None => Ret (STATUS_ERR, d, w)
  end.
Definition DC2_VCI_ResetCAN (t i ci : Z)
    : method (V := V) dc2 vciReturnType := fun d w =>
  match dc2_match d t with
  | Some it => let '(err, v) := fResetCan it t i ci (vendor w) in Ret (DWORD_to_ret err, d, set_vendor v w)
  | None => Ret (STATUS_ERR, d, w)
  end.
Definition DC2_VCI_Transmit (t i ci : Z) (pSend : list VCI_CAN_OBJ) (len : nat)
    : method (V := V) dc2 vciReturnType := fun d w =>
  match dc2_match d t with
  | Some it => let '(err, v) := fTransmit it t i ci pSend len (vendor w) in Ret (DWORD_to_ret err, d, set_vendor v w)
  | None => Ret (STATUS_ERR, d, w)
  end.
Definition DC2_VCI_Receive (t i ci : Z) (pReceive : option (list byte)) (len : nat) (waitTime : Z)
    : method (V := V) dc2 (nat * option (list byte)) := fun d w =>
  match dc2_match d t with
  | Some it => let '(err, p, v) := fReceive it t i ci pReceive len waitTime (vendor w) in Ret ((err, p), d, set_vendor v w)
  | None => Ret ((0%nat, pReceive), d, w)
  end.

#[export] Instance DC2_imp : CanImpInterface (V := V) dc2 := {|
  imp_OpenDevice := DC2_VCI_OpenDevice;
  imp_CloseDevice := DC2_VCI_CloseDevice;
  imp_ReadBoardInfo := DC2_VCI_ReadBoardInfo;
  imp_InitCAN := DC2_VCI_InitCAN;
  imp_ReadErrInfo := DC2_VCI_ReadErrInfo;
  imp_ReadCANStatus := DC2_VCI_ReadCANStatus;
  imp_GetReference := DC2_VCI_GetReference;
  imp_SetReference := DC2_VCI_SetReference;
  imp_GetReceiveNum := DC2_VCI_GetReceiveNum;
  imp_ClearBuffer := DC2_VCI_ClearBuffer;
  imp_StartCAN := DC2_VCI_StartCAN;
  imp_ResetCAN := DC2_VCI_ResetCAN;
  imp_Transmit := DC2_VCI_Transmit;
  imp_Receive := DC2_VCI_Receive;
|}.
End direct.
Arguments dc V : clear implicits.
Arguments dc2 V : clear implicits.
