(* ===== verification/DirectFacts.v ===== *)
(** * DirectFacts
    What the direct back ends guarantee: which library a call reaches, what a
    call that reaches none does, and how the two back ends compare for a client
    that opens a device before using it: they reach the same library, which one
    of them unloads and loads again between sessions. *)

From Stdlib Require Import ZArith Lia.
From Stdlib Require Import Strings.Byte.
From stdpp Require Import base numbers list option gmap strings.
From S2P Require Import Prelude UsbCan Ini AsioRun NetClient CanImp DirectCan.

Section facts.
Context {V : Type} `{Host V}.

(** an entry of [kerneldll.ini] from which library [l] is loaded for type [t] *)
Definition provides (keys : list (list byte * list byte)) (t : Z) (l : dll_load_dll_type V) : Prop :=
  exists k v, (k, v) ∈ keys /\ try_lexical_convert k = Some t /\
    file_exists (sub_path v) = true /\ load_library (sub_path v) = Ret l.
(** some entry names type [t] and an existing file *)
Definition usable (keys : list (list byte * list byte)) (t : Z) : Prop :=
  exists k v, (k, v) ∈ keys /\ try_lexical_convert k = Some t /\ file_exists (sub_path v) = true.

Lemma provides_cons kv keys t l : provides keys t l -> provides (kv :: keys) t l.
Proof. intros (k & v & Hin & ?). exists k, v. split; [by right|done]. Qed.
Lemma usable_cons k v keys t :
  usable ((k, v) :: keys) t <->
  (try_lexical_convert k = Some t /\ file_exists (sub_path v) = true) \/ usable keys t.
Proof.
  split.
  - intros (k' & v' & [[= -> ->]|Hin]%elem_of_cons & ? & ?); [by left|]. right. by exists k', v'.
  - intros [[? ?]|(k' & v' & Hin & ?)].
    + exists k, v. split; [by left|done].
    + exists k', v'. split; [by right|done].
Qed.

(** Both loops pick the first usable entry of a type. *)
Lemma DC_load_find keys m m' v v' t :
  DC_load keys m v = Ret (m', v') ->
  exists found, DC2_find t keys = Ret found /\
    m' !! t = match m !! t with Some l => Some l | None => snd <$> found end /\
    match found with
    | Some (t', l) => t' = t /\ provides keys t l /\ usable keys t
    | None => ~ usable keys t
    end.
Proof.
  revert m v. induction keys as [|[k vl] keys IH]; intros m v Hl; cbn [DC_load DC2_find] in *.
  - injection Hl as <- <-. exists None. split_and!; [done|by destruct (m !! t)|].
    intros (k & vl & Hin & _). by apply not_elem_of_nil in Hin.
  - destruct (try_lexical_convert k) as [ty|] eqn:Ek.
    + destruct (file_exists (sub_path vl)) eqn:Ef; cbn [negb] in *.
      * apply bind_Ret_inv in Hl as (up & Hup & Hl). cbv zeta in Hl.
        assert (Hl1 : exists v1, DC_load keys (match m !! ty with Some _ => m | None => <[ty := up]> m end) v1
          = Ret (m', v')) by (destruct (m !! ty); by eexists).
        destruct Hl1 as [v1 Hl1]. apply IH in Hl1 as (found & Hfind & Hm & Hp).
        destruct (Z.eqb_spec ty t) as [->|Hne]; cbn [negb].
        -- rewrite Hup. exists (Some (t, up)). cbn [mbind outcome_bind fmap option_fmap option_map snd].
           split_and!; [done| |done| |].
           ++ rewrite Hm. destruct (m !! t) eqn:Em; [by rewrite Em|]. by rewrite lookup_insert_eq.
           ++ exists k, vl. split; [by left|done].
           ++ apply usable_cons. by left.
        -- exists found. split_and!; [done| |].
           ++ rewrite Hm. destruct (m !! ty) eqn:Em; [done|]. by rewrite lookup_insert_ne.
           ++ destruct found as [[t' l]|].
              ** destruct Hp as (-> & Hp & Hu). split_and!; [done|by apply provides_cons|].
                 apply usable_cons. by right.
              ** rewrite usable_cons. intros [[E _]|?]; [congruence|done].
      * apply IH in Hl as (found & Hfind & Hm & Hp). exists found. split_and!; [|done|].
        -- by destruct (negb (ty =? t)).
        -- destruct found as [[t' l]|].
           ++ destruct Hp as (-> & Hp & Hu). split_and!; [done|by apply provides_cons|].
              apply usable_cons. by right.
           ++ rewrite usable_cons. intros [[_ E]|?]; [congruence|done].
    + apply IH in Hl as (found & Hfind & Hm & Hp). exists found. split_and!; [done|done|].
      destruct found as [[t' l]|].
      * destruct Hp as (-> & Hp & Hu). split_and!; [done|by apply provides_cons|].
        apply usable_cons. by right.
      * rewrite usable_cons. intros [[E _]|?]; [congruence|done].
Qed.

(** what [DC2_find] returns is a library of the type it looked for *)
Lemma DC2_find_provides t keys t' l :
  DC2_find t keys = Ret (Some (t', l)) -> t' = t /\ provides keys t l.
Proof.
  induction keys as [|[k v] keys IH]; cbn [DC2_find]; [done|].
  assert (Hrec : DC2_find t keys = Ret (Some (t', l)) -> t' = t /\ provides ((k, v) :: keys) t l).
  { intros Hf. apply IH in Hf as [-> Hp]. split; [done|by apply provides_cons]. }
  destruct (try_lexical_convert k) as [ty|] eqn:Ek; [|done].
  destruct (Z.eqb_spec ty t) as [->|]; cbn [negb]; [|done].
  destruct (file_exists (sub_path v)) eqn:Ef; cbn [negb]; [|done].
  intros (up & Hup & [= <- <-])%bind_Ret_inv. split; [done|].
  exists k, v. split; [by left|done].
Qed.

(** ** Where a call goes *)

(** a vendor call as a reply and a new vendor state *)
Definition vendor_call (l : dll_load_dll_type V) (c : call) (v : V) : reply * V :=
  match c with
  | KOpen t i r => let '(e, v) := fOpenDevice l t i r v in (RStatus (DWORD_to_ret e), v)
  | KClose t i => let '(e, v) := fCloseDevice l t i v in (RStatus (DWORD_to_ret e), v)
  | KReadBoardInfo t i p => let '(e, p, v) := fReadBoardInfo l t i p v in (RBoardInfo (DWORD_to_ret e) p, v)
  | KInitCAN t i ci p => let '(e, v) := fInitCan l t i ci p v in (RStatus (DWORD_to_ret e), v)
  | KReadErrInfo t i ci p => let '(e, p, v) := fReadErrInfo l t i ci p v in (RErrInfo (DWORD_to_ret e) p, v)
  | KReadCANStatus t i ci p =>
      let '(e, p, v) := fReadCanStatus l t i ci p v in (RCANStatus (DWORD_to_ret e) p, v)
  | KGetReference t i ci r p =>
      let '(e, p, v) := fGetReference l t i ci r p v in (RReference (DWORD_to_ret e) p, v)
  | KSetReference t i ci r p => let '(e, v) := fSetReference l t i ci r p v in (RStatus (DWORD_to_ret e), v)
  | KGetReceiveNum t i ci => let '(n, v) := fGetReceiveNum l t i ci v in (RNum n, v)
  | KClearBuffer t i ci => let '(e, v) := fClearBuffer l t i ci v in (RStatus (DWORD_to_ret e), v)
  | KStartCAN t i ci => let '(e, v) := fStartCan l t i ci v in (RStatus (DWORD_to_ret e), v)
  | KResetCAN t i ci => let '(e, v) := fResetCan l t i ci v in (RStatus (DWORD_to_ret e), v)
  | KTransmit t i ci ps len => let '(e, v) := fTransmit l t i ci ps len v in (RStatus (DWORD_to_ret e), v)
  | KReceive t i ci pr len wt => let '(n, pr, v) := fReceive l t i ci pr len wt v in (RFrames n pr, v)
  end.
Definition routed (target : option (dll_load_dll_type V)) (c : call) (w : world V) : reply * world V :=
  match target with
  | Some l => let '(r, v) := vendor_call l c (vendor w) in (r, set_vendor v w)
  | None => (failure c, w)
  end.

Definition opens (c : call) : bool := match c with KOpen _ _ _ => true | _ => false end.
Definition closes (c : call) : bool := match c with KClose _ _ => true | _ => false end.

(** the outcome of a vendor call is a pair or a triple; either way the two
    sides agree *)
Ltac route :=
  match goal with
  | |- context [match ?f (vendor ?w) with pair _ _ => _ end] =>
      first [by destruct (f (vendor w)) as [[? ?] ?] | by destruct (f (vendor w)) as [? ?]]
  end.

Lemma DC_invoke c d w :
  invoke c d w = let '(r, w') := routed (lib_map_ d !! call_type c) c w in Ret (r, d, w').
Proof.
  unfold routed. destruct c; simpl;
    [unfold DC_VCI_OpenDevice|unfold DC_VCI_CloseDevice|unfold DC_VCI_ReadBoardInfo|unfold DC_VCI_InitCAN
    |unfold DC_VCI_ReadErrInfo|unfold DC_VCI_ReadCANStatus|unfold DC_VCI_GetReference
    |unfold DC_VCI_SetReference|unfold DC_VCI_GetReceiveNum|unfold DC_VCI_ClearBuffer
    |unfold DC_VCI_StartCAN|unfold DC_VCI_ResetCAN|unfold DC_VCI_Transmit|unfold DC_VCI_Receive];
    (destruct (lib_map_ d !! t) as [l|]; [route|done]).
Qed.

Lemma DC2_invoke c d w :
  opens c = false ->
  invoke c d w = let '(r, w') := routed (dc2_match d (call_type c)) c w in
    Ret (r, if closes c then mk_dc2 None None else d,
         if closes c then set_vendor (drop_lib d (vendor w')) w' else w').
Proof.
  intros Ho. unfold routed. destruct c; try done; simpl;
    [unfold DC2_VCI_CloseDevice|unfold DC2_VCI_ReadBoardInfo|unfold DC2_VCI_InitCAN
    |unfold DC2_VCI_ReadErrInfo|unfold DC2_VCI_ReadCANStatus|unfold DC2_VCI_GetReference
    |unfold DC2_VCI_SetReference|unfold DC2_VCI_GetReceiveNum|unfold DC2_VCI_ClearBuffer
    |unfold DC2_VCI_StartCAN|unfold DC2_VCI_ResetCAN|unfold DC2_VCI_Transmit|unfold DC2_VCI_Receive];
    (destruct (dc2_match d t) as [l|]; [route|done]).
Qed.

(** the library an open of type [t] selects *)
Definition selects (t : Z) : outcome (option (Z * dll_load_dll_type V)) :=
  keys ← kernel_keys;
  match keys with Some keys => DC2_find t keys | None => Ret None end.
Definition opened (found : option (Z * dll_load_dll_type V)) : dc2 V :=
  match found with
  | Some (type, up) => mk_dc2 (Some up) (Some type)
  | None => mk_dc2 None None
  end.

(** the vendor state an open finds: the old library is unloaded, then the
    selected one loaded *)
Definition reloaded (found : option (Z * dll_load_dll_type V)) (v : V) : V :=
  match found with Some (_, l) => dl_load (path l) v | None => v end.

Lemma DC2_open_invoke t i r d w :
  invoke (KOpen t i r) d w =
  (found ← selects t;
   let '(rep, w') := routed (snd <$> found) (KOpen t i r)
     (set_vendor (reloaded found (drop_lib d (vendor w))) w) in Ret (rep, opened found, w')).
Proof.
  unfold selects. simpl. unfold DC2_VCI_OpenDevice.
  destruct kernel_keys as [keys| | |]; try done. cbn [mbind outcome_bind].
  destruct (match keys with Some ks => DC2_find t ks | None => Ret None end)
    as [[[ty l]|]| | |]; try done.
  simpl. by destruct (fOpenDevice l t i r _).
Qed.

(** ** Invariants *)

(** [_dev_type] and [_lib] are set together, the latter from an entry for the
    former *)
Definition dc2_inv (d : dc2 V) : Prop :=
  match _dev_type d, _lib d with
  | Some t, Some l => exists keys, kernel_keys = Ret (Some keys) /\ provides keys t l
  | None, None => True
  | _, _ => False
  end.

Lemma invokes_inv {I} `{CanImpInterface (V := V) I} (P : I -> Prop) cs x w rs x' w' :
  (forall c x w r x' w', P x -> invoke c x w = Ret (r, x', w') -> P x') ->
  P x -> invokes cs x w = Ret (rs, x', w') -> P x'.
Proof.
  intros Hstep. revert x w rs. induction cs as [|c cs IH]; intros x w rs Hx Hi; cbn [invokes] in Hi.
  - by injection Hi as _ <- _.
  - apply bind_Ret_inv in Hi as ([[r x1] w1] & H1 & Hi).
    apply bind_Ret_inv in Hi as ([[rs1 x2] w2] & H2 & [= _ <- <-]).
    eapply IH; [|exact H2]. by eapply Hstep.
Qed.

Lemma selects_inv t found : selects t = Ret found -> dc2_inv (opened found).
Proof.
  unfold selects. intros (keys & Hk & Hf)%bind_Ret_inv.
  destruct found as [[t' l]|]; [|done]. destruct keys as [keys|]; [|done].
  apply DC2_find_provides in Hf as [-> Hp]. unfold dc2_inv. simpl. by exists keys.
Qed.

Lemma dc2_step_inv c d w r d' w' :
  dc2_inv d -> invoke c d w = Ret (r, d', w') -> dc2_inv d'.
Proof.
  intros Hd Hi. destruct (opens c) eqn:Eo.
  - destruct c; try done. rewrite DC2_open_invoke in Hi.
    apply bind_Ret_inv in Hi as (found & Hf & Hi). apply selects_inv in Hf.
    destruct (routed _ _ _). by injection Hi as _ <- _.
  - rewrite DC2_invoke in Hi by done. destruct (routed _ _ _). injection Hi as _ <- _.
    by destruct (closes c).
Qed.

(** ** Simulation *)

(** a client that uses only device type [t] and calls nothing but
    [VCI_OpenDevice] while the device is not open *)
Fixpoint disciplined (t : Z) (is_open : bool) (cs : list call) : bool :=
  match cs with
  | [] => true
  | c :: cs =>
      (call_type c =? t) && (opens c || is_open) &&
      disciplined t (if opens c then true else if closes c then false else is_open) cs
  end.

Lemma DC_selects v d v1 t :
  CanImpDirectCan v = Ret (d, v1) -> exists found, selects t = Ret found /\
    lib_map_ d !! t = snd <$> found /\
    (forall t' l, found = Some (t', l) -> t' = t).
Proof.
  unfold CanImpDirectCan, selects. intros (keys & -> & Hd)%bind_Ret_inv. cbn [mbind outcome_bind].
  destruct keys as [keys|].
  - apply bind_Ret_inv in Hd as ([m v2] & Hm & [= <- <-]).
    apply (DC_load_find _ _ _ _ _ t) in Hm as (found & -> & Hm & Hp). exists found.
    rewrite lookup_empty in Hm. split_and!; [done|done|]. intros t' l ->. by destruct Hp.
  - injection Hd as <- <-. by exists None.
Qed.

(** an eager constructor that changes nothing behind the libraries *)
Lemma DC_load_invisible v d v1 :
  (forall p v, dl_load p v = v /\ dl_unload p v = v) -> CanImpDirectCan v = Ret (d, v1) -> v1 = v.
Proof.
  intros Hinv. unfold CanImpDirectCan. intros (keys & _ & Hd)%bind_Ret_inv.
  destruct keys as [keys|]; [|by injection Hd as _ <-].
  apply bind_Ret_inv in Hd as ([m v2] & Hm & [= _ <-]). revert Hm. generalize (∅ : gmap Z (dll_load_dll_type V)).
  revert v. induction keys as [|[k vl] keys IH]; intros v m0 Hm; cbn [DC_load] in Hm; [by injection Hm as _ <-|].
  destruct (try_lexical_convert k) as [ty|]; [|by eapply IH].
  destruct (negb _); [by eapply IH|]. apply bind_Ret_inv in Hm as (up & _ & Hm).
  rewrite (proj1 (Hinv _ _)) in Hm. destruct (m0 !! ty); [|by eapply IH].
  rewrite (proj2 (Hinv _ _)) in Hm. by eapply IH.
Qed.

(** A vendor library called directly, [None] when there is none for the type. *)
Definition vendor_step (target : option (dll_load_dll_type V)) (c : call) (v : V) : reply * V :=
  match target with Some l => vendor_call l c v | None => (failure c, v) end.
Fixpoint straight (target : option (dll_load_dll_type V)) (cs : list call) (v : V) : list reply * V :=
  match cs with
  | [] => ([], v)
  | c :: cs =>
      let '(r, v1) := vendor_step target c v in
      let '(rs, v2) := straight target cs v1 in (r :: rs, v2)
  end.

(** The same library when it is loaded anew at every open, after being unloaded
    if it is loaded, and unloaded at every close. *)
Definition load_target (target : option (dll_load_dll_type V)) (v : V) : V :=
  match target with Some l => dl_load (path l) v | None => v end.
Definition unload_target (target : option (dll_load_dll_type V)) (v : V) : V :=
  match target with Some l => dl_unload (path l) v | None => v end.
Fixpoint reloading (target : option (dll_load_dll_type V)) (loaded : bool) (cs : list call) (v : V)
    : list reply * V :=
  match cs with
  | [] => ([], v)
  | c :: cs =>
      let v0 := if opens c then load_target target (if loaded then unload_target target v else v) else v in
      let '(r, v1) := vendor_step target c v0 in
      let v2 := if closes c then unload_target target v1 else v1 in
      let '(rs, v3) := reloading target (if opens c then true else if closes c then false else loaded) cs v2 in
      (r :: rs, v3)
  end.

(** loading and unloading leave the state behind the libraries alone *)
Definition loading_invisible : Prop := forall p v, dl_load p v = v /\ dl_unload p v = v.

Lemma reloading_straight target loaded cs v :
  loading_invisible -> reloading target loaded cs v = straight target cs v.
Proof.
  intros Hinv.
  assert (Hl : forall v, load_target target v = v) by (intros ?; destruct target; [apply Hinv|done]).
  assert (Hu : forall v, unload_target target v = v) by (intros ?; destruct target; [apply Hinv|done]).
  revert loaded v. induction cs as [|c cs IH]; intros loaded v; [done|]. cbn [reloading straight].
  assert (Hv0 : (if opens c then load_target target (if loaded then unload_target target v else v) else v) = v)
    by (destruct (opens c); [|done]; rewrite Hl; by destruct loaded).
  rewrite Hv0. destruct (vendor_step target c v) as [r v1].
  assert (Hv1 : (if closes c then unload_target target v1 else v1) = v1) by (destruct (closes c); [apply Hu|done]).
  by rewrite Hv1, IH.
Qed.

(** until the next open or close there is nothing to reload *)
Lemma reloading_session target cs v :
  forallb (fun c => negb (opens c || closes c)) cs = true -> reloading target true cs v = straight target cs v.
Proof.
  revert v. induction cs as [|c cs IH]; intros v Hc; [done|]. cbn [reloading straight].
  cbn [forallb] in Hc. apply andb_prop in Hc as [[Ho Hcl]%negb_true_iff%orb_false_elim Hc]. rewrite Ho, Hcl.
  destruct (vendor_step target c v) as [r v1]. by rewrite IH.
Qed.

Lemma routed_step target c (w : world V) :
  routed target c w = let '(r, v) := vendor_step target c (vendor w) in (r, set_vendor v w).
Proof. unfold routed, vendor_step. destruct target; [done|]. by destruct w. Qed.

Lemma eager_straight d t cs o w :
  disciplined t o cs = true ->
  invokes cs d w = Ret ((straight (lib_map_ d !! t) cs (vendor w)).1, d,
                        set_vendor (straight (lib_map_ d !! t) cs (vendor w)).2 w).
Proof.
  revert o w. induction cs as [|c cs IH]; intros o w Hc; cbn [invokes straight]; [by destruct w|].
  cbn [disciplined] in Hc. apply andb_prop in Hc as [[Ht Ho]%andb_prop Hc]. apply Z.eqb_eq in Ht.
  rewrite DC_invoke, Ht, routed_step. destruct (vendor_step _ c (vendor w)) as [r v1].
  cbn [mbind outcome_bind]. rewrite (IH _ _ Hc). cbn [mbind outcome_bind vendor set_vendor].
  by destruct (straight _ cs v1).
Qed.

(** the lazy object while the device is open, and while it is not *)
Definition lazy_at (t : Z) (target : option (dll_load_dll_type V)) (is_open : bool) (d2 : dc2 V) : Prop :=
  if is_open then _lib d2 = target /\ dc2_match d2 t = target else d2 = mk_dc2 None None.

Lemma drop_lazy t target o d2 v :
  lazy_at t target o d2 -> drop_lib d2 v = if o then unload_target target v else v.
Proof. unfold lazy_at, drop_lib, unload_target. destruct o; [by intros [-> _]|by intros ->]. Qed.

Lemma lazy_reloading t found cs o d2 w :
  selects t = Ret found -> (forall t' l, found = Some (t', l) -> t' = t) ->
  lazy_at t (snd <$> found) o d2 -> disciplined t o cs = true ->
  exists d2', invokes cs d2 w = Ret ((reloading (snd <$> found) o cs (vendor w)).1, d2',
                set_vendor (reloading (snd <$> found) o cs (vendor w)).2 w).
Proof.
  intros Hsel Ht'. set (target := snd <$> found) in *.
  revert o d2 w. induction cs as [|c cs IH]; intros o d2 w Hr Hc; cbn [invokes reloading].
  { exists d2. by destruct w. }
  cbn [disciplined] in Hc. apply andb_prop in Hc as [[Ht Ho]%andb_prop Hc]. apply Z.eqb_eq in Ht.
  destruct (opens c) eqn:Eo.
  - destruct c as [t' i r| | | | | | | | | | | | |]; try done. simpl in Ht. subst t'. cbn [closes].
    rewrite DC2_open_invoke, Hsel. cbn [mbind outcome_bind]. fold target. rewrite routed_step.
    rewrite (drop_lazy t target o d2) by done. cbn [vendor set_vendor].
    assert (Hre : forall v, reloaded found v = load_target target v) by (intros v; by destruct found as [[]|]).
    rewrite Hre. destruct (vendor_step target _ _) as [rep v1]. cbn [mbind outcome_bind].
    change (set_vendor v1 (set_vendor _ w)) with (set_vendor v1 w).
    destruct (IH true (opened found) (set_vendor v1 w)) as (d2' & Hi); [|done|].
    { unfold target. destruct found as [[t' l]|]; [|done]. rewrite (Ht' t' l eq_refl). split; [done|].
      unfold dc2_match. simpl. by rewrite Z.eqb_refl. }
    rewrite Hi. cbn [mbind outcome_bind vendor set_vendor]. exists d2'. by destruct (reloading _ _ cs v1).
  - cbn [orb] in Ho. subst o. destruct Hr as [Hlib Hm].
    rewrite DC2_invoke, Ht, Hm, routed_step by done. destruct (vendor_step target c (vendor w)) as [rep v1].
    cbn [mbind outcome_bind]. destruct (closes c) eqn:Ecl.
    + change (set_vendor (drop_lib d2 _) (set_vendor v1 w)) with (set_vendor (drop_lib d2 v1) w).
      rewrite (drop_lazy t target true d2) by done.
      destruct (IH false (mk_dc2 None None) (set_vendor (unload_target target v1) w)) as (d2' & Hi); [done|done|].
      rewrite Hi. cbn [mbind outcome_bind vendor set_vendor].
      exists d2'. by destruct (reloading target false cs (unload_target target v1)).
    + destruct (IH true d2 (set_vendor v1 w)) as (d2' & Hi); [done|done|].
      rewrite Hi. cbn [mbind outcome_bind vendor set_vendor]. exists d2'. by destruct (reloading _ _ cs _).
Qed.

(** ** Properties *)

(** an entry of the [KERNELDLL] section, in whatever order it is traversed *)
Definition configured (k v : list byte) : Prop :=
  kernel_ini <> None /\
  exists st, ini_parse char_signed kernel_ini = Ret st /\ lookup_ini st (lit "KERNELDLL") k = Some v.

Lemma kernel_keys_configured `{!HostLaws V} keys k v :
  kernel_keys = Ret (Some keys) -> (k, v) ∈ keys <-> configured k v.
Proof.
  unfold kernel_keys, configured. destruct kernel_ini as [text|] eqn:Ek; [|done].
  intros (st & Hst & Hk)%bind_Ret_inv. rewrite Hst.
  assert (Hall : forall ks, keys = traversal ks -> (k, v) ∈ keys <-> ks !! k = Some v).
  { intros ks ->. by rewrite (traversal_perm ks), elem_of_map_to_list. }
  transitivity (lookup_ini st (lit "KERNELDLL") k = Some v);
    [|split; [intros ?; split; [done|by exists st]|by intros [_ (st' & [= <-] & ?)]]].
  unfold index, lookup_ini in *. destruct (sections st !! lit "KERNELDLL") as [p|].
  - apply bind_Ret_inv in Hk as (ks & Hks & [= <-]). apply deref_Ret_inv in Hks.
    cbn [mbind option_bind]. rewrite Hks. by apply Hall.
  - simpl in Hk. rewrite lookup_insert_eq in Hk. simpl in Hk. injection Hk as <-.
    rewrite (Hall ∅ eq_refl), lookup_empty. done.
Qed.

(** The eager back end offers exactly the configured devices, in whatever
    order the configuration is traversed: when its constructor returns, a
    device type has a library precisely if some entry of the [KERNELDLL]
    section converts to it and names an existing file, and the library is
    loaded from such an entry; a call for that type is the vendor's function
    of the same name with the caller's arguments and its result is handed back
    converted to the status type, and a call for any other type fails without
    reaching a vendor library. *)
Theorem dc_routes_by_configuration `{!HostLaws V} (v0 v1 : V) (d : dc V) (t : Z) (c : call) (w : world V) :
  CanImpDirectCan v0 = Ret (d, v1) ->
  (forall l, lib_map_ d !! t = Some l ->
     exists k v, configured k v /\ try_lexical_convert k = Some t /\
       file_exists (sub_path v) = true /\ load_library (sub_path v) = Ret l) /\
  (lib_map_ d !! t = None <->
     forall k v, configured k v -> try_lexical_convert k = Some t -> file_exists (sub_path v) = false) /\
  invoke c d w =
    match lib_map_ d !! call_type c with
    | Some l => let '(r, v) := vendor_call l c (vendor w) in Ret (r, d, set_vendor v w)
    | None => Ret (failure c, d, w)
    end.
Proof.
  intros Hd. rewrite DC_invoke. unfold routed.
  assert (Hinv : forall o : option (dll_load_dll_type V),
    (let '(r, w') := match o with
       | Some l => let '(r, v) := vendor_call l c (vendor w) in (r, set_vendor v w)
       | None => (failure c, w) end in Ret (r, d, w')) =
    match o with
    | Some l => let '(r, v) := vendor_call l c (vendor w) in Ret (r, d, set_vendor v w)
    | None => Ret (failure c, d, w)
    end) by (intros [l|]; [by destruct (vendor_call l c (vendor w))|done]).
  rewrite Hinv. clear Hinv.
  unfold CanImpDirectCan in Hd. apply bind_Ret_inv in Hd as (keys & Hk & Hd).
  destruct keys as [keys|].
  - apply bind_Ret_inv in Hd as ([m v2] & Hm & [= <- <-]). cbn [lib_map_] in *.
    apply (DC_load_find _ _ _ _ _ t) in Hm as (found & _ & Hm & Hp). rewrite lookup_empty in Hm.
    pose proof (fun k v => kernel_keys_configured keys k v Hk) as Hent. split_and!; [| |done].
    + intros l Hl. rewrite Hl in Hm. destruct found as [[t' l']|]; [|done]. injection Hm as ->.
      destruct Hp as (-> & (k & v & Hin & Hp) & _). exists k, v. by rewrite <- Hent.
    + rewrite Hm. destruct found as [[t' l']|].
      * destruct Hp as (-> & _ & (k & v & Hin & Hc & Hf)). split; [done|].
        intros Hno. apply Hent in Hin. by rewrite (Hno k v Hin Hc) in Hf.
      * split; [|done]. intros _ k v Hin Hc. apply not_true_is_false. intros Hf.
        apply Hp. exists k, v. by rewrite Hent.
  - injection Hd as <- <-. cbn [lib_map_] in *. split_and!; [done| |done]. split; [|done].
    intros _ k v [Hn _]. exfalso. apply Hn. revert Hk. unfold kernel_keys.
    destruct kernel_ini; [|done]. intros (st & _ & Hk)%bind_Ret_inv.
    destruct (index _ st) as [p st']. by apply bind_Ret_inv in Hk as (ks & _ & Hk).
Qed.

(** C26. The lazy back end's members stay consistent: after any sequence of
    calls, with any outcome of the vendor's functions, [_dev_type] is set
    exactly when [_lib] is, and the library is one that an entry of
    [kerneldll.ini] provides for that type; a call for another type fails,
    leaves the vendors alone and keeps the library, except that
    [VCI_CloseDevice] unloads it without closing the device, after which the
    open device's own calls fail too. *)
Theorem dc2_invariant (cs : list call) (w w' : world V) (rs : list reply) (d : dc2 V) (c : call)
    (w1 : world V) (c2 : call) :
  invokes cs CanImpDirectCan2 w = Ret (rs, d, w') ->
  dc2_inv d /\
  (_dev_type d <> Some (call_type c) -> opens c = false ->
     invoke c d w1 = Ret (failure c, if closes c then CanImpDirectCan2 else d,
       if closes c then set_vendor (drop_lib d (vendor w1)) w1 else w1)) /\
  (opens c2 = false -> invoke c2 CanImpDirectCan2 w1 = Ret (failure c2, CanImpDirectCan2, w1)).
Proof.
  intros Hi. split_and!.
  - revert Hi. apply (invokes_inv dc2_inv); [|done]. intros ??????. apply dc2_step_inv.
  - intros Hne Ho. rewrite DC2_invoke by done. unfold dc2_match.
    destruct (_dev_type d) as [ty|]; [|done]. destruct (_lib d) as [l|]; [|done].
    destruct (Z.eqb_spec ty (call_type c)) as [->|]; [done|]. done.
  - intros Ho. rewrite DC2_invoke by done. simpl. destruct (closes c2); [by destruct w1|done].
Qed.

(** C15. How the two direct back ends compare, for a client that uses one device
    type and opens the device before calling anything else on it. Once the eager
    constructor ([CanImpDirectCan]) has returned, neither throws nor blocks;
    both reach the same library; the eager one gives, call by call, the replies
    of that library loaded once, and the lazy one ([CanImpDirectCan2]) those of
    that library unloaded and loaded again at every open and unloaded at every
    close, the vendors' state included. So in a session (an open and what follows
    until the next open or close) the lazy one is the library as just loaded; and
    the two back ends are interchangeable if loading and unloading leave the
    state behind the libraries alone. *)
Theorem direct_backends_equivalent (d : dc V) (v1 : V) (t : Z) (cs : list call) (w : world V) :
  CanImpDirectCan (vendor w) = Ret (d, v1) -> disciplined t false cs = true ->
  let target := lib_map_ d !! t in
  let '(rs1, v1') := straight target cs v1 in
  let '(rs2, v2') := reloading target false cs (vendor w) in
  invokes cs d (set_vendor v1 w) = Ret (rs1, d, set_vendor v1' w) /\
  (exists d2, invokes cs CanImpDirectCan2 w = Ret (rs2, d2, set_vendor v2' w)) /\
  (forall c cs', cs = c :: cs' -> forallb (fun c => negb (opens c || closes c)) cs' = true ->
     (rs2, v2') = straight target cs (load_target target (vendor w))) /\
  (loading_invisible -> rs1 = rs2 /\ v1' = v2').
Proof.
  intros Hd Hc. cbv zeta. destruct (DC_selects _ _ _ t Hd) as (found & Hsel & Hl & Ht').
  pose proof (eager_straight d t cs false (set_vendor v1 w) Hc) as H1. cbn [vendor set_vendor] in H1.
  destruct (lazy_reloading t found cs false CanImpDirectCan2 w Hsel Ht' eq_refl Hc) as (d2 & H2).
  rewrite <- Hl in H2. pose proof (fun h => reloading_straight (lib_map_ d !! t) false cs (vendor w) h) as Hinv.
  assert (Hses : forall c cs', cs = c :: cs' -> forallb (fun c => negb (opens c || closes c)) cs' = true ->
    reloading (lib_map_ d !! t) false cs (vendor w)
    = straight (lib_map_ d !! t) cs (load_target (lib_map_ d !! t) (vendor w))).
  { intros c cs' -> Hcs. cbn [disciplined] in Hc. apply andb_prop in Hc as [[_ Ho]%andb_prop _].
    rewrite orb_false_r in Ho. assert (Hcl : closes c = false) by (by destruct c).
    cbn [reloading straight]. rewrite Ho, Hcl. destruct (vendor_step _ _ _). by rewrite reloading_session. }
  assert (Hv1 : loading_invisible -> v1 = vendor w) by (intros Hi; by eapply DC_load_invisible).
  destruct (straight (lib_map_ d !! t) cs v1) as [rs1 v1'] eqn:E1.
  destruct (reloading (lib_map_ d !! t) false cs (vendor w)) as [rs2 v2'] eqn:E2. cbn [fst snd] in *.
  split_and!; [exact H1|by exists d2|exact Hses|].
  intros Hi. specialize (Hinv Hi). rewrite <- (Hv1 Hi), E1 in Hinv. by injection Hinv as -> ->.
Qed.
End facts.

(** ** A host with one vendor library *)

(** a library that counts the calls it gets, and tells their number *)
Definition sample_dll : dll_load_dll_type Z := {|
  path := lit "kerneldlls/usbcan.so";
  fOpenDevice t i r v := (1, v + 1);
  fCloseDevice t i v := (1, v + 1);
  fResetCan t i c v := (1, v + 1);
  fInitCan t i c p v := (1, v + 1);
  fReadBoardInfo t i p v := (0, p, v + 1);
  fReadErrInfo t i c p v := (1, p, v + 1);
  fReadCanStatus t i c p v := (1, p, v + 1);
  fGetReference t i c r p v := (1, p, v + 1);
  fSetReference t i c r p v := (1, v + 1);
  fGetReceiveNum t i c v := (v, v + 1);
  fClearBuffer t i c v := (1, v + 1);
  fStartCan t i c v := (1, v + 1);
  fTransmit t i c ps len v := (1, v + 1);
  fReceive t i c pr len wt v := (0%nat, pr, v + 1);
|}.
Definition sample_host : Host Z := {|
  platform := linux_x86_64;
  kernel_ini := Some (save [(lit "KERNELDLL", [(lit "4", lit "usbcan.so")])]);
  control_ini := Some (save [(lit "Server", [(lit "IpAddr", lit "127.0.0.1"); (lit "IpPort", lit "9999")])]);
  sub_path p := lit "kerneldlls/" ++ p;
  file_exists p := bool_decide (p = lit "kerneldlls/usbcan.so");
  try_lexical_convert s := if bool_decide (s = lit "4") then Some 4 else None;
  traversal := map_to_list;
  shared_library p := Ret sample_dll;
  dl_load p v := v;
  dl_unload p v := v;
  resolves _ _ := true;
|}.
(** the same when the count is static data of the library *)
Definition static_host : Host Z := {|
  platform := linux_x86_64;
  kernel_ini := kernel_ini (Host := sample_host);
  control_ini := control_ini (Host := sample_host);
  sub_path := sub_path (Host := sample_host);
  file_exists := file_exists (Host := sample_host);
  try_lexical_convert := try_lexical_convert (Host := sample_host);
  traversal := traversal (Host := sample_host);
  shared_library := shared_library (Host := sample_host);
  dl_load p v := 0;
  dl_unload p v := v;
  resolves _ _ := true;
|}.
Lemma sample_host_laws : HostLaws Z (H := sample_host).
Proof.
  split.
  - intros m. done.
  - intros s t. simpl. case_bool_decide; [|done]. intros [= <-]. unfold is_u32. lia.
Qed.
Definition sample_dc : dc Z := mk_dc {[4 := sample_dll]}.
Definition sample_world : world Z := mk_world 0 [] [] [].
Definition sample_calls : list call := [KOpen 4 0 0; KStartCAN 4 0 1; KGetReceiveNum 4 0 1; KClose 4 0].

Lemma dc_routes_by_configuration_witness :
  (forall l, lib_map_ sample_dc !! 4 = Some l ->
     exists k v, configured (H := sample_host) k v /\ try_lexical_convert (Host := sample_host) k = Some 4 /\
       file_exists (Host := sample_host) (sub_path (Host := sample_host) v) = true /\
       load_library (H := sample_host) (sub_path (Host := sample_host) v) = Ret l) /\
  (lib_map_ sample_dc !! 4 = None <->
     forall k v, configured (H := sample_host) k v -> try_lexical_convert (Host := sample_host) k = Some 4 ->
       file_exists (Host := sample_host) (sub_path (Host := sample_host) v) = false) /\
  invoke (H := DC_imp) (KGetReceiveNum 4 0 1) sample_dc sample_world =
    match lib_map_ sample_dc !! 4 with
    | Some l => let '(r, v) := vendor_call l (KGetReceiveNum 4 0 1) 0 in
        Ret (r, sample_dc, set_vendor v sample_world)
    | None => Ret (failure (KGetReceiveNum 4 0 1), sample_dc, sample_world)
    end.
Proof.
  apply (dc_routes_by_configuration (H := sample_host) (HostLaws0 := sample_host_laws) 0 0 sample_dc 4
    (KGetReceiveNum 4 0 1) sample_world). by vm_compute.
Defined.
Lemma dc2_invariant_witness :
  dc2_inv (H := sample_host) (mk_dc2 (Some sample_dll) (Some 4)) /\
  (Some 4 <> Some 5 -> false = false ->
     invoke (H := DC2_imp (H := sample_host)) (KClose 5 0) (mk_dc2 (Some sample_dll) (Some 4)) sample_world
     = Ret (RStatus STATUS_ERR, CanImpDirectCan2, sample_world)) /\
  (false = false ->
     invoke (H := DC2_imp (H := sample_host)) (KStartCAN 4 0 1) CanImpDirectCan2 sample_world
     = Ret (RStatus STATUS_ERR, CanImpDirectCan2, sample_world)).
Proof.
  apply (dc2_invariant (H := sample_host) [KOpen 4 0 0] sample_world (set_vendor 1 sample_world)
    [RStatus 1] (mk_dc2 (Some sample_dll) (Some 4)) (KClose 5 0) sample_world (KStartCAN 4 0 1)).
  by vm_compute.
Defined.
(** two sessions without a close in between: with the count in the device the two
    back ends answer alike; with the count in the library the lazy one starts
    again *)
Definition two_opens : list call := [KOpen 4 0 0; KGetReceiveNum 4 0 1; KOpen 4 0 0; KGetReceiveNum 4 0 1].
Lemma direct_backends_equivalent_witness :
  (invokes (H := DC_imp) two_opens sample_dc sample_world
     = Ret ([RStatus 1; RNum 1; RStatus 1; RNum 3], sample_dc, set_vendor 4 sample_world) /\
   exists d2, invokes (H := DC2_imp (H := sample_host)) two_opens CanImpDirectCan2 sample_world
     = Ret ([RStatus 1; RNum 1; RStatus 1; RNum 3], d2, set_vendor 4 sample_world)) /\
  (exists d2, invokes (H := DC2_imp (H := static_host)) two_opens CanImpDirectCan2 sample_world
     = Ret ([RStatus 1; RNum 1; RStatus 1; RNum 1], d2, set_vendor 2 sample_world)).
Proof.
  pose proof (direct_backends_equivalent (H := sample_host) sample_dc 0 4 two_opens sample_world
    ltac:(by vm_compute) ltac:(by vm_compute)) as H1.
  pose proof (direct_backends_equivalent (H := static_host) sample_dc 0 4 two_opens sample_world
    ltac:(by vm_compute) ltac:(by vm_compute)) as H2.
  split; [split|].
  - exact (proj1 H1).
  - exact (proj1 (proj2 H1)).
  - exact (proj1 (proj2 H2)).
Defined.
