(* ===== verification/Facade.v ===== *)
(** * Facade
    [CanAbstract] of [libControlCAN/src/lib_control_can.cc], the object behind
    the exported C functions: it owns one back end, tries the network first and
    falls back to a vendor library. *)

From Stdlib Require Import ZArith Lia.
From Stdlib Require Import Strings.Byte.
From stdpp Require Import base numbers list option gmap strings.
From S2P Require Import Prelude UsbCan Ini AsioRun NetClient CanImp DirectCan DirectFacts.

Section facade.
Context {V : Type} `{Host V}.

(** ** Dynamic dispatch *)

(** the classes a [std::unique_ptr<CanImpInterface>] of the facade points to *)
Inductive imp : Type := INet (n : net) | IDirect (d : dc2 V).

Definition lift_imp {I A} (inj : I -> imp) (m : outcome (A * I * world V))
    : outcome (A * imp * world V) := '(a, x, w) ← m; Ret (a, inj x, w).
#[export] Instance imp_imp : CanImpInterface (V := V) imp := {|
  imp_OpenDevice t i r x w := match x with
    | INet n => lift_imp INet (imp_OpenDevice t i r n w)
    | IDirect d => lift_imp IDirect (imp_OpenDevice t i r d w) end;
  imp_CloseDevice t i x w := match x with
    | INet n => lift_imp INet (imp_CloseDevice t i n w)
    | IDirect d => lift_imp IDirect (imp_CloseDevice t i d w) end;
  imp_ReadBoardInfo t i pInfo x w := match x with
    | INet n => lift_imp INet (imp_ReadBoardInfo t i pInfo n w)
    | IDirect d => lift_imp IDirect (imp_ReadBoardInfo t i pInfo d w) end;
  imp_InitCAN t i ci pInitConfig x w := match x with
    | INet n => lift_imp INet (imp_InitCAN t i ci pInitConfig n w)
    | IDirect d => lift_imp IDirect (imp_InitCAN t i ci pInitConfig d w) end;
  imp_ReadErrInfo t i ci pErrInfo x w := match x with
    | INet n => lift_imp INet (imp_ReadErrInfo t i ci pErrInfo n w)
    | IDirect d => lift_imp IDirect (imp_ReadErrInfo t i ci pErrInfo d w) end;
  imp_ReadCANStatus t i ci pCANStatus x w := match x with
    | INet n => lift_imp INet (imp_ReadCANStatus t i ci pCANStatus n w)
    | IDirect d => lift_imp IDirect (imp_ReadCANStatus t i ci pCANStatus d w) end;
  imp_GetReference t i ci refType pData x w := match x with
    | INet n => lift_imp INet (imp_GetReference t i ci refType pData n w)
    | IDirect d => lift_imp IDirect (imp_GetReference t i ci refType pData d w) end;
  imp_SetReference t i ci refType pData x w := match x with
    | INet n => lift_imp INet (imp_SetReference t i ci refType pData n w)
    | IDirect d => lift_imp IDirect (imp_SetReference t i ci refType pData d w) end;
  imp_GetReceiveNum t i ci x w := match x with
    | INet n => lift_imp INet (imp_GetReceiveNum t i ci n w)
    | IDirect d => lift_imp IDirect (imp_GetReceiveNum t i ci d w) end;
  imp_ClearBuffer t i ci x w := match x with
    | INet n => lift_imp INet (imp_ClearBuffer t i ci n w)
    | IDirect d => lift_imp IDirect (imp_ClearBuffer t i ci d w) end;
  imp_StartCAN t i ci x w := match x with
    | INet n => lift_imp INet (imp_StartCAN t i ci n w)
    | IDirect d => lift_imp IDirect (imp_StartCAN t i ci d w) end;
  imp_ResetCAN t i ci x w := match x with
    | INet n => lift_imp INet (imp_ResetCAN t i ci n w)
    | IDirect d => lift_imp IDirect (imp_ResetCAN t i ci d w) end;
  imp_Transmit t i ci pSend len x w := match x with
    | INet n => lift_imp INet (imp_Transmit t i ci pSend len n w)
    | IDirect d => lift_imp IDirect (imp_Transmit t i ci pSend len d w) end;
  imp_Receive t i ci pReceive len waitTime x w := match x with
    | INet n => lift_imp INet (imp_Receive t i ci pReceive len waitTime n w)
    | IDirect d => lift_imp IDirect (imp_Receive t i ci pReceive len waitTime d w) end;
|}.

(** [createCanNet()] and [createCanDC()], the exported constructors *)
Definition createCanNet : outcome imp := n ← CanImpCanNet control_ini; Ret (INet n).
Definition createCanDC : imp := IDirect CanImpDirectCan2.

(** ** [class CanAbstract] *)

Record CanAbstract := mk_cc { can_imp_ : option imp }.

(** [can_imp_->f(...)], with the back end the call leaves *)
Definition through {A} (m : method (V := V) imp A) (x : imp) (w : world V)
    : outcome (A * CanAbstract * world V) := '(a, x', w') ← m x w; Ret (a, mk_cc (Some x'), w').

Definition CC_VCI_DeirectOpenCan (t i r : Z) : method (V := V) CanAbstract vciReturnType := fun cc w =>
  let x := match can_imp_ cc with Some x => x | None => IDirect CanImpDirectCan2 end in
  through (imp_OpenDevice t i r) x w.
Definition CC_VCI_OpenNetCan (t i r : Z) : method (V := V) CanAbstract vciReturnType := fun cc w =>
  x ← (match can_imp_ cc with
       | Some x => Ret x
       | None => n ← CanImpCanNet control_ini; Ret (INet n)
       end);
  through (imp_OpenDevice t i r) x w.
(** destruction of the back end: the lazy one's library is unloaded, the network
    client only closes its socket *)
Definition destroy_imp (x : option imp) (w : world V) : world V :=
  match x with
  | Some (IDirect d) => set_vendor (drop_lib d (vendor w)) w
  | Some (INet _) | None => w
  end.
(** the previous back end is destroyed by the assignment *)
Definition CC_VCI_OpenDevice (t i r : Z) : method (V := V) CanAbstract vciReturnType := fun cc w =>
  n ← CanImpCanNet control_ini;
  let w0 := destroy_imp (can_imp_ cc) w in
  '(err, x, w1) ← imp_OpenDevice t i r (INet n) w0;
  if err =? STATUS_NET_CONN_FAIL then CC_VCI_DeirectOpenCan t i r (mk_cc None) (destroy_imp (Some x) w1)
  else Ret (err, mk_cc (Some x), w1).
Definition CC_VCI_CloseDevice (t i : Z) : method (V := V) CanAbstract vciReturnType := fun cc w =>
  match can_imp_ cc with
  | Some x => '(err, x', w1) ← imp_CloseDevice t i x w; Ret (err, mk_cc None, destroy_imp (Some x') w1)
  | None => Ret (STATUS_ERR, cc, w)
  end.
Definition CC_VCI_ReadBoardInfo (t i : Z) (pInfo : option VCI_BOARD_INFO)
    : method (V := V) CanAbstract (vciReturnType * option VCI_BOARD_INFO) := fun cc w =>
  match can_imp_ cc with
  | Some x => through (imp_ReadBoardInfo t i pInfo) x w
  | None => Ret ((STATUS_ERR, pInfo), cc, w)
  end.
Definition CC_VCI_InitCAN (t i ci : Z) (pInitConfig : option VCI_INIT_CONFIG)
    : method (V := V) CanAbstract vciReturnType := fun cc w =>
  match can_imp_ cc with
  | Some x => through (imp_InitCAN t i ci pInitConfig) x w
  | None => Ret (STATUS_ERR, cc, w)
  end.
Definition CC_VCI_ReadErrInfo (t i ci : Z) (pErrInfo : option VCI_ERR_INFO)
    : method (V := V) CanAbstract (vciReturnType * option VCI_ERR_INFO) := fun cc w =>
  match can_imp_ cc with
  | Some x => through (imp_ReadErrInfo t i ci pErrInfo) x w
  | None => Ret ((STATUS_ERR, pErrInfo), cc, w)
  end.
Definition CC_VCI_ReadCANStatus (t i ci : Z) (pCANStatus : option VCI_CAN_STATUS)
    : method (V := V) CanAbstract (vciReturnType * option VCI_CAN_STATUS) := fun cc w =>
  match can_imp_ cc with
  | Some x => through (imp_ReadCANStatus t i ci pCANStatus) x w
  | None => Ret ((STATUS_ERR, pCANStatus), cc, w)
  end.
Definition CC_VCI_GetReference (t i ci refType : Z) (pData : option (list byte))
    : method (V := V) CanAbstract (vciReturnType * option (list byte)) := fun cc w =>
  match can_imp_ cc with
  | Some x => through (imp_GetReference t i ci refType pData) x w
  | None => Ret ((STATUS_ERR, pData), cc, w)
  end.
Definition CC_VCI_SetReference (t i ci refType : Z) (pData : option (list byte))
    : method (V := V) CanAbstract vciReturnType := fun cc w =>
  match can_imp_ cc with
  | Some x => through (imp_SetReference t i ci refType pData) x w
  | None => Ret (STATUS_ERR, cc, w)
  end.
Definition CC_VCI_GetReceiveNum (t i ci : Z)
    : method (V := V) CanAbstract Z := fun cc w =>
  match can_imp_ cc with
  | Some x => through (imp_GetReceiveNum t i ci) x w
  | None => Ret (0, cc, w)
  end.
Definition CC_VCI_ClearBuffer (t i ci : Z)
    : method (V := V) CanAbstract vciReturnType := fun cc w =>
  match can_imp_ cc with
  | Some x => through (imp_ClearBuffer t i ci) x w
  | None => Ret (STATUS_ERR, cc, w)
  end.
Definition CC_VCI_StartCAN (t i ci : Z)
    : method (V := V) CanAbstract vciReturnType := fun cc w =>
  match can_imp_ cc with
  | Some x => through (imp_StartCAN t i ci) x w
  | None => Ret (STATUS_ERR, cc, w)
  end.
Definition CC_VCI_ResetCAN (t i ci : Z)
    : method (V := V) CanAbstract vciReturnType := fun cc w =>
  match can_imp_ cc with
  | Some x => through (imp_ResetCAN t i ci) x w
  | None => Ret (STATUS_ERR, cc, w)
  end.
Definition CC_VCI_Transmit (t i ci : Z) (pSend : list VCI_CAN_OBJ) (len : nat)
    : method (V := V) CanAbstract vciReturnType := fun cc w =>
  match can_imp_ cc with
  | Some x => through (imp_Transmit t i ci pSend len) x w
  | None => Ret (STATUS_ERR, cc, w)
  end.
Definition CC_VCI_Receive (t i ci : Z) (pReceive : option (list byte)) (len : nat) (waitTime : Z)
    : method (V := V) CanAbstract (nat * option (list byte)) := fun cc w =>
  match can_imp_ cc with
  | Some x => through (imp_Receive t i ci pReceive len waitTime) x w
  | None => Ret ((0%nat, pReceive), cc, w)
  end.

#[export] Instance CC_imp : CanImpInterface (V := V) CanAbstract := {|
  imp_OpenDevice := CC_VCI_OpenDevice;
  imp_CloseDevice := CC_VCI_CloseDevice;
  imp_ReadBoardInfo := CC_VCI_ReadBoardInfo;
  imp_InitCAN := CC_VCI_InitCAN;
  imp_ReadErrInfo := CC_VCI_ReadErrInfo;
  imp_ReadCANStatus := CC_VCI_ReadCANStatus;
  imp_GetReference := CC_VCI_GetReference;
  imp_SetReference := CC_VCI_SetReference;
  imp_GetReceiveNum := CC_VCI_GetReceiveNum;
  imp_ClearBuffer := CC_VCI_ClearBuffer;
  imp_StartCAN := CC_VCI_StartCAN;
  imp_ResetCAN := CC_VCI_ResetCAN;
  imp_Transmit := CC_VCI_Transmit;
  imp_Receive := CC_VCI_Receive;
|}.

(** ** The exported functions *)

(** [static_cast<DWORD>] of a status *)
Definition as_DWORD (m : outcome (vciReturnType * CanAbstract * world V))
    : outcome (Z * CanAbstract * world V) := '(e, cc, w) ← m; Ret (ret_to_DWORD e, cc, w).
Definition as_DWORD_out {A} (m : outcome (vciReturnType * A * CanAbstract * world V))
    : outcome (Z * A * CanAbstract * world V) := '(e, p, cc, w) ← m; Ret (ret_to_DWORD e, p, cc, w).

Definition VCI_OpenDevice_c (t i r : Z) (cc : CanAbstract) (w : world V) :=
  as_DWORD (CC_VCI_OpenDevice t i r cc w).
Definition VCI_DeirectOpenCan_c (t i r : Z) (cc : CanAbstract) (w : world V) :=
  as_DWORD (CC_VCI_DeirectOpenCan t i r cc w).
Definition VCI_OpenNetCan_c (t i r : Z) (cc : CanAbstract) (w : world V) :=
  as_DWORD (CC_VCI_OpenNetCan t i r cc w).
Definition VCI_CloseDevice_c (t i : Z) (cc : CanAbstract) (w : world V) :=
  as_DWORD (CC_VCI_CloseDevice t i cc w).
Definition VCI_ReadBoardInfo_c (t i : Z) (pInfo : option VCI_BOARD_INFO) (cc : CanAbstract) (w : world V) :=
  as_DWORD_out (CC_VCI_ReadBoardInfo t i pInfo cc w).
Definition VCI_InitCAN_c (t i ci : Z) (pInitConfig : option VCI_INIT_CONFIG) (cc : CanAbstract) (w : world V) :=
  as_DWORD (CC_VCI_InitCAN t i ci pInitConfig cc w).
Definition VCI_ReadErrInfo_c (t i ci : Z) (pErrInfo : option VCI_ERR_INFO) (cc : CanAbstract) (w : world V) :=
  as_DWORD_out (CC_VCI_ReadErrInfo t i ci pErrInfo cc w).
Definition VCI_ReadCANStatus_c (t i ci : Z) (pCANStatus : option VCI_CAN_STATUS) (cc : CanAbstract) (w : world V) :=
  as_DWORD_out (CC_VCI_ReadCANStatus t i ci pCANStatus cc w).
Definition VCI_GetReference_c (t i ci refType : Z) (pData : option (list byte)) (cc : CanAbstract) (w : world V) :=
  as_DWORD_out (CC_VCI_GetReference t i ci refType pData cc w).
Definition VCI_SetReference_c (t i ci refType : Z) (pData : option (list byte)) (cc : CanAbstract) (w : world V) :=
  as_DWORD (CC_VCI_SetReference t i ci refType pData cc w).
Definition VCI_GetReceiveNum_c (t i ci : Z) (cc : CanAbstract) (w : world V) :=
  CC_VCI_GetReceiveNum t i ci cc w.
Definition VCI_ClearBuffer_c (t i ci : Z) (cc : CanAbstract) (w : world V) :=
  as_DWORD (CC_VCI_ClearBuffer t i ci cc w).
Definition VCI_StartCAN_c (t i ci : Z) (cc : CanAbstract) (w : world V) :=
  as_DWORD (CC_VCI_StartCAN t i ci cc w).
Definition VCI_ResetCAN_c (t i ci : Z) (cc : CanAbstract) (w : world V) :=
  as_DWORD (CC_VCI_ResetCAN t i ci cc w).
Definition VCI_Transmit_c (t i ci : Z) (pSend : list VCI_CAN_OBJ) (len : nat) (cc : CanAbstract) (w : world V) :=
  as_DWORD (CC_VCI_Transmit t i ci pSend len cc w).
Definition VCI_Receive_c (t i ci : Z) (pReceive : option (list byte)) (len : nat) (waitTime : Z) (cc : CanAbstract) (w : world V) :=
  CC_VCI_Receive t i ci pReceive len waitTime cc w.
End facade.
Arguments imp V : clear implicits.
Arguments CanAbstract V : clear implicits.
