(* ===== verification/FacadeFacts.v ===== *)
(** * FacadeFacts
    What a program that links [libControlCAN] observes: which back end an open
    selects, that calls are delegated to it, that a closed facade is inert, and
    that without an agent the facade is the vendor library. *)

From Stdlib Require Import ZArith Lia.
From Stdlib Require Import Strings.Byte.
From stdpp Require Import base numbers list option gmap strings.
From S2P Require Import Prelude UsbCan HexCodec Ini AsioRun NetClient NetClientFacts NetClientProps NetCommands.
From S2P Require Import CanImp DirectCan DirectFacts Facade.

Section facts.
Context {V : Type} `{Host V}.

Lemma lift_direct c (d : dc2 V) w : invoke c (IDirect d) w = lift_imp IDirect (invoke c d w).
Proof.
  destruct c; simpl; unfold lift_imp, wrap; bind_cases.
Qed.

Lemma CC_closed_invoke c (w : world V) :
  opens c = false -> invoke c (mk_cc None) w = Ret (failure c, mk_cc None, w).
Proof. by destruct c. Qed.

Lemma CC_invoke c x (w : world V) :
  opens c = false ->
  invoke c (mk_cc (Some x)) w =
  ('(r, x', w') ← invoke c x w;
   Ret (r, mk_cc (if closes c then None else Some x'), if closes c then destroy_imp (Some x') w' else w')).
Proof.
  intros Ho. destruct c; try done; cbn [invoke closes]; unfold wrap; simpl; 
    [unfold CC_VCI_CloseDevice|unfold CC_VCI_ReadBoardInfo|unfold CC_VCI_InitCAN
    |unfold CC_VCI_ReadErrInfo|unfold CC_VCI_ReadCANStatus|unfold CC_VCI_GetReference
    |unfold CC_VCI_SetReference|unfold CC_VCI_GetReceiveNum|unfold CC_VCI_ClearBuffer
    |unfold CC_VCI_StartCAN|unfold CC_VCI_ResetCAN|unfold CC_VCI_Transmit|unfold CC_VCI_Receive];
    unfold through; simpl; destruct x; unfold lift_imp; simpl; bind_cases.
Qed.

(** ** Opening *)

(** a fresh network client that reports [STATUS_OK] is connected and has sent
    the open command *)
Lemma net_open_ok t i r n w n' w' :
  connected n = false -> tx n = [] ->
  net_OpenDevice t i r n w = Ret (STATUS_OK, n', w') ->
  connected n' = true /\ tx n' = cmd_line (COpen t i r) /\ vendor w' = vendor w.
Proof.
  intros Hc Ht. unfold net_OpenDevice. intros ([a st'] & Ho & [= -> <- <-])%bind_Ret_inv.
  revert Ho. unfold VCI_OpenDevice. destruct (_ || _); [done|].
  rewrite Hc. intros ([ec st1] & Hcon & Ho)%bind_Ret_inv.
  destruct (negb (ec =? 0)); [done|].
  apply bind_Ret_inv in Ho as ([ok st2] & Hs & [= Hok <-]). destruct ok; [|done].
  change (send_line 128 _ _ _) with
    (send_line (cmd_bufsize (COpen t i r)) (cmd_args (COpen t i r)) (next_ev (write_ev w))
      (set_connected true st1)) in Hs.
  apply send_line_spec in Hs as (k & _ & _ & ->);
    [|rewrite cmd_args_text; by apply cmd_line_fits|simpl; lia|rewrite cmd_args_text; apply cmd_line_nonempty].
  rewrite cmd_args_text. simpl. split_and!; try done.
  unfold connect in Hcon. destruct (resolves _ _); [|done].
  apply bind_Ret_inv in Hcon as (e & _ & [= _ <-]). simpl. by rewrite Ht.
Qed.

Lemma CanImpCanNet_fresh n : CanImpCanNet control_ini = Ret n -> connected n = false /\ tx n = [].
Proof.
  unfold CanImpCanNet. destruct control_ini as [c|]; [|by intros [= <-]].
  intros (i0 & _ & H0)%bind_Ret_inv. apply bind_Ret_inv in H0 as ([a i1] & _ & H0).
  apply bind_Ret_inv in H0 as ([p i2] & _ & H0). by injection H0 as <-.
Qed.

(** the status of an open that is not [STATUS_ERR] is a library's answer *)
Lemma direct_open_ok t i r w err cc' w' :
  CC_VCI_DeirectOpenCan t i r (mk_cc None) w = Ret (err, cc', w') -> err <> STATUS_ERR ->
  exists l e, can_imp_ cc' = Some (IDirect (mk_dc2 (Some l) (Some t))) /\
    fOpenDevice l t i r (dl_load (path l) (vendor w)) = (e, vendor w') /\ DWORD_to_ret e = err /\
    exists p, load_library p = Ret l.
Proof.
  unfold CC_VCI_DeirectOpenCan, through. simpl. intros ([[a x] w1] & Ho & [= -> <- <-])%bind_Ret_inv Hne.
  unfold lift_imp, DC2_VCI_OpenDevice in Ho. apply bind_Ret_inv in Ho as ([[a d] w2] & Ho & [= -> <- <-]).
  apply bind_Ret_inv in Ho as (keys & _ & Ho). apply bind_Ret_inv in Ho as (found & Hf & Ho).
  destruct found as [[ty l]|]; [|by injection Ho as <-]. simpl in Ho.
  destruct keys as [keys|]; [|done]. apply DC2_find_provides in Hf as (-> & _ & p & _ & _ & _ & Hl).
  destruct (fOpenDevice l t i r _) as [e v] eqn:E. injection Ho as He <- <-.
  exists l, e. split_and!; [done|exact E|done|by eexists].
Qed.
Lemma open_ok t i r (cc cc' : CanAbstract V) w err w' :
  CC_VCI_OpenDevice t i r cc w = Ret (err, cc', w') -> err <> STATUS_ERR ->
  (exists n, can_imp_ cc' = Some (INet n) /\ (err = STATUS_OK ->
     connected n = true /\ tx n = cmd_line (COpen t i r) /\ vendor w' = vendor (destroy_imp (can_imp_ cc) w))) \/
  (exists l e, can_imp_ cc' = Some (IDirect (mk_dc2 (Some l) (Some t))) /\
     fOpenDevice l t i r (dl_load (path l) (vendor (destroy_imp (can_imp_ cc) w))) = (e, vendor w') /\
     DWORD_to_ret e = err /\ exists p, load_library p = Ret l).
Proof.
  unfold CC_VCI_OpenDevice. intros (n & Hn & Ho)%bind_Ret_inv Hne.
  apply CanImpCanNet_fresh in Hn as [Hc Ht].
  cbv zeta in Ho. set (w0 := destroy_imp (can_imp_ cc) w) in *. clearbody w0.
  apply bind_Ret_inv in Ho as ([[err0 x] w1] & Ho & Hr). simpl in Ho. unfold lift_imp in Ho.
  apply bind_Ret_inv in Ho as ([[a n'] w2] & Ho & [= -> <- <-]). cbn [destroy_imp] in Hr.
  destruct (Z.eqb_spec err0 STATUS_NET_CONN_FAIL).
  - right. assert (Hv : vendor w2 = vendor w0).
    { revert Ho. unfold net_OpenDevice. by intros ([a st'] & _ & [= _ _ <-])%bind_Ret_inv. }
    apply direct_open_ok in Hr as (l & e' & H1 & H2 & H3); [|done]. rewrite Hv in H2. by exists l, e'.
  - left. injection Hr as <- <- <-. exists n'. split; [done|]. intros ->. by eapply net_open_ok.
Qed.

(** C17. [VCI_OpenDevice] means what it says: it destroys whatever back end the
    facade had and otherwise ignores it, and when it reports [STATUS_OK] the
    facade holds either a network client that is connected and has sent exactly
    the open command, or, when the network could not be reached, a library just
    loaded for the requested type whose own open succeeded. *)
Theorem facade_open_ok (t i r : Z) (cc cc2 cc' : CanAbstract V) (w w' : world V) :
  (destroy_imp (can_imp_ cc) w = destroy_imp (can_imp_ cc2) w ->
   CC_VCI_OpenDevice t i r cc w = CC_VCI_OpenDevice t i r cc2 w) /\
  CC_VCI_OpenDevice t i r cc w = CC_VCI_OpenDevice t i r (mk_cc None) (destroy_imp (can_imp_ cc) w) /\
  (CC_VCI_OpenDevice t i r cc w = Ret (STATUS_OK, cc', w') ->
   (exists n, can_imp_ cc' = Some (INet n) /\ connected n = true /\
      tx n = cmd_line (COpen t i r) /\ vendor w' = vendor (destroy_imp (can_imp_ cc) w)) \/
   (exists l e, can_imp_ cc' = Some (IDirect (mk_dc2 (Some l) (Some t))) /\
      fOpenDevice l t i r (dl_load (path l) (vendor (destroy_imp (can_imp_ cc) w))) = (e, vendor w') /\
      DWORD_to_ret e = STATUS_OK)).
Proof.
  split; [intros E; unfold CC_VCI_OpenDevice; by rewrite E|]. split; [done|]. intros Ho.
  apply open_ok in Ho as [(n & Hn & Hok)|(l & e & H1 & H2 & H3 & _)]; [| |done].
  - left. exists n. by destruct (Hok eq_refl).
  - right. by exists l, e.
Qed.

(** A closed facade is inert: without a back end every call but an open
    fails, changes nothing and reaches neither the network nor a vendor;
    whatever the back end answers, [VCI_CloseDevice] destroys it; and any other
    call on an open facade is exactly that call on its back end, whichever it
    is. *)
Theorem facade_delegates (c : call) (x : imp V) (w : world V) :
  opens c = false ->
  invoke c (mk_cc None) w = Ret (failure c, mk_cc None, w) /\
  (forall r cc' w', invoke c (mk_cc (Some x)) w = Ret (r, cc', w') ->
     (closes c = true -> cc' = mk_cc None) /\
     (closes c = false -> exists x', cc' = mk_cc (Some x')) /\
     exists x' w1, invoke c x w = Ret (r, x', w1) /\
       w' = if closes c then destroy_imp (Some x') w1 else w1) /\
  (forall r x' w', invoke c x w = Ret (r, x', w') -> exists cc' w1,
     invoke c (mk_cc (Some x)) w = Ret (r, cc', w1)).
Proof.
  intros Ho. rewrite CC_invoke by done. split_and!; [by apply CC_closed_invoke| |].
  - intros r cc' w' ([[r1 x1] w1] & Hi & E)%bind_Ret_inv. injection E as -> <- <-.
    split_and!; [by intros ->|intros ->; by eexists|by eexists _, _].
  - intros r x' w' ->. by eexists _, _.
Qed.

(** ** Without an agent *)

Lemma facade_open_direct t i r (cc : CanAbstract V) w :
  control_ini = None ->
  invoke (KOpen t i r) cc w =
  (found ← selects t;
   let v0 := vendor (destroy_imp (can_imp_ cc) w) in
   let '(rep, v) := vendor_step (snd <$> found) (KOpen t i r) (load_target (snd <$> found) v0) in
   Ret (rep, mk_cc (Some (IDirect (opened found))),
        mk_world v (tail (conn_ev w)) (tail (write_ev w)) (read_ev w))).
Proof.
  intros Hn. cbn [invoke imp_OpenDevice CC_imp]. unfold wrap, CC_VCI_OpenDevice, CanImpCanNet. rewrite Hn.
  assert (Hev : conn_ev (destroy_imp (can_imp_ cc) w) = conn_ev w /\
    write_ev (destroy_imp (can_imp_ cc) w) = write_ev w /\ read_ev (destroy_imp (can_imp_ cc) w) = read_ev w)
    by (destruct (can_imp_ cc) as [[]|]; done).
  cbv zeta. set (w0 := destroy_imp (can_imp_ cc) w) in *. clearbody w0. destruct Hev as (<- & <- & <-).
  cbn [mbind outcome_bind imp_OpenDevice imp_imp lift_imp CanImpCanNet_imp net_OpenDevice VCI_OpenDevice
    sock_addr sock_port]. simpl. unfold CC_VCI_DeirectOpenCan, through. simpl.
  pose proof (DC2_open_invoke t i r CanImpDirectCan2
    (mk_world (vendor w0) (tail (conn_ev w0)) (tail (write_ev w0)) (read_ev w0))) as Ho.
  simpl in Ho. unfold wrap in Ho. unfold lift_imp.
  assert (Hre : forall found v, reloaded found v = load_target (snd <$> found) v) by (intros [[]|] v; done).
  destruct (DC2_VCI_OpenDevice t i r CanImpDirectCan2 _) as [[[a d] w2]| | |];
    destruct (selects t) as [found| | |]; cbn [mbind outcome_bind] in *; try done; try congruence;
    rewrite routed_step in Ho; cbn [vendor set_vendor drop_lib _lib CanImpDirectCan2] in Ho; rewrite Hre in Ho;
    destruct (vendor_step _ _ _) as [rep v]; try done. by injection Ho as -> -> ->.
Qed.

(** the facade while the device is open, and while it is not *)
Definition facade_at (t : Z) (target : option (dll_load_dll_type V)) (is_open : bool) (cc : CanAbstract V) : Prop :=
  if is_open then exists d2, can_imp_ cc = Some (IDirect d2) /\ lazy_at t target true d2 else can_imp_ cc = None.

Lemma destroy_at t target o cc (w : world V) :
  facade_at t target o cc ->
  vendor (destroy_imp (can_imp_ cc) w) = if o then unload_target target (vendor w) else vendor w.
Proof.
  unfold facade_at. destruct o; [|by intros ->]. intros (d2 & -> & Hd). simpl. by rewrite (drop_lazy t target true).
Qed.

Lemma facade_reloading t found cs o cc w :
  control_ini = None -> selects t = Ret found -> (forall t' l, found = Some (t', l) -> t' = t) ->
  facade_at t (snd <$> found) o cc -> disciplined t o cs = true ->
  exists cc' w', invokes cs cc w = Ret ((reloading (snd <$> found) o cs (vendor w)).1, cc', w') /\
    vendor w' = (reloading (snd <$> found) o cs (vendor w)).2.
Proof.
  intros Hn Hsel Ht'. set (target := snd <$> found) in *.
  revert o cc w. induction cs as [|c cs IH]; intros o cc w Hr Hc; cbn [invokes reloading].
  { by exists cc, w. }
  cbn [disciplined] in Hc. apply andb_prop in Hc as [[Ht Ho]%andb_prop Hc]. apply Z.eqb_eq in Ht.
  destruct (opens c) eqn:Eo.
  - destruct c as [t' i r| | | | | | | | | | | | |]; try done. simpl in Ht. subst t'. cbn [closes].
    rewrite facade_open_direct, Hsel by done. cbn [mbind outcome_bind]. fold target. cbv zeta.
    rewrite (destroy_at t target o) by done. destruct (vendor_step target _ _) as [rep v1].
    cbn [mbind outcome_bind].
    destruct (IH true (mk_cc (Some (IDirect (opened found)))) (mk_world v1 (tail (conn_ev w)) (tail (write_ev w)) (read_ev w)))
      as (cc' & w' & Hi & Hv); [|done|].
    { exists (opened found). split; [done|]. unfold lazy_at, target. destruct found as [[t' l]|]; [|done].
      rewrite (Ht' t' l eq_refl). split; [done|]. unfold dc2_match. simpl. by rewrite Z.eqb_refl. }
    rewrite Hi. cbn [mbind outcome_bind vendor] in *. exists cc', w'. rewrite Hv. by destruct (reloading _ _ cs v1).
  - cbn [orb] in Ho. subst o. destruct Hr as (d2 & Ecc & Hlib & Hm). destruct cc as [x]. simpl in Ecc. subst x.
    rewrite CC_invoke, lift_direct, DC2_invoke, Ht, Hm, routed_step by done.
    destruct (vendor_step target c (vendor w)) as [rep v1]. cbn [mbind outcome_bind lift_imp].
    destruct (closes c) eqn:Ecl.
    + change (destroy_imp (Some (IDirect (mk_dc2 None None))) (set_vendor (drop_lib d2 _) (set_vendor v1 w)))
        with (set_vendor (drop_lib d2 v1) w).
      rewrite (drop_lazy t target true d2) by done.
      destruct (IH false (mk_cc None) (set_vendor (unload_target target v1) w)) as (cc' & w' & Hi & Hv); [done|done|].
      rewrite Hi. cbn [mbind outcome_bind vendor set_vendor] in *. exists cc', w'. rewrite Hv.
      by destruct (reloading target false cs (unload_target target v1)).
    + destruct (IH true (mk_cc (Some (IDirect d2))) (set_vendor v1 w)) as (cc' & w' & Hi & Hv); [by exists d2|done|].
      rewrite Hi. cbn [mbind outcome_bind vendor set_vendor] in *. exists cc', w'. rewrite Hv.
      by destruct (reloading target true cs v1).
Qed.

(** C16. Without an agent the facade is the vendor library: on a host with no
    [control_can.ini], a program that opens a device of one type before using
    it gets, call by call, the replies of the library configured for that type
    (the one the eager back end has for it) as it answers when it is unloaded
    and loaded again at every open and unloaded at every close, through any number
    of opens and closes, and the vendor's state ends the same; when loading and
    unloading leave the state behind the libraries alone, these are the replies
    and the state of the library loaded once. *)
Theorem facade_without_agent (d : dc V) (v1 : V) (t : Z) (cs : list call) (w : world V) :
  control_ini = None -> CanImpDirectCan (vendor w) = Ret (d, v1) -> disciplined t false cs = true ->
  let target := lib_map_ d !! t in
  exists rs cc' w', invokes cs (mk_cc None) w = Ret (rs, cc', w') /\
    reloading target false cs (vendor w) = (rs, vendor w') /\
    (loading_invisible -> straight target cs v1 = (rs, vendor w') /\
       exists w1, invokes cs d w = Ret (rs, d, w1) /\ vendor w1 = vendor w').
Proof.
  intros Hn Hd Hc. cbv zeta. destruct (DC_selects _ _ _ t Hd) as (found & Hsel & Hl & Ht').
  destruct (facade_reloading t found cs false (mk_cc None) w Hn Hsel Ht' eq_refl Hc) as (cc' & w' & Hi & Hv).
  rewrite <- Hl in Hi, Hv. exists (reloading (lib_map_ d !! t) false cs (vendor w)).1, cc', w'.
  split; [done|]. assert (E : reloading (lib_map_ d !! t) false cs (vendor w)
    = ((reloading (lib_map_ d !! t) false cs (vendor w)).1, vendor w')).
  { rewrite Hv. by destruct (reloading (lib_map_ d !! t) false cs (vendor w)). }
  split; [done|]. intros Hinv.
  rewrite (reloading_straight _ _ _ _ Hinv) in E |- *. rewrite (DC_load_invisible _ _ _ Hinv Hd).
  split; [done|]. eexists. split; [by apply (eager_straight d t cs false)|].
  cbn [vendor set_vendor]. by rewrite E.
Qed.

(** The code of a failed network open: [VCI_OpenNetCan] on a facade
    without a back end and a host without configuration reports the failure
    as the [DWORD] 4294967295, which a caller that tests for zero takes for
    success, and keeps the unconnected client, on which commands fail but
    [VCI_GetReceiveNum] claims a pending frame. [VCI_OpenDevice] in the same
    situation reports what the vendor library reports. *)
Theorem open_net_failure_code (t i r ci : Z) (w : world V) (cc' : CanAbstract V) (w' : world V) (e : Z) :
  control_ini = None ->
  VCI_OpenNetCan_c t i r (mk_cc None) w = Ret (e, cc', w') ->
  e = 4294967295 /\ e <> 0 /\
  as_DWORD (CC_VCI_StartCAN t i ci cc' w') =
    Ret (0, cc', mk_world (vendor w') (conn_ev w') (tail (write_ev w')) (read_ev w')) /\
  VCI_GetReceiveNum_c t i ci cc' w' = Ret (1, cc', w').
Proof.
  intros Hn. unfold VCI_OpenNetCan_c, CC_VCI_OpenNetCan, CanImpCanNet. rewrite Hn.
  simpl. by intros [= <- <- <-].
Qed.
End facts.

(** the host of [sample_host] without a [control_can.ini] *)
Definition lone_host : Host Z := {|
  platform := linux_x86_64;
  kernel_ini := kernel_ini (Host := sample_host);
  control_ini := None;
  sub_path := sub_path (Host := sample_host);
  file_exists := file_exists (Host := sample_host);
  try_lexical_convert := try_lexical_convert (Host := sample_host);
  traversal := traversal (Host := sample_host);
  shared_library := shared_library (Host := sample_host);
  dl_load p v := v;
  dl_unload p v := v;
  resolves _ _ := false;
|}.

(** an agent accepts the connection and the open command *)
Definition agent_world : world Z :=
  mk_world 0 [[EvComplete 0; EvRunOp; EvRunTm]] [[EvTransfer 40%nat; EvComplete 0; EvRunOp; EvRunTm]] [].

Lemma facade_open_ok_witness :
  exists cc' w', CC_VCI_OpenDevice (H := sample_host) 4 0 0 (mk_cc None) agent_world = Ret (STATUS_OK, cc', w') /\
    ((exists n, can_imp_ cc' = Some (INet n) /\ connected n = true /\
        tx n = cmd_line (COpen 4 0 0) /\ vendor w' = vendor agent_world) \/
     (exists l e, can_imp_ cc' = Some (IDirect (mk_dc2 (Some l) (Some 4))) /\
        fOpenDevice l 4 0 0 (vendor agent_world) = (e, vendor w') /\ DWORD_to_ret e = STATUS_OK)).
Proof.
  eexists _, _. split; [by vm_compute|].
  refine (proj2 (proj2 (facade_open_ok (H := sample_host) 4 0 0 (mk_cc None) (mk_cc None) _ agent_world _)) _).
  by vm_compute.
Defined.

Lemma facade_delegates_witness :
  invoke (H := CC_imp (H := lone_host)) (KStartCAN 4 0 1) (mk_cc None) sample_world
    = Ret (RStatus STATUS_ERR, mk_cc None, sample_world).
Proof.
  destruct (facade_delegates (H := lone_host) (KStartCAN 4 0 1) (IDirect CanImpDirectCan2) sample_world eq_refl)
    as [Hc _]. exact Hc.
Defined.

(** two sessions, the second without a close before it *)
Lemma facade_without_agent_witness :
  exists rs cc' w', invokes (H := CC_imp (H := lone_host)) (two_opens ++ [KClose 4 0]) (mk_cc None) sample_world
      = Ret (rs, cc', w') /\
    reloading (H := lone_host) (Some sample_dll) false (two_opens ++ [KClose 4 0]) 0 = (rs, vendor w') /\
    straight (Some sample_dll) (two_opens ++ [KClose 4 0]) 0 = (rs, vendor w') /\
    rs = [RStatus 1; RNum 1; RStatus 1; RNum 3; RStatus 1].
Proof.
  destruct (facade_without_agent (H := lone_host) sample_dc 0 4 (two_opens ++ [KClose 4 0]) sample_world)
    as (rs & cc' & w' & H1 & H2 & H3); [by vm_compute..|].
  exists rs, cc', w'. split; [exact H1|]. split; [exact H2|].
  destruct (H3 (fun p v => conj eq_refl eq_refl)) as [H4 _]. split; [exact H4|].
  assert (E : straight (Some sample_dll) (two_opens ++ [KClose 4 0]) 0
    = ([RStatus 1; RNum 1; RStatus 1; RNum 3; RStatus 1], 5)) by (by vm_compute).
  cbn [lib_map_ sample_dc] in H4. change ({[4 := sample_dll]} !! 4) with (Some sample_dll) in H4.
  rewrite E in H4. by injection H4 as <- _.
Defined.

Lemma open_net_failure_code_witness :
  VCI_GetReceiveNum_c (H := lone_host) 4 0 0
    (mk_cc (Some (INet (mk_net false [] [] [] false [])))) sample_world
  = Ret (1, mk_cc (Some (INet (mk_net false [] [] [] false []))), sample_world).
Proof.
  apply (open_net_failure_code (H := lone_host) 4 0 0 0 sample_world
    (mk_cc (Some (INet (mk_net false [] [] [] false [])))) sample_world 4294967295); [done|by vm_compute].
Defined.
