(* ===== verification/CallbackList.v ===== *)
(** * CallbackList
    [eventpp::internal_::CallbackListBase] of
    [3rd/include/eventpp/callbacklist.h], the listener list behind the agent's
    event queue: a doubly linked list of shared nodes with counters.

    Nodes live in a store and keep their links after they are removed, as in
    the source; a handle is expired when no owner can reach its node any more.
    Each member function is one definition, its effect when nothing else runs.
    [append], [prepend] and [insert] take the node and its counter, and [insert]
    locks [before], outside the mutex, and only link the node under it
    ([link_back], [link_front], [doInsert]); [CallbackDispatch] interleaves
    these parts, and the dispatch loop that releases the mutex between nodes,
    with each other. *)

From Stdlib Require Import ZArith Lia.
From stdpp Require Import base numbers list option gmap fin_maps.
From S2P Require Import Prelude.

Section callback_list.
Context {C : Type}.

(** [struct Node]; node identities stand for the shared pointers *)
Record node := mk_node {
  previous : option positive;
  next : option positive;
  callback : C;
  counter : Z;
}.
(** [removedCounter] *)
Definition removedCounter : Z := 0.

Record clist := mk_clist {
  heap : gmap positive node;
  head : option positive;
  tail : option positive;
  currentCounter : Z;
}.

(** [CallbackListBase()] *)
Definition CallbackListBase : clist := mk_clist ∅ None None 0.

Definition with_heap (h : gmap positive node) (l : clist) : clist :=
  mk_clist h (head l) (tail l) (currentCounter l).
Definition set_head (p : option positive) (l : clist) : clist :=
  mk_clist (heap l) p (tail l) (currentCounter l).
Definition set_tail (p : option positive) (l : clist) : clist :=
  mk_clist (heap l) (head l) p (currentCounter l).
Definition set_counter (c : Z) (l : clist) : clist :=
  mk_clist (heap l) (head l) (tail l) c.

(** an assignment to a member of the node [p] points to *)
Definition upd (p : positive) (f : node -> node) (l : clist) : clist :=
  with_heap (alter f p (heap l)) l.
Definition put_previous (q : option positive) (n : node) : node :=
  mk_node q (next n) (callback n) (counter n).
Definition put_next (q : option positive) (n : node) : node :=
  mk_node (previous n) q (callback n) (counter n).
Definition put_counter (c : Z) (n : node) : node :=
  mk_node (previous n) (next n) (callback n) c.
(** the same through a pointer that may be null, in code that tests it *)
Definition upd_opt (p : option positive) (f : node -> node) (l : clist) : clist :=
  match p with Some p => upd p f l | None => l end.

Definition node_next (l : clist) (p : positive) : option positive := heap l !! p ≫= next.
Definition node_previous (l : clist) (p : positive) : option positive := heap l !! p ≫= previous.

(** [empty()] *)
Definition empty (l : clist) : bool := match head l with None => true | Some _ => false end.

(** ** Counters *)

(** the loop of [getNextCounter] over the nodes from [p] *)
Fixpoint reset_counters (fuel : nat) (p : option positive) (l : clist) : clist :=
  match fuel, p with
  | S fuel, Some q => let l' := upd q (put_counter 1) l in reset_counters fuel (node_next l' q) l'
  | _, _ => l
  end.
(** [getNextCounter()]; the counter is an [unsigned int] *)
Definition getNextCounter (l : clist) : Z * clist :=
  let result := u32 (currentCounter l + 1) in
  let l1 := set_counter result l in
  if result =? 0 then
    let l2 := reset_counters (size (heap l1)) (head l1) l1 in
    let result := u32 (currentCounter l2 + 1) in
    (result, set_counter result l2)
  else (result, l1).

(** [doAllocateNode(callback)] *)
Definition doAllocateNode (cb : C) (l : clist) : positive * clist :=
  let '(c, l1) := getNextCounter l in
  let p := fresh (dom (heap l1)) in
  (p, with_heap (<[p := mk_node None None cb c]> (heap l1)) l1).

(** ** Handles *)

(** the nodes an owner keeps alive: those reachable from [todo] through
    [previous] and [next] *)
Fixpoint reach (fuel : nat) (l : clist) (seen : gset positive) (todo : list positive) : gset positive :=
  match fuel with
  | O => seen
  | S fuel =>
      match todo with
      | [] => seen
      | p :: todo =>
          if decide (p ∈ seen) then reach fuel l seen todo
          else reach fuel l ({[p]} ∪ seen)
                 (option_list (node_previous l p) ++ option_list (node_next l p) ++ todo)
      end
  end.
Definition reach_fuel (l : clist) : nat := 3 * size (heap l) + 4.
(** the owners: the list and the loops that are visiting the nodes [pins] *)
Definition alive (pins : list positive) (l : clist) : gset positive :=
  reach (reach_fuel l + length pins) l ∅ (option_list (head l) ++ option_list (tail l) ++ pins).
(** [handle.lock()] *)
Definition lock (pins : list positive) (h : positive) (l : clist) : option positive :=
  if decide (h ∈ alive pins l) then Some h else None.

(** [ownsHandle(handle)]: the walk back to the first node *)
Fixpoint first_of (fuel : nat) (l : clist) (p : positive) : option positive :=
  match fuel with
  | O => None
  | S fuel => match node_previous l p with None => Some p | Some q => first_of fuel l q end
  end.
Definition ownsHandle (pins : list positive) (h : positive) (l : clist) : bool :=
  match lock pins h l with
  | Some p => bool_decide (first_of (S (size (heap l))) l p = head l)
  | None => false
  end.

(** ** Modification *)

(** the parts of [append] and [prepend] under the mutex *)
Definition link_back (p : positive) (l : clist) : clist :=
  match head l with
  | Some _ =>
      let l2 := upd p (put_previous (tail l)) l in
      let l3 := upd_opt (tail l2) (put_next (Some p)) l2 in
      set_tail (Some p) l3
  | None => set_tail (Some p) (set_head (Some p) l)
  end.
Definition link_front (p : positive) (l : clist) : clist :=
  match head l with
  | Some _ =>
      let l2 := upd p (put_next (head l)) l in
      let l3 := upd_opt (head l2) (put_previous (Some p)) l2 in
      set_head (Some p) l3
  | None => set_tail (Some p) (set_head (Some p) l)
  end.

(** [append(callback)] *)
Definition append (cb : C) (l : clist) : positive * clist :=
  let '(p, l1) := doAllocateNode cb l in (p, link_back p l1).

(** [prepend(callback)] *)
Definition prepend (cb : C) (l : clist) : positive * clist :=
  let '(p, l1) := doAllocateNode cb l in (p, link_front p l1).

(** [doInsert(node, beforeNode)] *)
Definition doInsert (p before : positive) (l : clist) : clist :=
  let l1 := upd p (put_previous (node_previous l before)) l in
  let l2 := upd p (put_next (Some before)) l1 in
  let l3 := upd_opt (node_previous l2 before) (put_next (Some p)) l2 in
  let l4 := upd before (put_previous (Some p)) l3 in
  if decide (Some before = head l4) then set_head (Some p) l4 else l4.

(** [insert(callback, before)] *)
Definition insert_cb (pins : list positive) (cb : C) (before : positive) (l : clist) : positive * clist :=
  match lock pins before l with
  | Some b => let '(p, l1) := doAllocateNode cb l in (p, doInsert p b l1)
  | None => append cb l
  end.

(** [doFreeNode(node)] *)
Definition doFreeNode (p : positive) (l : clist) : clist :=
  let l1 := upd_opt (node_next l p) (put_previous (node_previous l p)) l in
  let l2 := upd_opt (node_previous l1 p) (put_next (node_next l1 p)) l1 in
  let l3 := upd p (put_counter removedCounter) l2 in
  let l4 := if decide (head l3 = Some p) then set_head (node_next l3 p) l3 else l3 in
  if decide (tail l4 = Some p) then set_tail (node_previous l4 p) l4 else l4.

(** [remove(handle)] *)
Definition remove (pins : list positive) (h : positive) (l : clist) : bool * clist :=
  match lock pins h l with
  | Some p => (true, doFreeNode p l)
  | None => (false, l)
  end.

(** [doFreeAllNodes()] *)
Fixpoint free_links (fuel : nat) (p : option positive) (l : clist) : clist :=
  match fuel, p with
  | S fuel, Some q =>
      let nx := node_next l q in
      free_links fuel nx (upd q (put_next None) (upd q (put_previous None) l))
  | _, _ => l
  end.
Definition doFreeAllNodes (l : clist) : clist :=
  free_links (size (heap l)) (head l) (set_head None l).

(** [cloneFrom(fromHead)], the nodes of [other] from [from] on; all copies
    share one counter *)
Fixpoint clone_loop (fuel : nat) (other : clist) (from : option positive) (c : Z)
    (nd : option positive) (l : clist) : option positive * clist :=
  match fuel, from with
  | S fuel, Some f =>
      match heap other !! f with
      | Some fn =>
          let p := fresh (dom (heap l)) in
          let l1 := with_heap (<[p := mk_node nd None (callback fn) c]> (heap l)) l in
          let l2 := match nd with
                    | Some q => upd q (put_next (Some p)) l1
                    | None => set_head (Some p) l1
                    end in
          clone_loop fuel other (next fn) c (Some p) l2
      | None => (nd, l)
      end
  | _, _ => (nd, l)
  end.
Definition cloneFrom (other : clist) (l : clist) : clist :=
  let '(c, l1) := getNextCounter l in
  let '(nd, l2) := clone_loop (size (heap other)) other (head other) c None l1 in
  set_tail nd l2.
(** copy construction *)
Definition CallbackListBase_copy (other : clist) : clist := cloneFrom other CallbackListBase.

(** ** Dispatch *)

(** whether the loop invokes the callback of a node *)
Definition eligible (snapshot : Z) (n : node) : bool :=
  negb (counter n =? removedCounter) && (counter n <=? snapshot).

(** [doForEachIf(f)] while nothing else runs: [f] returns whether to go on *)
Fixpoint doForEachIf_loop {S : Type} (f : positive -> C -> S -> bool * S) (fuel : nat) (l : clist)
    (snapshot : Z) (p : option positive) (s : S) : bool * S :=
  match fuel, p with
  | Datatypes.S fuel, Some q =>
      match heap l !! q with
      | Some n =>
          if eligible snapshot n then
            let '(go, s') := f q (callback n) s in
            if go then doForEachIf_loop f fuel l snapshot (next n) s' else (false, s')
          else doForEachIf_loop f fuel l snapshot (next n) s
      | None => (true, s)
      end
  | _, _ => (true, s)
  end.
Definition doForEachIf {S : Type} (f : positive -> C -> S -> bool * S) (l : clist) (s : S) : bool * S :=
  doForEachIf_loop f (size (heap l)) l (currentCounter l) (head l) s.
(** [forEach(func)] *)
Definition forEach {S : Type} (func : C -> S -> S) (l : clist) (s : S) : S :=
  snd (doForEachIf (fun _ cb s => (true, func cb s)) l s).
End callback_list.
Arguments node C : clear implicits.
Arguments clist C : clear implicits.
