(* ===== verification/CallbackListFacts.v ===== *)
(** * CallbackListFacts
    The linked list refines a list of listeners: representation invariant,
    refinement of every operation, life time of handles, dispatch order. *)

From Stdlib Require Import ZArith Lia.
From stdpp Require Import base numbers list option gmap fin_maps.
From S2P Require Import Prelude CallbackList.

(** the first of a list, or what follows it; the last of a list, or what
    precedes it *)
Definition first_or (L : list positive) (q : option positive) : option positive :=
  match L with [] => q | m :: _ => Some m end.
Definition last_or (L : list positive) (p : option positive) : option positive :=
  match last L with Some m => Some m | None => p end.

Lemma last_or_snoc L n p : last_or (L ++ [n]) p = Some n.
Proof. unfold last_or. by rewrite last_snoc. Qed.
Lemma last_or_cons n L p : last_or (n :: L) p = last_or L (Some n).
Proof. unfold last_or. rewrite last_cons. by destruct (last L). Qed.
Lemma first_or_app L1 L2 q : first_or (L1 ++ L2) q = first_or L1 (first_or L2 q).
Proof. by destruct L1. Qed.
Lemma first_or_None L : first_or L None = hd_error L.
Proof. by destruct L. Qed.
Lemma last_or_None L : last_or L None = last L.
Proof. unfold last_or. by destruct (last L). Qed.

(** a list is empty or ends in an element *)
Lemma rev_ind_cases {A} (L : list A) : L = [] \/ exists L0 t, L = L0 ++ [t].
Proof. destruct L as [|t L0 _] using rev_ind; [by left|]. right. by exists L0, t. Qed.

Section facts.
Context {C : Type}.
Implicit Types (h : gmap positive (node C)) (L : list positive) (l : clist C).

(** [L] is linked in [h], preceded by [p] and followed by [q] *)
Fixpoint seg h (p : option positive) L (q : option positive) : Prop :=
  match L with
  | [] => True
  | n :: L' => exists nd, h !! n = Some nd /\ previous nd = p /\ next nd = first_or L' q /\
      seg h (Some n) L' q
  end.

Lemma seg_app h p L1 L2 q :
  seg h p (L1 ++ L2) q <-> seg h p L1 (first_or L2 q) /\ seg h (last_or L1 p) L2 q.
Proof.
  revert p. induction L1 as [|n L1 IH]; intros p; simpl; [by split; [|intros [_ ?]]|].
  setoid_rewrite IH. setoid_rewrite first_or_app. rewrite last_or_cons. split.
  - intros (nd & ? & ? & ? & ? & ?). split; [|done]. by exists nd.
  - intros [(nd & ? & ? & ? & ?) ?]. by exists nd.
Qed.

(** a segment depends on the links of its nodes only *)
Definition same_links h h' (n : positive) : Prop :=
  forall nd, h !! n = Some nd -> exists nd', h' !! n = Some nd' /\ previous nd' = previous nd /\ next nd' = next nd.
Lemma seg_frame h h' p L q :
  (forall n, n ∈ L -> same_links h h' n) -> seg h p L q -> seg h' p L q.
Proof.
  revert p. induction L as [|n L IH]; intros p Hs; [done|]. simpl.
  intros (nd & Hn & Hp & Hx & Hr). destruct (Hs n (list_elem_of_here _ _) nd Hn) as (nd' & ? & ? & ?).
  exists nd'. split_and!; [done|congruence|congruence|]. apply IH; [|done].
  intros m Hm. apply Hs. by right.
Qed.
Lemma seg_dom h p L q n : seg h p L q -> n ∈ L -> is_Some (h !! n).
Proof.
  revert p. induction L as [|m L IH]; intros p; [by intros _ ?%not_elem_of_nil|].
  simpl. intros (nd & Hn & _ & _ & Hr) [->|Hin]%elem_of_cons; [by exists nd|by eapply IH].
Qed.
Lemma same_links_alter h f m n : m <> n -> same_links h (alter f m h) n.
Proof. intros Hne nd Hn. exists nd. by rewrite lookup_alter_ne. Qed.

(** relinking the ends *)
Lemma seg_put_previous h p p' n L q :
  n ∉ L -> seg h p (n :: L) q -> seg (alter (put_previous p') n h) p' (n :: L) q.
Proof.
  intros Hn (nd & Hl & Hp & Hx & Hr). exists (put_previous p' nd).
  rewrite lookup_alter_eq, Hl. split_and!; try done.
  eapply seg_frame; [|exact Hr]. intros m Hm. apply same_links_alter. intros ->. done.
Qed.
Lemma seg_put_next h p n L q q' :
  n ∉ L -> seg h p (L ++ [n]) q -> seg (alter (put_next q') n h) p (L ++ [n]) q'.
Proof.
  rewrite !seg_app. intros Hn [H1 (nd & Hl & Hp & Hx & _)]. split.
  - eapply seg_frame; [|exact H1]. intros m Hm. apply same_links_alter. intros ->. done.
  - exists (put_next q' nd). by rewrite lookup_alter_eq, Hl.
Qed.
Lemma seg_alter_ne h f m p L q : m ∉ L -> seg h p L q -> seg (alter f m h) p L q.
Proof.
  intros Hm. apply seg_frame. intros n Hn. apply same_links_alter. intros ->. done.
Qed.

(** ** The invariant *)

Definition counted (c : Z) h L : Prop :=
  Forall (fun n => exists nd, h !! n = Some nd /\ 1 <= counter nd <= c) L.
Record rep l L : Prop := {
  rep_seg : seg (heap l) None L None;
  rep_nodup : NoDup L;
  rep_head : head l = hd_error L;
  rep_tail : tail l = last L;
  rep_counted : counted (currentCounter l) (heap l) L;
  rep_counter : 0 <= currentCounter l < 2 ^ 32;
}.

(** the callbacks of the list, in order *)
Definition callbacks l L : list (option C) := (fun n => callback <$> heap l !! n) <$> L.

Lemma rep_new : rep CallbackListBase [].
Proof. split; try done. constructor. constructor. Qed.

Lemma rep_dom l L n : rep l L -> n ∈ L -> is_Some (heap l !! n).
Proof. intros [Hs]. by eapply seg_dom. Qed.

Lemma rep_length l L : rep l L -> (length L <= size (heap l))%nat.
Proof.
  intros Hr. rewrite <- size_dom. rewrite <- (size_list_to_set (C := gset positive) L) by (by destruct Hr).
  apply subseteq_size. intros n Hn%elem_of_list_to_set. apply elem_of_dom. by eapply rep_dom.
Qed.

(** ** Counters *)

Lemma reset_counters_spec fuel p L l :
  seg (heap l) p L None -> NoDup L -> (length L <= fuel)%nat ->
  let l' := reset_counters fuel (hd_error L) l in
  head l' = head l /\ tail l' = tail l /\ currentCounter l' = currentCounter l /\
  (forall n, heap l' !! n = if decide (n ∈ L) then put_counter 1 <$> heap l !! n else heap l !! n).
Proof.
  revert p L l. induction fuel as [|fuel IH]; intros p L l Hs Hnd Hle.
  - destruct L; [|simpl in Hle; lia]. by split_and!.
  - destruct L as [|m L]; [by split_and!|].
    simpl in Hs. destruct Hs as (nd & Hm & _ & Hx & Hr).
    apply NoDup_cons in Hnd as [Hml Hnd]. simpl in Hle. cbn [hd_error reset_counters].
    assert (Hnext : node_next (upd m (put_counter 1) l) m = hd_error L).
    { unfold node_next. simpl. rewrite lookup_alter_eq, Hm. simpl. by rewrite Hx, first_or_None. }
    rewrite Hnext.
    destruct (IH (Some m) L (upd m (put_counter 1) l)) as (H1 & H2 & H3 & H4); [|done|lia|].
    { simpl. by apply seg_alter_ne. }
    split_and!; [done|done|done|]. intros n. rewrite H4. simpl.
    destruct (decide (n ∈ L)) as [Hin|Hin].
    + rewrite decide_True by (by right). rewrite lookup_alter_ne; [done|]. intros ->. done.
    + destruct (decide (n = m)) as [->|Hne].
      * rewrite lookup_alter_eq, decide_True; [done|]. by left.
      * rewrite lookup_alter_ne, decide_False; [done| |done].
        intros [?|?]%elem_of_cons; done.
Qed.

Lemma getNextCounter_spec l L c l' :
  rep l L -> getNextCounter l = (c, l') ->
  rep l' L /\ 1 <= c /\ c = currentCounter l' /\ dom (heap l') = dom (heap l) /\
  (forall n, n ∉ L -> heap l' !! n = heap l !! n) /\
  (forall n, (callback <$> heap l' !! n) = (callback <$> heap l !! n)) /\
  (currentCounter l + 1 < 2 ^ 32 -> heap l' = heap l /\ currentCounter l' = currentCounter l + 1).
Proof.
  intros Hr. pose proof Hr as [Hs Hnd Hh Ht Hc Hcc]. unfold getNextCounter.
  destruct (Z.eqb_spec (u32 (currentCounter l + 1)) 0) as [Hz|Hnz].
  - intros [= <- <-]. rewrite Hz.
    destruct (reset_counters_spec (size (heap l)) None L (set_counter 0 l)) as (H1 & H2 & H3 & H4);
      [done|done|by eapply rep_length|].
    cbn [heap head tail currentCounter set_counter] in *. rewrite Hh. rewrite H3.
    change (u32 (0 + 1)) with 1. split_and!; try done; try lia.
    + split; cbn [heap head tail currentCounter set_counter]; [|done|congruence|congruence| |lia].
      * eapply seg_frame; [|exact Hs]. intros n Hn nd Hl. rewrite H4, decide_True, Hl by done.
        by eexists.
      * eapply Forall_impl; [exact (proj2 (Forall_forall _ L) (fun n Hn => Hn))|].
        intros n Hn. destruct (rep_dom l L n Hr Hn) as [nd Hl]. exists (put_counter 1 nd).
        rewrite H4, decide_True, Hl by done. simpl. split; [done|lia].
    + apply set_eq. intros n. rewrite !elem_of_dom, H4.
      destruct (decide (n ∈ L)); [|done]. by rewrite fmap_is_Some.
    + intros n Hn. by rewrite H4, decide_False.
    + intros n. rewrite H4. destruct (decide (n ∈ L)); [|done]. by destruct (heap l !! n).
    + unfold u32 in Hz. intros Hlt. rewrite Z.mod_small in Hz by lia. lia.
  - intros [= <- <-]. unfold u32 in *.
    assert (Hlt : (currentCounter l + 1) mod 2 ^ 32 = currentCounter l + 1).
    { apply Z.mod_small. split; [lia|]. destruct (Z.eq_dec (currentCounter l + 1) (2 ^ 32)) as [E|E]; [|lia].
      rewrite E in Hnz. done. }
    rewrite Hlt in *. split_and!; try done; try lia.
    split; try done; simpl.
    + eapply Forall_impl; [exact Hc|]. intros n (nd & ? & ?). exists nd. split; [done|lia].
    + pose proof (Z.mod_pos_bound (currentCounter l + 1) (2 ^ 32)). lia.
Qed.

Lemma doAllocateNode_spec cb l L p l1 :
  rep l L -> doAllocateNode cb l = (p, l1) ->
  rep l1 L /\ p ∉ L /\ heap l !! p = None /\
  heap l1 !! p = Some (mk_node None None cb (currentCounter l1)) /\ 1 <= currentCounter l1 /\
  (forall n, n ∉ L -> n <> p -> heap l1 !! n = heap l !! n) /\
  (forall n, n <> p -> (callback <$> heap l1 !! n) = (callback <$> heap l !! n)) /\
  (currentCounter l + 1 < 2 ^ 32 -> currentCounter l1 = currentCounter l + 1 /\
     forall n, n <> p -> heap l1 !! n = heap l !! n).
Proof.
  intros Hr. unfold doAllocateNode. destruct (getNextCounter l) as [c l0] eqn:Eg.
  apply (getNextCounter_spec l L) in Eg as (Hr0 & Hc & -> & Hd & Hout & Hcb & Hnw); [|done].
  intros [= <- <-]. set (p := fresh (dom (heap l0))).
  assert (Hp : heap l0 !! p = None) by (apply not_elem_of_dom, is_fresh).
  assert (HpL : p ∉ L).
  { intros Hin. destruct (rep_dom l0 L p Hr0 Hin). congruence. }
  pose proof Hr0 as [Hs Hnd Hh Ht Hct Hcc].
  split_and!; cbn [heap head tail currentCounter with_heap]; try done.
  - split; try done; simpl.
    + eapply seg_frame; [|exact Hs]. intros n Hn nd Hl. exists nd.
      rewrite lookup_insert_ne; [done|]. intros ->. done.
    + eapply Forall_impl; [exact Hct|]. intros n (nd & Hl & ?). exists nd.
      rewrite lookup_insert_ne; [done|]. intros ->. congruence.
  - rewrite <- Hout by done. done.
  - by rewrite lookup_insert_eq.
  - intros n Hn Hne. rewrite lookup_insert_ne by done. by apply Hout.
  - intros n Hne. rewrite lookup_insert_ne by done. apply Hcb.
  - intros Hlt. destruct (Hnw Hlt) as [Hh0 Hc0]. split; [done|]. intros n Hne.
    by rewrite lookup_insert_ne, Hh0.
Qed.

(** ** Modification *)

Definition keeps_counter (f : node C -> node C) : Prop := forall nd, counter (f nd) = counter nd.
Definition keeps_callback (f : node C -> node C) : Prop := forall nd, callback (f nd) = callback nd.

Lemma counted_alter c h L f m : keeps_counter f -> counted c h L -> counted c (alter f m h) L.
Proof.
  intros Hf HL. eapply Forall_impl; [exact HL|]. intros n (nd & Hn & Hc). destruct (decide (m = n)) as [->|Hne].
  - exists (f nd). rewrite lookup_alter_eq, Hn. split; [done|]. by rewrite Hf.
  - exists nd. by rewrite lookup_alter_ne.
Qed.
Lemma counted_insert_at c h L1 L2 n nd :
  h !! n = Some nd -> 1 <= counter nd <= c -> counted c h (L1 ++ L2) -> counted c h (L1 ++ n :: L2).
Proof.
  unfold counted. rewrite !Forall_app, Forall_cons. intros ? ? [? ?]. split_and!; try done. by exists nd.
Qed.
Lemma counted_drop c h L1 L2 n : counted c h (L1 ++ n :: L2) -> counted c h (L1 ++ L2).
Proof. unfold counted. rewrite !Forall_app, Forall_cons. by intros (? & ? & ?). Qed.

Lemma callback_alter h f m n :
  keeps_callback f -> callback <$> alter f m h !! n = callback <$> h !! n.
Proof.
  intros Hf. destruct (decide (m = n)) as [->|Hne].
  - rewrite lookup_alter_eq. destruct (h !! n); [|done]. simpl. by rewrite Hf.
  - by rewrite lookup_alter_ne.
Qed.

(** [p] has been added between [L1] and [L2] *)
Record inserted cb l L1 L2 (p : positive) l' : Prop := {
  ins_rep : rep l' (L1 ++ p :: L2);
  ins_fresh : heap l !! p = None;
  ins_node : exists nd, heap l' !! p = Some nd /\ callback nd = cb /\ counter nd = currentCounter l';
  ins_callback : forall n, n <> p -> callback <$> heap l' !! n = callback <$> heap l !! n;
  ins_out : forall n, n <> p -> n ∉ L1 ++ L2 -> heap l' !! n = heap l !! n;
  ins_counter : currentCounter l + 1 < 2 ^ 32 -> currentCounter l' = currentCounter l + 1 /\
    forall n, n <> p -> counter <$> heap l' !! n = counter <$> heap l !! n;
}.

Lemma counter_alter h f m n :
  keeps_counter f -> counter <$> alter f m h !! n = counter <$> h !! n.
Proof.
  intros Hf. destruct (decide (m = n)) as [->|Hne].
  - rewrite lookup_alter_eq. destruct (h !! n); [|done]. simpl. by rewrite Hf.
  - by rewrite lookup_alter_ne.
Qed.

(** An allocated node [p] with number [c], in no list yet, has been linked
    between [L1] and [L2]. *)
Record linked (cb : C) (c : Z) l L1 L2 (p : positive) l' : Prop := {
  ln_rep : rep l' (L1 ++ p :: L2);
  ln_node : exists nd, heap l' !! p = Some nd /\ callback nd = cb /\ counter nd = c;
  ln_callback : forall n, callback <$> heap l' !! n = callback <$> heap l !! n;
  ln_counter : forall n, counter <$> heap l' !! n = counter <$> heap l !! n;
  ln_out : forall n, n <> p -> n ∉ L1 ++ L2 -> heap l' !! n = heap l !! n;
  ln_cc : currentCounter l' = currentCounter l;
}.

Lemma link_empty_spec cb c l p :
  rep l [] -> heap l !! p = Some (mk_node None None cb c) -> 1 <= c <= currentCounter l ->
  linked cb c l [] [] p (set_tail (Some p) (set_head (Some p) l)).
Proof.
  intros [Hs Hnd Hh Ht Hct Hcc] Hnew Hc. split; cbn [heap currentCounter set_head set_tail]; try done.
  - split; simpl; try done.
    + by exists (mk_node None None cb c).
    + apply NoDup_singleton.
    + apply list.Forall_singleton. eexists. split; [done|]. simpl. lia.
  - by eexists.
Qed.

(** the part of [append] under the mutex links it at the end *)
Lemma link_back_spec cb c l L p :
  rep l L -> p ∉ L -> heap l !! p = Some (mk_node None None cb c) -> 1 <= c <= currentCounter l ->
  linked cb c l L [] p (link_back p l).
Proof.
  intros Hr HpL Hnew Hc. unfold link_back. destruct (rev_ind_cases L) as [->|(L0 & t & ->)].
  - pose proof Hr as [_ _ Hh _ _ _]. rewrite Hh. cbn [hd_error]. by apply link_empty_spec.
  - destruct Hr as [Hs Hnd Hh Ht Hct Hcc].
    assert (Hhd : exists x, head l = Some x) by (rewrite Hh; destruct L0; by eexists).
    destruct Hhd as [x Hhd]. rewrite Hhd.
    cbn [tail heap upd with_heap] in *. rewrite Ht, last_snoc. cbn [upd_opt].
    assert (Htp : t <> p) by (intros ->; set_solver).
    assert (Ht0 : t ∉ L0) by (apply NoDup_app in Hnd as (_ & Hnd & _); set_solver).
    cbn [heap set_tail upd with_heap].
    assert (Hp' : alter (put_next (Some p)) t (alter (put_previous (Some t)) p (heap l)) !! p
      = Some (mk_node (Some t) None cb c)).
    { rewrite lookup_alter_ne, lookup_alter_eq, Hnew by done. done. }
    split; cbn [heap currentCounter set_head set_tail upd with_heap]; [| | | | |done].
    + split; cbn [heap head tail currentCounter set_tail upd with_heap].
      * rewrite seg_app. split.
        -- apply (seg_put_next _ _ _ _ None); [done|]. apply seg_alter_ne; [done|exact Hs].
        -- exists (mk_node (Some t) None cb c). rewrite last_or_snoc. done.
      * apply NoDup_app. split; [done|]. split; [|apply NoDup_singleton]. set_solver.
      * rewrite Hh. by destruct L0.
      * by rewrite last_snoc.
      * eapply counted_insert_at; [exact Hp'|simpl; lia|].
        rewrite app_nil_r. by do 2 (apply counted_alter; [done|]).
      * done.
    + eexists. split; [exact Hp'|done].
    + intros n. by rewrite !callback_alter.
    + intros n. by rewrite !counter_alter.
    + intros n Hn Hn'. rewrite ?app_nil_r in Hn'. rewrite !lookup_alter_ne; [done|done|].
      intros ->. set_solver.
Qed.

(** the part of [prepend] under the mutex links it at the front *)
Lemma link_front_spec cb c l L p :
  rep l L -> p ∉ L -> heap l !! p = Some (mk_node None None cb c) -> 1 <= c <= currentCounter l ->
  linked cb c l [] L p (link_front p l).
Proof.
  intros Hr HpL Hnew Hc. unfold link_front. pose proof Hr as [Hs Hnd Hh Ht Hct Hcc]. rewrite Hh.
  destruct L as [|x L]; cbn [hd_error]; [by apply link_empty_spec|].
  cbn [head heap upd with_heap] in *. rewrite Hh. cbn [upd_opt hd_error].
  assert (Hxp : x <> p) by (intros ->; set_solver).
  apply NoDup_cons in Hnd as [HxL Hnd].
  cbn [heap set_head upd with_heap].
  assert (Hp' : alter (put_previous (Some p)) x (alter (put_next (Some x)) p (heap l)) !! p
    = Some (mk_node None (Some x) cb c)).
  { rewrite lookup_alter_ne, lookup_alter_eq, Hnew by done. done. }
  split; cbn [heap currentCounter set_head set_tail upd with_heap]; [| | | | |done].
  - split; cbn [heap head tail currentCounter set_head upd with_heap].
    + eexists. split_and!; [exact Hp'|done|done|]. apply (seg_put_previous _ None); [done|].
      apply seg_alter_ne; [done|exact Hs].
    + apply NoDup_cons. split; [done|]. by apply NoDup_cons.
    + done.
    + cbn [app]. rewrite Ht. by rewrite last_cons_cons.
    + apply (counted_insert_at _ _ [] _ _ _ Hp'); [simpl; lia|].
      by do 2 (apply counted_alter; [done|]).
    + done.
  - eexists. split; [exact Hp'|done].
  - intros n. by rewrite !callback_alter.
  - intros n. by rewrite !counter_alter.
  - intros n Hn Hn'. cbn [app] in Hn'. rewrite !lookup_alter_ne; [done|done|]. intros ->. set_solver.
Qed.

(** Allocating a node and linking it with nothing in between. *)
Lemma linked_inserted cb l L1 L2 p l1 l' :
  rep l (L1 ++ L2) -> doAllocateNode cb l = (p, l1) ->
  (rep l1 (L1 ++ L2) -> p ∉ L1 ++ L2 -> heap l1 !! p = Some (mk_node None None cb (currentCounter l1)) ->
   1 <= currentCounter l1 <= currentCounter l1 -> linked cb (currentCounter l1) l1 L1 L2 p l') ->
  inserted cb l L1 L2 p l'.
Proof.
  intros Hr Ha Hl.
  apply (doAllocateNode_spec cb l (L1 ++ L2)) in Ha as (Hr1 & HpL & Hp & Hnew & Hcc1 & Hout & Hcb & Hnw); [|done].
  destruct Hl as [Hr' (nd & Hnd & Hc & Hcn) Hcall Hcnt Hout' Hcc]; [done|done|done|lia|]. split.
  - done.
  - done.
  - exists nd. split_and!; [done|done|congruence].
  - intros n Hn. rewrite Hcall. by apply Hcb.
  - intros n Hn Hn'. rewrite Hout' by done. by apply Hout.
  - intros Hlt. destruct (Hnw Hlt) as [E Hsame]. split; [congruence|]. intros n Hn. by rewrite Hcnt, Hsame.
Qed.

(** [append] adds the callback at the end *)
Lemma append_spec cb l L p l' :
  rep l L -> append cb l = (p, l') ->
  inserted cb l L [] p l'.
Proof.
  intros Hr. unfold append. destruct (doAllocateNode cb l) as [p0 l1] eqn:Ea. intros [= <- <-].
  eapply linked_inserted; [by rewrite app_nil_r|exact Ea|]. rewrite app_nil_r. apply link_back_spec.
Qed.

(** [prepend] adds it at the front *)
Lemma prepend_spec cb l L p l' :
  rep l L -> prepend cb l = (p, l') ->
  inserted cb l [] L p l'.
Proof.
  intros Hr. unfold prepend. destruct (doAllocateNode cb l) as [p0 l1] eqn:Ea. intros [= <- <-].
  eapply linked_inserted; [done|exact Ea|]. apply link_front_spec.
Qed.

(** updates through a pointer that may be null *)
Definition alter_opt (o : option positive) (f : node C -> node C) h : gmap positive (node C) :=
  match o with Some p => alter f p h | None => h end.
Lemma heap_upd_opt o f l : heap (upd_opt o f l) = alter_opt o f (heap l).
Proof. by destruct o. Qed.
Lemma upd_opt_fields o f l :
  head (upd_opt o f l) = head l /\ tail (upd_opt o f l) = tail l /\
  currentCounter (upd_opt o f l) = currentCounter l.
Proof. by destruct o. Qed.
Lemma counted_alter_opt c h L f o : keeps_counter f -> counted c h L -> counted c (alter_opt o f h) L.
Proof. destruct o; [apply counted_alter|done]. Qed.
Lemma callback_alter_opt h f o n :
  keeps_callback f -> callback <$> alter_opt o f h !! n = callback <$> h !! n.
Proof. destruct o; [apply callback_alter|done]. Qed.
Lemma counter_alter_opt h f o n :
  keeps_counter f -> counter <$> alter_opt o f h !! n = counter <$> h !! n.
Proof. destruct o; [apply counter_alter|done]. Qed.
Lemma lookup_alter_opt_ne h f o n : o <> Some n -> alter_opt o f h !! n = h !! n.
Proof. destruct o as [m|]; [|done]. intros Hne. apply lookup_alter_ne. congruence. Qed.
Lemma seg_alter_opt_ne h f o p L q :
  (forall m, o = Some m -> m ∉ L) -> seg h p L q -> seg (alter_opt o f h) p L q.
Proof. destruct o as [m|]; [|done]. intros Hm. apply seg_alter_ne. by apply Hm. Qed.

Lemma seg_relink_first h p p' L q :
  NoDup L -> seg h p L q -> seg (alter_opt (first_or L None) (put_previous p') h) p' L q.
Proof.
  destruct L as [|n L]; [done|]. intros [Hn _]%NoDup_cons. by apply seg_put_previous.
Qed.
Lemma seg_relink_last h p L q q' :
  NoDup L -> seg h p L q -> seg (alter_opt (last_or L None) (put_next q') h) p L q'.
Proof.
  destruct (rev_ind_cases L) as [->|(L0 & t & ->)]; [done|]. intros Hnd. rewrite last_or_snoc.
  apply seg_put_next. apply NoDup_app in Hnd as (_ & Hnd & _). set_solver.
Qed.
Lemma first_or_elem L m : first_or L None = Some m -> m ∈ L.
Proof. destruct L; [done|]. intros [= ->]. by left. Qed.
Lemma last_or_elem L m : last_or L None = Some m -> m ∈ L.
Proof. rewrite last_or_None. apply last_Some_elem_of. Qed.

(** the node in the middle of a represented list *)
Lemma rep_middle l L1 n L2 :
  rep l (L1 ++ n :: L2) ->
  n ∉ L1 /\ n ∉ L2 /\ NoDup L1 /\ NoDup L2 /\ (forall m, m ∈ L1 -> m ∉ L2) /\
  seg (heap l) None L1 (Some n) /\ seg (heap l) (Some n) L2 None /\
  exists nd, heap l !! n = Some nd /\ previous nd = last_or L1 None /\ next nd = first_or L2 None.
Proof.
  intros [Hs Hnd _ _ _ _]. apply seg_app in Hs as [H1 (nd & Hn & Hp & Hx & H2)].
  apply NoDup_app in Hnd as (Hnd1 & Hdis & Hnd2). apply NoDup_cons in Hnd2 as [Hn2 Hnd2].
  split_and!; try done.
  - intros Hin. apply (Hdis n Hin). by left.
  - intros m Hm Hm'. apply (Hdis m Hm). by right.
  - by exists nd.
Qed.

(** the effect of [doFreeNode] on the store *)
Lemma doFreeNode_heap l L1 n L2 nd :
  rep l (L1 ++ n :: L2) -> heap l !! n = Some nd ->
  heap (doFreeNode n l) =
    alter (put_counter removedCounter) n
      (alter_opt (last_or L1 None) (put_next (first_or L2 None))
        (alter_opt (first_or L2 None) (put_previous (last_or L1 None)) (heap l))) /\
  head (doFreeNode n l) = hd_error (L1 ++ L2) /\ tail (doFreeNode n l) = last (L1 ++ L2) /\
  currentCounter (doFreeNode n l) = currentCounter l.
Proof.
  intros Hr Hnd. pose proof (rep_middle _ _ _ _ Hr) as (Hn1 & Hn2 & Hd1 & Hd2 & Hdis & _ & _ & nd' & Hn & Hp & Hx).
  rewrite Hnd in Hn. injection Hn as <-. destruct Hr as [_ _ Hh Ht _ _].
  unfold doFreeNode, node_next, node_previous. rewrite Hnd. cbn [mbind option_bind]. rewrite Hp, Hx.
  set (h1 := alter_opt (first_or L2 None) (put_previous (last_or L1 None)) (heap l)).
  assert (E1 : h1 !! n = Some nd).
  { unfold h1. rewrite lookup_alter_opt_ne; [done|]. by intros ?%first_or_elem. }
  rewrite !heap_upd_opt. fold h1. rewrite E1. cbn [mbind option_bind]. rewrite Hp, Hx.
  set (h2 := alter_opt (last_or L1 None) (put_next (first_or L2 None)) h1).
  assert (E2 : h2 !! n = Some nd).
  { unfold h2. rewrite lookup_alter_opt_ne; [done|]. by intros ?%last_or_elem. }
  set (l2 := upd_opt (last_or L1 None) _ (upd_opt _ _ l)).
  assert (Hl2 : l2 = mk_clist h2 (head l) (tail l) (currentCounter l)).
  { unfold l2, h2, h1. by destruct (last_or L1 None), (first_or L2 None), l. }
  clearbody l2. subst l2. clear E1. clearbody h2. clear h1.
  cbn [heap head tail currentCounter upd with_heap].
  assert (E3 : alter (put_counter removedCounter) n h2 !! n = Some (put_counter removedCounter nd)).
  { by rewrite lookup_alter_eq, E2. }
  rewrite E3. cbn [mbind option_bind put_counter next]. rewrite Hx, Hh.
  assert (Hlast : last (L1 ++ n :: L2) = last_or L2 (Some n)).
  { rewrite last_app, last_cons. unfold last_or. by destruct (last L2). }
  assert (Hhd : (hd_error (L1 ++ n :: L2) = Some n) <-> L1 = []).
  { destruct L1 as [|x L1]; [done|]. split; [|done]. intros [= ->]. set_solver. }
  assert (Htl : (last_or L2 (Some n) = Some n) <-> L2 = []).
  { destruct (rev_ind_cases L2) as [->|(L0 & t & ->)]; [done|]. rewrite last_or_snoc. split.
    - intros [= ->]. set_solver.
    - intros E. by destruct L0. }
  assert (Hfin : forall hd, hd = hd_error (L1 ++ L2) ->
    let l4 := mk_clist (alter (put_counter removedCounter) n h2) hd (tail l) (currentCounter l) in
    let l5 := if decide (tail l4 = Some n) then set_tail (heap l4 !! n ≫= previous) l4 else l4 in
    heap l5 = alter (put_counter removedCounter) n h2 /\ head l5 = hd_error (L1 ++ L2) /\
    tail l5 = last (L1 ++ L2) /\ currentCounter l5 = currentCounter l).
  { intros hd ->. cbn [heap head tail currentCounter]. rewrite Ht, Hlast, E3.
    destruct (decide (last_or L2 (Some n) = Some n)) as [E|E];
      cbn [heap head tail currentCounter set_tail mbind option_bind put_counter previous];
      split_and!; try done.
    - apply Htl in E as ->. by rewrite Hp, app_nil_r, last_or_None.
    - destruct (rev_ind_cases L2) as [->|(L0 & t & ->)]; [by destruct E|].
      by rewrite last_or_snoc, app_assoc, last_snoc. }
  destruct (decide (hd_error (L1 ++ n :: L2) = Some n)) as [E|E].
  - apply Hhd in E as ->. apply (Hfin (first_or L2 None)). by rewrite first_or_None.
  - apply (Hfin (hd_error (L1 ++ n :: L2))). destruct L1; [by destruct E|done].
Qed.

Lemma doFreeNode_spec l L1 n L2 nd :
  rep l (L1 ++ n :: L2) -> heap l !! n = Some nd ->
  let l' := doFreeNode n l in
  rep l' (L1 ++ L2) /\
  heap l' !! n = Some (put_counter removedCounter nd) /\
  (forall m, (callback <$> heap l' !! m) = (callback <$> heap l !! m)) /\
  (forall m, m <> n -> m ∉ L1 ++ L2 -> heap l' !! m = heap l !! m).
Proof.
  intros Hr Hnd. cbv zeta. destruct (doFreeNode_heap l L1 n L2 nd Hr Hnd) as (Hheap & Hhead & Htail & Hcnt).
  pose proof (rep_middle _ _ _ _ Hr) as (Hn1 & Hn2 & Hd1 & Hd2 & Hdis & Hs1 & Hs2 & _).
  pose proof Hr as [_ HN _ _ Hct Hcc].
  assert (Hfn : forall m, first_or L2 None = Some m -> m <> n) by (intros m ?%first_or_elem ->; done).
  assert (Hln : forall m, last_or L1 None = Some m -> m <> n) by (intros m ?%last_or_elem ->; done).
  split_and!.
  - split; rewrite ?Hheap, ?Hhead, ?Htail, ?Hcnt; try done.
    + apply seg_alter_ne; [rewrite not_elem_of_app; done|]. rewrite seg_app. split.
      * apply seg_relink_last with (q := Some n); [done|].
        apply seg_alter_opt_ne; [|done]. intros m Hm%first_or_elem Hm'. by apply (Hdis m).
      * apply seg_alter_opt_ne; [intros m Hm%last_or_elem; by apply Hdis|].
        apply seg_relink_first with (p := Some n); done.
    + apply NoDup_app in HN as (? & Hdj & [? ?]%NoDup_cons). apply NoDup_app. split_and!; try done.
    + apply counted_drop in Hct. unfold counted in *. rewrite Forall_forall in *. intros m Hm.
      destruct (Hct m Hm) as (nm & Hnm & Hc).
      assert (m <> n) by (intros ->; rewrite elem_of_app in Hm; by destruct Hm).
      assert (Hall : counted (currentCounter l) (alter_opt (last_or L1 None) (put_next (first_or L2 None))
        (alter_opt (first_or L2 None) (put_previous (last_or L1 None)) (heap l))) [m]).
      { do 2 (apply counted_alter_opt; [done|]). apply list.Forall_singleton. by exists nm. }
      apply list.Forall_singleton in Hall as (nm' & ? & ?). exists nm'. by rewrite lookup_alter_ne.
  - rewrite Hheap, lookup_alter_eq, lookup_alter_opt_ne, lookup_alter_opt_ne, Hnd; [done| |].
    + intros E. by apply (Hfn n).
    + intros E. by apply (Hln n).
  - intros m. rewrite Hheap, callback_alter, !callback_alter_opt; done.
  - intros m Hne Hm. rewrite not_elem_of_app in Hm. destruct Hm as [Hm1 Hm2].
    rewrite Hheap, lookup_alter_ne, !lookup_alter_opt_ne; [done| | |done].
    + by intros ?%first_or_elem.
    + by intros ?%last_or_elem.
Qed.

(** [doInsert] links it before [b] *)
Lemma doInsert_spec cb c l L1 b L2 p :
  rep l (L1 ++ b :: L2) -> p ∉ L1 ++ b :: L2 -> heap l !! p = Some (mk_node None None cb c) ->
  1 <= c <= currentCounter l -> linked cb c l L1 (b :: L2) p (doInsert p b l).
Proof.
  intros Hr Hp Hnew Hcc1.
  pose proof (rep_middle _ _ _ _ Hr) as (Hb1 & Hb2 & Hd1 & Hd2 & Hdis & Hs1 & Hs2 & nb & Hnb & Hpb & Hxb).
  rewrite not_elem_of_app, not_elem_of_cons in Hp. destruct Hp as (Hp1 & Hpb' & Hp2).
  pose proof Hr as [Hs HN Hh Ht Hct Hcc].
  assert (Hbp : b <> p) by congruence.
  unfold doInsert, node_previous. rewrite Hnb. cbn [mbind option_bind]. rewrite Hpb.
  cbn [heap head tail currentCounter upd with_heap].
  rewrite lookup_alter_ne by done. rewrite lookup_alter_ne, Hnb by done. cbn [mbind option_bind].
  rewrite Hpb.
  set (hp := alter (put_next (Some b)) p (alter (put_previous (last_or L1 None)) p (heap l))).
  assert (Ehp : hp !! p = Some (mk_node (last_or L1 None) (Some b) cb c)).
  { unfold hp. by rewrite !lookup_alter_eq, Hnew. }
  set (h3 := alter_opt (last_or L1 None) (put_next (Some p)) hp).
  set (l3 := upd_opt (last_or L1 None) _ _).
  assert (Hl3 : l3 = mk_clist h3 (head l) (tail l) (currentCounter l)).
  { unfold l3, h3. by destruct (last_or L1 None). }
  clearbody l3. subst l3. cbn [heap head tail currentCounter].
  set (h4 := alter (put_previous (Some p)) b h3).
  assert (Hlp : last_or L1 None <> Some p) by (intros ?%last_or_elem; done).
  assert (Ep : h4 !! p = Some (mk_node (last_or L1 None) (Some b) cb c)).
  { unfold h4, h3. by rewrite lookup_alter_ne, lookup_alter_opt_ne. }
  assert (Hseg : seg h4 None (L1 ++ p :: b :: L2) None).
  { rewrite seg_app. split.
    - unfold h4. apply seg_alter_ne; [done|]. apply seg_relink_last with (q := Some b); [done|].
      unfold hp. apply seg_alter_ne; [done|]. by apply seg_alter_ne.
    - exists (mk_node (last_or L1 None) (Some b) cb c). split_and!; try done.
      apply (seg_put_previous _ (last_or L1 None)); [done|].
      apply seg_app in Hs as [_ Hs]. unfold h3. apply seg_alter_opt_ne.
      { intros m Hm%last_or_elem. apply not_elem_of_cons. split; [by intros ->|by apply Hdis]. }
      unfold hp. do 2 (apply seg_alter_ne; [apply not_elem_of_cons; done|]). done. }
  assert (Hcall : forall m, (callback <$> h4 !! m) = (callback <$> heap l !! m)).
  { intros m. unfold h4, h3, hp. by rewrite callback_alter, callback_alter_opt, !callback_alter. }
  assert (Hcnt : forall m, (counter <$> h4 !! m) = (counter <$> heap l !! m)).
  { intros m. unfold h4, h3, hp. by rewrite counter_alter, counter_alter_opt, !counter_alter. }
  assert (Hout : forall m, m <> p -> m ∉ L1 ++ b :: L2 -> h4 !! m = heap l !! m).
  { intros m Hm Hm'. rewrite not_elem_of_app, not_elem_of_cons in Hm'. destruct Hm' as (? & ? & ?).
    unfold h4, h3, hp. rewrite lookup_alter_ne, lookup_alter_opt_ne, !lookup_alter_ne; try done.
    by intros ?%last_or_elem. }
  assert (Hcounted : counted (currentCounter l) h4 (L1 ++ p :: b :: L2)).
  { eapply counted_insert_at; [exact Ep|simpl; lia|]. unfold h4, h3, hp.
    apply counted_alter; [done|]. apply counted_alter_opt; [done|].
    by do 2 (apply counted_alter; [done|]). }
  assert (Hndp : NoDup (L1 ++ p :: b :: L2)).
  { apply NoDup_app in HN as (? & Hdj & ?). apply NoDup_app. split_and!; [done| |].
    - intros m Hm [->|Hm']%elem_of_cons; [done|]. by apply (Hdj m).
    - apply NoDup_cons. split; [|done]. rewrite not_elem_of_cons. done. }
  assert (Hlast : last (L1 ++ b :: L2) = last (L1 ++ p :: b :: L2)).
  { by rewrite !last_app, last_cons_cons. }
  case_decide as E; cbn [upd with_heap heap head tail currentCounter set_head] in *; fold h4;
    (split; [|eexists; split; [exact Ep|done]|done..]); split;
    cbn [upd with_heap heap head tail currentCounter set_head]; try done; try congruence.
  - rewrite Hh in E. destruct L1 as [|x L1]; [done|]. simpl in E. injection E as ->. set_solver.
  - rewrite Hh in E |- *. destruct L1 as [|x L1]; [by destruct E|done].
Qed.

(** ** Handles *)

(** closed under both links *)
Definition closed l (X : gset positive) : Prop :=
  forall n m, n ∈ X -> (node_previous l n = Some m \/ node_next l n = Some m) -> m ∈ X.

Lemma reach_sound fuel l (X seen : gset positive) todo :
  closed l X -> seen ⊆ X -> Forall (fun n => n ∈ X) todo -> reach fuel l seen todo ⊆ X.
Proof.
  intros Hc. revert seen todo. induction fuel as [|fuel IH]; intros seen todo Hs Ht; [done|].
  cbn [reach]. destruct todo as [|p todo]; [done|]. apply list.Forall_cons in Ht as [Hp Ht].
  case_decide; [by apply IH|]. apply IH; [set_solver|]. rewrite !Forall_app. split_and!; [| |done].
  - destruct (node_previous l p) eqn:E; [|constructor]. apply list.Forall_singleton.
    by apply (Hc p); [|left].
  - destruct (node_next l p) eqn:E; [|constructor]. apply list.Forall_singleton.
    by apply (Hc p); [|right].
Qed.

Lemma reach_complete fuel l (seen : gset positive) todo :
  (length todo + 2 * size (dom (heap l) ∖ seen) < fuel)%nat ->
  (forall n m, n ∈ seen -> (node_previous l n = Some m \/ node_next l n = Some m) -> m ∈ seen \/ m ∈ todo) ->
  let R := reach fuel l seen todo in
  seen ⊆ R /\ (forall n, n ∈ todo -> n ∈ R) /\ closed l R.
Proof.
  revert seen todo. induction fuel as [|fuel IH]; intros seen todo Hf Hinv; [lia|].
  cbn [reach]. destruct todo as [|p todo].
  { split_and!; [done|by intros n ?%not_elem_of_nil|].
    intros n m Hn Hl. destruct (Hinv n m Hn Hl) as [?|?%not_elem_of_nil]; done. }
  simpl in Hf. case_decide as Hp.
  - destruct (IH seen todo) as (H1 & H2 & H3); [lia| |].
    { intros n m Hn Hl. destruct (Hinv n m Hn Hl) as [?|[->|?]%elem_of_cons]; auto. }
    split_and!; [done| |done]. intros n [->|Hn]%elem_of_cons; auto.
  - destruct (IH ({[p]} ∪ seen) (option_list (node_previous l p) ++ option_list (node_next l p) ++ todo))
      as (H1 & H2 & H3).
    + rewrite !length_app.
      assert (Hone : forall o : option positive, (length (option_list o) <= 1)%nat) by (intros []; simpl; lia).
      destruct (heap l !! p) as [nd|] eqn:E.
      * assert (Hsz : (size (dom (heap l) ∖ ({[p]} ∪ seen)) < size (dom (heap l) ∖ seen))%nat).
        { apply subset_size. split; [set_solver|]. intros Hsub.
          assert (p ∈ dom (heap l) ∖ seen) as Hin by (rewrite elem_of_difference, elem_of_dom; eauto).
          apply Hsub in Hin. set_solver. }
        pose proof (Hone (node_previous l p)). pose proof (Hone (node_next l p)). lia.
      * unfold node_previous, node_next. rewrite E. simpl.
        assert ((size (dom (heap l) ∖ ({[p]} ∪ seen)) <= size (dom (heap l) ∖ seen))%nat)
          by (apply subseteq_size; set_solver). lia.
    + intros n m Hn Hl. rewrite elem_of_union, elem_of_singleton in Hn. rewrite !elem_of_app.
      destruct Hn as [->|Hn].
      * right. destruct Hl as [-> | ->]; simpl; [left|right; left]; by left.
      * destruct (Hinv n m Hn Hl) as [?|[->|?]%elem_of_cons]; [left|left|right]; set_solver.
    + split_and!; [set_solver| |done]. intros n [->|Hn]%elem_of_cons; [set_solver|].
      apply H2. rewrite !elem_of_app. auto.
Qed.

(** the links of a represented list stay inside it *)
Lemma seg_links h p L q n nd :
  seg h p L q -> n ∈ L -> h !! n = Some nd ->
  (forall m, previous nd = Some m -> m ∈ L \/ p = Some m) /\
  (forall m, next nd = Some m -> m ∈ L \/ q = Some m).
Proof.
  revert p. induction L as [|k L IH]; intros p Hs Hin Hl; [by apply not_elem_of_nil in Hin|].
  destruct Hs as (nk & Hk & Hp & Hx & Hr). apply elem_of_cons in Hin as [->|Hin].
  - rewrite Hl in Hk. injection Hk as <-. split; intros m E.
    + right. congruence.
    + rewrite Hx in E. destruct L as [|y L]; [by right|]. left. injection E as ->. right. by left.
  - destruct (IH (Some k) Hr Hin Hl) as [H1 H2]. split; intros m E.
    + destruct (H1 m E) as [?|[= ->]]; left; [by right|by left].
    + destruct (H2 m E) as [?|?]; [left; by right|by right].
Qed.

Lemma closed_reachable l L (X : gset positive) p q :
  seg (heap l) p L q -> closed l X -> (forall m, first_or L None = Some m -> m ∈ X) ->
  forall n, n ∈ L -> n ∈ X.
Proof.
  revert p. induction L as [|k L IH]; intros p Hs Hc Hf n Hn; [by apply not_elem_of_nil in Hn|].
  destruct Hs as (nk & Hk & Hp & Hx & Hr). pose proof (Hf k eq_refl) as HkX.
  apply elem_of_cons in Hn as [->|Hn]; [done|]. apply (IH (Some k)); try done.
  intros m Hm. apply (Hc k m HkX). right. unfold node_next. rewrite Hk. simpl. rewrite Hx.
  destruct L; [done|exact Hm].
Qed.

(** With no loop running, exactly the listed nodes are alive. *)
Lemma alive_rep l L : rep l L -> alive [] l = list_to_set L.
Proof.
  intros Hr. pose proof Hr as [Hs Hnd Hh Ht _ _]. apply set_eq. intros n.
  rewrite elem_of_list_to_set. unfold alive. split.
  - intros Hn.
    assert (Hc : closed l (list_to_set L)).
    { intros k m Hk Hl. rewrite elem_of_list_to_set in *.
      destruct (rep_dom l L k Hr Hk) as [nd Hnd'].
      destruct (seg_links _ _ _ _ _ _ Hs Hk Hnd') as [H1 H2].
      unfold node_previous, node_next in Hl. rewrite Hnd' in Hl. simpl in Hl.
      destruct Hl as [Hl|Hl]; [destruct (H1 m Hl)|destruct (H2 m Hl)]; done. }
    apply (reach_sound _ l (list_to_set L)) in Hn; [by rewrite elem_of_list_to_set in Hn|done|set_solver|].
    rewrite app_nil_r, Hh, Ht. apply Forall_app. split.
    + destruct L; [constructor|]. apply list.Forall_singleton. set_solver.
    + destruct (last L) eqn:E; [|constructor]. apply list.Forall_singleton.
      rewrite elem_of_list_to_set. by apply last_Some_elem_of.
  - intros Hn.
    destruct (reach_complete (reach_fuel l + 0) l ∅ (option_list (head l) ++ option_list (tail l) ++ []))
      as (_ & H2 & H3).
    { unfold reach_fuel. rewrite !length_app. simpl.
      assert ((size (dom (heap l) ∖ ∅) <= size (heap l))%nat).
      { rewrite <- size_dom. apply subseteq_size. set_solver. }
      destruct (head l), (tail l); simpl; lia. }
    { set_solver. }
    refine (closed_reachable l L _ None None Hs H3 _ n Hn). intros m Hm. apply H2.
    rewrite Hh, elem_of_app. left. rewrite <- first_or_None, Hm. by left.
Qed.

Lemma lock_rep l L n : rep l L -> lock [] n l = if decide (n ∈ L) then Some n else None.
Proof.
  intros Hr. unfold lock. rewrite (alive_rep l L Hr).
  destruct (decide (n ∈ L)); [rewrite decide_True|rewrite decide_False]; set_solver.
Qed.

(** a registered handle can be locked whoever else holds nodes *)
Lemma lock_listed pins l L n : rep l L -> n ∈ L -> lock pins n l = Some n.
Proof.
  intros Hr Hn. unfold lock. rewrite decide_True; [done|]. unfold alive.
  destruct (reach_complete (reach_fuel l + length pins) l ∅
    (option_list (head l) ++ option_list (tail l) ++ pins)) as (_ & H2 & H3).
  { unfold reach_fuel. rewrite !length_app.
    assert ((size (dom (heap l) ∖ ∅) <= size (heap l))%nat).
    { rewrite <- size_dom. apply subseteq_size. set_solver. }
    destruct (head l), (tail l); simpl; lia. }
  { set_solver. }
  pose proof Hr as [Hs _ Hh _ _ _].
  refine (closed_reachable l L _ None None Hs H3 _ n Hn). intros m Hm. apply H2.
  rewrite Hh, elem_of_app. left. rewrite <- first_or_None, Hm. by left.
Qed.

Lemma first_of_spec l L1 n L2 fuel :
  rep l (L1 ++ n :: L2) -> (length L1 < fuel)%nat ->
  first_of fuel l n = hd_error (L1 ++ [n]).
Proof.
  revert n L2 fuel. induction L1 as [|m L1 IH] using rev_ind; intros n L2 fuel Hr Hf;
    pose proof (rep_middle _ _ _ _ Hr) as (_ & _ & _ & _ & _ & _ & _ & nd & Hn & Hp & _);
    (destruct fuel as [|fuel]; [simpl in Hf; lia|]); cbn [first_of]; unfold node_previous; rewrite Hn;
    cbn [mbind option_bind]; rewrite Hp.
  - done.
  - rewrite last_or_snoc. rewrite length_app in Hf. simpl in Hf. rewrite <- app_assoc in Hr.
    rewrite (IH m (n :: L2)); [|done|lia]. by destruct L1.
Qed.

(** ** Dispatch *)

Lemma forEach_loop_spec {S : Type} (func : C -> S -> S) l L p fuel cbs s :
  seg (heap l) p L None -> counted (currentCounter l) (heap l) L -> (length L <= fuel)%nat ->
  callbacks l L = Some <$> cbs ->
  doForEachIf_loop (fun _ cb s => (true, func cb s)) fuel l (currentCounter l) (hd_error L) s
    = (true, fold_left (fun s cb => func cb s) cbs s).
Proof.
  revert p fuel cbs s. induction L as [|n L IH]; intros p fuel cbs s Hs Hc Hf Hcb.
  { destruct cbs; [|done]. by destruct fuel. }
  destruct Hs as (nd & Hn & Hp & Hx & Hr). apply list.Forall_cons in Hc as [(nd' & Hn' & Hc0) Hc].
  rewrite Hn in Hn'. injection Hn' as <-. destruct fuel as [|fuel]; [simpl in Hf; lia|].
  destruct cbs as [|cb cbs]; [done|]. cbn [hd_error doForEachIf_loop]. rewrite Hn.
  unfold callbacks in Hcb. rewrite !fmap_cons, Hn in Hcb. injection Hcb as <- Hcb.
  assert (eligible (currentCounter l) nd = true) as ->.
  { unfold eligible, removedCounter. rewrite (proj2 (Z.eqb_neq _ _)), (proj2 (Z.leb_le _ _)) by lia. done. }
  cbn [fold_left]. rewrite Hx, first_or_None.
  apply (IH (Some n) fuel cbs (func (callback nd) s)); try done. simpl in Hf. lia.
Qed.

(** ** Refinement *)

(** the abstract list: handles with their callbacks, in order *)
Definition refines l (a : list (positive * C)) : Prop :=
  rep l a.*1 /\ callbacks l a.*1 = Some <$> a.*2.

Lemma callbacks_eq l l' L :
  (forall n, n ∈ L -> (callback <$> heap l' !! n) = (callback <$> heap l !! n)) ->
  callbacks l' L = callbacks l L.
Proof. intros Hc. apply list_fmap_ext. intros i n Hn. apply Hc. by eapply list_elem_of_lookup_2. Qed.
Lemma callbacks_app l L1 L2 : callbacks l (L1 ++ L2) = callbacks l L1 ++ callbacks l L2.
Proof. apply fmap_app. Qed.

Lemma append_refines cb l a p l' :
  refines l a -> append cb l = (p, l') -> p ∉ a.*1 /\ refines l' (a ++ [(p, cb)]).
Proof.
  intros [Hr Hc] Ha. apply (append_spec cb l a.*1) in Ha as [Hr' Hp (nd & Hnd & Hcb & _) Hcbs _ _]; [|done].
  assert (Hnot : p ∉ a.*1) by (intros Hin; destruct (rep_dom _ _ _ Hr Hin); congruence).
  split; [done|]. unfold refines. rewrite !fmap_app. split; [done|].
  rewrite callbacks_app, (callbacks_eq l) by (intros n Hn; apply Hcbs; congruence).
  rewrite Hc. unfold callbacks. simpl. by rewrite Hnd, <- Hcb.
Qed.
Lemma prepend_refines cb l a p l' :
  refines l a -> prepend cb l = (p, l') -> p ∉ a.*1 /\ refines l' ((p, cb) :: a).
Proof.
  intros [Hr Hc] Ha. apply (prepend_spec cb l a.*1) in Ha as [Hr' Hp (nd & Hnd & Hcb & _) Hcbs _ _]; [|done].
  assert (Hnot : p ∉ a.*1) by (intros Hin; destruct (rep_dom _ _ _ Hr Hin); congruence).
  split; [done|]. unfold refines. rewrite !fmap_cons. cbn [fst snd]. split; [done|].
  change (p :: a.*1) with ([p] ++ a.*1). rewrite callbacks_app, (callbacks_eq l _ a.*1)
    by (intros n Hn; apply Hcbs; congruence).
  rewrite Hc. unfold callbacks. simpl. by rewrite Hnd, <- Hcb.
Qed.
Lemma insert_spec pins cb l L1 b L2 p l' :
  rep l (L1 ++ b :: L2) -> lock pins b l = Some b -> insert_cb pins cb b l = (p, l') ->
  inserted cb l L1 (b :: L2) p l'.
Proof.
  intros Hr Hlock Hi. unfold insert_cb in Hi. rewrite Hlock in Hi.
  destruct (doAllocateNode cb l) as [p0 l1] eqn:Ea. injection Hi as <- <-.
  eapply linked_inserted; [done|exact Ea|]. apply doInsert_spec.
Qed.

Lemma insert_refines cb l a1 b c a2 p l' :
  refines l (a1 ++ (b, c) :: a2) -> insert_cb [] cb b l = (p, l') ->
  p ∉ (a1 ++ (b, c) :: a2).*1 /\ refines l' (a1 ++ (p, cb) :: (b, c) :: a2).
Proof.
  intros [Hr Hc] Hi. rewrite !fmap_app, !fmap_cons in *. cbn [fst snd] in *.
  apply (insert_spec [] cb l a1.*1 b a2.*1) in Hi as [Hr' Hp (nd & Hnd & Hcb & _) Hcbs _ _];
    [|done|by rewrite (lock_rep _ _ _ Hr), decide_True by set_solver].
  assert (Hnot : p ∉ a1.*1 ++ b :: a2.*1) by (intros Hin; destruct (rep_dom _ _ _ Hr Hin); congruence).
  split; [done|]. unfold refines. rewrite !fmap_app, !fmap_cons. cbn [fst snd]. split; [done|].
  rewrite callbacks_app in *. change (p :: b :: a2.*1) with ([p] ++ b :: a2.*1). rewrite callbacks_app.
  rewrite (callbacks_eq l _ a1.*1), (callbacks_eq l _ (b :: a2.*1)) by (intros n Hn; apply Hcbs; set_solver).
  assert (Hlen : length (callbacks l a1.*1) = length (Some <$> a1.*2)).
  { unfold callbacks. by rewrite !length_fmap. }
  apply app_inj_1 in Hc as [-> ->]; [|done]. unfold callbacks. simpl. by rewrite Hnd, <- Hcb.
Qed.
(** a registered handle can be removed whoever else holds nodes *)
Lemma remove_refines pins l a1 (x : positive) c a2 :
  refines l (a1 ++ (x, c) :: a2) ->
  (remove pins x l).1 = true /\ refines (remove pins x l).2 (a1 ++ a2).
Proof.
  intros [Hr Hc]. rewrite !fmap_app, !fmap_cons in *. cbn [fst snd] in *. unfold remove.
  rewrite (lock_listed _ _ _ _ Hr) by set_solver. split; [done|].
  destruct (rep_dom _ _ x Hr) as [nd Hnd]; [set_solver|].
  destruct (doFreeNode_spec l a1.*1 x a2.*1 nd Hr Hnd) as (Hr' & _ & Hcall & _).
  unfold refines. cbn [snd]. rewrite !fmap_app. split; [done|].
  rewrite (callbacks_eq l) by (intros; apply Hcall). rewrite callbacks_app in *.
  assert (Hlen : length (callbacks l a1.*1) = length (Some <$> a1.*2)).
  { unfold callbacks. by rewrite !length_fmap. }
  apply app_inj_1 in Hc as [-> Hc]; [|done]. f_equal. unfold callbacks in *. simpl in Hc. by injection Hc.
Qed.

(** C13. The listener list is a list: in every state between calls, including
    the one in which the 32-bit registration counter wraps, the linked nodes
    stand for a sequence of distinct handles with callbacks; [append] and
    [prepend] add a new handle at either end, [insert] in front of a
    registered handle and at the end for an expired one, [remove] deletes
    exactly a registered handle and reports whether it was one, [empty] and
    [ownsHandle] tell the truth, and [forEach] calls every registered callback
    once, in order. *)
Theorem callback_list_refines {S : Type} (l : clist C) (a : list (positive * C)) (cb : C)
    (h : positive) (func : C -> S -> S) (s : S) :
  refines l a ->
  (let '(p, l') := append cb l in p ∉ a.*1 /\ refines l' (a ++ [(p, cb)])) /\
  (let '(p, l') := prepend cb l in p ∉ a.*1 /\ refines l' ((p, cb) :: a)) /\
  (forall a1 c a2, a = a1 ++ (h, c) :: a2 ->
     (let '(p, l') := insert_cb [] cb h l in p ∉ a.*1 /\ refines l' (a1 ++ (p, cb) :: (h, c) :: a2)) /\
     (remove [] h l).1 = true /\ refines (remove [] h l).2 (a1 ++ a2)) /\
  (h ∉ a.*1 -> insert_cb [] cb h l = append cb l /\ remove [] h l = (false, l)) /\
  empty l = bool_decide (a = []) /\ ownsHandle [] h l = bool_decide (h ∈ a.*1) /\
  forEach func l s = fold_left (fun s cb => func cb s) a.*2 s.
Proof.
  intros Href. pose proof Href as [Hr Hc]. split_and!.
  - destruct (append cb l) as [p l'] eqn:E. by eapply append_refines.
  - destruct (prepend cb l) as [p l'] eqn:E. by eapply prepend_refines.
  - intros a1 c a2 ->. split; [|by eapply remove_refines].
    destruct (insert_cb [] cb h l) as [p l'] eqn:E. by eapply insert_refines.
  - intros Hn. unfold insert_cb, remove. by rewrite (lock_rep _ _ _ Hr), decide_False.
  - unfold empty. destruct Hr as [_ _ -> _ _ _]. by destruct a.
  - unfold ownsHandle. rewrite (lock_rep _ _ _ Hr). case_decide as Hin.
    + rewrite (bool_decide_eq_true_2 (h ∈ a.*1)) by done. apply bool_decide_eq_true_2.
      apply list_elem_of_split in Hin as (L1 & L2 & HL). rewrite HL in Hr.
      rewrite (first_of_spec l L1 h L2); [|done|].
      * destruct Hr as [_ _ -> _ _ _]. by destruct L1.
      * apply rep_length in Hr. rewrite length_app in Hr. simpl in Hr. lia.
    + by rewrite bool_decide_eq_false_2.
  - unfold forEach, doForEachIf. pose proof Hr as [Hs _ -> _ Hct _].
    erewrite forEach_loop_spec; [done|exact Hs|exact Hct|by eapply rep_length|exact Hc].
Qed.
End facts.

(** three listeners, registered and rearranged *)
Definition sample_list : clist Z :=
  let '(a, l1) := append 10 CallbackListBase in
  let '(b, l2) := append 20 l1 in
  let '(c, l3) := insert_cb [] 15 b l2 in l3.
Lemma sample_list_refines : refines sample_list [(1%positive, 10); (3%positive, 15); (2%positive, 20)].
Proof.
  pose proof (append_refines (C := Z) 10 CallbackListBase [] _ _ (conj rep_new eq_refl) eq_refl) as [_ H1].
  pose proof (append_refines 20 _ _ _ _ H1 eq_refl) as [_ H2].
  exact (proj2 (insert_refines 15 _ [(1%positive, 10)] 2%positive 20 [] _ _ H2 eq_refl)).
Qed.
Lemma callback_list_refines_witness :
  remove [] 3 sample_list = remove [] 3 sample_list /\
  forEach (fun cb s => s ++ [cb]) sample_list [] = [10; 15; 20].
Proof.
  destruct (callback_list_refines sample_list _ 5 3%positive (fun cb s => s ++ [cb]) [] sample_list_refines)
    as (_ & _ & _ & _ & _ & _ & Hf). split; [reflexivity|]. exact Hf.
Defined.
