(* ===== verification/CallbackDispatch.v ===== *)
(** * CallbackDispatch
    The dispatch loop of [CallbackListBase] ([doForEachIf], [operator()]) while
    other threads, or the callbacks themselves, register and remove listeners.
    The loop holds the mutex only to read [head] and to advance, so between any
    two of its steps the others may run; the loop is a step relation. The others
    do not register in one step either: [append], [prepend] and [insert] take the
    node and its counter before the mutex, and [insert] locks the handle [before]
    before that, so any number of registrations can be under way. *)

From Stdlib Require Import ZArith Lia Sorted.
From stdpp Require Import base numbers list option gmap fin_maps relations.
From S2P Require Import Prelude CallbackList CallbackListFacts.

Section dispatch.
Context {C : Type}.
Implicit Types (l : clist C) (L : list positive).

(** the local variables of the loop; [snap] is [counter], read after [head];
    [visited] tells that the current node has been examined, [invoked]
    records the calls *)
Record disp := mk_disp {
  cursor : option positive;
  snap : option Z;
  visited : bool;
  invoked : list positive;
}.
Definition start l : disp := mk_disp (head l) None false [].

(** The operations with nothing in between: the callbacks' own, or those of
    the only thread that registers. *)
Inductive lop : Type :=
| OAppend (cb : C)
| OPrepend (cb : C)
| OInsert (cb : C) (before : positive)
| ORemove (h : positive).
Definition apply_op (pins : list positive) (o : lop) l : clist C :=
  match o with
  | OAppend cb => (append cb l).2
  | OPrepend cb => (prepend cb l).2
  | OInsert cb b => (insert_cb pins cb b l).2
  | ORemove h => (remove pins h l).2
  end.

(** the handles in the list, by following [next] *)
Fixpoint walk (fuel : nat) l (p : option positive) : list positive :=
  match fuel, p with
  | S fuel, Some q => q :: walk fuel l (node_next l q)
  | _, _ => []
  end.
Definition to_list l : list positive := walk (size (heap l)) l (head l).

(** what the others may do: use the handle of a registered listener, and stay
    below the wrap of the registration counter *)
Definition legal (o : lop) l : Prop :=
  currentCounter l + 1 < 2 ^ 32 /\
  match o with
  | OInsert _ b => b ∈ to_list l
  | ORemove h => h ∈ to_list l
  | _ => True
  end.

(** A registration under way: [insert] with [before] locked; or with the node
    allocated, [append], [prepend] and [insert] before the mutex *)
Inductive reg : Type :=
| RLocked (cb : C) (before : positive)
| RBack (p : positive)
| RFront (p : positive)
| RBefore (p before : positive).
(** what its thread does under the mutex *)
Definition link (r : reg) l : clist C :=
  match r with
  | RLocked _ _ => l
  | RBack p => link_back p l
  | RFront p => link_front p l
  | RBefore p b => doInsert p b l
  end.
(** the nodes the registrations under way have allocated and locked *)
Definition allocated (r : reg) : list positive :=
  match r with RLocked _ _ => [] | RBack p | RFront p | RBefore p _ => [p] end.
Definition locked (r : reg) : list positive :=
  match r with RLocked _ b | RBefore _ b => [b] | RBack _ | RFront _ => [] end.

(** the system: the list, the registrations under way and the dispatch *)
Definition dsys : Type := clist C * list reg * disp.
(** [races]: whether a listener may be removed while an [insert] under way has
    locked it as its [before] *)
Inductive dstep (races : bool) : dsys -> dsys -> Prop :=
| D_load l R c v i :
    dstep races (l, R, mk_disp c None v i) (l, R, mk_disp c (Some (currentCounter l)) v i)
| D_visit l R q s i nd :
    heap l !! q = Some nd ->
    dstep races (l, R, mk_disp (Some q) (Some s) false i)
      (l, R, mk_disp (Some q) (Some s) true (i ++ if eligible s nd then [q] else []))
| D_next l R q s i nd :
    heap l !! q = Some nd ->
    dstep races (l, R, mk_disp (Some q) (Some s) true i) (l, R, mk_disp (next nd) (Some s) false i)
| D_lock l R d cb b :
    b ∈ to_list l -> dstep races (l, R, d) (l, R ++ [RLocked cb b], d)
| D_alloc_back l R d cb p l' :
    currentCounter l + 1 < 2 ^ 32 -> doAllocateNode cb l = (p, l') ->
    dstep races (l, R, d) (l', R ++ [RBack p], d)
| D_alloc_front l R d cb p l' :
    currentCounter l + 1 < 2 ^ 32 -> doAllocateNode cb l = (p, l') ->
    dstep races (l, R, d) (l', R ++ [RFront p], d)
| D_alloc_before l R1 R2 d cb b p l' :
    currentCounter l + 1 < 2 ^ 32 -> doAllocateNode cb l = (p, l') ->
    dstep races (l, R1 ++ RLocked cb b :: R2, d) (l', R1 ++ RBefore p b :: R2, d)
| D_link l R1 R2 d r :
    allocated r <> [] -> dstep races (l, R1 ++ r :: R2, d) (link r l, R1 ++ R2, d)
| D_remove l R d h :
    h ∈ to_list l -> (races = false -> h ∉ R ≫= locked) ->
    dstep races (l, R, d)
      ((remove (option_list (cursor d) ++ (R ≫= locked) ++ (R ≫= allocated)) h l).2, R, d).

(** ** Helpers *)

Lemma walk_seg l p L fuel :
  seg (heap l) p L None -> (length L <= fuel)%nat -> walk fuel l (hd_error L) = L.
Proof.
  revert p fuel. induction L as [|n L IH]; intros p fuel Hs Hf; [by destruct fuel|].
  destruct Hs as (nd & Hn & _ & Hx & Hr). destruct fuel as [|fuel]; [simpl in Hf; lia|].
  cbn [hd_error walk]. unfold node_next. rewrite Hn. cbn [mbind option_bind].
  rewrite Hx, first_or_None, (IH (Some n)); [done|done|]. simpl in Hf. lia.
Qed.
Lemma to_list_rep l L : rep l L -> to_list l = L.
Proof.
  intros Hr. unfold to_list. pose proof Hr as [Hs _ -> _ _ _].
  eapply walk_seg; [exact Hs|]. by apply rep_length.
Qed.

Definition ascending (rank : positive -> Z) L : Prop :=
  StronglySorted (fun a b => rank a < rank b) L.

Lemma ascending_app rank L1 L2 :
  ascending rank (L1 ++ L2) <->
  ascending rank L1 /\ ascending rank L2 /\ (forall a b, a ∈ L1 -> b ∈ L2 -> rank a < rank b).
Proof.
  unfold ascending. induction L1 as [|x L1 IH]; simpl.
  - split; [|by intros (_ & ? & _)]. intros Hs. split_and!; [constructor|done|by intros ? ? ?%not_elem_of_nil].
  - split.
    + inversion 1 as [|? ? Hs Hf]; subst. apply IH in Hs as (H1 & H2 & H3).
      rewrite Forall_app in Hf. destruct Hf as [Hf1 Hf2]. split_and!; [by constructor|done|].
      intros a b [->|Ha]%elem_of_cons Hb; [|by apply H3]. rewrite Forall_forall in Hf2. by apply Hf2.
    + intros (H1 & H2 & H3). inversion H1 as [|? ? Hs Hf]; subst. constructor.
      * apply IH. split_and!; try done. intros a b Ha. apply H3. by right.
      * rewrite Forall_app. split; [done|]. apply Forall_forall. intros b Hb. apply H3; [by left|done].
Qed.
Lemma ascending_mono (rank rank' : positive -> Z) L :
  (forall a b, a ∈ L -> b ∈ L -> rank a < rank b -> rank' a < rank' b) ->
  ascending rank L -> ascending rank' L.
Proof.
  unfold ascending. induction L as [|x L IH]; intros Hm Hs; [constructor|].
  inversion Hs as [|? ? Hs' Hf]; subst. constructor.
  - apply IH; [|done]. intros a b Ha Hb. apply Hm; by right.
  - rewrite Forall_forall in *. intros b Hb. apply Hm; [by left|by right|by apply Hf].
Qed.

(** ascending ranks for the nodes of a list *)
Lemma ascending_exists L : NoDup L -> exists rank, ascending rank L.
Proof.
  induction L as [|x L IH] using rev_ind; intros Hnd; [exists (fun _ => 0); constructor|].
  apply NoDup_app in Hnd as (Hnd & Hx & _). destruct (IH Hnd) as [rank Hr].
  assert (HxL : x ∉ L) by (intros Hin; apply (Hx x Hin); by left).
  assert (exists M, forall n, n ∈ L -> rank n < M) as [M HM].
  { clear. induction L as [|y L [M HM]]; [exists 0; by intros n ?%not_elem_of_nil|].
    exists (Z.max M (rank y + 1)). intros n [->|Hn]%elem_of_cons; [lia|]. specialize (HM n Hn). lia. }
  exists (fun n => if decide (n = x) then M else rank n). apply ascending_app. split_and!.
  - eapply ascending_mono; [|exact Hr]. intros a b Ha Hb Hlt.
    rewrite !decide_False by (by intros ->). done.
  - repeat constructor.
  - intros a b Ha ->%list_elem_of_singleton. rewrite decide_False by (by intros ->).
    rewrite decide_True by done. by apply HM.
Qed.

(** ranks for a list with one more node, which keep the old order *)
Lemma rank_insert (rank : positive -> Z) L1 L2 (p : positive) :
  p ∉ L1 ++ L2 -> ascending rank (L1 ++ L2) ->
  exists rank', ascending rank' (L1 ++ p :: L2) /\
    forall a b, a <> p -> b <> p -> rank a < rank b <-> rank' a < rank' b.
Proof.
  intros Hp Ha. rewrite not_elem_of_app in Hp. destruct Hp as [Hp1 Hp2].
  set (mid := match last L1 with
              | Some a => 2 * rank a + 1
              | None => match L2 with b :: _ => 2 * rank b - 1 | [] => 0 end
              end).
  exists (fun n => if decide (n = p) then mid else 2 * rank n). split.
  - apply ascending_app in Ha as (H1 & H2 & H12). rewrite ascending_app. split_and!.
    + eapply ascending_mono; [|exact H1]. intros a b Ha Hb Hlt.
      rewrite !decide_False by (by intros ->). lia.
    + constructor.
      * eapply ascending_mono; [|exact H2]. intros a b Ha Hb Hlt.
        rewrite !decide_False by (by intros ->). lia.
      * apply Forall_forall. intros b Hb. rewrite decide_True by done.
        rewrite decide_False by (by intros ->). unfold mid. destruct (last L1) as [a|] eqn:El.
        -- specialize (H12 a b (last_Some_elem_of _ _ El) Hb). lia.
        -- destruct L2 as [|b0 L2]; [by apply not_elem_of_nil in Hb|].
           apply elem_of_cons in Hb as [->|Hb]; [lia|].
           inversion H2 as [|? ? _ Hf]; subst. rewrite Forall_forall in Hf. specialize (Hf b Hb). lia.
    + intros a b Ha Hb. rewrite (decide_False (P := a = p)) by (by intros ->).
      apply elem_of_cons in Hb as [->|Hb].
      * rewrite decide_True by done. unfold mid.
        destruct (rev_ind_cases L1) as [->|(L0 & t & ->)]; [by apply not_elem_of_nil in Ha|].
        rewrite last_snoc. apply ascending_app in H1 as (_ & _ & Hlt).
        rewrite elem_of_app, list_elem_of_singleton in Ha. destruct Ha as [Ha| ->]; [|lia].
        specialize (Hlt a t Ha (list_elem_of_here _ _)). lia.
      * rewrite decide_False by (by intros ->). specialize (H12 a b Ha Hb). lia.
  - intros a b Hna Hnb. rewrite !decide_False by done. lia.
Qed.

(** ** The invariant *)

(** following [next] from a node goes forward and does not jump over a
    listener of [L0] that is still registered *)
Definition good_next (L0 : list positive) L (T : gset positive) (rank : positive -> Z)
    (n : positive) (nd : node C) : Prop :=
  (forall m, next nd = Some m -> m ∈ T /\ rank n < rank m) /\
  (forall z, z ∈ L -> z ∈ L0 -> rank n < rank z ->
     exists m, next nd = Some m /\ (m = z \/ rank m < rank z)).

Record dinv (L0 : list positive) (E : gset positive) l (d : disp) L (T : gset positive)
    (rank : positive -> Z) : Prop := {
  di_rep : rep l L;
  di_L : forall n, n ∈ L -> n ∈ T;
  di_L0 : forall n, n ∈ L0 -> n ∈ T;
  di_asc : ascending rank L;
  di_asc0 : ascending rank L0;
  di_node : forall n, n ∈ T -> exists nd, heap l !! n = Some nd /\
    (n ∈ L \/ counter nd = removedCounter) /\ good_next L0 L T rank n nd;
  di_E : E ⊆ dom (heap l);
  di_snap : forall s, snap d = Some s -> s <= currentCounter l /\
    (forall n nd, n ∈ T -> n ∉ E -> heap l !! n = Some nd -> counter nd = removedCounter \/ s < counter nd) /\
    (forall n nd, n ∈ L -> n ∈ L0 -> heap l !! n = Some nd -> counter nd <= s);
  di_none : snap d = None -> invoked d = [] /\ visited d = false;
  di_cover : forall z, z ∈ L -> z ∈ L0 -> z ∈ invoked d \/
    exists q, cursor d = Some q /\ (q = z /\ visited d = false \/ rank q < rank z);
  di_cursor : forall q, cursor d = Some q -> q ∈ T;
  di_invoked : forall e, e ∈ invoked d -> e ∈ T /\ e ∈ E /\
    forall q, cursor d = Some q -> rank e < rank q \/ e = q /\ visited d = true;
  di_order : ascending rank (invoked d);
}.

Lemma live_good l L (T : gset positive) rank L0 n :
  rep l L -> ascending rank L -> (forall n, n ∈ L -> n ∈ T) -> n ∈ L ->
  exists nd, heap l !! n = Some nd /\ good_next L0 L T rank n nd.
Proof.
  intros Hr Ha HT Hn. apply list_elem_of_split in Hn as (L1 & L2 & ->).
  pose proof (rep_middle _ _ _ _ Hr) as (_ & _ & _ & _ & _ & _ & _ & nd & Hnd & _ & Hx).
  exists nd. split; [done|]. apply ascending_app in Ha as (_ & Ha2 & Ha12).
  inversion Ha2 as [|? ? Ha3 Hf]; subst. rewrite Forall_forall in Hf. split.
  - intros m Hm. rewrite Hx in Hm. apply first_or_elem in Hm. split; [apply HT; set_solver|by apply Hf].
  - intros z Hz _ Hlt. rewrite elem_of_app, elem_of_cons in Hz. destruct Hz as [Hz|[->|Hz]]; [|lia|].
    + specialize (Ha12 z n Hz (list_elem_of_here _ _)). lia.
    + rewrite Hx. destruct L2 as [|m L2]; [by apply not_elem_of_nil in Hz|]. exists m. split; [done|].
      apply elem_of_cons in Hz as [->|Hz]; [by left|right].
      inversion Ha3 as [|? ? _ Hf']; subst. rewrite Forall_forall in Hf'. by apply Hf'.
Qed.

Lemma dinv_T L0 E l d L T rank n : dinv L0 E l d L T rank -> n ∈ T -> is_Some (heap l !! n).
Proof. intros Hi Hn. destruct (di_node _ _ _ _ _ _ _ Hi n Hn) as (nd & ? & _). by exists nd. Qed.

(** following [next] from [p] ends after at most [k] nodes *)
Fixpoint chain (k : nat) l (p : option positive) : Prop :=
  match p with
  | None => True
  | Some q => match k with O => False | S k => exists nd, heap l !! q = Some nd /\ chain k l (next nd) end
  end.
Lemma dinv_chain L0 E l d L T rank : dinv L0 E l d L T rank -> exists k, chain k l (cursor d).
Proof.
  intros Hd. destruct (cursor d) as [q|] eqn:Ec; [|by exists 0%nat].
  assert (Hq : q ∈ T) by (by apply (di_cursor _ _ _ _ _ _ _ Hd)). clear Ec.
  remember (size (filter (fun m => rank q < rank m) T)) as n eqn:En. revert q Hq En.
  induction (lt_wf n) as [n _ IH]. intros q Hq ->.
  destruct (di_node _ _ _ _ _ _ _ Hd q Hq) as (nd & Hnd & _ & Hnx & _). destruct (next nd) as [m|] eqn:En.
  - destruct (Hnx m eq_refl) as [Hm Hr].
    destruct (IH (size (filter (fun x => rank m < rank x) T))) with (q := m) as [k Hk]; [|done|done|].
    { apply subset_size. split.
      - intros x. rewrite !elem_of_filter. intros [? ?]. split; [lia|done].
      - intros Hsub. specialize (Hsub m). rewrite !elem_of_filter in Hsub. destruct Hsub; [done|lia]. }
    exists (S k). exists nd. by rewrite En.
  - exists 1%nat. exists nd. by rewrite En.
Qed.

(** a node is allocated *)
Lemma dinv_alloc L0 E l d L T rank cb p l' :
  dinv L0 E l d L T rank -> doAllocateNode cb l = (p, l') -> currentCounter l + 1 < 2 ^ 32 ->
  dinv L0 E l' d L T rank /\ heap l !! p = None /\ p ∉ T /\
  heap l' !! p = Some (mk_node None None cb (currentCounter l + 1)) /\
  currentCounter l' = currentCounter l + 1 /\ (forall n, n <> p -> heap l' !! n = heap l !! n).
Proof.
  intros Hi Ha Hlt. pose proof (di_rep _ _ _ _ _ _ _ Hi) as Hr0.
  apply (doAllocateNode_spec cb l L) in Ha as (Hr1 & HpL & Hp & Hnew & _ & _ & _ & Hnw); [|done].
  destruct (Hnw Hlt) as [Hcc Hsame].
  assert (HpT : p ∉ T) by (intros Hin; destruct (dinv_T _ _ _ _ _ _ _ _ Hi Hin); congruence).
  rewrite Hcc in Hnew. split; [|done].
  destruct Hi as [Hr HL HL0 Ha Ha0 Hnode HE Hsnap Hnone Hcov Hcur Hinv Hord].
  assert (Hne : forall n, n ∈ T -> heap l' !! n = heap l !! n) by (intros n Hn; apply Hsame; by intros ->).
  split; try done.
  - intros n Hn. rewrite Hne by done. by apply Hnode.
  - intros n Hn. apply elem_of_dom. assert (Hd : n ∈ dom (heap l)) by (by apply HE).
    apply elem_of_dom in Hd as [nd Hd]. rewrite Hsame; [by exists nd|]. intros ->. congruence.
  - intros s Hs. destruct (Hsnap s Hs) as (H1 & H2 & H3). split_and!; [lia| |].
    + intros n nd Hn HnE. rewrite Hne by done. by apply H2.
    + intros n nd Hn Hn0. rewrite Hne by (by apply HL). by apply H3.
Qed.

(** an allocated node is linked; when the dispatch did not find it allocated, its
    number is above the dispatch's *)
Lemma dinv_linked L0 E l d L1 L2 T rank cb c p l' :
  dinv L0 E l d (L1 ++ L2) T rank -> linked cb c l L1 L2 p l' ->
  p ∉ T -> heap l !! p = Some (mk_node None None cb c) ->
  (forall s, snap d = Some s -> p ∉ E -> s < c) ->
  exists rank', dinv L0 E l' d (L1 ++ p :: L2) ({[p]} ∪ T) rank'.
Proof.
  intros Hi [Hr' (np & Hnp & _ & Hcp) _ Hsame Hout Hcc] HpT Hfresh Hnum.
  destruct Hi as [Hr HL HL0 Ha Ha0 Hnode HE Hsnap Hnone Hcov Hcur Hinv Hord].
  assert (HpL : p ∉ L1 ++ L2) by (intros Hin; by apply HpT, HL).
  destruct (rank_insert rank L1 L2 p HpL Ha) as (rank' & Ha' & Hrk). exists rank'.
  assert (Hne : forall n, n ∈ T -> n <> p) by (by intros n Hn ->).
  assert (HL' : forall n, n ∈ L1 ++ p :: L2 -> n ∈ {[p]} ∪ T).
  { intros n Hn. rewrite elem_of_app, elem_of_cons in Hn. rewrite elem_of_union, elem_of_singleton.
    destruct Hn as [?|[?|?]]; [right; apply HL; set_solver|by left|right; apply HL; set_solver]. }
  assert (Hold : forall n, n ∈ L1 ++ p :: L2 -> n <> p -> n ∈ L1 ++ L2).
  { intros n Hn. rewrite elem_of_app, elem_of_cons in *. tauto. }
  split; try done.
  - intros n Hn. apply elem_of_union. right. by apply HL0.
  - eapply ascending_mono; [|exact Ha0]. intros a b Hx Hy. apply Hrk; auto.
  - intros n Hn. destruct (decide (n ∈ L1 ++ p :: L2)) as [Hin|Hin].
    + destruct (live_good l' _ ({[p]} ∪ T) rank' L0 n Hr' Ha' HL' Hin) as (nd & Hnd & Hg).
      exists nd. split_and!; [done|by left|done].
    + assert (HnT : n ∈ T) by (rewrite elem_of_union, elem_of_singleton in Hn;
        destruct Hn as [->|?]; [set_solver|done]).
      destruct (Hnode n HnT) as (nd & Hnd & Hc & Hg1 & Hg2). exists nd. split; [|split; [|split]].
      * rewrite Hout; [done|by apply Hne|]. set_solver.
      * right. destruct Hc as [Hc|?]; [set_solver|done].
      * intros m Hm. destruct (Hg1 m Hm) as [HmT Hlt']. split; [set_solver|].
        apply Hrk; auto.
      * intros z Hz Hz0 Hlt'. assert (z <> p) by (intros ->; by apply HpT, HL0).
        destruct (Hg2 z) as (m & Hm & Hmz); [by apply Hold|done|apply Hrk; auto|].
        exists m. split; [done|]. destruct Hmz as [->|Hmz]; [by left|right].
        apply Hrk; auto. apply Hne. by apply (Hg1 m Hm).
  - etrans; [exact HE|]. intros n [nd Hnd]%elem_of_dom. apply elem_of_dom.
    specialize (Hsame n). rewrite Hnd in Hsame. destruct (heap l' !! n); [by eexists|done].
  - intros s Hs. destruct (Hsnap s Hs) as (H1 & H2 & H3). split_and!; [lia| |].
    + intros n nd Hn HnE Hnd. destruct (decide (n = p)) as [->|Hnp'].
      * right. rewrite Hnp in Hnd. injection Hnd as <-. rewrite Hcp. by apply Hnum.
      * specialize (Hsame n). rewrite Hnd in Hsame. destruct (heap l !! n) as [nd0|] eqn:E0; [|done].
        injection Hsame as Hsame. rewrite Hsame. apply (H2 n nd0); [|done|done]. set_solver.
    + intros n nd Hn Hn0 Hnd. assert (Hnp' : n <> p) by (intros ->; by apply HpT, HL0).
      specialize (Hsame n). rewrite Hnd in Hsame. destruct (heap l !! n) as [nd0|] eqn:E0; [|done].
      injection Hsame as Hsame. rewrite Hsame. apply (H3 n nd0); [by apply Hold|done|done].
  - intros z Hz Hz0. assert (z <> p) by (intros ->; by apply HpT, HL0).
    destruct (Hcov z) as [?|(q & Hq & Hqz)]; [by apply Hold|done|by left|]. right. exists q. split; [done|].
    destruct Hqz as [?|Hqz]; [by left|right]. apply Hrk; auto.
  - intros q Hq. apply elem_of_union. right. by apply Hcur.
  - intros e He. destruct (Hinv e He) as (HeT & HeE & Hq). split_and!; [set_solver|done|].
    intros q Hq'. destruct (Hq q Hq') as [?|?]; [left|by right]. apply Hrk; auto.
  - eapply ascending_mono; [|exact Hord]. intros a b Hx Hy. apply Hrk; apply Hne; by apply Hinv.
Qed.

(** a removal *)
Lemma dinv_removed L0 E l d L1 h L2 T rank :
  dinv L0 E l d (L1 ++ h :: L2) T rank -> dinv L0 E (doFreeNode h l) d (L1 ++ L2) T rank.
Proof.
  intros Hi. pose proof Hi as [Hr HL HL0 Ha Ha0 Hnode HE Hsnap Hnone Hcov Hcur Hinv Hord].
  destruct (rep_dom _ _ h Hr) as [nh Hnh]; [set_solver|].
  destruct (doFreeNode_spec l L1 h L2 nh Hr Hnh) as (Hr' & Hh' & _ & Hout).
  assert (Hcc : currentCounter (doFreeNode h l) = currentCounter l).
  { by destruct (doFreeNode_heap l L1 h L2 nh Hr Hnh) as (_ & _ & _ & ->). }
  assert (Hsub : forall n, n ∈ L1 ++ L2 -> n ∈ L1 ++ h :: L2 /\ n <> h).
  { pose proof (rep_middle _ _ _ _ Hr) as (Hn1 & Hn2 & _). intros n Hn.
    rewrite elem_of_app in Hn. rewrite elem_of_app, elem_of_cons. split; [tauto|]. intros ->. tauto. }
  assert (Ha' : ascending rank (L1 ++ L2)).
  { apply ascending_app in Ha as (H1 & H2 & H12). inversion H2; subst. apply ascending_app.
    split_and!; try done. intros a b Hx Hy. apply H12; [done|by right]. }
  assert (Hcount : forall n nd', heap (doFreeNode h l) !! n = Some nd' -> n <> h ->
    exists nd, heap l !! n = Some nd /\ counter nd = counter nd').
  { intros n nd' Hnd' Hne. destruct (doFreeNode_heap l L1 h L2 nh Hr Hnh) as (Hheap & _).
    rewrite Hheap, lookup_alter_ne in Hnd' by done.
    assert (E1 : counter <$> heap l !! n = Some (counter nd')).
    { rewrite <- (counter_alter_opt _ (put_previous (last_or L1 None)) (first_or L2 None)) by done.
      rewrite <- (counter_alter_opt _ (put_next (first_or L2 None)) (last_or L1 None)) by done.
      by rewrite Hnd'. }
    destruct (heap l !! n) as [nd|]; [|done]. injection E1 as E1. by exists nd. }
  split; rewrite ?Hcc; try done.
  - intros n Hn. apply HL. by apply Hsub.
  - intros n Hn. destruct (decide (n ∈ L1 ++ L2)) as [Hin|Hin].
    + destruct (live_good _ _ T rank L0 n Hr' Ha') as (nd & Hnd & Hg); [|done|].
      { intros m Hm. apply HL. by apply Hsub. }
      exists nd. split_and!; [done|by left|done].
    + destruct (decide (n = h)) as [->|Hne].
      * exists (put_counter removedCounter nh). split_and!; [done|by right|].
        destruct (Hnode h Hn) as (nd & Hnd & _ & Hg1 & Hg2). rewrite Hnh in Hnd. injection Hnd as <-.
        split; [done|]. intros z Hz. apply Hg2. by apply Hsub.
      * destruct (Hnode n Hn) as (nd & Hnd & Hc & Hg1 & Hg2). exists nd. split; [|split; [|split]].
        -- by rewrite Hout.
        -- right. destruct Hc as [Hc|?]; [|done]. rewrite elem_of_app, elem_of_cons in Hc.
           rewrite elem_of_app in Hin. tauto.
        -- done.
        -- intros z Hz. apply Hg2. by apply Hsub.
  - etrans; [exact HE|]. destruct (doFreeNode_heap l L1 h L2 nh Hr Hnh) as (-> & _).
    intros n Hn. rewrite dom_alter_L.
    assert (Hdo : forall o f hp, dom (alter_opt o f hp) = dom (hp : gmap positive (node C))).
    { intros [m|] f hp; [apply dom_alter_L|done]. }
    by rewrite !Hdo.
  - intros s Hs. destruct (Hsnap s Hs) as (H1 & H2 & H3). split_and!; [lia| |].
    + intros n nd Hn HnE Hnd. destruct (decide (n = h)) as [->|Hne].
      * left. rewrite Hh' in Hnd. by injection Hnd as <-.
      * destruct (Hcount n nd Hnd Hne) as (nd0 & Hnd0 & <-). by apply (H2 n).
    + intros n nd Hn Hn0 Hnd. destruct (Hsub n Hn) as [Hn' Hne].
      destruct (Hcount n nd Hnd Hne) as (nd0 & Hnd0 & <-). by apply (H3 n).
  - intros z Hz. apply Hcov. by apply Hsub.
Qed.

(** an operation with nothing in between *)
Lemma dinv_op L0 E l d L T rank o :
  dinv L0 E l d L T rank -> legal o l ->
  exists L' T' rank', dinv L0 E (apply_op (option_list (cursor d)) o l) d L' T' rank'.
Proof.
  intros Hi [Hlt Hleg]. pose proof (di_rep _ _ _ _ _ _ _ Hi) as Hr.
  assert (Hadd : forall cb p l1 L1 L2 l', L = L1 ++ L2 -> doAllocateNode cb l = (p, l1) ->
    (rep l1 (L1 ++ L2) -> p ∉ L1 ++ L2 -> heap l1 !! p = Some (mk_node None None cb (currentCounter l1)) ->
     1 <= currentCounter l1 <= currentCounter l1 -> linked cb (currentCounter l1) l1 L1 L2 p l') ->
    exists L' T' rank', dinv L0 E l' d L' T' rank').
  { intros cb p l1 L1 L2 l' -> Ea Hlink.
    destruct (dinv_alloc _ _ _ _ _ _ _ _ _ _ Hi Ea Hlt) as (Hi1 & _ & HpT & Hnew & Hcc & _).
    rewrite <- Hcc in Hnew.
    assert (Hl : linked cb (currentCounter l1) l1 L1 L2 p l').
    { apply Hlink; [by apply (di_rep _ _ _ _ _ _ _ Hi1)| |done|].
      - intros Hin. by apply HpT, (di_L _ _ _ _ _ _ _ Hi1).
      - pose proof (rep_counter _ _ Hr). lia. }
    destruct (dinv_linked _ _ _ _ _ _ _ _ _ _ _ _ Hi1 Hl HpT Hnew) as [rank' Hi'].
    - intros s Hs _. destruct (di_snap _ _ _ _ _ _ _ Hi s Hs) as (H1 & _). lia.
    - by eexists _, _, rank'. }
  rewrite ?(to_list_rep l L Hr) in Hleg. destruct o as [cb|cb|cb b|h]; cbn [apply_op].
  - unfold append. destruct (doAllocateNode cb l) as [p l1] eqn:Ea.
    eapply (Hadd _ _ _ L []); [by rewrite app_nil_r|exact Ea|]. rewrite app_nil_r. apply link_back_spec.
  - unfold prepend. destruct (doAllocateNode cb l) as [p l1] eqn:Ea.
    eapply (Hadd _ _ _ [] L); [done|exact Ea|]. apply link_front_spec.
  - apply list_elem_of_split in Hleg as (L1 & L2 & ->). unfold insert_cb.
    rewrite (lock_listed _ l (L1 ++ b :: L2)) by (done || set_solver).
    destruct (doAllocateNode cb l) as [p l1] eqn:Ea.
    eapply (Hadd _ _ _ L1 (b :: L2)); [done|exact Ea|]. apply doInsert_spec.
  - apply list_elem_of_split in Hleg as (L1 & L2 & ->). unfold remove.
    rewrite (lock_listed _ l (L1 ++ h :: L2)); [|done|set_solver]. simpl.
    eexists _, _, rank. by apply dinv_removed.
Qed.

Lemma dinv_visit L0 E l q s i L T rank nd :
  heap l !! q = Some nd -> dinv L0 E l (mk_disp (Some q) (Some s) false i) L T rank ->
  dinv L0 E l (mk_disp (Some q) (Some s) true (i ++ if eligible s nd then [q] else [])) L T rank.
Proof.
  intros Hq [Hr HL HL0 Ha Ha0 Hnode HE Hsnap Hnone Hcov Hcur Hinv Hord]. simpl in *.
  destruct (Hsnap s eq_refl) as (H1 & H2 & H3). split; try done; simpl.
  - intros z Hz Hz0. destruct (Hcov z Hz Hz0) as [?|(q' & [= <-] & [[-> _]|Hlt])].
    + left. set_solver.
    + left. assert (eligible s nd = true) as ->; [|set_solver].
      assert (Hc : counter nd <= s) by (by apply (H3 z)).
      pose proof Hr as [_ _ _ _ Hct _]. unfold counted in Hct. rewrite Forall_forall in Hct.
      destruct (Hct z Hz) as (nd' & Hnd' & Hge). rewrite Hq in Hnd'. injection Hnd' as <-.
      unfold eligible, removedCounter.
      rewrite (proj2 (Z.eqb_neq _ _)), (proj2 (Z.leb_le _ _)) by lia. done.
    + right. exists q. split; [done|by right].
  - intros e He. rewrite elem_of_app in He. destruct He as [He|He].
    + destruct (Hinv e He) as (? & ? & Hlt). split_and!; try done. intros q' [= <-].
      destruct (Hlt q eq_refl) as [?|[_ ?]]; [by left|done].
    + destruct (eligible s nd) eqn:Ee; [|by apply not_elem_of_nil in He].
      apply list_elem_of_singleton in He as ->. split_and!; [by apply Hcur| |].
      * destruct (decide (q ∈ E)) as [?|HnE]; [done|]. exfalso.
        unfold eligible in Ee. apply andb_prop in Ee as [Ee1 Ee2].
        apply Z.leb_le in Ee2. apply negb_true_iff, Z.eqb_neq in Ee1.
        destruct (H2 q nd (Hcur q eq_refl) HnE Hq) as [?|?]; [done|lia].
      * intros q' [= <-]. by right.
  - apply ascending_app. split_and!; [done|destruct (eligible s nd); repeat constructor|].
    intros a b Hx Hy. destruct (eligible s nd); [|by apply not_elem_of_nil in Hy].
    apply list_elem_of_singleton in Hy as ->. destruct (Hinv a Hx) as (_ & _ & Hlt).
    destruct (Hlt q eq_refl) as [?|[_ ?]]; done.
Qed.

Lemma dinv_next L0 E l q s i L T rank nd :
  heap l !! q = Some nd -> dinv L0 E l (mk_disp (Some q) (Some s) true i) L T rank ->
  dinv L0 E l (mk_disp (next nd) (Some s) false i) L T rank.
Proof.
  intros Hq [Hr HL HL0 Ha Ha0 Hnode HE Hsnap Hnone Hcov Hcur Hinv Hord]. simpl in *.
  destruct (Hnode q (Hcur q eq_refl)) as (nd' & Hnd' & _ & Hg1 & Hg2). rewrite Hq in Hnd'. injection Hnd' as <-.
  split; try done; simpl.
  - intros z Hz Hz0. destruct (Hcov z Hz Hz0) as [?|(q' & [= <-] & [[_ ?]|Hlt])]; [by left|done|right].
    destruct (Hg2 z Hz Hz0 Hlt) as (m & Hm & Hmz). exists m. split; [done|].
    destruct Hmz as [->|?]; [by left|by right].
  - intros m Hm. by apply Hg1.
  - intros e He. destruct (Hinv e He) as (? & ? & Hlt). split_and!; try done. intros m Hm. left.
    destruct (Hg1 m Hm) as [_ Hqm]. destruct (Hlt q eq_refl) as [?|[-> _]]; lia.
Qed.

Lemma dinv_load L0 E l c v i L T rank :
  dinv L0 E l (mk_disp c None v i) L T rank ->
  dinv L0 (dom (heap l)) l (mk_disp c (Some (currentCounter l)) v i) L T rank.
Proof.
  intros Hi. pose proof Hi as [Hr HL HL0 Ha Ha0 Hnode HE Hsnap Hnone Hcov Hcur Hinv Hord]. simpl in *.
  destruct (Hnone eq_refl) as [-> ->]. split; try done; simpl.
  - intros s [= <-]. split_and!; [done| |].
    + intros n nd Hn HnE Hnd. exfalso. apply HnE, elem_of_dom. by exists nd.
    + intros n nd Hn _ Hnd. pose proof Hr as [_ _ _ _ Hct _]. unfold counted in Hct.
      rewrite Forall_forall in Hct. destruct (Hct n Hn) as (nd' & Hnd' & ?). rewrite Hnd in Hnd'.
      injection Hnd' as <-. lia.
  - intros e He. by apply not_elem_of_nil in He.
Qed.

Lemma dinv_start_ranked l L : rep l L -> exists rank, dinv L ∅ l (start l) L (list_to_set L) rank.
Proof.
  intros Hr. pose proof Hr as [Hs Hnd Hh Ht Hct Hcc]. destruct (ascending_exists L Hnd) as [rank Ha].
  exists rank.
  assert (HT : forall n, n ∈ L -> n ∈ (list_to_set L : gset positive))
    by (intros n; by rewrite elem_of_list_to_set).
  split; try done; simpl.
  - intros n Hn%elem_of_list_to_set. destruct (live_good l L _ rank L n Hr Ha HT Hn) as (nd & ? & ?).
    exists nd. split_and!; [done|by left|done].
  - intros z Hz _. right. rewrite Hh. destruct L as [|x L]; [by apply not_elem_of_nil in Hz|].
    exists x. split; [done|]. apply elem_of_cons in Hz as [->|Hz]; [by left|right].
    inversion Ha as [|? ? _ Hf]; subst. rewrite Forall_forall in Hf. by apply Hf.
  - intros q Hq. rewrite Hh in Hq. apply HT. destruct L; [done|]. injection Hq as ->. by left.
  - intros e He. by apply not_elem_of_nil in He.
  - constructor.
Qed.

Lemma dinv_start l L : rep l L -> exists T rank, dinv L ∅ l (start l) L T rank.
Proof. intros Hr. destruct (dinv_start_ranked l L Hr) as [rank Hi]. by exists (list_to_set L), rank. Qed.

(** ** The registrations under way
    [A] are the nodes they have allocated, [B] the ones they have locked: the
    former are in no list and untouched, the latter still registered. *)
Record rinv (E : gset positive) l (d : disp) L (T : gset positive) (A B : list positive) : Prop := {
  ri_nodup : NoDup A;
  ri_out : forall p, p ∈ A -> p ∉ T;
  ri_node : forall p, p ∈ A -> exists cb c, heap l !! p = Some (mk_node None None cb c) /\
    1 <= c <= currentCounter l /\ (forall s, snap d = Some s -> p ∉ E -> s < c);
  ri_locked : forall b, b ∈ B -> b ∈ L;
}.
Definition dsys_inv (L0 : list positive) (E : gset positive) (x : dsys) L (T : gset positive)
    (rank : positive -> Z) : Prop :=
  dinv L0 E x.1.1 x.2 L T rank /\
  rinv E x.1.1 x.2 L T (x.1.2 ≫= allocated) (x.1.2 ≫= locked).

Lemma rinv_alloc L0 E l d L T rank A B A' B' cb p l' :
  dinv L0 E l d L T rank -> rinv E l d L T A B -> doAllocateNode cb l = (p, l') ->
  currentCounter l + 1 < 2 ^ 32 -> A' ≡ₚ p :: A -> (forall b, b ∈ B' -> b ∈ B) ->
  dinv L0 E l' d L T rank /\ rinv E l' d L T A' B'.
Proof.
  intros Hi [Hnd Hout Hnode Hlk] Ha Hlt HA HB. pose proof (di_rep _ _ _ _ _ _ _ Hi) as Hr.
  destruct (dinv_alloc _ _ _ _ _ _ _ _ _ _ Hi Ha Hlt) as (Hi' & Hp & HpT & Hnew & Hcc & Hsame).
  split; [done|].
  assert (HpA : p ∉ A) by (intros Hin; destruct (Hnode p Hin) as (? & ? & ? & _); congruence).
  assert (Hin : forall q, q ∈ A' -> q = p \/ q ∈ A) by (intros q Hq; rewrite HA in Hq; by apply elem_of_cons).
  split.
  - rewrite HA. by constructor.
  - intros q [->|Hq]%Hin; [done|by apply Hout].
  - intros q [->|Hq]%Hin.
    + exists cb, (currentCounter l + 1). split; [done|split].
      * pose proof (rep_counter _ _ Hr). lia.
      * intros s Hs _. destruct (di_snap _ _ _ _ _ _ _ Hi s Hs) as (H1 & _). lia.
    + destruct (Hnode q Hq) as (cb' & c & Hc & Hb & Hs). exists cb', c.
      rewrite Hsame by (by intros ->). split; [done|split; [lia|done]].
  - auto.
Qed.

(** what the part under the mutex does to the list *)
Lemma link_linked E l d L T A B r p :
  rep l L -> (forall n, n ∈ L -> n ∈ T) -> rinv E l d L T A B ->
  allocated r = [p] -> p ∈ A -> (forall b, b ∈ locked r -> b ∈ B) ->
  exists cb c L1 L2, L = L1 ++ L2 /\ linked cb c l L1 L2 p (link r l) /\
    heap l !! p = Some (mk_node None None cb c) /\ (forall s, snap d = Some s -> p ∉ E -> s < c).
Proof.
  intros Hr HL [Hnd Hout Hnode Hlk] Hp HpA Hlr. destruct (Hnode p HpA) as (cb & c & Hc & Hb & Hs).
  assert (HpL : p ∉ L) by (intros Hin; by apply (Hout p HpA), HL).
  exists cb, c. destruct r as [cb' b|q|q|q b]; cbn [allocated locked link] in *; [done| | |]; injection Hp as ->.
  - exists L, []. rewrite app_nil_r. split_and!; try done. by apply link_back_spec.
  - exists [], L. split_and!; try done. by apply link_front_spec.
  - assert (HbL : b ∈ L) by (apply Hlk, Hlr; by left).
    apply list_elem_of_split in HbL as (L1 & L2 & ->). exists L1, (b :: L2).
    split_and!; try done. by apply doInsert_spec.
Qed.

Lemma rinv_link L0 E l d L T rank R1 R2 r :
  dinv L0 E l d L T rank -> allocated r <> [] ->
  rinv E l d L T ((R1 ++ r :: R2) ≫= allocated) ((R1 ++ r :: R2) ≫= locked) ->
  exists L' T' rank', dinv L0 E (link r l) d L' T' rank' /\
    rinv E (link r l) d L' T' ((R1 ++ R2) ≫= allocated) ((R1 ++ R2) ≫= locked).
Proof.
  intros Hi Hal Hri. pose proof (di_L _ _ _ _ _ _ _ Hi) as HL.
  assert (Hp : exists p, allocated r = [p]) by (destruct r; [done|by eexists..]). destruct Hp as [p Hp].
  rewrite !bind_app, !bind_cons, Hp in Hri.
  destruct (link_linked E l d L T _ _ r p (di_rep _ _ _ _ _ _ _ Hi) HL Hri Hp) as
    (cb & c & L1 & L2 & -> & Hlk & Hnew & Hs); [set_solver|set_solver|].
  destruct Hri as [Hnd Hout Hnode Hlock].
  destruct (dinv_linked _ _ _ _ _ _ _ _ _ _ _ _ Hi Hlk (Hout p ltac:(set_solver)) Hnew Hs) as [rank' Hi'].
  exists (L1 ++ p :: L2), ({[p]} ∪ T), rank'. split; [done|].
  assert (Hperm : (R1 ≫= allocated) ++ [p] ++ (R2 ≫= allocated) ≡ₚ p :: (R1 ≫= allocated) ++ (R2 ≫= allocated))
    by (symmetry; apply Permutation_middle).
  rewrite Hperm in Hnd. apply NoDup_cons in Hnd as [HpA Hnd].
  assert (Hsub : forall q, q ∈ (R1 ≫= allocated) ++ (R2 ≫= allocated) ->
    q ∈ (R1 ≫= allocated) ++ [p] ++ (R2 ≫= allocated) /\ q <> p).
  { intros q Hq. split; [rewrite Hperm; by right|]. by intros ->. }
  rewrite !bind_app. split.
  - done.
  - intros q Hq. destruct (Hsub q Hq) as [Hin Hne]. rewrite elem_of_union, elem_of_singleton.
    intros [->|HT]; [done|]. by apply (Hout q Hin).
  - intros q Hq. destruct (Hsub q Hq) as [Hin Hne]. destruct (Hnode q Hin) as (cb' & c' & Hc & Hb & Hs').
    exists cb', c'. rewrite (ln_cc _ _ _ _ _ _ _ Hlk), (ln_out _ _ _ _ _ _ _ Hlk); [done|done|].
    intros HinL. by apply (Hout q Hin), HL.
  - intros b Hb. rewrite elem_of_app in Hb. rewrite elem_of_app, elem_of_cons.
    assert (Hb' : b ∈ L1 ++ L2) by (apply Hlock; set_solver). rewrite elem_of_app in Hb'. tauto.
Qed.

Lemma rinv_remove L0 E l d L1 h L2 T rank A B :
  dinv L0 E l d (L1 ++ h :: L2) T rank -> rinv E l d (L1 ++ h :: L2) T A B -> h ∉ B ->
  rinv E (doFreeNode h l) d (L1 ++ L2) T A B.
Proof.
  intros Hi [Hnd Hout Hnode Hlk] Hh. pose proof (di_rep _ _ _ _ _ _ _ Hi) as Hr.
  destruct (rep_dom _ _ h Hr) as [nh Hnh]; [set_solver|].
  destruct (doFreeNode_spec l L1 h L2 nh Hr Hnh) as (_ & _ & _ & Houth).
  assert (Hcc : currentCounter (doFreeNode h l) = currentCounter l).
  { by destruct (doFreeNode_heap l L1 h L2 nh Hr Hnh) as (_ & _ & _ & ->). }
  split; [done|done| |].
  - intros p Hp. destruct (Hnode p Hp) as (cb & c & Hc & Hb). exists cb, c. rewrite Hcc.
    assert (HpL : p ∉ L1 ++ h :: L2) by (intros Hin; by apply (Hout p Hp), (di_L _ _ _ _ _ _ _ Hi)).
    rewrite Houth; [done| |]; set_solver.
  - intros b Hb. specialize (Hlk b Hb). rewrite elem_of_app, elem_of_cons in Hlk. rewrite elem_of_app.
    destruct Hlk as [?|[->|?]]; [by left|done|by right].
Qed.

Lemma dinv_step L0 E x y L T rank :
  dstep false x y -> dsys_inv L0 E x L T rank ->
  exists E' L' T' rank', dsys_inv L0 E' y L' T' rank' /\
    (snap x.2 <> None -> E' = E /\ snap y.2 <> None).
Proof.
  unfold dsys_inv. intros Hs [Hi Hri].
  destruct Hs as [l R c v i|l R q s i nd Hq|l R q s i nd Hq|l R d cb b Hb|l R d cb p l' Hlt Ha|l R d cb p l' Hlt Ha
    |l R1 R2 d cb b p l' Hlt Ha|l R1 R2 d r Hal|l R d h Hh Hno]; simpl in Hi, Hri; cbn [fst snd].
  - exists (dom (heap l)), L, T, rank. split; [|done]. split; [by eapply dinv_load|].
    destruct Hri as [Hnd Hout Hnode Hlk]. split; try done. intros p Hp.
    destruct (Hnode p Hp) as (cb & c' & Hc & Hb & _). exists cb, c'. split; [done|split; [done|]].
    intros s _ Hn. exfalso. apply Hn, elem_of_dom. by eexists.
  - exists E, L, T, rank. split; [|done]. split; [by apply dinv_visit|]. by destruct Hri; split.
  - exists E, L, T, rank. split; [|done]. split; [by eapply dinv_next|]. by destruct Hri; split.
  - exists E, L, T, rank. split; [|done]. split; [done|]. destruct Hri as [Hnd Hout Hnode Hlk].
    rewrite (to_list_rep _ _ (di_rep _ _ _ _ _ _ _ Hi)) in Hb. rewrite !bind_app. cbn. rewrite !app_nil_r.
    split; try done. intros b' Hb'. rewrite elem_of_app, list_elem_of_singleton in Hb'.
    destruct Hb' as [?| ->]; auto.
  - exists E, L, T, rank. split; [|done]. eapply rinv_alloc; [done|done|exact Ha|done| |];
      rewrite bind_app; cbn; [|by rewrite app_nil_r]. symmetry. apply Permutation_cons_append.
  - exists E, L, T, rank. split; [|done]. eapply rinv_alloc; [done|done|exact Ha|done| |];
      rewrite bind_app; cbn; [|by rewrite app_nil_r]. symmetry. apply Permutation_cons_append.
  - exists E, L, T, rank. split; [|done]. eapply rinv_alloc; [done|done|exact Ha|done| |];
      rewrite !bind_app, !bind_cons; cbn; [|done]. symmetry. apply Permutation_middle.
  - destruct (rinv_link _ _ _ _ _ _ _ _ _ _ Hi Hal Hri) as (L' & T' & rank' & Hi' & Hri').
    by exists E, L', T', rank'.
  - rewrite (to_list_rep _ _ (di_rep _ _ _ _ _ _ _ Hi)) in Hh.
    apply list_elem_of_split in Hh as (L1 & L2 & ->). unfold remove.
    rewrite (lock_listed _ l (L1 ++ h :: L2)); [|by apply (di_rep _ _ _ _ _ _ _ Hi)|set_solver]. simpl.
    exists E, (L1 ++ L2), T, rank. split; [|done]. split; [by apply dinv_removed|]. eapply rinv_remove; eauto.
Qed.

Lemma dinv_run x y L0 E L T rank :
  rtc (dstep false) x y -> dsys_inv L0 E x L T rank ->
  exists E' L' T' rank', dsys_inv L0 E' y L' T' rank' /\ (snap x.2 <> None -> E' = E).
Proof.
  intros Hs. revert E L T rank. induction Hs as [x|x y z Hxy _ IH]; intros E L T rank Hi.
  - by exists E, L, T, rank.
  - destruct (dinv_step _ _ _ _ _ _ _ Hxy Hi) as (E1 & L1 & T1 & r1 & Hi1 & HE1).
    destruct (IH _ _ _ _ Hi1) as (E2 & L2 & T2 & r2 & Hi2 & HE2).
    exists E2, L2, T2, r2. split; [done|]. intros Hn. destruct (HE1 Hn) as [-> Hy]. by apply HE2.
Qed.

Lemma ascending_NoDup rank L : ascending rank L -> NoDup L.
Proof.
  unfold ascending. induction 1 as [|x L Hs IH Hf]; constructor; [|done].
  intros Hin. rewrite Forall_forall in Hf. specialize (Hf x Hin). lia.
Qed.
(** an ascending list inside an ascending list is a sublist of it *)
Lemma ascending_sublist rank A B :
  ascending rank A -> ascending rank B -> (forall n, n ∈ A -> n ∈ B) -> A `sublist_of` B.
Proof.
  revert A. induction B as [|b B IH]; intros A HA HB Hsub.
  - destruct A as [|a A]; [constructor|]. exfalso. by apply (not_elem_of_nil a), Hsub; left.
  - inversion HB as [|? ? HB' Hf]; subst. rewrite Forall_forall in Hf.
    destruct A as [|a A]; [apply sublist_nil_l|].
    inversion HA as [|? ? HA' Hfa]; subst. rewrite Forall_forall in Hfa.
    assert (Hrest : forall n, n ∈ A -> n <> b).
    { intros n Hn ->. specialize (Hfa b Hn). pose proof (Hsub a (list_elem_of_here _ _)) as Ha.
      apply elem_of_cons in Ha as [->|Ha]; [lia|]. specialize (Hf a Ha). lia. }
    destruct (decide (a = b)) as [->|Hne].
    + apply sublist_skip. apply IH; [done|done|]. intros n Hn.
      assert (Hin : n ∈ b :: B) by (apply Hsub; by right).
      apply elem_of_cons in Hin as [->|?]; [by destruct (Hrest b Hn)|done].
    + apply sublist_cons. apply IH; [done|done|]. intros n Hn.
      assert (Hin : n ∈ b :: B) by (by apply Hsub).
      apply elem_of_cons in Hn as [->|Hn]; apply elem_of_cons in Hin as [->|?]; try done.
      by destruct (Hrest b Hn).
Qed.
Lemma ascending_filter rank (P : positive -> Prop) `{!forall x, Decision (P x)} L :
  ascending rank L -> ascending rank (filter P L).
Proof.
  unfold ascending. induction 1 as [|x L Hs IH Hf]; [constructor|]. rewrite filter_cons.
  case_decide; [|done]. constructor; [done|]. rewrite Forall_forall in *. intros b Hb.
  apply Hf. by apply list_elem_of_filter in Hb as [_ ?].
Qed.

(** registrations under way when the dispatch starts: their nodes are allocated
    and in no list, the listeners they have locked are registered *)
Record underway l L (R : list reg) : Prop := {
  uw_nodup : NoDup (R ≫= allocated);
  uw_node : forall p, p ∈ R ≫= allocated -> p ∉ L /\
    exists cb c, heap l !! p = Some (mk_node None None cb c) /\ 1 <= c <= currentCounter l;
  uw_locked : forall b, b ∈ R ≫= locked -> b ∈ L;
}.

Lemma dsys_start l L R : rep l L -> underway l L R -> exists T rank, dsys_inv L ∅ (l, R, start l) L T rank.
Proof.
  intros Hr [Hnd Hnode Hlk]. pose proof Hr as [_ HN _ _ _ _].
  destruct (dinv_start_ranked l L Hr) as (rank & Hi).
  exists (list_to_set L), rank. split; [done|]. split; [done| | |done].
  - intros p Hp. rewrite elem_of_list_to_set. by apply Hnode.
  - intros p Hp. destruct (Hnode p Hp) as (_ & cb & c & Hc & Hb). by exists cb, c.
Qed.

(** C11. Dispatch under concurrency: let a dispatch start on a list of listeners
    [L0], with any registrations under way, and let any number of registrations
    and removals, by other threads or by the callbacks, run between any two of
    its steps, each registration in its parts (locking [before], taking the node
    and its counter, linking under the mutex), where no listener is removed while
    an [insert] under way has locked it as its [before]. Then no listener
    is called twice, those of [L0] that are called are called in the order of
    the list, and when the dispatch ends every listener of [L0] that is still
    registered has been called. A listener whose node is allocated after the
    dispatch has read the counter is not called by it (one allocated before and
    linked after may be). *)
Theorem dispatch_snapshot l0 L0 R0 l1 R1 d1 l2 R2 d2 :
  rep l0 L0 -> underway l0 L0 R0 ->
  rtc (dstep false) (l0, R0, start l0) (l1, R1, d1) -> rtc (dstep false) (l1, R1, d1) (l2, R2, d2) ->
  NoDup (invoked d2) /\
  filter (fun n => n ∈ L0) (invoked d2) `sublist_of` L0 /\
  (cursor d2 = None -> forall n, n ∈ L0 -> n ∈ to_list l2 -> n ∈ invoked d2) /\
  (snap d1 <> None -> forall n, n ∈ invoked d2 -> is_Some (heap l1 !! n)).
Proof.
  intros Hr Hu H1 H2. destruct (dsys_start l0 L0 R0 Hr Hu) as (T0 & r0 & Hi0).
  destruct (dinv_run _ _ _ _ _ _ _ H1 Hi0) as (E1 & L1 & T1 & r1 & Hi1 & _).
  destruct (dinv_run _ _ _ _ _ _ _ H2 Hi1) as (E2 & L2 & T2 & r2 & [Hi2 _] & HE).
  destruct Hi1 as [Hi1 _]. simpl in *.
  destruct Hi2 as [Hr2 HL HL0 Ha Ha0 Hnode HE2 Hsnap Hnone Hcov Hcur Hinv Hord]. split_and!.
  - by eapply ascending_NoDup.
  - eapply ascending_sublist; [by apply ascending_filter|exact Ha0|].
    intros n Hn. by apply list_elem_of_filter in Hn as [? _].
  - intros Hc n Hn Hn2. rewrite (to_list_rep _ _ Hr2) in Hn2.
    destruct (Hcov n Hn2 Hn) as [?|(q & Hq & _)]; [done|congruence].
  - intros Hs n Hn. rewrite (HE Hs) in *. destruct (Hinv n Hn) as (_ & HnE & _).
    apply elem_of_dom. by apply (di_E _ _ _ _ _ _ _ Hi1).
Qed.

(** ** Calls that lose a listener *)

Lemma lock_pinned pins n l : n ∈ pins -> lock pins n l = Some n.
Proof.
  intros Hn. unfold lock. rewrite decide_True; [done|]. unfold alive.
  destruct (reach_complete (reach_fuel l + length pins) l ∅
    (option_list (head l) ++ option_list (tail l) ++ pins)) as (_ & H2 & _).
  { unfold reach_fuel. rewrite !length_app.
    assert ((size (dom (heap l) ∖ ∅) <= size (heap l))%nat).
    { rewrite <- size_dom. apply subseteq_size. set_solver. }
    destruct (head l), (tail l); simpl; lia. }
  { set_solver. }
  apply H2. set_solver.
Qed.

(** [doFreeNode] on a node that is in no list any more but still points to [a]
    and [m]: it closes the gap between them over whatever is there now *)
Lemma doFreeNode_again l L1 a p m L2 n nd :
  rep l (L1 ++ a :: p :: m :: L2) -> n ∉ L1 ++ a :: p :: m :: L2 ->
  heap l !! n = Some nd -> previous nd = Some a -> next nd = Some m ->
  rep (doFreeNode n l) (L1 ++ a :: m :: L2).
Proof.
  intros Hr Hn Hnd Hp Hx. pose proof Hr as [Hs HN Hh Ht Hct Hcc].
  assert (Hdis : n <> a /\ n <> m /\ a <> m /\ a ∉ L1 /\ m ∉ L1 ++ [a] /\ a ∉ m :: L2 /\ m ∉ L2 /\
    n ∉ L1 ++ [a] /\ n ∉ m :: L2).
  { rewrite NoDup_app, !NoDup_cons in HN. set_solver. }
  destruct Hdis as (Hna & Hnm & Ham & Ha1 & Hm1 & Ha2 & Hm2 & Hn1 & Hn2).
  assert (Hhn : head l <> Some n).
  { rewrite Hh. intros He. apply Hn. destruct L1; injection He as ->; by left. }
  assert (Htn : tail l <> Some n) by (rewrite Ht; intros He%last_Some_elem_of; by apply Hn).
  set (h' := alter (put_counter removedCounter) n
    (alter (put_next (Some m)) a (alter (put_previous (Some a)) m (heap l)))).
  assert (Hheap : doFreeNode n l = mk_clist h' (head l) (tail l) (currentCounter l)).
  { unfold doFreeNode, node_next, node_previous. rewrite Hnd. cbn [mbind option_bind]. rewrite Hp, Hx.
    cbn [upd_opt upd with_heap heap head tail currentCounter].
    rewrite lookup_alter_ne, Hnd by done. cbn [mbind option_bind]. rewrite Hp, Hx.
    cbn [upd_opt upd with_heap heap head tail currentCounter].
    rewrite (decide_False (P := head l = Some n)) by done. cbn [upd with_heap tail].
    by rewrite (decide_False (P := tail l = Some n)). }
  rewrite Hheap. split; cbn [heap head tail currentCounter].
  - change (a :: m :: L2) with ([a] ++ m :: L2). rewrite app_assoc, seg_app.
    change (a :: p :: m :: L2) with ([a] ++ p :: m :: L2) in Hs. rewrite app_assoc, seg_app in Hs.
    destruct Hs as [Hs1 (np & _ & _ & _ & Hs2)]. unfold h'. split.
    + apply seg_alter_ne; [done|]. apply (seg_put_next _ _ _ _ (Some p)); [done|]. by apply seg_alter_ne.
    + rewrite last_or_snoc. apply seg_alter_ne; [done|]. apply seg_alter_ne; [done|].
      by apply (seg_put_previous _ (Some p)).
  - revert HN. rewrite !NoDup_app, !NoDup_cons. set_solver.
  - rewrite Hh. by destruct L1.
  - rewrite Ht, !last_app, !last_cons_cons. done.
  - assert (Hc1 : counted (currentCounter l) (alter (put_next (Some m)) a (alter (put_previous (Some a)) m (heap l)))
      (L1 ++ a :: m :: L2)).
    { apply counted_alter; [done|]. apply counted_alter; [done|].
      change (a :: m :: L2) with ([a] ++ m :: L2). rewrite app_assoc. apply (counted_drop _ _ _ _ p).
      by rewrite <- app_assoc. }
    unfold counted in *. rewrite Forall_forall in *. intros k Hk. destruct (Hc1 k Hk) as (ndk & Hk1 & Hk2).
    exists ndk. unfold h'. rewrite lookup_alter_ne; [done|]. intros ->. set_solver.
  - done.
Qed.

(** C39. Two ways in which a listener that nobody removed is lost. While a
    dispatch is at a listener [n], its handle can still be locked after
    [remove]: if a new listener is then inserted before the old successor of [n]
    and [remove] is called again with the handle of [n], the call reports
    success and unlinks the new listener. And an [insert] that has locked the
    first listener as its [before] when another thread removes it links the new
    node to the removed one only: its handle is good, and no dispatch finds
    it. *)
Theorem racing_calls_lose_listeners (l : clist C) (x : C) (L1 L2 : list positive) (a n m b : positive)
    (pins : list positive) (d : disp) :
  currentCounter l + 1 < 2 ^ 32 ->
  (rep l (L1 ++ a :: n :: m :: L2) -> n ∈ pins ->
   let '(r1, l1) := remove pins n l in
   let '(p, l2) := insert_cb pins x m l1 in
   let '(r2, l3) := remove pins n l2 in
   r1 = true /\ to_list l2 = L1 ++ a :: p :: m :: L2 /\ r2 = true /\ to_list l3 = L1 ++ a :: m :: L2) /\
  (rep l (b :: L2) ->
   exists p l' nd, rtc (dstep true) (l, [], d) (l', [], d) /\
     heap l !! p = None /\ heap l' !! p = Some nd /\ callback nd = x /\ counter nd <> removedCounter /\
     to_list l' = L2 /\ p ∉ L2).
Proof.
  intros Hlt. split.
  - intros Hr Hpin. unfold remove. rewrite (lock_pinned pins n l Hpin).
    assert (Hr0 : rep l ((L1 ++ [a]) ++ n :: m :: L2)) by (by rewrite <- app_assoc).
    pose proof (rep_middle _ _ _ _ Hr0) as (Hn1 & Hn2 & _ & _ & _ & _ & _ & nd & Hnd & Hp & Hx).
    rewrite last_or_snoc in Hp. cbn [first_or] in Hx.
    destruct (doFreeNode_spec l _ n _ nd Hr0 Hnd) as (Hr1 & Hnd1 & _). rewrite <- app_assoc in Hr1. cbn [app] in Hr1.
    destruct (insert_cb pins x m (doFreeNode n l)) as [p l2] eqn:Ei.
    assert (Hr1' : rep (doFreeNode n l) ((L1 ++ [a]) ++ m :: L2)) by (by rewrite <- app_assoc).
    apply (insert_spec pins x _ (L1 ++ [a]) m L2) in Ei as [Hr2 Hfr _ _ Hout _];
      [|done|eapply lock_listed; [exact Hr1'|set_solver]].
    assert (Hnp : n <> p) by (intros ->; congruence).
    assert (HnL : n ∉ (L1 ++ [a]) ++ m :: L2) by (rewrite not_elem_of_app; done).
    rewrite (lock_pinned pins n l2 Hpin). rewrite <- app_assoc in Hr2. cbn [app] in Hr2.
    split_and!; [done|by apply to_list_rep|done|]. apply to_list_rep.
    apply (doFreeNode_again _ _ _ p _ _ _ (put_counter removedCounter nd)); [done| |by rewrite Hout|done|done].
    set_solver.
  - intros Hr. pose proof (rep_middle l [] b L2 Hr) as (_ & Hb2 & _ & _ & _ & _ & _ & nb & Hnb & Hpb & _).
    set (l1 := doFreeNode b l).
    destruct (doFreeNode_spec l [] b L2 nb Hr Hnb) as (Hr1 & Hb1 & _ & Hout1). fold l1 in Hr1, Hb1, Hout1.
    assert (Hcc1 : currentCounter l1 = currentCounter l)
      by (exact (proj2 (proj2 (proj2 (doFreeNode_heap l [] b L2 nb Hr Hnb))))).
    destruct (doAllocateNode x l1) as [p l2] eqn:Ea.
    pose proof (doAllocateNode_spec x l1 L2 p l2 Hr1 Ea) as (Hr2 & HpL & Hp1 & Hnew & Hc2 & _ & _ & Hsame2).
    rewrite Hcc1 in Hsame2. destruct (Hsame2 Hlt) as [Hcc2 Hsame].
    assert (Hbp : b <> p) by (intros ->; congruence).
    assert (Hb2' : heap l2 !! b = Some (put_counter removedCounter nb)) by (by rewrite Hsame).
    exists p, (doInsert p b l2).
    set (h' := alter (put_previous (Some p)) b (alter (put_next (Some b)) p (alter (put_previous None) p (heap l2)))).
    assert (Hins : doInsert p b l2 = mk_clist h' (head l2) (tail l2) (currentCounter l2)).
    { unfold doInsert, node_previous. rewrite Hb2'. cbn [mbind option_bind put_counter previous]. rewrite Hpb.
      cbn [upd with_heap heap last_or last]. rewrite !lookup_alter_ne, Hb2' by done.
      cbn [mbind option_bind put_counter previous]. rewrite Hpb. cbn [last_or last upd_opt].
      rewrite decide_False; [done|]. cbn [upd with_heap head]. pose proof Hr2 as [_ _ -> _ _ _].
      destruct L2; [done|]. intros [= ->]. apply Hb2. by left. }
    assert (Hr' : rep (doInsert p b l2) L2).
    { rewrite Hins. destruct Hr2 as [Hs HN Hh Ht Hct Hcc]. split; try done; cbn [heap].
      - unfold h'. by do 3 (apply seg_alter_ne; [done|]).
      - unfold h'. by do 3 (apply counted_alter; [done|]). }
    eexists. split_and!.
    + eapply rtc_l; [apply (D_lock _ _ _ _ x b); rewrite (to_list_rep _ _ Hr); by left|].
      eapply rtc_l; [apply (D_remove _ _ _ _ b); [rewrite (to_list_rep _ _ Hr); by left|done]|].
      unfold remove. rewrite (lock_listed _ _ _ _ Hr) by (by left). cbn [snd app].
      eapply rtc_l; [eapply (D_alloc_before _ _ [] [] _ x b); [change (currentCounter l1 + 1 < 2 ^ 32); by rewrite Hcc1|exact Ea]|].
      apply rtc_once. by apply (D_link _ _ [] [] _ (RBefore p b)).
    + destruct (heap l !! p) as [np|] eqn:Ep; [|done]. exfalso. rewrite Hout1 in Hp1; [congruence|done|done].
    + rewrite Hins. cbn [heap]. unfold h'. by rewrite lookup_alter_ne, !lookup_alter_eq, Hnew.
    + done.
    + cbn. unfold removedCounter. lia.
    + by apply to_list_rep.
    + done.
Qed.
End dispatch.

(** a dispatch over [sample_list] with an [append] under way whose node is
    allocated: the counter is read, the first listener called, the second
    removed, the new one linked, and it is called last *)
Lemma dispatch_snapshot_witness :
  exists l0 l2 d2, doAllocateNode 40 sample_list = (4%positive, l0) /\
    rtc (dstep false) (l0, [RBack 4%positive], start l0) (l2, [], d2) /\ invoked d2 = [1; 2; 4]%positive /\
    NoDup (invoked d2) /\
    filter (fun n => n ∈ [1; 3; 2]%positive) (invoked d2) `sublist_of` [1; 3; 2]%positive /\
    (cursor d2 = None -> forall n, n ∈ [1; 3; 2]%positive -> n ∈ to_list l2 -> n ∈ invoked d2) /\
    (Some 4 <> None -> forall n, n ∈ invoked d2 -> is_Some (heap l0 !! n)).
Proof.
  set (l0 := (doAllocateNode 40 sample_list).2).
  set (l1 := (remove [1; 4]%positive 3%positive l0).2).
  set (l2 := link_back 4%positive l1).
  set (d1 := mk_disp (Some 1%positive) (Some 4) false []).
  assert (Hrep : rep l0 [1; 3; 2]%positive).
  { pose proof (doAllocateNode_spec 40 sample_list [1; 3; 2]%positive 4%positive l0 (proj1 sample_list_refines)) as Ha.
    apply Ha. vm_compute. reflexivity. }
  assert (Huw : underway l0 [1; 3; 2]%positive [RBack 4%positive]).
  { split; cbn [mbind list_bind allocated locked app].
    - apply NoDup_singleton.
    - intros p ->%list_elem_of_singleton. split; [apply (bool_decide_unpack _); by vm_compute|].
      exists 40, 4. split; [by vm_compute|]. by vm_compute.
    - by intros b ?%not_elem_of_nil. }
  assert (S1 : rtc (dstep false) (l0, [RBack 4%positive], start l0) (l0, [RBack 4%positive], d1)).
  { apply rtc_once. exact (D_load false l0 [RBack 4%positive] (Some 1%positive) false []). }
  assert (S2 : rtc (dstep false) (l0, [RBack 4%positive], d1) (l2, [], mk_disp None (Some 4) false [1; 2; 4]%positive)).
  { eapply rtc_l; [by apply (D_visit false l0 _ 1%positive 4 [] (mk_node None (Some 3%positive) 10 1))|].
    eapply rtc_l; [apply (D_remove false l0 _ _ 3%positive)|].
    { apply (bool_decide_unpack _). by vm_compute. }
    { intros _. by apply not_elem_of_nil. }
    eapply rtc_l; [by apply (D_link false l1 [] [] _ (RBack 4%positive))|].
    eapply rtc_l; [by apply (D_next false l2 _ 1%positive 4 [1%positive] (mk_node None (Some 2%positive) 10 1))|].
    eapply rtc_l; [by apply (D_visit false l2 _ 2%positive 4 [1%positive] (mk_node (Some 1%positive) (Some 4%positive) 20 2))|].
    eapply rtc_l; [by apply (D_next false l2 _ 2%positive 4 [1; 2]%positive (mk_node (Some 1%positive) (Some 4%positive) 20 2))|].
    eapply rtc_l; [by apply (D_visit false l2 _ 4%positive 4 [1; 2]%positive (mk_node (Some 2%positive) None 40 4))|].
    apply rtc_once. by apply (D_next false l2 _ 4%positive 4 [1; 2; 4]%positive (mk_node (Some 2%positive) None 40 4)). }
  exists l0, l2, (mk_disp None (Some 4) false [1; 2; 4]%positive). split; [by vm_compute|].
  split; [by etrans; [exact S1|exact S2]|]. split; [done|].
  apply (dispatch_snapshot l0 [1; 3; 2]%positive [RBack 4%positive] l0 [RBack 4%positive] d1 l2 []
    (mk_disp None (Some 4) false [1; 2; 4]%positive)); [exact Hrep|exact Huw|exact S1|exact S2].
Defined.

(** [sample_list] holds 1, 3 and 2: a dispatch is at 3 when it is removed twice;
    and 1 is removed by one thread while another inserts before it *)
Lemma racing_calls_lose_listeners_witness :
  to_list (insert_cb [3%positive] 40 2%positive (remove [3%positive] 3%positive sample_list).2).2 = [1; 4; 2]%positive /\
  to_list (remove [3%positive] 3%positive
    (insert_cb [3%positive] 40 2%positive (remove [3%positive] 3%positive sample_list).2).2).2 = [1; 2]%positive /\
  (exists p l' nd, rtc (dstep true) (sample_list, [], start sample_list) (l', [], start sample_list) /\
     heap sample_list !! p = None /\ heap l' !! p = Some nd /\ callback nd = 40 /\
     counter nd <> removedCounter /\ to_list l' = [3; 2]%positive /\ p ∉ [3; 2]%positive).
Proof.
  destruct (racing_calls_lose_listeners sample_list 40 [] [] 1%positive 3%positive 2%positive 1%positive
    [3%positive] (start sample_list)) as [H1 _]; [done|].
  destruct (racing_calls_lose_listeners sample_list 40 [] [3; 2]%positive 1%positive 3%positive 2%positive 1%positive
    [3%positive] (start sample_list)) as [_ H2]; [done|].
  pose proof (proj1 sample_list_refines) as Hr.
  specialize (H1 Hr (list_elem_of_here _ _)). specialize (H2 Hr).
  destruct (remove [3%positive] 3%positive sample_list) as [r1 l1] eqn:E1.
  destruct (insert_cb [3%positive] 40 2%positive l1) as [p l2] eqn:E2.
  destruct (remove [3%positive] 3%positive l2) as [r2 l3] eqn:E3. cbn [snd]. rewrite E2. cbn [snd]. rewrite E3. cbn [snd].
  destruct H1 as (_ & T2 & _ & T3).
  assert (Ep : p = 4%positive).
  { assert (E : (insert_cb [3%positive] 40 2%positive (remove [3%positive] 3%positive sample_list).2).1 = 4%positive)
      by (by vm_compute). rewrite E1 in E. cbn [snd] in E. by rewrite E2 in E. }
  rewrite Ep in T2. split; [exact T2|]. split; [exact T3|exact H2].
Defined.

(** The counter has 32 bits. When a registration wraps it around during a
    dispatch, the listener gets a number below the snapshot, and the dispatch
    that was running calls it; and a dispatch that reads the counter between the
    wrap and the reset finds 0, and calls nobody. *)
Lemma wrapped_counter {C : Type} (a x : C) :
  let '(pa, l1) := append a CallbackListBase in
  let l2 := set_counter (2 ^ 32 - 1) l1 in
  let '(px, l3) := append x l2 in
  eligible (currentCounter l2) <$> heap l3 !! px = Some true /\
  eligible (u32 (currentCounter l2 + 1)) <$> heap l2 !! pa = Some false.
Proof. by vm_compute. Qed.
