(* ===== verification/EventQueue.v ===== *)
(** * EventQueue
    [EventDispatcherBase] and [EventQueueBase] of [3rd/include/eventpp]
    ([eventdispatcher.h], [eventqueue.h], [internal/eventqueue_i.h]), the queue
    through which the agent hands frames to its sessions.

    The queue's buffers are [BufferedItem]s that move between the queue and a
    free list. Functions that dispatch release the queue's mutex while callbacks
    run; [arrivals] is what other threads enqueue meanwhile, one list per
    dispatched or examined event. Callbacks act on a state [St] of their own. *)

From Stdlib Require Import ZArith Lia.
From stdpp Require Import base numbers list option gmap fin_maps strings.
From S2P Require Import Prelude CallbackList CallbackListFacts.

Section event_queue.
Context {E : Type} `{Countable E} {A C St : Type}.
(** a call of a listener *)
Variable run_callback : C -> A -> St -> St.

(** ** [EventDispatcherBase] *)

Definition dispatcher : Type := gmap E (clist C).

(** [eventCallbackListMap[event]] creates a missing list *)
Definition list_at (e : E) (d : dispatcher) : clist C := default CallbackListBase (d !! e).
Definition appendListener (e : E) (cb : C) (d : dispatcher) : positive * dispatcher :=
  let '(h, l) := append cb (list_at e d) in (h, <[e := l]> d).
Definition prependListener (e : E) (cb : C) (d : dispatcher) : positive * dispatcher :=
  let '(h, l) := prepend cb (list_at e d) in (h, <[e := l]> d).
Definition insertListener (e : E) (cb : C) (before : positive) (d : dispatcher) : positive * dispatcher :=
  let '(h, l) := insert_cb [] cb before (list_at e d) in (h, <[e := l]> d).
Definition doFindCallableList (e : E) (d : dispatcher) : option (clist C) := d !! e.
(** [pins] are the nodes running loops hold *)
Definition removeListener (pins : list positive) (e : E) (h : positive) (d : dispatcher) : bool * dispatcher :=
  match doFindCallableList e d with
  | Some l => let '(b, l') := remove pins h l in (b, <[e := l']> d)
  | None => (false, d)
  end.
Definition hasAnyListener (e : E) (d : dispatcher) : bool :=
  match doFindCallableList e d with Some l => negb (empty l) | None => false end.
Definition dispatcher_ownsHandle (e : E) (h : positive) (d : dispatcher) : bool :=
  match doFindCallableList e d with Some l => ownsHandle [] h l | None => false end.
(** [directDispatch(e, args...)]: without mixins *)
Definition directDispatch (e : E) (args : A) (d : dispatcher) (st : St) : St :=
  match doFindCallableList e d with
  | Some l => forEach (fun cb st => run_callback cb args st) l st
  | None => st
  end.

(** ** [BufferedItem] *)

Definition QueuedEvent : Type := E * A.
(** [None] when [dtor] is null *)
Definition BufferedItem : Type := option QueuedEvent.
Definition item_set (ev : QueuedEvent) (i : BufferedItem) : outcome BufferedItem :=
  match i with None => Ret (Some ev) | Some _ => UB "assert(dtor == nullptr)" end.
Definition item_get (i : BufferedItem) : outcome QueuedEvent := deref "assert(dtor != nullptr)" i.
Definition item_clear (i : BufferedItem) : outcome BufferedItem :=
  match i with Some _ => Ret None | None => UB "assert(dtor != nullptr)" end.

(** ** [EventQueueBase] *)

Record equeue := mk_eq {
  listeners : dispatcher;
  queueList : list BufferedItem;
  freeList : list BufferedItem;
  queueEmptyCounter : Z;
  queueNotifyCounter : Z;
}.
Definition EventQueueBase : equeue := mk_eq ∅ [] [] 0 0.
Definition set_listeners (d : dispatcher) (q : equeue) : equeue :=
  mk_eq d (queueList q) (freeList q) (queueEmptyCounter q) (queueNotifyCounter q).
Definition set_queue (l : list BufferedItem) (q : equeue) : equeue :=
  mk_eq (listeners q) l (freeList q) (queueEmptyCounter q) (queueNotifyCounter q).
Definition set_free (l : list BufferedItem) (q : equeue) : equeue :=
  mk_eq (listeners q) (queueList q) l (queueEmptyCounter q) (queueNotifyCounter q).
(** [CounterGuard] *)
Definition add_empty (n : Z) (q : equeue) : equeue :=
  mk_eq (listeners q) (queueList q) (freeList q) (queueEmptyCounter q + n) (queueNotifyCounter q).
(** [DisableQueueNotify] *)
Definition add_notify (n : Z) (q : equeue) : equeue :=
  mk_eq (listeners q) (queueList q) (freeList q) (queueEmptyCounter q) (queueNotifyCounter q + n).

Definition emptyQueue (q : equeue) : bool :=
  bool_decide (queueList q = []) && (queueEmptyCounter q =? 0).
Definition doCanNotifyQueueAvailable (q : equeue) : bool := queueNotifyCounter q =? 0.
(** also the condition [wait] and [waitFor] wait for *)
Definition doCanProcess (q : equeue) : bool := negb (emptyQueue q) && doCanNotifyQueueAvailable q.

Definition doEnqueue (ev : QueuedEvent) (q : equeue) : outcome equeue :=
  let '(it, q1) := match freeList q with
                   | i :: rest => (i, set_free rest q)
                   | [] => (None, q)
                   end in
  it' ← item_set ev it;
  Ret (set_queue (queueList q1 ++ [it']) q1).
(** [enqueue]: whether a waiting thread is notified *)
Definition enqueue (ev : QueuedEvent) (q : equeue) : outcome (bool * equeue) :=
  q' ← doEnqueue ev q; Ret (doCanProcess q', q').
Fixpoint enqueues (evs : list QueuedEvent) (q : equeue) : outcome equeue :=
  match evs with
  | [] => Ret q
  | ev :: evs => '(_, q') ← enqueue ev q; enqueues evs q'
  end.

(** [clear()] of every item *)
Fixpoint clear_items (l : list BufferedItem) : outcome (list BufferedItem) :=
  match l with
  | [] => Ret []
  | i :: l => i' ← item_clear i; l' ← clear_items l; Ret (i' :: l')
  end.
Definition clearEvents (q : equeue) : outcome equeue :=
  if bool_decide (queueList q = []) then Ret q
  else
    cleared ← clear_items (queueList q);
    let q1 := set_queue [] q in
    Ret (set_free (freeList q1 ++ cleared) q1).

Definition doDispatchQueuedEvent (ev : QueuedEvent) (q : equeue) (st : St) : St :=
  directDispatch (fst ev) (snd ev) (listeners q) st.

(** the loop of [process] over [tempList]: the cleared items *)
Fixpoint process_loop (temp : list BufferedItem) (arrivals : list (list QueuedEvent)) (q : equeue) (st : St)
    : outcome (list BufferedItem * equeue * St) :=
  match temp with
  | [] => Ret ([], q, st)
  | i :: temp =>
      ev ← item_get i;
      let st1 := doDispatchQueuedEvent ev q st in
      i' ← item_clear i;
      q1 ← enqueues (default [] (hd_error arrivals)) q;
      '(cleared, q2, st2) ← process_loop temp (tl arrivals) q1 st1;
      Ret (i' :: cleared, q2, st2)
  end.
Definition process (arrivals : list (list QueuedEvent)) (q : equeue) (st : St) : outcome (bool * equeue * St) :=
  if bool_decide (queueList q = []) then Ret (false, q, st)
  else
    let temp := queueList q in
    '(cleared, q1, st1) ← process_loop temp arrivals (set_queue [] (add_empty 1 q)) st;
    Ret (true, add_empty (-1) (set_free (freeList q1 ++ cleared) q1), st1).

Definition processOne (arrivals : list QueuedEvent) (q : equeue) (st : St) : outcome (bool * equeue * St) :=
  match queueList q with
  | [] => Ret (false, q, st)
  | i :: rest =>
      let q1 := set_queue rest (add_empty 1 q) in
      ev ← item_get i;
      let st1 := doDispatchQueuedEvent ev q1 st in
      i' ← item_clear i;
      q2 ← enqueues arrivals q1;
      Ret (true, add_empty (-1) (set_free (freeList q2 ++ [i']) q2), st1)
  end.

(** the loop of [processIf]: the items kept and the items cleared *)
Fixpoint processIf_loop (predictor : A -> bool) (temp : list BufferedItem)
    (arrivals : list (list QueuedEvent)) (q : equeue) (st : St)
    : outcome (list BufferedItem * list BufferedItem * equeue * St) :=
  match temp with
  | [] => Ret ([], [], q, st)
  | i :: temp =>
      ev ← item_get i;
      if predictor (snd ev) then
        let st1 := doDispatchQueuedEvent ev q st in
        i' ← item_clear i;
        q1 ← enqueues (default [] (hd_error arrivals)) q;
        '(kept, idle, q2, st2) ← processIf_loop predictor temp (tl arrivals) q1 st1;
        Ret (kept, i' :: idle, q2, st2)
      else
        q1 ← enqueues (default [] (hd_error arrivals)) q;
        '(kept, idle, q2, st2) ← processIf_loop predictor temp (tl arrivals) q1 st;
        Ret (i :: kept, idle, q2, st2)
  end.
Definition processIf (predictor : A -> bool) (arrivals : list (list QueuedEvent)) (q : equeue) (st : St)
    : outcome (bool * equeue * St) :=
  if bool_decide (queueList q = []) then Ret (false, q, st)
  else
    '(kept, idle, q1, st1) ← processIf_loop predictor (queueList q) arrivals (set_queue [] (add_empty 1 q)) st;
    let q2 := set_queue (kept ++ queueList q1) q1 in
    let q3 := set_free (freeList q2 ++ idle) q2 in
    Ret (negb (bool_decide (idle = [])), add_empty (-1) q3, st1).

(** the loop of [processUntil] stops at the first event the predictor accepts *)
Fixpoint processUntil_loop (predictor : A -> bool) (temp : list BufferedItem)
    (arrivals : list (list QueuedEvent)) (q : equeue) (st : St)
    : outcome (list BufferedItem * list BufferedItem * equeue * St) :=
  match temp with
  | [] => Ret ([], [], q, st)
  | i :: temp' =>
      ev ← item_get i;
      if predictor (snd ev) then Ret (temp, [], q, st)
      else
        let st1 := doDispatchQueuedEvent ev q st in
        i' ← item_clear i;
        q1 ← enqueues (default [] (hd_error arrivals)) q;
        '(kept, idle, q2, st2) ← processUntil_loop predictor temp' (tl arrivals) q1 st1;
        Ret (kept, i' :: idle, q2, st2)
  end.
Definition processUntil (predictor : A -> bool) (arrivals : list (list QueuedEvent)) (q : equeue) (st : St)
    : outcome (bool * equeue * St) :=
  if bool_decide (queueList q = []) then Ret (false, q, st)
  else
    '(kept, idle, q1, st1) ← processUntil_loop predictor (queueList q) arrivals (set_queue [] (add_empty 1 q)) st;
    let q2 := set_queue (kept ++ queueList q1) q1 in
    let q3 := set_free (freeList q2 ++ idle) q2 in
    Ret (negb (bool_decide (idle = [])), add_empty (-1) q3, st1).

Definition peekEvent (q : equeue) : outcome (option QueuedEvent) :=
  match queueList q with
  | [] => Ret None
  | i :: _ => ev ← item_get i; Ret (Some ev)
  end.
Definition takeEvent (q : equeue) : outcome (option QueuedEvent * equeue) :=
  match queueList q with
  | [] => Ret (None, q)
  | i :: rest =>
      ev ← item_get i;
      i' ← item_clear i;
      let q1 := set_queue rest q in
      Ret (Some ev, set_free (freeList q1 ++ [i']) q1)
  end.
End event_queue.
Arguments equeue E {_ _} A C : assert.
Arguments dispatcher E {_ _} C : assert.
