(* ===== verification/EventQueueFacts.v ===== *)
(** * EventQueueFacts
    The event queue as a first-in first-out queue of events over listener lists:
    what each processing function dispatches, keeps and recycles. *)

From Stdlib Require Import ZArith Lia.
From stdpp Require Import base numbers list option gmap fin_maps strings.
From S2P Require Import Prelude CallbackList CallbackListFacts EventQueue.

Section facts.
Context {E : Type} `{Countable E} {A C St : Type}.
Variable run_callback : C -> A -> St -> St.
Notation equeue := (equeue E A C).
Notation ev := (@QueuedEvent E A).

(** the queue holds the events [evs]; queued buffers are full, free ones empty *)
Definition holds (q : equeue) (evs : list ev) : Prop :=
  queueList q = Some <$> evs /\ Forall (fun i => i = None) (freeList q).
(** everything but the buffers is unchanged *)
Definition same_rest (q q' : equeue) : Prop :=
  listeners q' = listeners q /\ queueEmptyCounter q' = queueEmptyCounter q /\
  queueNotifyCounter q' = queueNotifyCounter q.

Lemma same_rest_trans q1 q2 q3 : same_rest q1 q2 -> same_rest q2 q3 -> same_rest q1 q3.
Proof. unfold same_rest. intros (-> & -> & ->) (-> & -> & ->). done. Qed.

Lemma doEnqueue_spec e q evs :
  holds q evs -> exists q', doEnqueue e q = Ret q' /\ holds q' (evs ++ [e]) /\ same_rest q q'.
Proof.
  intros [Hq Hf]. unfold doEnqueue. destruct (freeList q) as [|i rest] eqn:Ef.
  - eexists. split; [done|]. split; [|done]. split; simpl; [by rewrite Hq, fmap_app|by rewrite Ef].
  - apply list.Forall_cons in Hf as [-> Hf]. eexists. split; [done|]. split; [|done].
    split; simpl; [by rewrite Hq, fmap_app|done].
Qed.

Lemma enqueues_spec es q evs :
  holds q evs -> exists q', enqueues es q = Ret q' /\ holds q' (evs ++ es) /\ same_rest q q'.
Proof.
  revert q evs. induction es as [|e es IH]; intros q evs Hq; cbn [enqueues].
  - exists q. rewrite app_nil_r. done.
  - unfold enqueue. destruct (doEnqueue_spec e q evs Hq) as (q1 & -> & Hq1 & Hs1).
    cbn [mbind outcome_bind]. destruct (IH q1 _ Hq1) as (q2 & -> & Hq2 & Hs2).
    exists q2. rewrite <- app_assoc in Hq2. split_and!; [done|done|by eapply same_rest_trans].
Qed.

(** the dispatch of a sequence of events *)
Definition dispatches (d : dispatcher E C) (evs : list ev) (st : St) : St :=
  fold_left (fun st e => directDispatch run_callback (fst e) (snd e) d st) evs st.
(** what arrives while [n] events are handled *)
Definition arrived (n : nat) (arrivals : list (list ev)) : list ev := mjoin (take n arrivals).

Lemma arrived_S n arrivals :
  arrived (S n) arrivals = default [] (hd_error arrivals) ++ arrived n (tl arrivals).
Proof. destruct arrivals; [by destruct n|done]. Qed.

Lemma process_loop_spec evs arrivals q st evs0 :
  holds q evs0 ->
  exists cleared q', process_loop run_callback (Some <$> evs) arrivals q st
      = Ret (cleared, q', dispatches (listeners q) evs st) /\
    Forall (fun i => i = None) cleared /\ length cleared = length evs /\
    holds q' (evs0 ++ arrived (length evs) arrivals) /\ same_rest q q'.
Proof.
  revert arrivals q st evs0. induction evs as [|e evs IH]; intros arrivals q st evs0 Hq.
  - exists [], q. split_and!; try done. unfold arrived. simpl. by rewrite app_nil_r.
  - cbn [fmap list_fmap process_loop item_get deref mbind outcome_bind item_clear].
    destruct (enqueues_spec (default [] (hd_error arrivals)) q evs0 Hq) as (q1 & -> & Hq1 & Hs1).
    cbn [mbind outcome_bind].
    destruct (IH (tl arrivals) q1 (doDispatchQueuedEvent run_callback e q st) _ Hq1)
      as (cleared & q2 & -> & Hc & Hl & Hq2 & Hs2).
    cbn [mbind outcome_bind]. exists (None :: cleared), q2. destruct Hs1 as (Hl1 & Hs1). split_and!.
    + by rewrite Hl1.
    + by constructor.
    + simpl. by rewrite Hl.
    + simpl length. rewrite arrived_S, app_assoc. done.
    + eapply same_rest_trans; [|exact Hs2]. by split.
Qed.

Lemma processIf_loop_spec p evs arrivals q st evs0 :
  holds q evs0 ->
  exists idle q', processIf_loop run_callback p (Some <$> evs) arrivals q st
      = Ret (Some <$> filter (fun e => p (snd e) = false) evs, idle, q',
          dispatches (listeners q) (filter (fun e => p (snd e) = true) evs) st) /\
    Forall (fun i => i = None) idle /\ length idle = length (filter (fun e => p (snd e) = true) evs) /\
    holds q' (evs0 ++ arrived (length evs) arrivals) /\ same_rest q q'.
Proof.
  revert arrivals q st evs0. induction evs as [|e evs IH]; intros arrivals q st evs0 Hq.
  - exists [], q. split_and!; try done. unfold arrived. simpl. by rewrite app_nil_r.
  - cbn [fmap list_fmap processIf_loop item_get deref mbind outcome_bind item_clear].
    destruct (enqueues_spec (default [] (hd_error arrivals)) q evs0 Hq) as (q1 & Eq1 & Hq1 & Hs1).
    rewrite !filter_cons. simpl length. rewrite arrived_S, app_assoc.
    pose proof Hs1 as (Hl1 & _). destruct (p (snd e)) eqn:Ep.
    + rewrite (decide_True (P := true = true)), (decide_False (P := true = false)) by done.
      rewrite Eq1. cbn [mbind outcome_bind].
      destruct (IH (tl arrivals) q1 (doDispatchQueuedEvent run_callback e q st) _ Hq1)
        as (idle & q2 & -> & Hc & Hl & Hq2 & Hs2).
      cbn [mbind outcome_bind]. exists (None :: idle), q2. split_and!; [by rewrite Hl1|by constructor| |done|].
      * simpl. by rewrite Hl.
      * by eapply same_rest_trans.
    + rewrite (decide_False (P := false = true)), (decide_True (P := false = false)) by done.
      rewrite Eq1. cbn [mbind outcome_bind].
      destruct (IH (tl arrivals) q1 st _ Hq1) as (idle & q2 & -> & Hc & Hl & Hq2 & Hs2).
      cbn [mbind outcome_bind]. exists idle, q2. split_and!; [by rewrite Hl1|done|done|done|].
      by eapply same_rest_trans.
Qed.

(** the events before the first one a predictor accepts, and the others *)
Fixpoint until (p : A -> bool) (evs : list ev) : list ev * list ev :=
  match evs with
  | [] => ([], [])
  | e :: evs' => if p (snd e) then ([], evs) else let '(a, b) := until p evs' in (e :: a, b)
  end.

Lemma processUntil_loop_spec p evs arrivals q st evs0 :
  holds q evs0 ->
  let '(done, rest) := until p evs in
  exists idle q', processUntil_loop run_callback p (Some <$> evs) arrivals q st
      = Ret (Some <$> rest, idle, q', dispatches (listeners q) done st) /\
    Forall (fun i => i = None) idle /\ length idle = length done /\
    holds q' (evs0 ++ arrived (length done) arrivals) /\ same_rest q q'.
Proof.
  revert arrivals q st evs0. induction evs as [|e evs IH]; intros arrivals q st evs0 Hq.
  - exists [], q. split_and!; try done. unfold arrived. simpl. by rewrite app_nil_r.
  - cbn [fmap list_fmap processUntil_loop item_get deref mbind outcome_bind item_clear until].
    destruct (p (snd e)).
    + exists [], q. split_and!; try done. unfold arrived. simpl. by rewrite app_nil_r.
    + destruct (enqueues_spec (default [] (hd_error arrivals)) q evs0 Hq) as (q1 & Eq1 & Hq1 & Hs1).
      specialize (IH (tl arrivals) q1 (doDispatchQueuedEvent run_callback e q st) _ Hq1).
      destruct (until p evs) as [dn rest]. rewrite Eq1. cbn [mbind outcome_bind].
      destruct IH as (idle & q2 & -> & Hc & Hl & Hq2 & Hs2). cbn [mbind outcome_bind].
      exists (None :: idle), q2. pose proof Hs1 as (Hl1 & _). split_and!; [by rewrite Hl1|by constructor| | |].
      * simpl. by rewrite Hl.
      * simpl length. by rewrite arrived_S, app_assoc.
      * by eapply same_rest_trans.
Qed.

Lemma same_rest_guard l lf q q1 :
  same_rest (set_queue l (add_empty 1 q)) q1 -> same_rest q (add_empty (-1) (set_free lf q1)).
Proof.
  intros (Hl & He & Hn). unfold same_rest. simpl in *. split_and!; [done| |done]. rewrite He. simpl. lia.
Qed.

Lemma same_rest_guard_kept l lq lf q q1 :
  same_rest (set_queue l (add_empty 1 q)) q1 ->
  same_rest q (add_empty (-1) (set_free lf (set_queue lq q1))).
Proof. intros (Hl & He & Hn). apply (same_rest_guard l). done. Qed.

Lemma holds_start q evs : holds q evs -> holds (set_queue [] (add_empty 1 q)) [].
Proof. by intros [_ ?]. Qed.

(** the queue is read when the loop starts *)
Lemma nonempty_queue q evs : holds q evs -> bool_decide (queueList q = []) = bool_decide (evs = []).
Proof. intros [-> _]. by destruct evs. Qed.

Lemma enqueue_spec (q : equeue) (evs : list ev) (e : ev) :
  holds q evs -> exists b q', enqueue e q = Ret (b, q') /\ holds q' (evs ++ [e]) /\ same_rest q q'.
Proof.
  intros Hq. unfold enqueue. destruct (doEnqueue_spec e q evs Hq) as (q' & -> & Hq' & Hs').
  by eexists _, q'.
Qed.

Lemma process_spec (q : equeue) (evs : list ev) (arrivals : list (list ev)) (st : St) :
  holds q evs ->
  exists q', process run_callback arrivals q st
       = Ret (negb (bool_decide (evs = [])), q', dispatches (listeners q) evs st) /\
     holds q' (arrived (length evs) arrivals) /\ same_rest q q'.
Proof.
  intros Hq. pose proof (holds_start q evs Hq) as Hs. unfold process. rewrite (nonempty_queue q evs Hq).
  destruct (decide (evs = [])) as [->|E0]; [by exists q|].
  rewrite (bool_decide_eq_false_2 _ E0). destruct Hq as [-> _].
  destruct (process_loop_spec evs arrivals _ st [] Hs) as (cl & q1 & -> & Hc & Hl & [Hq1 Hf1] & Hr).
  cbn [mbind outcome_bind]. eexists. split; [done|]. split.
  - split; simpl; [done|]. by apply Forall_app.
  - by eapply same_rest_guard.
Qed.

Lemma existsb_filter (p : A -> bool) (evs : list ev) :
  existsb (fun e => p (snd e)) evs = negb (bool_decide (filter (fun e => p (snd e) = true) evs = [])).
Proof.
  induction evs as [|e evs IH]; [done|]. simpl existsb. rewrite filter_cons.
  destruct (p (snd e)); [by rewrite decide_True|]. by rewrite decide_False.
Qed.
(** as many buffers are released as events were dispatched *)
Lemma same_length_nil {X Y} (l1 : list X) (l2 : list Y) :
  length l1 = length l2 -> bool_decide (l1 = []) = bool_decide (l2 = []).
Proof. intros Hl. apply bool_decide_ext. by destruct l1, l2. Qed.

Lemma processIf_spec (q : equeue) (evs : list ev) (p : A -> bool) (arrivals : list (list ev)) (st : St) :
  holds q evs ->
  exists q', processIf run_callback p arrivals q st
       = Ret (existsb (fun e => p (snd e)) evs, q',
           dispatches (listeners q) (filter (fun e => p (snd e) = true) evs) st) /\
     holds q' (filter (fun e => p (snd e) = false) evs ++ arrived (length evs) arrivals) /\ same_rest q q'.
Proof.
  intros Hq. pose proof (holds_start q evs Hq) as Hs. unfold processIf. rewrite (nonempty_queue q evs Hq).
  destruct (decide (evs = [])) as [->|E0]; [by exists q|].
  rewrite (bool_decide_eq_false_2 _ E0). destruct Hq as [-> _].
  destruct (processIf_loop_spec p evs arrivals _ st [] Hs) as (idle & q1 & -> & Hc & Hl & [Hq1 Hf1] & Hr).
  cbn [mbind outcome_bind]. rewrite existsb_filter, <- (same_length_nil _ _ Hl). eexists. split; [done|].
  split; [|by eapply same_rest_guard_kept]. split; simpl; [|by apply Forall_app].
  by rewrite fmap_app, Hq1.
Qed.

Lemma processUntil_spec (q : equeue) (evs : list ev) (p : A -> bool) (arrivals : list (list ev)) (st : St) :
  holds q evs ->
  exists q', processUntil run_callback p arrivals q st
       = Ret (negb (bool_decide ((until p evs).1 = [])), q', dispatches (listeners q) (until p evs).1 st) /\
     holds q' ((until p evs).2 ++ arrived (length (until p evs).1) arrivals) /\ same_rest q q'.
Proof.
  intros Hq. pose proof (holds_start q evs Hq) as Hs. unfold processUntil. rewrite (nonempty_queue q evs Hq).
  destruct (decide (evs = [])) as [->|E0]; [by exists q|].
  rewrite (bool_decide_eq_false_2 _ E0). destruct Hq as [-> _].
  pose proof (processUntil_loop_spec p evs arrivals _ st [] Hs) as Hu.
  destruct (until p evs) as [dn rest]. destruct Hu as (idle & q1 & -> & Hc & Hl & [Hq1 Hf1] & Hr).
  cbn [mbind outcome_bind fst snd]. rewrite <- (same_length_nil _ _ Hl). eexists. split; [done|].
  split; [|by eapply same_rest_guard_kept]. split; simpl; [|by apply Forall_app].
  by rewrite fmap_app, Hq1.
Qed.

(** C14. The event queue is first in, first out and loses nothing: on a queue
    that holds the events [evs], with other threads enqueuing during the
    callbacks, no assertion on a buffer fails; [enqueue] adds at the end;
    [process] dispatches exactly [evs], in order, and leaves what arrived
    meanwhile; [processIf] dispatches exactly the events its predictor
    accepts, in order, and keeps the others, in order, before what arrived;
    [processUntil] dispatches the events before the first accepted one and
    keeps the rest before what arrived; each reports whether it dispatched
    anything. *)
Theorem event_queue_fifo (q : equeue) (evs : list ev) (e : ev) (p : A -> bool)
    (arrivals : list (list ev)) (st : St) :
  holds q evs ->
  (exists b q', enqueue e q = Ret (b, q') /\ holds q' (evs ++ [e]) /\ same_rest q q') /\
  (exists q', process run_callback arrivals q st
       = Ret (negb (bool_decide (evs = [])), q', dispatches (listeners q) evs st) /\
     holds q' (arrived (length evs) arrivals) /\ same_rest q q') /\
  (exists q', processIf run_callback p arrivals q st
       = Ret (existsb (fun e => p (snd e)) evs, q',
           dispatches (listeners q) (filter (fun e => p (snd e) = true) evs) st) /\
     holds q' (filter (fun e => p (snd e) = false) evs ++ arrived (length evs) arrivals) /\ same_rest q q') /\
  (exists q', processUntil run_callback p arrivals q st
       = Ret (negb (bool_decide ((until p evs).1 = [])), q', dispatches (listeners q) (until p evs).1 st) /\
     holds q' ((until p evs).2 ++ arrived (length (until p evs).1) arrivals) /\ same_rest q q').
Proof.
  intros Hq. split_and!; [by apply enqueue_spec|by apply process_spec|by apply processIf_spec|
    by apply processUntil_spec].
Qed.

(** Single events: [peekEvent] shows the oldest event, [takeEvent] removes
    exactly that one, [processOne] dispatches exactly that one before anything
    that arrives meanwhile, and [clearEvents] empties the queue; every buffer
    they release is empty and goes back to the free list. *)
Theorem event_queue_single (q : equeue) (evs : list ev) (arr : list ev) (st : St) :
  holds q evs ->
  peekEvent q = Ret (hd_error evs) /\
  (exists q', takeEvent q = Ret (hd_error evs, q') /\ holds q' (tl evs) /\ same_rest q q' /\
     (length (queueList q') + length (freeList q') = length (queueList q) + length (freeList q))%nat) /\
  (exists q', processOne run_callback arr q st =
       Ret (negb (bool_decide (evs = [])), q', dispatches (listeners q) (take 1 evs) st) /\
     holds q' (tl evs ++ if bool_decide (evs = []) then [] else arr) /\ same_rest q q') /\
  (exists q', clearEvents q = Ret q' /\ holds q' [] /\ same_rest q q' /\
     (length (freeList q') = length (queueList q) + length (freeList q))%nat).
Proof.
  intros Hq. pose proof Hq as [Hl Hf]. split_and!.
  - unfold peekEvent. rewrite Hl. by destruct evs.
  - unfold takeEvent. rewrite Hl. destruct evs as [|e evs].
    + exists q. split_and!; try done. by rewrite Hl.
    + cbn [fmap list_fmap item_get deref item_clear mbind outcome_bind]. eexists. split; [done|].
      split_and!; try done.
      * split; [done|]. apply Forall_app. split; [done|]. by constructor.
      * simpl queueList. simpl freeList. rewrite ?Hl, length_app. simpl. lia.
  - unfold processOne. rewrite Hl. destruct evs as [|e evs].
    + exists q. split_and!; try done.
    + cbn [fmap list_fmap item_get deref item_clear mbind outcome_bind].
      assert (Hs : holds (set_queue (Some <$> evs) (add_empty 1 q)) evs) by (by split).
      destruct (enqueues_spec arr _ evs Hs) as (q1 & -> & [Hq1 Hf1] & Hr). cbn [mbind outcome_bind].
      eexists. split; [done|]. split; [|by eapply same_rest_guard].
      split; simpl; [done|]. apply Forall_app. split; [done|]. by constructor.
  - unfold clearEvents. rewrite (nonempty_queue q evs Hq). destruct (decide (evs = [])) as [->|E0].
    + exists q. split_and!; try done. by rewrite Hl.
    + rewrite (bool_decide_eq_false_2 _ E0), Hl.
      assert (Hcl : clear_items (Some <$> evs) = Ret (replicate (length evs) None)).
      { clear. induction evs as [|e evs IH]; [done|]. cbn [fmap list_fmap clear_items item_clear mbind outcome_bind].
        by rewrite IH. }
      rewrite Hcl. cbn [mbind outcome_bind]. eexists. split; [done|]. split_and!; try done.
      * split; [done|]. apply Forall_app. split; [done|]. by apply Forall_replicate.
      * simpl. rewrite length_app, length_replicate, length_fmap. lia.
Qed.

(** ** Listeners *)

(** the listeners of each event, in order *)
Definition listening (d : dispatcher E C) (m : E -> list (positive * C)) : Prop :=
  forall e, refines (list_at e d) (m e).

Lemma directDispatch_at (d : dispatcher E C) a e args st :
  refines (list_at e d) a ->
  directDispatch run_callback e args d st = fold_left (fun st cb => run_callback cb args st) a.*2 st.
Proof.
  intros Hm. unfold directDispatch, doFindCallableList, list_at in *.
  destruct (d !! e) as [l|]; simpl in Hm.
  - pose proof Hm as [Hr Hc]. unfold forEach, doForEachIf. pose proof Hr as [Hs _ -> _ Hct _].
    erewrite (forEach_loop_spec (fun cb st => run_callback cb args st));
      [done|exact Hs|exact Hct|by eapply rep_length|exact Hc].
  - destruct Hm as [[_ _ Hh _ _ _] _]. simpl in Hh. by destruct a.
Qed.
Lemma directDispatch_spec d m e args st :
  listening d m ->
  directDispatch run_callback e args d st
    = fold_left (fun st cb => run_callback cb args st) ((m e).*2) st.
Proof. intros Hm. apply directDispatch_at, Hm. Qed.

Lemma listening_put d m e l a :
  listening d m -> refines l a ->
  listening (<[e := l]> d) (fun e' => if decide (e' = e) then a else m e').
Proof.
  intros Hm Hl e'. unfold list_at. unfold dispatcher in *. case_decide as D.
  - subst e'. by rewrite lookup_insert_eq.
  - rewrite lookup_insert_ne by done. apply Hm.
Qed.

Lemma appendListener_spec d m e cb p d' :
  listening d m -> appendListener e cb d = (p, d') ->
  p ∉ (m e).*1 /\ listening d' (fun e' => if decide (e' = e) then m e ++ [(p, cb)] else m e').
Proof.
  intros Hm. unfold appendListener. destruct (append cb (list_at e d)) as [p0 l] eqn:Ea. intros [= <- <-].
  destruct (append_refines cb _ _ _ _ (Hm e) Ea) as [Hp Hl]. split; [done|]. by apply listening_put.
Qed.

Lemma removeListener_spec pins d m e h a1 c a2 :
  listening d m -> m e = a1 ++ (h, c) :: a2 ->
  (removeListener pins e h d).1 = true /\
  listening (removeListener pins e h d).2 (fun e' => if decide (e' = e) then a1 ++ a2 else m e').
Proof.
  intros Hm Ha. pose proof (Hm e) as He. rewrite Ha in He.
  unfold removeListener, doFindCallableList, list_at in *. destruct (d !! e) as [l|]; simpl in He.
  - destruct (remove_refines pins l a1 h c a2 He) as [Hb Hr]. destruct (remove pins h l) as [b l'].
    simpl in *. split; [done|]. by apply listening_put.
  - destruct He as [[_ _ Hh _ _ _] _]. simpl in Hh. by destruct a1.
Qed.

Lemma removeListener_absent d m e h :
  listening d m -> h ∉ (m e).*1 ->
  (removeListener [] e h d).1 = false /\ listening (removeListener [] e h d).2 m.
Proof.
  intros Hm Hn. pose proof (Hm e) as He. unfold removeListener, doFindCallableList, list_at in *.
  destruct (d !! e) as [l|] eqn:Ed; simpl in He; [|done].
  assert (Hrm : remove [] h l = (false, l)).
  { unfold remove. destruct He as [Hr _]. by rewrite (lock_rep _ _ _ Hr), decide_False. }
  rewrite Hrm. unfold dispatcher in *. split; [done|]. simpl. by rewrite insert_id.
Qed.

Lemma hasAnyListener_spec d m e : listening d m -> hasAnyListener e d = negb (bool_decide (m e = [])).
Proof.
  intros Hm. pose proof (Hm e) as He. unfold hasAnyListener, doFindCallableList, list_at in *.
  destruct (d !! e) as [l|]; destruct He as [[_ _ Hh _ _ _] _]; unfold empty; simpl in Hh;
    rewrite ?Hh; by destruct (m e).
Qed.

(** Listeners are per event: [appendListener] and [removeListener] change
    the listeners of their event only, by exactly one, and dispatching an
    event calls exactly its listeners, in registration order; an event nobody
    listens to does nothing. *)
Theorem listeners_are_per_event (d : dispatcher E C) (m : E -> list (positive * C)) (e : E) (cb : C)
    (h : positive) (args : A) (st : St) :
  listening d m ->
  (let '(p, d') := appendListener e cb d in
   listening d' (fun e' => if decide (e' = e) then m e ++ [(p, cb)] else m e')) /\
  (forall a1 c a2, m e = a1 ++ (h, c) :: a2 -> (removeListener [] e h d).1 = true /\
   listening (removeListener [] e h d).2 (fun e' => if decide (e' = e) then a1 ++ a2 else m e')) /\
  (h ∉ (m e).*1 -> (removeListener [] e h d).1 = false /\ listening (removeListener [] e h d).2 m) /\
  hasAnyListener e d = negb (bool_decide (m e = [])) /\
  directDispatch run_callback e args d st
    = fold_left (fun st cb => run_callback cb args st) ((m e).*2) st.
Proof.
  intros Hm. split_and!.
  - destruct (appendListener e cb d) as [p d'] eqn:Ea. by eapply appendListener_spec.
  - intros a1 c a2. by apply removeListener_spec.
  - by apply removeListener_absent.
  - by apply hasAnyListener_spec.
  - by apply directDispatch_spec.
Qed.
End facts.

(** a queue of numbered events whose listeners record what they get *)
Definition record (cb a : Z) (st : list (Z * Z)) : list (Z * Z) := st ++ [(cb, a)].
Definition sample_queue : equeue Z Z Z :=
  mk_eq {[1 := (append 7 CallbackListBase).2]} [Some (1, 100); Some (2, 200)] [None] 0 0.
Lemma sample_queue_holds : holds sample_queue [(1, 100); (2, 200)].
Proof. split; [done|]. by constructor. Defined.

Lemma event_queue_fifo_witness :
  exists q', process record [[(1, 300)]] sample_queue [] = Ret (true, q', [(7, 100)]) /\
    holds q' [(1, 300)] /\ same_rest sample_queue q'.
Proof.
  destruct (event_queue_fifo record sample_queue [(1, 100); (2, 200)] (3, 0) (fun _ => true) [[(1, 300)]] []
    sample_queue_holds) as (_ & Hp & _). exact Hp.
Defined.
Lemma event_queue_single_witness : peekEvent sample_queue = Ret (Some (1, 100)).
Proof.
  exact (proj1 (event_queue_single record sample_queue [(1, 100); (2, 200)] [] [] sample_queue_holds)).
Defined.
Lemma sample_listening : listening (∅ : dispatcher Z Z) (fun _ => []).
Proof. intros e. split; [apply rep_new|done]. Qed.
Lemma listeners_are_per_event_witness :
  directDispatch record 1 5 (∅ : dispatcher Z Z) [] = [].
Proof.
  destruct (listeners_are_per_event record ∅ (fun _ => []) 1 7 1%positive 5 [] sample_listening)
    as (_ & _ & _ & _ & Hd). exact Hd.
Defined.
