(* ===== verification/QueueThreads.v ===== *)
(** * QueueThreads
    One [EventQueueBase] ([3rd/include/eventpp/eventqueue.h]) and any number of
    threads that use it at once: producers call [enqueue]; consumers loop over
    [wait()] and one of the operations that take events out; pollers call these
    operations without waiting; others hold a [DisableQueueNotify] for a while.

    A step is what a thread does between two points where another one can
    interfere: a read of a list's emptiness or of an atomic counter, a short
    critical section ([freeListMutex], or [queueListMutex] around one splice), the
    dispatch of an event, or a move of the condition variable. Only [wait] keeps
    [queueListMutex] over several steps. The order of the reads is the code's;
    reads outside a lock return the current value. *)

From Stdlib Require Import ZArith Lia.
From stdpp Require Import base numbers list option gmap fin_maps strings.
From S2P Require Import Prelude CallbackList CallbackListFacts EventQueue EventQueueFacts.

Section queue_threads.
Context {Evt : Type} `{Countable Evt} {A C : Type}.
Notation qev := (@QueuedEvent Evt A).
Notation qitem := (@BufferedItem Evt A).
Notation queue_t := (equeue Evt A C).

(** ** Threads *)

(** the operations that look at the queued events or take them out *)
Inductive qop : Type :=
| OProcess
| OProcessOne
| OProcessIf (predictor : A -> bool)
| OProcessUntil (predictor : A -> bool)
| OTake                   (* takeEvent() *)
| OPeek                   (* peekEvent() *)
| OClear.                 (* clearEvents() *)
(** whether it has a [CounterGuard] *)
Definition guarded (o : qop) : bool := match o with OTake | OPeek | OClear => false | _ => true end.

(** where a thread stands; [b] tells a consumer, which waits, from a poller *)
Inductive qpc : Type :=
(* wait() *)
| CLock                   (* unique_lock *)
| CTest                   (* the predicate: queueList.empty() *)
| CTestC                  (* it was: queueEmptyCounter.load() *)
| CTest2                  (* the predicate: doCanNotifyQueueAvailable() *)
| CFalse                  (* it is false: give up the lock and sleep, at once *)
| CAsleep
| CHave                   (* it is true: return *)
(* process() and the other operations *)
| CCheck (b : bool)       (* queueList.empty() *)
| CGuard (b : bool) (o : qop)   (* CounterGuard *)
| CSwap (b : bool) (o : qop)    (* take the events, under the lock *)
| CItems (b : bool) (o : qop) (todo kept cleared : list qitem)
| CPutBack (b : bool) (o : qop) (kept cleared : list qitem)
| CFree (b : bool) (o : qop) (cleared : list qitem)
| CLeave (b : bool)       (* ~CounterGuard *)
(* enqueue() *)
| PIdle
| PTake (ev : qev)        (* freeList was not empty *)
| PPush (ev : qev) (it : qitem)
| PTest                   (* doCanProcess(): queueList.empty() *)
| PTestC                  (* it was: queueEmptyCounter.load() *)
| PTest2                  (* doCanNotifyQueueAvailable() *)
| PNotify
(* DisableQueueNotify *)
| GIdle
| GHeld
| GTest                   (* doCanNotifyQueueAvailable() *)
| GTest2                  (* queueList.empty() *)
| GTestC                  (* it was: queueEmptyCounter.load() *)
| GNotify.
(** a thread after an operation *)
Definition back (b : bool) : qpc := if b then CLock else CCheck false.

(** what became of an event *)
Inductive fate : Type := Dispatched | Taken | Discarded.

(** the queue, the holder of [queueListMutex], the threads, and what was pushed
    and what left the queue so far *)
Record qstate := mk_qs {
  queue : queue_t;
  holder : option nat;
  qthreads : list qpc;
  pushed : list qev;
  handled : list (fate * qev);
}.
Definition goto (i : nat) (p : qpc) (s : qstate) : qstate :=
  mk_qs (queue s) (holder s) (<[i := p]> (qthreads s)) (pushed s) (handled s).
Definition with_queue (q : queue_t) (s : qstate) : qstate :=
  mk_qs q (holder s) (qthreads s) (pushed s) (handled s).
Definition with_holder (h : option nat) (s : qstate) : qstate :=
  mk_qs (queue s) h (qthreads s) (pushed s) (handled s).
Definition log (f : fate) (evs : list qev) (s : qstate) : qstate :=
  mk_qs (queue s) (holder s) (qthreads s) (pushed s) (handled s ++ (pair f <$> evs)).
(** a critical section waits while another thread is inside [wait] *)
Definition locked {B} (s : qstate) (m : outcome B) : outcome B :=
  match holder s with Some _ => Blocked | None => m end.

Definition asleep (p : qpc) : bool := match p with CAsleep => true | _ => false end.
(** [notify_one()]: one sleeping thread, if there is one, goes for the lock *)
Definition notify_one (w : nat) (s : qstate) : outcome qstate :=
  if existsb asleep (qthreads s) then
    match qthreads s !! w with Some CAsleep => Ret (goto w CLock s) | _ => Blocked end
  else Ret s.
(** the two reads of [emptyQueue()] *)
Definition list_empty (q : queue_t) : bool := bool_decide (queueList q = []).
Definition counter_zero (q : queue_t) : bool := queueEmptyCounter q =? 0.

(** a step in [wait()] *)
Definition wait_qstep (i : nat) (p : qpc) (s : qstate) : outcome qstate :=
  let q := queue s in
  match p with
  | CLock => locked s (Ret (with_holder (Some i) (goto i CTest s)))
  | CTest => Ret (goto i (if list_empty q then CTestC else CTest2) s)
  | CTestC => Ret (goto i (if counter_zero q then CFalse else CTest2) s)
  | CTest2 => Ret (goto i (if doCanNotifyQueueAvailable q then CHave else CFalse) s)
  | CFalse => Ret (with_holder None (goto i CAsleep s))
  | CHave => Ret (with_holder None (goto i (CCheck true) s))
  | _ => Blocked
  end.

(** the items an operation takes out at once, and those it leaves *)
Definition taken (o : qop) (l : list qitem) : list qitem :=
  match o with OProcessOne | OTake => take 1 l | OPeek => [] | _ => l end.
Definition remains (o : qop) (l : list qitem) : list qitem :=
  match o with OProcessOne | OTake => drop 1 l | OPeek => l | _ => [] end.
(** an item leaves the queue for good *)
Definition item_out (i : nat) (f : fate) (next : list qitem -> qpc) (it : qitem) (cleared : list qitem) (s : qstate)
    : outcome qstate :=
  ev ← item_get it;
  it' ← item_clear it;
  Ret (log f [ev] (goto i (next (cleared ++ [it'])) s)).
(** one turn of the loop over [tempList] *)
Definition item_qstep (i : nat) (b : bool) (o : qop) (it : qitem) (todo kept cleared : list qitem) (s : qstate)
    : outcome qstate :=
  match o with
  | OProcess | OProcessOne => item_out i Dispatched (CItems b o todo kept) it cleared s
  | OTake => item_out i Taken (CItems b o todo kept) it cleared s
  | OClear =>
      it' ← item_clear it;
      Ret (log Discarded (omap id [it]) (goto i (CItems b o todo kept (cleared ++ [it'])) s))
  | OProcessIf predictor =>
      ev ← item_get it;
      if predictor (snd ev) then item_out i Dispatched (CItems b o todo kept) it cleared s
      else Ret (goto i (CItems b o todo (kept ++ [it]) cleared) s)
  | OProcessUntil predictor =>
      ev ← item_get it;
      if predictor (snd ev) then Ret (goto i (CPutBack b o (kept ++ it :: todo) cleared) s)
      else item_out i Dispatched (CItems b o todo kept) it cleared s
  | OPeek => Blocked
  end.
(** [peekEvent()] under the lock *)
Definition peek_qstep (i : nat) (b : bool) (s : qstate) : outcome qstate :=
  _ ← peekEvent (queue s); Ret (goto i (back b) s).
(** a step in [process()] and the other operations; [o] is the one called *)
Definition process_qstep (i : nat) (o : qop) (p : qpc) (s : qstate) : outcome qstate :=
  let q := queue s in
  match p with
  | CCheck b =>
      Ret (goto i (if list_empty q then back b else if guarded o then CGuard b o else CSwap b o) s)
  | CGuard b o => Ret (with_queue (add_empty 1 q) (goto i (CSwap b o) s))
  | CSwap b OPeek => locked s (peek_qstep i b s)
  | CSwap b o =>
      locked s (Ret (with_queue (set_queue (remains o (queueList q)) q) (goto i (CItems b o (taken o (queueList q)) [] []) s)))
  | CItems b o [] kept cleared => Ret (goto i (CPutBack b o kept cleared) s)
  | CItems b o (it :: todo) kept cleared => item_qstep i b o it todo kept cleared s
  | CPutBack b o [] cleared => Ret (goto i (CFree b o cleared) s)
  | CPutBack b o kept cleared =>
      locked s (Ret (with_queue (set_queue (kept ++ queueList q) q) (goto i (CFree b o cleared) s)))
  | CFree b o cleared =>
      Ret (with_queue (set_free (freeList q ++ cleared) q) (goto i (if guarded o then CLeave b else back b) s))
  | CLeave b => Ret (with_queue (add_empty (-1) q) (goto i (back b) s))
  | _ => Blocked
  end.
(** a step in [doEnqueue()] *)
Definition doEnqueue_qstep (i : nat) (e : qev) (p : qpc) (s : qstate) : outcome qstate :=
  let q := queue s in
  match p with
  | PIdle => Ret (goto i (if bool_decide (freeList q = []) then PPush e None else PTake e) s)
  | PTake ev =>
      match freeList q with
      | [] => Ret (goto i (PPush ev None) s)
      | it :: rest => Ret (with_queue (set_free rest q) (goto i (PPush ev it) s))
      end
  | PPush ev it =>
      it' ← item_set ev it;
      locked s (Ret (mk_qs (set_queue (queueList q ++ [it']) q) (holder s) (<[i := PTest]> (qthreads s))
                       (pushed s ++ [ev]) (handled s)))
  | _ => Blocked
  end.
(** a step in the rest of [enqueue()] *)
Definition enqueue_qstep (i w : nat) (p : qpc) (s : qstate) : outcome qstate :=
  let q := queue s in
  match p with
  | PTest => Ret (goto i (if list_empty q then PTestC else PTest2) s)
  | PTestC => Ret (goto i (if counter_zero q then PIdle else PTest2) s)
  | PTest2 => Ret (goto i (if doCanNotifyQueueAvailable q then PNotify else PIdle) s)
  | PNotify => notify_one w (goto i PIdle s)
  | _ => Blocked
  end.
(** a step in the constructor and the destructor of [DisableQueueNotify] *)
Definition disable_qstep (i w : nat) (p : qpc) (s : qstate) : outcome qstate :=
  let q := queue s in
  match p with
  | GIdle => Ret (with_queue (add_notify 1 q) (goto i GHeld s))
  | GHeld => Ret (with_queue (add_notify (-1) q) (goto i GTest s))
  | GTest => Ret (goto i (if doCanNotifyQueueAvailable q then GTest2 else GIdle) s)
  | GTest2 => Ret (goto i (if list_empty q then GTestC else GNotify) s)
  | GTestC => Ret (goto i (if counter_zero q then GIdle else GNotify) s)
  | GNotify => notify_one w (goto i GIdle s)
  | _ => Blocked
  end.
(** thread [i] takes a step; [e] is what a producer enqueues next, [o] the
    operation a consumer or poller calls next, [w] the thread a notification reaches *)
Definition qstep (i : nat) (e : qev) (o : qop) (w : nat) (s : qstate) : outcome qstate :=
  match qthreads s !! i with
  | None => Blocked
  | Some p =>
      match p with
      | CLock | CTest | CTestC | CTest2 | CFalse | CAsleep | CHave => wait_qstep i p s
      | CCheck _ | CGuard _ _ | CSwap _ _ | CItems _ _ _ _ _ | CPutBack _ _ _ _ | CFree _ _ _ | CLeave _ =>
          process_qstep i o p s
      | PIdle | PTake _ | PPush _ _ => doEnqueue_qstep i e p s
      | PTest | PTestC | PTest2 | PNotify => enqueue_qstep i w p s
      | GIdle | GHeld | GTest | GTest2 | GTestC | GNotify => disable_qstep i w p s
      end
  end.

Inductive qevent : Type :=
| Go (i : nat) (e : qev) (o : qop) (w : nat)
| Spurious (i : nat).   (* a sleeping thread wakes by itself *)
Definition qrun1 (ev : qevent) (s : qstate) : outcome qstate :=
  match ev with
  | Go i e o w => qstep i e o w s
  | Spurious i => match qthreads s !! i with Some CAsleep => Ret (goto i CLock s) | _ => Blocked end
  end.
Fixpoint qrun (evs : list qevent) (s : qstate) : outcome qstate :=
  match evs with [] => Ret s | ev :: evs => s1 ← qrun1 ev s; qrun evs s1 end.

(** threads that have not started *)
Definition fresh (p : qpc) : bool := match p with CLock | CCheck false | PIdle | GIdle => true | _ => false end.
Definition qstart (ts : list qpc) : qstate := mk_qs EventQueueBase None ts [] [].

(** ** What every interleaving keeps *)

Definition inside (p : qpc) : bool := match p with CTest | CTestC | CTest2 | CFalse | CHave => true | _ => false end.
Definition count (o : qop) : Z := if guarded o then 1 else 0.
Definition counts (p : qpc) : Z :=
  match p with
  | CSwap _ o | CItems _ o _ _ _ | CPutBack _ o _ _ | CFree _ o _ => count o
  | CLeave _ => 1
  | _ => 0
  end.
Definition guards (p : qpc) : Z := match p with GHeld => 1 | _ => 0 end.
(** the events of a thread's [tempList] *)
Definition doing (p : qpc) : list qev :=
  match p with
  | CItems _ _ todo kept _ => omap id (kept ++ todo)
  | CPutBack _ _ kept _ => omap id kept
  | _ => []
  end.
(** the operation that can leave a gap *)
Definition skips (o : qop) : bool := match o with OProcessIf _ => true | _ => false end.
Definition local_ok (p : qpc) : Prop :=
  match p with
  | PPush _ it => it = None
  | CGuard _ o => guarded o = true
  | CItems _ o todo kept cleared =>
      Forall is_Some todo /\ Forall is_Some kept /\ Forall (eq None) cleared /\ (skips o = false -> kept = []) /\ o <> OPeek
  | CPutBack _ _ kept cleared => Forall is_Some kept /\ Forall (eq None) cleared
  | CFree _ _ cleared => Forall (eq None) cleared
  | _ => True
  end.

Definition weigh (f : qpc -> Z) (ts : list qpc) : Z := foldr (fun p n => f p + n) 0 ts.
Definition inflight (ts : list qpc) : list qev := ts ≫= doing.
Definition holder_ok (h : option nat) (ts : list qpc) : Prop :=
  forall j, h = Some j <-> exists p, ts !! j = Some p /\ inside p = true.

Lemma weigh_insert f ts i p p' : ts !! i = Some p -> weigh f (<[i := p']> ts) = weigh f ts - f p + f p'.
Proof.
  revert i. induction ts as [|p0 ts IH]; intros [|i] Hi; simplify_eq/=; [lia|]. rewrite (IH i Hi). lia.
Qed.
Lemma inflight_insert ts i p p' :
  ts !! i = Some p -> exists l1 l2, inflight ts = l1 ++ doing p ++ l2 /\ inflight (<[i := p']> ts) = l1 ++ doing p' ++ l2.
Proof.
  revert i. induction ts as [|p0 ts IH]; intros [|i] Hi; simplify_eq/=; [by exists [], (inflight ts)|].
  destruct (IH i Hi) as (l1 & l2 & E1 & E2). exists (doing p0 ++ l1), l2. unfold inflight in *. simpl.
  rewrite E1, E2, <- !app_assoc. done.
Qed.

Lemma holder_same h ts i p p' :
  holder_ok h ts -> ts !! i = Some p -> inside p' = inside p -> holder_ok h (<[i := p']> ts).
Proof.
  intros Hh Hi E j. rewrite (Hh j). pose proof (lookup_lt_Some _ _ _ Hi). destruct (decide (j = i)) as [->|Hne].
  - rewrite list_lookup_insert_eq by done. split; intros (p0 & Hp & Hin); simplify_eq; eexists; (split; [done|congruence]).
  - by rewrite list_lookup_insert_ne.
Qed.
Lemma holder_acquire ts i p p' :
  holder_ok None ts -> ts !! i = Some p -> inside p' = true -> holder_ok (Some i) (<[i := p']> ts).
Proof.
  intros Hh Hi Hin j. pose proof (lookup_lt_Some _ _ _ Hi). destruct (decide (j = i)) as [->|Hne].
  - rewrite list_lookup_insert_eq by done. naive_solver.
  - rewrite list_lookup_insert_ne by done. split; [congruence|]. intros Hp. by apply Hh in Hp.
Qed.
Lemma holder_release h ts i p p' :
  holder_ok h ts -> ts !! i = Some p -> inside p = true -> inside p' = false -> holder_ok None (<[i := p']> ts).
Proof.
  intros Hh Hi Hin Hout j. pose proof (lookup_lt_Some _ _ _ Hi).
  assert (h = Some i) as -> by (apply Hh; by eexists). split; [done|]. destruct (decide (j = i)) as [->|Hne].
  - rewrite list_lookup_insert_eq by done. intros (p0 & [= <-] & ?). congruence.
  - rewrite list_lookup_insert_ne by done. intros Hp. apply Hh in Hp. congruence.
Qed.

Record qinv (s : qstate) : Prop := {
  qi_queue : Forall is_Some (queueList (queue s));
  qi_free : Forall (eq None) (freeList (queue s));
  qi_locals : Forall local_ok (qthreads s);
  qi_holder : holder_ok (holder s) (qthreads s);
  qi_empties : queueEmptyCounter (queue s) = weigh counts (qthreads s);
  qi_notifies : queueNotifyCounter (queue s) = weigh guards (qthreads s);
  qi_events : pushed s ≡ₚ (handled s).*2 ++ inflight (qthreads s) ++ omap id (queueList (queue s));
}.

(** a step of one thread that concerns nobody else *)
Lemma qinv_goto s i p p' :
  qinv s -> qthreads s !! i = Some p -> local_ok p' -> inside p' = inside p -> counts p' = counts p ->
  guards p' = guards p -> doing p' = doing p -> qinv (goto i p' s).
Proof.
  intros [] Hi Hl Hin Hc Hg Hd. split; simpl; try done.
  - by apply Forall_insert.
  - by eapply holder_same.
  - rewrite (weigh_insert _ _ i p) by done. lia.
  - rewrite (weigh_insert _ _ i p) by done. lia.
  - destruct (inflight_insert (qthreads s) i p p' Hi) as (l1 & l2 & E1 & E2). by rewrite E2, Hd, <- E1.
Qed.
Lemma qinv_notify w s s' : qinv s -> notify_one w s = Ret s' -> qinv s'.
Proof.
  unfold notify_one. intros Hi. destruct (existsb _ _); [|by intros [= <-]].
  destruct (qthreads s !! w) as [[]|] eqn:E; try done. intros [= <-]. by eapply qinv_goto.
Qed.
Lemma notify_defined w s : is_UB (notify_one w s) = false.
Proof. unfold notify_one. destruct (existsb _ _); [|done]. by destruct (qthreads s !! w) as [[]|]. Qed.

(** a step that changes the queue, the lock or the logs as well *)
Lemma qinv_step_of s i p p' q h ps hs :
  qinv s -> qthreads s !! i = Some p -> local_ok p' ->
  Forall is_Some (queueList q) -> Forall (eq None) (freeList q) ->
  holder_ok h (<[i := p']> (qthreads s)) ->
  queueEmptyCounter q = queueEmptyCounter (queue s) - counts p + counts p' ->
  queueNotifyCounter q = queueNotifyCounter (queue s) - guards p + guards p' ->
  (forall l1 l2, pushed s ≡ₚ (handled s).*2 ++ (l1 ++ doing p ++ l2) ++ omap id (queueList (queue s)) ->
     ps ≡ₚ hs.*2 ++ (l1 ++ doing p' ++ l2) ++ omap id (queueList q)) ->
  qinv (mk_qs q h (<[i := p']> (qthreads s)) ps hs).
Proof.
  intros [] Hi Hl Hq Hf Hh He Hn Hev. split; simpl; try done.
  - by apply Forall_insert.
  - rewrite (weigh_insert _ _ i p) by done. lia.
  - rewrite (weigh_insert _ _ i p) by done. lia.
  - destruct (inflight_insert (qthreads s) i p p' Hi) as (l1 & l2 & E1 & E2). rewrite E2. apply Hev. by rewrite <- E1.
Qed.

Ltac same_lock s Hs Hi :=
  eapply holder_same; [exact (qi_holder s Hs)|exact Hi|done].

(** a step is defined and keeps the invariant *)
Definition keeps_inv (m : outcome qstate) : Prop := is_UB m = false /\ forall s', m = Ret s' -> qinv s'.
Lemma keeps_Ret s : qinv s -> keeps_inv (Ret s).
Proof. intros Hs. split; [done|]. by intros s' [= <-]. Qed.
Lemma keeps_Blocked : keeps_inv Blocked.
Proof. done. Qed.
Lemma keeps_locked s m : (holder s = None -> keeps_inv m) -> keeps_inv (locked s m).
Proof. unfold locked. destruct (holder s); [done|]. auto. Qed.
Lemma keeps_notify w s : qinv s -> keeps_inv (notify_one w s).
Proof. intros Hs. split; [apply notify_defined|]. intros s'. by apply qinv_notify. Qed.

Lemma taken_remains o l : taken o l ++ remains o l = l.
Proof. destruct o; simpl; rewrite ?app_nil_r; try done; by destruct l. Qed.
Lemma Forall_taken (P : qitem -> Prop) o l : Forall P l -> Forall P (taken o l) /\ Forall P (remains o l).
Proof. intros Hl. apply Forall_app. by rewrite taken_remains. Qed.

Lemma wait_keeps i p s : qinv s -> qthreads s !! i = Some p -> keeps_inv (wait_qstep i p s).
Proof.
  intros Hs Hi. pose proof Hs as [Hq Hf Hl Hh He Hn Hev]. destruct p; try apply keeps_Blocked; cbn [wait_qstep].
  - apply keeps_locked. intros Eh. apply keeps_Ret. rewrite Eh in Hh.
    eapply qinv_step_of; try done; [by eapply holder_acquire|simpl; lia..].
  - apply keeps_Ret. destruct (list_empty _); by eapply qinv_goto.
  - apply keeps_Ret. destruct (counter_zero _); by eapply qinv_goto.
  - apply keeps_Ret. destruct (doCanNotifyQueueAvailable _); by eapply qinv_goto.
  - apply keeps_Ret. eapply qinv_step_of; try done; [by eapply holder_release|simpl; lia..].
  - apply keeps_Ret. eapply qinv_step_of; try done; [by eapply holder_release|simpl; lia..].
Qed.

(** an item leaves: the rest of the list is handled as before *)
Lemma item_out_keeps i b o f it todo kept cleared s :
  qinv s -> qthreads s !! i = Some (CItems b o (it :: todo) kept cleared) ->
  keeps_inv (item_out i f (CItems b o todo kept) it cleared s) /\
  exists ev, it = Some ev.
Proof.
  intros Hs Hi. pose proof Hs as [Hq Hf Hl Hh He Hn Hev].
  assert (Hlp : local_ok (CItems b o (it :: todo) kept cleared)) by (eapply Forall_lookup_1; [exact Hl|exact Hi]).
  destruct Hlp as (Ht & Hk & Hc & Ho & Hp). apply list.Forall_cons in Ht as [[ev ->] Ht]. split; [|by eexists].
  unfold item_out. cbn [item_get item_clear deref mbind outcome_bind]. apply keeps_Ret.
  eapply qinv_step_of; try done; [|same_lock s Hs Hi|simpl; lia|simpl; lia|].
  - split_and!; try done. apply Forall_app. split; [done|by apply list.Forall_singleton].
  - intros l1 l2 Hp'. rewrite Hp'. simpl. rewrite fmap_app, !omap_app. simpl. solve_Permutation.
Qed.

Lemma item_keeps i b o it todo kept cleared s :
  qinv s -> qthreads s !! i = Some (CItems b o (it :: todo) kept cleared) ->
  keeps_inv (item_qstep i b o it todo kept cleared s).
Proof.
  intros Hs Hi. destruct (item_out_keeps i b o Dispatched it todo kept cleared s Hs Hi) as [Hd [ev ->]].
  destruct (item_out_keeps i b o Taken (Some ev) todo kept cleared s Hs Hi) as [Ht _].
  pose proof Hs as [Hq Hf Hl Hh He Hn Hev].
  assert (Hlp : local_ok (CItems b o (Some ev :: todo) kept cleared)) by (eapply Forall_lookup_1; [exact Hl|exact Hi]).
  destruct Hlp as (Hto & Hk & Hc & Ho & Hp). apply list.Forall_cons in Hto as [Hev' Hto].
  destruct o; try done; cbn [item_qstep item_get item_clear deref mbind outcome_bind].
  - destruct (predictor (snd ev)); [done|]. apply keeps_Ret. eapply qinv_goto; try done.
    + split_and!; try done. apply Forall_app. split; [done|by apply list.Forall_singleton].
    + simpl. by rewrite <- app_assoc.
  - destruct (predictor (snd ev)); [|done]. apply keeps_Ret. eapply qinv_goto; try done.
    split; [|done]. apply Forall_app. split; [done|]. by apply list.Forall_cons.
  - destruct (item_out_keeps i b OClear Discarded (Some ev) todo kept cleared s Hs Hi) as [H' _]. exact H'.
Qed.

Lemma back_plain b : local_ok (back b) /\ inside (back b) = false /\ counts (back b) = 0 /\ guards (back b) = 0 /\ doing (back b) = [].
Proof. by destruct b. Qed.
Lemma guarded_count o : guarded o = true -> count o = 1.
Proof. unfold count. by intros ->. Qed.
Lemma unguarded_count o : guarded o = false -> count o = 0.
Proof. unfold count. by intros ->. Qed.

(** the events are taken out of the queue *)
Lemma swap_keeps i b o s :
  qinv s -> qthreads s !! i = Some (CSwap b o) -> o <> OPeek -> holder s = None ->
  qinv (with_queue (set_queue (remains o (queueList (queue s))) (queue s))
          (goto i (CItems b o (taken o (queueList (queue s))) [] []) s)).
Proof.
  intros Hs Hi Ho Eh. pose proof Hs as [Hq Hf Hl Hh He Hn Hev]. destruct (Forall_taken _ o _ Hq) as [H1 H2].
  eapply qinv_step_of; try done; [same_lock s Hs Hi|simpl; lia|simpl; lia|].
  intros l1 l2 Hp. rewrite Hp, <- (taken_remains o (queueList (queue s))) at 1. simpl. rewrite omap_app. solve_Permutation.
Qed.

Lemma process_keeps i o p s : qinv s -> qthreads s !! i = Some p -> keeps_inv (process_qstep i o p s).
Proof.
  intros Hs Hi. pose proof Hs as [Hq Hf Hl Hh He Hn Hev].
  assert (Hlp : local_ok p) by (eapply Forall_lookup_1; [exact Hl|exact Hi]).
  assert (Hback : forall b, inside p = false -> counts p = 0 -> guards p = 0 -> doing p = [] -> qinv (goto i (back b) s)).
  { intros b H1 H2 H3 H4. destruct (back_plain b) as (Bl & Bi & Bc & Bg & Bd). eapply qinv_goto; try done; congruence. }
  destruct p as [| | | | | | |b|b o'|b o'|b o' todo kept cleared|b o' kept cleared|b o' cleared|b| | | | | | | | | | | | |];
    try apply keeps_Blocked; cbn [process_qstep].
  - apply keeps_Ret. destruct (list_empty _); [by apply Hback|].
    destruct (guarded o) eqn:Eg; eapply qinv_goto; try done. simpl. by apply unguarded_count.
  - apply keeps_Ret. eapply qinv_step_of; try done; [same_lock s Hs Hi| |simpl; lia].
    simpl. rewrite guarded_count by done. lia.
  - destruct o'; try (apply keeps_locked; intros Eh; apply keeps_Ret; by apply swap_keeps).
    apply keeps_locked. intros Eh. unfold peek_qstep, peekEvent. destruct (queueList (queue s)) as [|it l] eqn:El; cbn [mbind outcome_bind].
    + apply keeps_Ret. by apply Hback.
    + apply list.Forall_cons in Hq as [[ev ->] _]. cbn [item_get deref mbind outcome_bind]. apply keeps_Ret. by apply Hback.
  - destruct todo as [|it todo]; [|by apply item_keeps]. destruct Hlp as (Ht & Hk & Hc & Ho & Hp).
    apply keeps_Ret. eapply qinv_goto; try done. simpl. by rewrite app_nil_r.
  - destruct Hlp as [Hk Hc]. destruct kept as [|it kept].
    + apply keeps_Ret. by eapply qinv_goto.
    + apply keeps_locked. intros Eh. apply keeps_Ret. eapply qinv_step_of; try done; [by apply Forall_app|same_lock s Hs Hi|simpl; lia|simpl; lia|].
      intros l1 l2 Hp. rewrite Hp. cbn [queueList set_queue doing]. rewrite omap_app. simpl. solve_Permutation.
  - apply keeps_Ret. destruct (back_plain b) as (Bl & Bi & Bc & Bg & Bd).
    destruct (guarded o') eqn:Eg; eapply qinv_step_of; try done; try (by apply Forall_app).
    + same_lock s Hs Hi.
    + simpl. rewrite guarded_count by done. lia.
    + simpl. lia.
    + eapply holder_same; [exact Hh|exact Hi|done].
    + simpl. rewrite unguarded_count by done. lia.
    + simpl. lia.
    + intros l1 l2 Hp. by rewrite Hp, Bd.
  - apply keeps_Ret. destruct (back_plain b) as (Bl & Bi & Bc & Bg & Bd). eapply qinv_step_of; try done.
    + eapply holder_same; [exact Hh|exact Hi|done].
    + simpl. lia.
    + simpl. lia.
    + intros l1 l2 Hp. by rewrite Hp, Bd.
Qed.

Lemma doEnqueue_keeps i e p s : qinv s -> qthreads s !! i = Some p -> keeps_inv (doEnqueue_qstep i e p s).
Proof.
  intros Hs Hi. pose proof Hs as [Hq Hf Hl Hh He Hn Hev].
  assert (Hlp : local_ok p) by (eapply Forall_lookup_1; [exact Hl|exact Hi]).
  destruct p; try apply keeps_Blocked; cbn [doEnqueue_qstep].
  - apply keeps_Ret. case_bool_decide; by eapply qinv_goto.
  - destruct (freeList (queue s)) as [|it rest] eqn:Ef; apply keeps_Ret; [by eapply qinv_goto|].
    apply list.Forall_cons in Hf as [<- Hf]. eapply qinv_step_of; try done; [same_lock s Hs Hi|simpl; lia..].
  - simpl in Hlp. subst it. cbn [item_set mbind outcome_bind]. apply keeps_locked. intros Eh. apply keeps_Ret.
    eapply qinv_step_of; try done;
      [apply Forall_app; split; [done|]; apply list.Forall_singleton; by eexists|same_lock s Hs Hi|simpl; lia|simpl; lia|].
    intros l1 l2 Hp. rewrite Hp. simpl. rewrite omap_app. simpl. solve_Permutation.
Qed.
Lemma enqueue_keeps i w p s : qinv s -> qthreads s !! i = Some p -> keeps_inv (enqueue_qstep i w p s).
Proof.
  intros Hs Hi. destruct p; try apply keeps_Blocked; cbn [enqueue_qstep]; [apply keeps_Ret..|].
  - destruct (list_empty _); by eapply qinv_goto.
  - destruct (counter_zero _); by eapply qinv_goto.
  - destruct (doCanNotifyQueueAvailable _); by eapply qinv_goto.
  - apply keeps_notify. by eapply qinv_goto.
Qed.
Lemma disable_keeps i w p s : qinv s -> qthreads s !! i = Some p -> keeps_inv (disable_qstep i w p s).
Proof.
  intros Hs Hi. pose proof Hs as [Hq Hf Hl Hh He Hn Hev].
  destruct p; try apply keeps_Blocked; cbn [disable_qstep]; [apply keeps_Ret..|].
  - eapply qinv_step_of; try done; [same_lock s Hs Hi|simpl; lia..].
  - eapply qinv_step_of; try done; [same_lock s Hs Hi|simpl; lia..].
  - destruct (doCanNotifyQueueAvailable _); by eapply qinv_goto.
  - destruct (list_empty _); by eapply qinv_goto.
  - destruct (counter_zero _); by eapply qinv_goto.
  - apply keeps_notify. by eapply qinv_goto.
Qed.
Lemma qinv_step i e o w s : qinv s -> keeps_inv (qstep i e o w s).
Proof.
  intros Hs. unfold qstep. destruct (qthreads s !! i) as [p|] eqn:Hi; [|done].
  destruct p; first [by apply wait_keeps|by apply process_keeps|by apply doEnqueue_keeps|by apply enqueue_keeps|by apply disable_keeps].
Qed.
Lemma qinv_run1 ev s : qinv s -> keeps_inv (qrun1 ev s).
Proof.
  intros Hs. destruct ev as [i e o w|i]; [by apply qinv_step|]. simpl. destruct (qthreads s !! i) as [[]|] eqn:Hi; try done.
  apply keeps_Ret. by eapply qinv_goto.
Qed.

Lemma qinv_start ts : Forall (fun p => fresh p = true) ts -> qinv (qstart ts).
Proof.
  intros Hf. assert (Hz : forall f : qpc -> Z, (forall p, fresh p = true -> f p = 0) -> weigh f ts = 0).
  { intros f Hp. induction Hf as [|p ts Hp0 _ IH]; [done|]. simpl. rewrite IH, Hp by done. done. }
  split; simpl; try done.
  - eapply Forall_impl; [exact Hf|]. by intros [].
  - intros j. split; [done|]. intros (p & Hp & Hin). eapply Forall_lookup_1 in Hf; [|exact Hp]. by destruct p.
  - symmetry. apply Hz. by intros [].
  - symmetry. apply Hz. by intros [].
  - assert (inflight ts = []) as ->; [|done]. clear Hz. unfold inflight. induction Hf as [|p ts Hp0 _ IH]; [done|]. rewrite bind_cons, IH. by destruct p.
Qed.
End queue_threads.
