(* ===== verification/QueueWakeups.v ===== *)
(** * QueueWakeups
    What the steps of [QueueThreads] do to the order of the events and to threads
    that sleep in [wait()]: every step has one of a few effects on queue, events
    and threads, and order and wakeups are followed through these effects. *)

From Stdlib Require Import ZArith Lia.
From stdpp Require Import base numbers list option gmap fin_maps strings.
From S2P Require Import Prelude CallbackList CallbackListFacts EventQueue EventQueueFacts QueueThreads.

Section queue_wakeups.
Context {Evt : Type} `{Countable Evt} {A C : Type}.
Notation qev := (@QueuedEvent Evt A).
Notation qitem := (@BufferedItem Evt A).
Notation queue_t := (equeue Evt A C).
Notation qop := (@qop A).
Notation qpc := (@qpc Evt A).
Notation qevent := (@qevent Evt A).
Notation qstate := (@qstate Evt _ _ A C).
Implicit Types (s : qstate) (ts : list qpc) (p : qpc) (o : qop).

(** ** Roles *)

Inductive role : Type := Consumer | Poller | Producer | Disabler.
Definition of_consumer (b : bool) : role := if b then Consumer else Poller.
Definition role_of (p : qpc) : role :=
  match p with
  | CLock | CTest | CTestC | CTest2 | CFalse | CAsleep | CHave => Consumer
  | CCheck b | CGuard b _ | CSwap b _ | CItems b _ _ _ _ | CPutBack b _ _ _ | CFree b _ _ | CLeave b => of_consumer b
  | PIdle | PTake _ | PPush _ _ | PTest | PTestC | PTest2 | PNotify => Producer
  | GIdle | GHeld | GTest | GTest2 | GTestC | GNotify => Disabler
  end.
Definition takes_out (r : role) : bool := match r with Consumer | Poller => true | _ => false end.
(** a thread keeps its role *)
Definition same_roles (s s' : qstate) : Prop := (role_of <$> qthreads s') = (role_of <$> qthreads s).

Lemma role_back b : role_of (back b) = of_consumer b.
Proof. by destruct b. Qed.

(** ** The effect of a step *)

(** threads that will still see what is queued now, or wake one that will *)
Definition attends (p : qpc) : bool :=
  match p with
  | PTest | PTest2 | PNotify | CLock | CTest | CTest2 | CHave => true
  | CCheck b | CGuard b _ | CSwap b _ | CItems b _ _ _ _ | CPutBack b _ _ _ | CFree b _ _ | CLeave b => b
  | _ => false
  end.
Lemma attends_back b : attends (back b) = b.
Proof. by destruct b. Qed.

(** not in a [processIf] *)
Definition in_order (p : qpc) : Prop :=
  match p with CGuard _ o | CSwap _ o | CItems _ o _ _ _ => skips o = false | _ => True end.

(** the operations that can put events back, and a poller that has none to put back *)
Definition puts_back (o : qop) : bool := match o with OProcessIf _ | OProcessUntil _ => true | _ => false end.
Definition polls_ok (p : qpc) : Prop :=
  match p with
  | CGuard false o | CSwap false o => puts_back o = false
  | CItems false o _ kept _ => puts_back o = false /\ kept = []
  | CPutBack false _ kept _ => kept = []
  | _ => True
  end.

(** a move of one thread that leaves events and queue alone: when it falls asleep,
    what it found before, and that it does not turn away from queued events *)
Record plain_move (s : qstate) (p p' : qpc) : Prop := {
  pm_role : role_of p' = role_of p;
  pm_doing : doing p' = doing p;
  pm_order : in_order p -> in_order p';
  pm_polls : polls_ok p -> polls_ok p';
  pm_asleep : p' = CAsleep -> p = CFalse;
  pm_testc : p' = CTestC -> queueList (queue s) = [];
  pm_false : doCanNotifyQueueAvailable (queue s) = true -> p' = CFalse -> p = CTestC;
  pm_attends : doCanNotifyQueueAvailable (queue s) = true -> attends p = true -> queueList (queue s) <> [] -> attends p' = true;
}.

Inductive effect (s : qstate) : qop -> qstate -> Prop :=
| eff_plain i p p' q h o : qthreads s !! i = Some p -> plain_move s p p' -> queueList q = queueList (queue s) ->
    effect s o (mk_qs q h (<[i := p']> (qthreads s)) (pushed s) (handled s))
| eff_call i b o p' : qthreads s !! i = Some (CCheck b) -> (p' = CGuard b o \/ p' = CSwap b o) -> effect s o (goto i p' s)
| eff_silent i p p' o : qthreads s !! i = Some p -> (p = PNotify /\ p' = PIdle) \/ (p = GNotify /\ p' = GIdle) ->
    CAsleep ∉ <[i := p']> (qthreads s) -> effect s o (goto i p' s)
| eff_wake i p p' w o : qthreads s !! i = Some p -> (p = PNotify /\ p' = PIdle) \/ (p = GNotify /\ p' = GIdle) ->
    <[i := p']> (qthreads s) !! w = Some CAsleep -> effect s o (goto w CLock (goto i p' s))
| eff_push i ev it o : qthreads s !! i = Some (PPush ev it) -> holder s = None ->
    effect s o (mk_qs (set_queue (queueList (queue s) ++ [Some ev]) (queue s)) (holder s) (<[i := PTest]> (qthreads s))
                  (pushed s ++ [ev]) (handled s))
| eff_swap i b o o' : qthreads s !! i = Some (CSwap b o) -> holder s = None ->
    effect s o' (with_queue (set_queue (remains o (queueList (queue s))) (queue s))
                  (goto i (CItems b o (taken o (queueList (queue s))) [] []) s))
| eff_out i b o o' f ev todo kept cleared cleared' : qthreads s !! i = Some (CItems b o (Some ev :: todo) kept cleared) ->
    effect s o' (log f [ev] (goto i (CItems b o todo kept cleared') s))
| eff_stop i b pr o' ev todo kept cleared : qthreads s !! i = Some (CItems b (OProcessUntil pr) (Some ev :: todo) kept cleared) ->
    effect s o' (goto i (CPutBack b (OProcessUntil pr) (kept ++ Some ev :: todo) cleared) s)
| eff_back i b o o' kept cleared : qthreads s !! i = Some (CPutBack b o kept cleared) -> holder s = None ->
    effect s o' (with_queue (set_queue (kept ++ queueList (queue s)) (queue s)) (goto i (CFree b o cleared) s)).

Lemma list_empty_true (q : queue_t) : list_empty q = true -> queueList q = [].
Proof. apply bool_decide_eq_true_1. Qed.
Lemma list_empty_false (q : queue_t) : list_empty q = false -> queueList q <> [].
Proof. apply bool_decide_eq_false_1. Qed.

Ltac plain Hi := unfold with_holder, with_queue, goto; cbn [queue holder qthreads pushed handled]; eapply eff_plain; [exact Hi| |done]; split; simpl; try done.

Lemma wait_effect i p o s s' : qthreads s !! i = Some p -> wait_qstep i p s = Ret s' -> effect s o s'.
Proof.
  intros Hi. destruct p; try done; cbn [wait_qstep]; unfold locked; try (destruct (holder s); [done|]); intros [= <-].
  - plain Hi.
  - destruct (list_empty (queue s)) eqn:El; plain Hi; intros; by apply list_empty_true in El.
  - destruct (counter_zero (queue s)) eqn:Ec; plain Hi.
  - destruct (doCanNotifyQueueAvailable (queue s)) eqn:Ea; plain Hi; congruence.
  - plain Hi.
  - plain Hi.
Qed.
Lemma notify_effect i w p p' o s s' :
  qthreads s !! i = Some p -> (p = PNotify /\ p' = PIdle) \/ (p = GNotify /\ p' = GIdle) ->
  notify_one w (goto i p' s) = Ret s' -> effect s o s'.
Proof.
  intros Hi Hp. unfold notify_one. destruct (existsb _ _) eqn:Ex.
  - destruct (qthreads (goto i p' s) !! w) as [[]|] eqn:Ew; try done. intros [= <-]. by eapply eff_wake.
  - intros [= <-]. eapply eff_silent; [done|done|]. intros Hin. apply Bool.not_true_iff_false in Ex.
    apply Ex, existsb_exists. exists CAsleep. split; [by apply list_elem_of_In|done].
Qed.
Lemma enqueue_effect i w p o s s' : qthreads s !! i = Some p -> enqueue_qstep i w p s = Ret s' -> effect s o s'.
Proof.
  intros Hi. destruct p; try done; cbn [enqueue_qstep]; [intros [= <-]..|].
  - destruct (list_empty (queue s)) eqn:El; plain Hi. intros _ _ Hne. by apply list_empty_true in El.
  - destruct (counter_zero (queue s)); plain Hi.
  - destruct (doCanNotifyQueueAvailable (queue s)) eqn:Ea; plain Hi; congruence.
  - eapply notify_effect; [done|by left].
Qed.
Lemma disable_effect i w p o s s' : qthreads s !! i = Some p -> disable_qstep i w p s = Ret s' -> effect s o s'.
Proof.
  intros Hi. destruct p; try done; cbn [disable_qstep]; [intros [= <-]..|].
  - plain Hi.
  - plain Hi.
  - destruct (doCanNotifyQueueAvailable (queue s)); plain Hi.
  - destruct (list_empty (queue s)); plain Hi.
  - destruct (counter_zero (queue s)); plain Hi.
  - eapply notify_effect; [done|by right].
Qed.
Lemma doEnqueue_effect i e p o s s' : qthreads s !! i = Some p -> doEnqueue_qstep i e p s = Ret s' -> effect s o s'.
Proof.
  intros Hi. destruct p; try done; cbn [doEnqueue_qstep].
  - intros [= <-]. case_bool_decide; plain Hi.
  - destruct (freeList (queue s)); intros [= <-]; plain Hi.
  - intros (it' & Hset & Hst)%bind_Ret_inv. unfold locked in Hst. destruct (holder s) eqn:Eh; [done|]. injection Hst as <-.
    destruct it; [done|]. injection Hset as <-. rewrite <- Eh. by eapply eff_push.
Qed.

Lemma plain_back s p b :
  role_of p = of_consumer b -> doing p = [] -> attends p = b -> plain_move s p (back b).
Proof. intros Hr Hd Ha. destruct b; split; simpl in *; first [done|congruence]. Qed.

Lemma item_out_effect i b o o' f it todo kept cleared s s' :
  qthreads s !! i = Some (CItems b o (it :: todo) kept cleared) ->
  item_out i f (CItems b o todo kept) it cleared s = Ret s' -> effect s o' s'.
Proof.
  intros Hi (ev & Hg & (it' & _ & [= <-])%bind_Ret_inv)%bind_Ret_inv. destruct it as [ev0|]; [|done]. injection Hg as ->.
  by eapply eff_out.
Qed.
Lemma item_effect i b o o' it todo kept cleared s s' :
  qthreads s !! i = Some (CItems b o (it :: todo) kept cleared) ->
  item_qstep i b o it todo kept cleared s = Ret s' -> effect s o' s'.
Proof.
  intros Hi. destruct o; cbn [item_qstep]; try done; try (by apply item_out_effect).
  - intros (ev & Hg & Hst)%bind_Ret_inv. destruct (predictor (snd ev)); [by eapply item_out_effect|].
    injection Hst as <-. plain Hi; [by rewrite <- app_assoc|by destruct b; intros; naive_solver].
  - intros (ev & Hg & Hst)%bind_Ret_inv. destruct (predictor (snd ev)); [|by eapply item_out_effect].
    injection Hst as <-. destruct it as [ev0|]; [|done]. by eapply eff_stop.
  - destruct it as [ev|]; [|done]. cbn [item_clear mbind outcome_bind]. intros [= <-]. by eapply eff_out.
Qed.
Lemma process_effect i o p s s' : qthreads s !! i = Some p -> process_qstep i o p s = Ret s' -> effect s o s'.
Proof.
  intros Hi. destruct p as [| | | | | | |b|b o'|b o'|b o' todo kept cleared|b o' kept cleared|b o' cleared|b| | | | | | | | | | | | |];
    try done; cbn [process_qstep].
  - intros [= <-]. destruct (list_empty (queue s)) eqn:El.
    + eapply eff_plain; [exact Hi|by apply plain_back|done].
    + eapply eff_call; [exact Hi|]. destruct (guarded o); [by left|by right].
  - intros [= <-]. plain Hi.
  - unfold locked. destruct (holder s) eqn:Eh; [by destruct o'|].
    destruct o'; try (intros [= <-]; exact (eff_swap s i b _ o Hi Eh)).
    intros (x & _ & [= <-])%bind_Ret_inv. eapply eff_plain; [exact Hi|by apply plain_back|done].
  - destruct todo as [|it todo]; [|by apply item_effect]. intros [= <-]. plain Hi; [by rewrite app_nil_r|by destruct b; intros; naive_solver].
  - destruct kept as [|it kept]; [intros [= <-]; plain Hi|]. unfold locked. destruct (holder s) eqn:Eh; [done|].
    intros [= <-]. exact (eff_back s i b o' o (it :: kept) cleared Hi Eh).
  - intros [= <-]. destruct (guarded o'); [plain Hi|].
    eapply (eff_plain s i _ (back b) (set_free _ _)); [exact Hi|by apply plain_back|done].
  - intros [= <-]. eapply (eff_plain s i _ (back b) (add_empty _ _)); [exact Hi|by apply plain_back|done].
Qed.
Lemma step_effect i e o w s s' : qstep i e o w s = Ret s' -> effect s o s'.
Proof.
  unfold qstep. destruct (qthreads s !! i) as [p|] eqn:Hi; [|done].
  destruct p; first [by apply wait_effect|by apply process_effect|by apply doEnqueue_effect|by apply enqueue_effect|by apply disable_effect].
Qed.
Definition op_of (ev : qevent) : qop := match ev with Go _ _ o _ => o | Spurious _ => OProcess end.
Lemma run1_effect ev s s' : qrun1 ev s = Ret s' -> effect s (op_of ev) s'.
Proof.
  destruct ev as [i e o w|i]; [apply step_effect|]. simpl. destruct (qthreads s !! i) as [[]|] eqn:Hi; try done.
  intros [= <-]. plain Hi.
Qed.

Lemma roles_insert (ts : list qpc) i p p' : ts !! i = Some p -> role_of p' = role_of p -> role_of <$> <[i := p']> ts = role_of <$> ts.
Proof. intros Hi Hc. rewrite list_fmap_insert. apply list_insert_id. rewrite list_lookup_fmap, Hi. simpl. congruence. Qed.
Lemma effect_roles s o s' : effect s o s' -> same_roles s s'.
Proof.
  unfold same_roles. destruct 1 as [i p p' q h o Hi Hp _|i b o p' Hi Hp|i p p' o Hi Hp _|i p p' w o Hi Hp Hw|i ev it o Hi _|
    i b o o' Hi _|i b o o' f ev todo kept cleared cleared' Hi|i b pr o' ev todo kept cleared Hi|i b o o' kept cleared Hi _];
    cbn [qthreads goto with_queue log]; try (by eapply roles_insert).
  - eapply roles_insert; [exact Hi|apply Hp].
  - eapply roles_insert; [exact Hi|]. by destruct Hp as [-> | ->].
  - eapply roles_insert; [exact Hi|]. by destruct Hp as [[-> ->]|[-> ->]].
  - rewrite (roles_insert _ w CAsleep) by done. eapply roles_insert; [exact Hi|]. by destruct Hp as [[-> ->]|[-> ->]].
Qed.

(** ** Order *)

Definition one_taker (ts : list qpc) : Prop :=
  forall i j r r', (role_of <$> ts) !! i = Some r -> (role_of <$> ts) !! j = Some r' -> takes_out r = true -> takes_out r' = true -> i = j.
Definition fifo (s : qstate) : Prop :=
  pushed s = (handled s).*2 ++ inflight (qthreads s) ++ omap id (queueList (queue s)).

Lemma inflight_goto ts i p p' : ts !! i = Some p -> doing p' = doing p -> inflight (<[i := p']> ts) = inflight ts.
Proof. intros Hi Hd. destruct (inflight_insert ts i p p' Hi) as (l1 & l2 & -> & ->). by rewrite Hd. Qed.
Lemma doing_taker p : takes_out (role_of p) = false -> doing p = [].
Proof. by destruct p as [| | | | | | |[]|[] ?|[] ?|[] ? ? ? ?|[] ? ? ?|[] ? ?|[]| | | | | | | | | | | | |]. Qed.
Lemma inflight_none ts : (forall j p, ts !! j = Some p -> takes_out (role_of p) = false) -> inflight ts = [].
Proof.
  induction ts as [|p ts IH]; intros Hn; [done|]. unfold inflight in *. rewrite bind_cons, IH.
  - rewrite (doing_taker p); [done|]. exact (Hn 0%nat p eq_refl).
  - intros j p' Hj. by apply (Hn (S j)).
Qed.
(** the one thread that takes events out holds all that are in flight *)
Lemma inflight_one ts i p : one_taker ts -> ts !! i = Some p -> takes_out (role_of p) = true -> inflight ts = doing p.
Proof.
  intros Ho Hi Hc.
  assert (Hel : forall j p', ts !! j = Some p' -> j <> i -> takes_out (role_of p') = false).
  { intros j p' Hj Hne. destruct (takes_out (role_of p')) eqn:E; [|done]. exfalso. apply Hne.
    apply (Ho j i (role_of p') (role_of p)); try done; rewrite list_lookup_fmap; [by rewrite Hj|by rewrite Hi]. }
  clear Ho. revert i Hi Hel. induction ts as [|p0 ts IH]; intros [|i] Hi Hel; simplify_eq/=; unfold inflight in *; rewrite ?bind_cons.
  - change (doing p ++ inflight ts = doing p). rewrite inflight_none, app_nil_r; [done|]. intros j p' Hj. by apply (Hel (S j)).
  - rewrite (IH i Hi) by (intros j p' Hj Hne; apply (Hel (S j)); [done|lia]).
    rewrite (doing_taker p0); [done|]. apply (Hel 0%nat p0 eq_refl). lia.
Qed.
Lemma inflight_one_insert ts i p p' :
  one_taker ts -> ts !! i = Some p -> takes_out (role_of p) = true -> role_of p' = role_of p ->
  inflight (<[i := p']> ts) = doing p'.
Proof.
  intros Ho Hi Hc Hr. apply (inflight_one _ i).
  - unfold one_taker. by rewrite (roles_insert ts i p p').
  - apply list_lookup_insert_eq. by eapply lookup_lt_Some.
  - by rewrite Hr.
Qed.
Lemma role_taker b : takes_out (of_consumer b) = true.
Proof. by destruct b. Qed.

Lemma fifo_step s o s' :
  qinv s -> one_taker (qthreads s) -> Forall in_order (qthreads s) -> effect s o s' -> fifo s -> fifo s'.
Proof.
  intros Hs Ho Hord Heff. unfold fifo. intros Hf.
  destruct Heff as [i p p' q h o Hi Hp Hq|i b o p' Hi Hp|i p p' o Hi Hp _|i p p' w o Hi Hp Hw|i ev it o Hi _|
    i b o o' Hi _|i b o o' f ev todo kept cleared cleared' Hi|i b pr o' ev todo kept cleared Hi|i b o o' kept cleared Hi _];
    cbn [qthreads goto with_queue log pushed handled queue queueList set_queue].
  - by rewrite (inflight_goto _ i p), Hq by (done || apply Hp).
  - rewrite (inflight_goto _ i (CCheck b)); [done|done|by destruct Hp as [-> | ->]].
  - rewrite (inflight_goto _ i p); [done|done|by destruct Hp as [[-> ->]|[-> ->]]].
  - rewrite (inflight_goto _ w CAsleep), (inflight_goto _ i p); try done. by destruct Hp as [[-> ->]|[-> ->]].
  - rewrite (inflight_goto _ i (PPush ev it)) by done. rewrite Hf, omap_app, <- !app_assoc. done.
  - rewrite (inflight_one _ i _ Ho Hi) in Hf by apply role_taker.
    rewrite (inflight_one_insert _ i _ _ Ho Hi) by (apply role_taker || done). rewrite Hf. cbn [doing app].
    rewrite <- omap_app. do 3 f_equal. symmetry. exact (taken_remains o (queueList (queue s))).
  - rewrite (inflight_one _ i _ Ho Hi) in Hf by apply role_taker.
    rewrite (inflight_one_insert _ i _ _ Ho Hi) by (apply role_taker || done).
    assert (Hk : skips o = false) by exact (Forall_lookup_1 _ _ _ _ Hord Hi).
    pose proof (Forall_lookup_1 _ _ _ _ (qi_locals s Hs) Hi) as (_ & _ & _ & Hkept & _). rewrite Hkept in * by done.
    rewrite Hf, fmap_app, <- !app_assoc. done.
  - by rewrite (inflight_goto _ i (CItems b (OProcessUntil pr) (Some ev :: todo) kept cleared)).
  - rewrite (inflight_one _ i _ Ho Hi) in Hf by apply role_taker.
    rewrite (inflight_one_insert _ i _ _ Ho Hi) by (apply role_taker || done). rewrite Hf, omap_app. done.
Qed.
Lemma in_order_step s o s' : skips o = false -> Forall in_order (qthreads s) -> effect s o s' -> Forall in_order (qthreads s').
Proof.
  intros Ho Hord Heff.
  assert (Hold : forall i p, qthreads s !! i = Some p -> in_order p) by (intros i p Hi; exact (Forall_lookup_1 _ _ _ _ Hord Hi)).
  destruct Heff as [i p p' q h o Hi Hp Hq|i b o p' Hi Hp|i p p' o Hi Hp _|i p p' w o Hi Hp Hw|i ev it o Hi _|
    i b o o' Hi _|i b o o' f ev todo kept cleared cleared' Hi|i b pr o' ev todo kept cleared Hi|i b o o' kept cleared Hi _];
    cbn [qthreads goto with_queue log]; try (apply Forall_insert; [done|]); try done.
  - eapply pm_order; [exact Hp|]. by eapply Hold.
  - by destruct Hp as [-> | ->].
  - by destruct Hp as [[_ ->]|[_ ->]].
  - apply Forall_insert; [apply Forall_insert; [done|]|done]. by destruct Hp as [[_ ->]|[_ ->]].
  - exact (Hold i _ Hi).
  - exact (Hold i _ Hi).
Qed.

(** ** Wakeups *)

Definition attended (ts : list qpc) : Prop := exists k p, ts !! k = Some p /\ attends p = true.
Record awake (s : qstate) : Prop := {
  aw_false j p : qthreads s !! j = Some p -> p = CTestC \/ p = CFalse -> queueList (queue s) = [];
  aw_queued : queueList (queue s) <> [] -> CAsleep ∈ qthreads s -> attended (qthreads s);
  aw_polls : Forall polls_ok (qthreads s);
}.
Definition no_disabler (ts : list qpc) : Prop := Forall (fun p => role_of p <> Disabler) ts.
(** no thread polls, or the operation does not put events back *)
Definition gentle (ts : list qpc) (o : qop) : Prop := Forall (fun p => role_of p <> Poller) ts \/ puts_back o = false.

(** a move of one thread after which the queue is no fuller than before *)
Lemma awake_move s i p p' q h ps hs :
  awake s -> qthreads s !! i = Some p -> (queueList (queue s) = [] -> queueList q = []) ->
  (p' = CTestC \/ p' = CFalse -> queueList (queue s) = []) -> (p' = CAsleep -> p = CFalse) ->
  (attends p = true -> queueList (queue s) <> [] -> attends p' = true) -> polls_ok p' ->
  awake (mk_qs q h (<[i := p']> (qthreads s)) ps hs).
Proof.
  intros [Ha1 Ha2 Ha3] Hi Hq Hf Hs Hat Hp. pose proof (lookup_lt_Some _ _ _ Hi). split; simpl.
  - intros j pj Hj Hjf. destruct (decide (j = i)) as [->|Hne].
    + rewrite list_lookup_insert_eq in Hj by done. injection Hj as <-. by apply Hq, Hf.
    + rewrite list_lookup_insert_ne in Hj by done. apply Hq. by eapply Ha1.
  - intros Hne Hin. assert (Hq0 : queueList (queue s) <> []) by (intros E; by apply Hne, Hq).
    assert (Hin0 : CAsleep ∈ qthreads s).
    { apply list_elem_of_lookup in Hin as [j Hj]. destruct (decide (j = i)) as [->|Hji].
      - rewrite list_lookup_insert_eq in Hj by done. injection Hj as Hj. exfalso. apply Hq0, (Ha1 i p Hi). right. by apply Hs.
      - rewrite list_lookup_insert_ne in Hj by done. apply list_elem_of_lookup. by exists j. }
    destruct (Ha2 Hq0 Hin0) as (k & pk & Hk & Hak). destruct (decide (k = i)) as [->|Hki].
    + exists i, p'. rewrite list_lookup_insert_eq by done. split; [done|]. apply Hat; [congruence|done].
    + exists k, pk. by rewrite list_lookup_insert_ne.
  - by apply Forall_insert.
Qed.
(** a step that fills the queue needs the lock, and its thread attends *)
Lemma awake_fill s i p p' q h ps hs :
  qinv s -> awake s -> holder s = None -> qthreads s !! i = Some p -> inside p' = false -> attends p' = true -> polls_ok p' ->
  awake (mk_qs q h (<[i := p']> (qthreads s)) ps hs).
Proof.
  intros Hs [_ _ Ha] Hh Hi Hin Hat Hp. pose proof (lookup_lt_Some _ _ _ Hi). split; simpl.
  - intros j pj Hj Hjf. destruct (decide (j = i)) as [->|Hne].
    { rewrite list_lookup_insert_eq in Hj by done. injection Hj as <-. by destruct Hjf as [-> | ->]. }
    rewrite list_lookup_insert_ne in Hj by done. exfalso.
    assert (Ej : holder s = Some j) by (apply (qi_holder s Hs); exists pj; split; [done|by destruct Hjf as [-> | ->]]). congruence.
  - intros _ _. exists i, p'. by rewrite list_lookup_insert_eq.
  - by apply Forall_insert.
Qed.
Lemma weigh_none ts : no_disabler ts -> weigh guards ts = 0.
Proof. induction 1 as [|p ts Hp _ IH]; [done|]. simpl. rewrite IH. by destruct p. Qed.

Lemma polls_call b o p' : (b = false -> puts_back o = false) -> p' = CGuard b o \/ p' = CSwap b o -> polls_ok p'.
Proof. intros Hg [-> | ->]; destruct b; simpl; auto. Qed.
Lemma remains_nil o (l : list qitem) : l = [] -> remains o l = [].
Proof. intros ->. by destruct o. Qed.

Lemma awake_step s o s' :
  qinv s -> no_disabler (qthreads s) -> gentle (qthreads s) o -> effect s o s' -> awake s -> awake s'.
Proof.
  intros Hs Hd Hg Heff Ha. pose proof Ha as [Ha1 Ha2 Ha3].
  assert (Hn : doCanNotifyQueueAvailable (queue s) = true).
  { unfold doCanNotifyQueueAvailable. rewrite (qi_notifies s Hs), (weigh_none _ Hd). done. }
  assert (Hold : forall i p, qthreads s !! i = Some p -> polls_ok p) by (intros i p Hi; exact (Forall_lookup_1 _ _ _ _ Ha3 Hi)).
  destruct Heff as [i p p' q h o Hi [] Hq|i b o p' Hi Hp|i p p' o Hi Hp Hno|i p p' w o Hi Hp Hw|i ev it o Hi Hh|
    i b o o' Hi Hh|i b o o' f ev todo kept cleared cleared' Hi|i b pr o' ev todo kept cleared Hi|i b o o' kept cleared Hi Hh].
  - eapply awake_move; eauto; [by rewrite Hq|]. intros [->| ->]; [auto|]. eapply Ha1; [exact Hi|]. left. auto.
  - eapply awake_move; eauto; [by destruct Hp as [-> | ->]; intros [|]|by destruct Hp as [-> | ->]|by destruct Hp as [-> | ->]|].
    apply polls_call with b o; [|done]. intros ->. destruct Hg as [Hg|Hg]; [|done]. exfalso.
    exact (Forall_lookup_1 _ _ _ _ Hg Hi eq_refl).
  - split; simpl.
    + intros j pj Hj Hjf. destruct (decide (j = i)) as [->|Hne].
      * rewrite list_lookup_insert_eq in Hj by (by eapply lookup_lt_Some). injection Hj as <-. by destruct Hp as [[_ ->]|[_ ->]], Hjf.
      * rewrite list_lookup_insert_ne in Hj by done. by eapply Ha1.
    + intros _ Hin. done.
    + apply Forall_insert; [done|]. by destruct Hp as [[_ ->]|[_ ->]].
  - pose proof (lookup_lt_Some _ _ _ Hw) as Hwl. split; simpl.
    + intros j pj Hj Hjf. destruct (decide (j = w)) as [->|Hne].
      { rewrite list_lookup_insert_eq in Hj by done. injection Hj as <-. by destruct Hjf. }
      rewrite list_lookup_insert_ne in Hj by done. destruct (decide (j = i)) as [->|Hji].
      * rewrite list_lookup_insert_eq in Hj by (by eapply lookup_lt_Some). injection Hj as <-. by destruct Hp as [[_ ->]|[_ ->]], Hjf.
      * rewrite list_lookup_insert_ne in Hj by done. by eapply Ha1.
    + intros _ _. exists w, CLock. by rewrite list_lookup_insert_eq.
    + apply Forall_insert; [apply Forall_insert; [done|]|done]. by destruct Hp as [[_ ->]|[_ ->]].
  - by eapply awake_fill.
  - eapply awake_move; eauto; [apply remains_nil|by intros [|]|done|]. specialize (Hold i _ Hi). by destruct b.
  - eapply awake_move; eauto; [by intros [|]|done|]. exact (Hold i _ Hi).
  - eapply awake_move; eauto; [by intros [|]|done|]. specialize (Hold i _ Hi). destruct b; [done|]. by destruct Hold.
  - specialize (Hold i _ Hi). destruct b; [by eapply awake_fill|]. simpl in Hold. subst kept.
    eapply awake_move; eauto; try done; by intros [|].
Qed.

(** one of the threads that attend can move *)
Lemma attended_moves s (e : qev) :
  qinv s -> awake s -> queueList (queue s) <> [] -> CAsleep ∈ qthreads s ->
  exists j p w s', qthreads s !! j = Some p /\ attends p = true /\ qstep j e OProcess w s = Ret s'.
Proof.
  intros Hs Ha Hq Hin. destruct (aw_queued s Ha Hq Hin) as (k & p & Hk & Hat).
  destruct (holder s) as [h|] eqn:Eh.
  - destruct (proj1 (qi_holder s Hs h) Eh) as (ph & Hh & Hins). exists h, ph, 0%nat. unfold qstep, wait_qstep. rewrite Hh.
    destruct ph; try done; try (by eexists); exfalso; apply Hq, (aw_false s Ha h _ Hh); auto.
  - apply list_elem_of_lookup in Hin as [w Hw]. exists k, p, w.
    destruct (qinv_step k e OProcess w s Hs) as [Hu _]. revert Hu. unfold qstep. rewrite Hk.
    assert (Hlp : local_ok p) by exact (Forall_lookup_1 _ _ _ _ (qi_locals s Hs) Hk).
    destruct p as [| | | | | | |b|b o|b o|b o todo kept cleared|b o kept cleared|b o cleared|b| | | | | | | | | | | | |]; try done;
      unfold wait_qstep, process_qstep, enqueue_qstep, locked; rewrite ?Eh; try (intros _; by eexists).
    + unfold peek_qstep. destruct o; try (intros _; by eexists). unfold peekEvent.
      destruct (queueList (queue s)) as [|it l] eqn:El; [done|].
      pose proof (qi_queue s Hs) as Hqs. rewrite El in Hqs. apply list.Forall_cons in Hqs as [[ev ->] _]. intros _. by eexists.
    + destruct todo as [|it todo]; [intros _; by eexists|]. destruct Hlp as (Ht & _ & _ & _ & Ho).
      apply list.Forall_cons in Ht as [[ev ->] _]. intros _.
      destruct o; try done; unfold item_qstep, item_out; cbn [item_get item_clear deref mbind outcome_bind]; try (by eexists);
        destruct (predictor (snd ev)); by eexists.
    + destruct kept; intros _; by eexists.
    + unfold notify_one. destruct (existsb _ _); [|intros _; by eexists].
      simpl. rewrite list_lookup_insert_ne, Hw by (intros ->; congruence). intros _. by eexists.
Qed.

Lemma same_roles_Forall s s' (P : role -> Prop) :
  same_roles s s' -> Forall (fun p => P (role_of p)) (qthreads s) -> Forall (fun p => P (role_of p)) (qthreads s').
Proof.
  intros Hr Hn. assert (Hb : Forall P (role_of <$> qthreads s)) by (by rewrite Forall_fmap).
  rewrite <- Hr in Hb. by rewrite Forall_fmap in Hb.
Qed.
Lemma same_roles_gentle s s' o : same_roles s s' -> gentle (qthreads s) o -> gentle (qthreads s') o.
Proof. intros Hr [Hg|Hg]; [left|by right]. exact (same_roles_Forall s s' (fun r => r <> Poller) Hr Hg). Qed.

Lemma qrun_keeps evs s :
  qinv s -> is_UB (qrun evs s) = false /\ forall s', qrun evs s = Ret s' ->
    qinv s' /\
    (one_taker (qthreads s) -> Forall (fun ev => skips (op_of ev) = false) evs ->
     Forall in_order (qthreads s) -> fifo s -> fifo s') /\
    (no_disabler (qthreads s) -> Forall (fun ev => gentle (qthreads s) (op_of ev)) evs -> awake s -> awake s').
Proof.
  revert s. induction evs as [|ev evs IH]; intros s Hs.
  - split; [done|]. by intros s' [= <-].
  - destruct (qinv_run1 ev s Hs) as [Hu Hret]. cbn [qrun].
    destruct (qrun1 ev s) as [s1| | |] eqn:E1; try done. cbn [mbind outcome_bind].
    pose proof (Hret s1 eq_refl) as Hs1. pose proof (run1_effect ev s s1 E1) as Heff. pose proof (effect_roles s _ s1 Heff) as Hr.
    destruct (IH s1 Hs1) as [Hu1 Hret1]. split; [done|]. intros s' E'. destruct (Hret1 s' E') as (Hi & Hf & Hw). split_and!; [done| |].
    + intros Ho Hsk Hord Hfi. apply list.Forall_cons in Hsk as [Hsk Hsks].
      apply Hf; [unfold one_taker; by rewrite Hr|exact Hsks|exact (in_order_step s _ s1 Hsk Hord Heff)|exact (fifo_step s _ s1 Hs Ho Hord Heff Hfi)].
    + intros Hd Hg Ha. apply list.Forall_cons in Hg as [Hg Hgs]. apply Hw.
      * exact (same_roles_Forall s s1 (fun r => r <> Disabler) Hr Hd).
      * eapply Forall_impl; [exact Hgs|]. intros ev'. simpl. by apply same_roles_gentle.
      * exact (awake_step s _ s1 Hs Hd Hg Heff Ha).
Qed.
Lemma start_keeps ts : Forall (fun p => fresh p = true) ts ->
  fifo (qstart ts) /\ Forall in_order ts /\ awake (qstart ts).
Proof.
  intros Hf. split_and!.
  - unfold fifo. simpl. rewrite app_nil_r. symmetry. unfold inflight. induction Hf as [|p ts Hp _ IH]; [done|].
    rewrite bind_cons, IH. by destruct p.
  - eapply Forall_impl; [exact Hf|]. by intros [].
  - split; simpl; [|done|].
    + intros j p Hj Hjf. pose proof (Forall_lookup_1 _ _ _ _ Hf Hj). by destruct Hjf as [-> | ->].
    + eapply Forall_impl; [exact Hf|]. intros [| | | | | | |[]| | | | | | | | | | | | | | | | | | |]; done.
Qed.

(** [DisableQueueNotify] can lose a wakeup: its destructor counts down
    without the mutex, so a consumer that has just found notification disabled,
    and has not gone to sleep yet, misses the only notification. In the end
    an event is queued, notification is enabled, every other thread has
    finished, and the consumer sleeps. *)
Lemma disable_notify_loses_wakeup (ev : qev) :
  exists evs s, qrun evs (qstart [CLock; PIdle; GIdle]) = Ret s /\
    qthreads s = [CAsleep; PIdle; GIdle] /\ doCanProcess (queue s) = true /\
    pushed s = [ev] /\ handled s = [].
Proof.
  pose (go i := Go i ev OProcess 0).
  exists (go <$> [2; 1; 1; 1; 1; 0; 0; 0; 2; 2; 2; 2; 0])%nat.
  exists (mk_qs (mk_eq ∅ [Some ev] [] 0 0) None [CAsleep; PIdle; GIdle] [ev] []).
  split_and!; [vm_compute; reflexivity|reflexivity..].
Qed.
(** A poller that keeps an event can lose a wakeup too: [emptyQueue()] reads
    the list and then the counter, and a producer that reads the list while
    [processIf] has taken it, and the counter after the event was put back, finds the
    queue empty, which it never was, and does not notify. *)
Lemma processIf_loses_wakeup (ev : qev) :
  exists evs s, qrun evs (qstart [CLock; PIdle; CCheck false]) = Ret s /\
    qthreads s = [CAsleep; PIdle; CCheck false] /\ doCanProcess (queue s) = true /\
    pushed s = [ev] /\ handled s = [].
Proof.
  pose (go i := Go i ev (OProcessIf (fun _ => false)) 0).
  exists (go <$> [0; 0; 0; 0; 1; 1; 2; 2; 2; 1; 2; 2; 2; 2; 2; 1])%nat.
  exists (mk_qs (mk_eq ∅ [Some ev] [] 0 0) None [CAsleep; PIdle; CCheck false] [ev] []).
  split_and!; [vm_compute; reflexivity|reflexivity..].
Qed.
(** C12. The queue between threads: with any number of producers, of consumers
    that loop over [wait()] and any of [process], [processOne], [processIf],
    [processUntil], [takeEvent], [peekEvent] and [clearEvents], of pollers that call
    these without waiting, and of threads that disable notification for a
    while, under every interleaving of their steps no buffer is reused while it
    holds an event and none is read after it was cleared; every event pushed
    left the queue once, is in the [tempList] of one thread, or is still
    queued, and with one thread that takes events out, and no [processIf],
    they leave in the order in which they were pushed; two threads never
    hold the queue's mutex, the empty counter counts the threads at work and
    the notify counter the disablers. No wakeup is lost as long as nobody
    disables notification and no poller puts events back: when events are
    queued while a consumer sleeps, another thread is on its way to see them
    or to notify, and can take its step. With a [DisableQueueNotify], and with a
    poller that keeps an event in [processIf], one can be lost: an event stays
    queued with notification enabled and nobody left to notify, and the
    consumer sleeps. *)
Theorem queue_threads_safe (ts : list qpc) (evs : list qevent) (e : qev) :
  Forall (fun p => fresh p = true) ts ->
  is_UB (qrun evs (qstart (C := C) ts)) = false /\
  forall s, qrun evs (qstart (C := C) ts) = Ret s ->
  (pushed s ≡ₚ (handled s).*2 ++ inflight (qthreads s) ++ omap id (queueList (queue s)) /\
   holder_ok (holder s) (qthreads s) /\ queueEmptyCounter (queue s) = weigh counts (qthreads s) /\
   queueNotifyCounter (queue s) = weigh guards (qthreads s)) /\
  (one_taker ts -> Forall (fun ev => skips (op_of ev) = false) evs ->
   pushed s = (handled s).*2 ++ inflight (qthreads s) ++ omap id (queueList (queue s))) /\
  (no_disabler ts -> Forall (fun ev => gentle ts (op_of ev)) evs -> queueList (queue s) <> [] -> CAsleep ∈ qthreads s ->
     exists j p w s', qthreads s !! j = Some p /\ attends p = true /\ qstep j e OProcess w s = Ret s') /\
  (forall t, t = GIdle \/ t = CCheck false ->
   exists evs' s', qrun evs' (qstart (C := C) [CLock; PIdle; t]) = Ret s' /\
     qthreads s' = [CAsleep; PIdle; t] /\ doCanProcess (queue s') = true /\ pushed s' = [e] /\ handled s' = []).
Proof.
  intros Hf. destruct (qrun_keeps evs _ (qinv_start ts Hf)) as [Hu Hret]. split; [done|]. intros s Hrun.
  destruct (start_keeps ts Hf) as (Hfi & Hord & Ha). destruct (Hret s Hrun) as (Hi & Hfifo & Hw). split_and!.
  - apply (qi_events s Hi).
  - apply (qi_holder s Hi).
  - apply (qi_empties s Hi).
  - apply (qi_notifies s Hi).
  - intros Ho Hsk. by apply Hfifo.
  - intros Hd Hg. by apply attended_moves, Hw.
  - intros t [->| ->]; [apply disable_notify_loses_wakeup|apply processIf_loses_wakeup].
Qed.

End queue_wakeups.

(** ** Two producers and a consumer *)

Definition two_producers : list (@qevent Z nat) :=
  [Go 0 (1, 7%nat) OProcess 0; Go 0 (1, 7%nat) OProcess 0; Go 0 (1, 7%nat) OProcess 0; Go 0 (1, 7%nat) OProcess 0;
   Go 1 (1, 7%nat) OProcess 0; Go 2 (2, 8%nat) OProcess 0; Go 2 (2, 8%nat) OProcess 0; Go 1 (1, 7%nat) OProcess 0].
Lemma queue_threads_safe_witness :
  exists s, qrun two_producers (qstart (C := nat) [CLock; PIdle; PIdle]) = Ret s /\
    pushed s = [(2, 8%nat); (1, 7%nat)] /\
    exists j p w s', qthreads s !! j = Some p /\ attends p = true /\ qstep j (1, 7%nat) OProcess w s = Ret s'.
Proof.
  assert (E : exists s, qrun two_producers (qstart (C := nat) [CLock; PIdle; PIdle]) = Ret s /\
    pushed s = [(2, 8%nat); (1, 7%nat)] /\ queueList (queue s) <> [] /\ qthreads s !! 0%nat = Some CAsleep)
    by (eexists; split; [vm_compute; reflexivity|]; split_and!; done).
  destruct E as (s & E & Hp & Hq & Ha). exists s. split; [exact E|]. split; [exact Hp|].
  destruct (queue_threads_safe (C := nat) [CLock; PIdle; PIdle] two_producers (1, 7%nat)) as [_ Hs].
  { repeat (apply list.Forall_cons; split; [reflexivity|]). apply list.Forall_nil. exact I. }
  destruct (Hs s E) as (_ & _ & Hw & _). apply Hw; [| |exact Hq|apply list_elem_of_lookup; by exists 0%nat].
  - repeat (apply list.Forall_cons; split; [discriminate|]). apply list.Forall_nil. exact I.
  - repeat (apply list.Forall_cons; split; [by right|]). apply list.Forall_nil. exact I.
Defined.
