(* ===== verification/CallbackCopy.v ===== *)
(** * CallbackCopy
    Copying, moving and swapping of [CallbackListBase], [EventDispatcherBase]
    and [EventQueueBase] ([3rd/include/eventpp]), and what is left of their
    interfaces: [forEachIf], the call operator, [dispatch], [wait]. *)

From Stdlib Require Import ZArith Lia.
From stdpp Require Import base numbers list option gmap fin_maps strings.
From S2P Require Import Prelude CallbackList CallbackListFacts EventQueue EventQueueFacts.

Section list_copy.
Context {C : Type}.
Implicit Types (l other : clist C) (M L : list positive).

(** [swap(other)]: this list and the other *)
Definition swap l other : clist C * clist C := (other, l).
(** move construction: the new list and what is left of [other] *)
Definition CallbackListBase_move other : clist C * clist C := swap CallbackListBase other.
(** [operator=(const CallbackListBase&)]; [self] when the two are one object *)
Definition copy_assign (self : bool) other l : clist C :=
  if self then l else (swap l (CallbackListBase_copy other)).1.
(** [operator=(CallbackListBase&&)]: the pointers move, the counter is copied *)
Definition move_assign (self : bool) other l : clist C * clist C :=
  if self then (l, l)
  else (mk_clist (heap other) (head other) (tail other) (currentCounter other),
        mk_clist (heap other) None None (currentCounter other)).
(** [forEachIf(func)] *)
Definition forEachIf {S : Type} (func : C -> S -> bool * S) l (s : S) : bool * S :=
  doForEachIf (fun _ cb s => func cb s) l s.
(** [operator()(args...)] with a continuation policy *)
Definition call_operator {S : Type} (canContinueInvoking : S -> bool) (run : C -> S -> S) l (s : S) : S :=
  (forEachIf (fun cb s => let s' := run cb s in (canContinueInvoking s', s')) l s).2.

(** ** Copies *)

(** the copy under construction: the nodes [M], all with the counter [c] *)
Record cloned l M (c : Z) (cbs : list C) : Prop := {
  cl_seg : seg (heap l) None M None;
  cl_nodup : NoDup M;
  cl_head : head l = hd_error M;
  cl_counter : currentCounter l = c;
  cl_nodes : forall n, n ∈ M -> exists nd, heap l !! n = Some nd /\ counter nd = c;
  cl_callbacks : callbacks l M = Some <$> cbs;
}.

(** one turn of the loop of [cloneFrom] *)
Lemma clone_step l M c cbs cb :
  cloned l M c cbs ->
  let p := fresh (dom (heap l)) in
  let l1 := with_heap (<[p := mk_node (last M) None cb c]> (heap l)) l in
  cloned (match last M with Some q => upd q (put_next (Some p)) l1 | None => set_head (Some p) l1 end)
    (M ++ [p]) c (cbs ++ [cb]).
Proof.
  intros [Hs Hnd Hh Hc Hn Hcb] p l1.
  assert (HpM : p ∉ M).
  { intros Hin. destruct (Hn p Hin) as (nd & Hp & _).
    apply (is_fresh (dom (heap l))). apply elem_of_dom. by exists nd. }
  assert (Hne : forall n, n ∈ M -> n <> p) by (intros n Hin ->; done).
  assert (Hs1 : seg (heap l1) None M None).
  { eapply seg_frame; [|exact Hs]. intros n Hin nd Hnl. exists nd. simpl.
    rewrite lookup_insert_ne; [done|]. intros E. by apply (Hne n). }
  destruct (rev_ind_cases M) as [->|(M0 & t & ->)].
  - split; simpl; try done.
    + exists (mk_node None None cb c). by rewrite lookup_insert_eq.
    + apply NoDup_singleton.
    + intros n ->%list_elem_of_singleton. eexists. rewrite lookup_insert_eq. done.
    + destruct cbs; [|done]. unfold callbacks. simpl. by rewrite lookup_insert_eq.
  - rewrite last_snoc.
    assert (Htp : t <> p) by (apply Hne; set_solver).
    assert (Ht0 : t ∉ M0) by (apply NoDup_app in Hnd as (_ & Hnd & _); set_solver).
    assert (Hp' : alter (put_next (Some p)) t (heap l1) !! p = Some (mk_node (Some t) None cb c)).
    { rewrite lookup_alter_ne by done. simpl. rewrite lookup_insert_eq, last_snoc. done. }
    split; cbn [heap head currentCounter upd with_heap]; try done.
    + rewrite seg_app. split; [by apply (seg_put_next _ _ _ _ None)|].
      rewrite last_or_snoc. by exists (mk_node (Some t) None cb c).
    + apply NoDup_app. split_and!; [done| |apply NoDup_singleton]. set_solver.
    + simpl. rewrite Hh. by destruct M0.
    + intros n [Hin|Hin]%elem_of_app.
      * destruct (Hn n Hin) as (nd & Hnl & Hcn). destruct (decide (n = t)) as [->|Hnt].
        -- exists (put_next (Some p) nd). rewrite lookup_alter_eq. simpl.
           rewrite lookup_insert_ne by (symmetry; by apply Hne). by rewrite Hnl.
        -- exists nd. rewrite lookup_alter_ne by done. simpl.
           rewrite lookup_insert_ne by (symmetry; by apply Hne). done.
      * apply list_elem_of_singleton in Hin as ->. eexists. split; [exact Hp'|done].
    + rewrite callbacks_app, fmap_app. f_equal.
      * rewrite <- Hcb. apply callbacks_eq. intros n Hin. cbn [heap upd with_heap].
        rewrite callback_alter by done. simpl.
        rewrite lookup_insert_ne; [done|]. symmetry. by apply Hne.
      * unfold callbacks. cbn [fmap list_fmap heap upd with_heap]. by rewrite Hp'.
Qed.

Lemma clone_loop_spec fuel other p L l M c cbs cbs' :
  seg (heap other) p L None -> callbacks other L = Some <$> cbs' -> (length L <= fuel)%nat ->
  cloned l M c cbs ->
  exists M' l', clone_loop fuel other (hd_error L) c (last M) l = (last M', l') /\
    cloned l' M' c (cbs ++ cbs').
Proof.
  revert p L l M cbs cbs'. induction fuel as [|fuel IH]; intros p L l M cbs cbs' Hs Hcb Hf Hcl.
  - destruct L; [|simpl in Hf; lia]. destruct cbs'; [|done]. exists M, l. by rewrite app_nil_r.
  - destruct L as [|n L]; cbn [hd_error clone_loop].
    { destruct cbs'; [|done]. exists M, l. by rewrite app_nil_r. }
    destruct Hs as (nd & Hn & _ & Hx & Hr). rewrite Hn.
    destruct cbs' as [|cb cbs']; [done|]. unfold callbacks in Hcb. cbn [fmap list_fmap] in Hcb.
    rewrite Hn in Hcb. injection Hcb as Hcbn Hcb. subst cb.
    pose proof (clone_step l M c cbs (callback nd) Hcl) as Hst. cbv zeta in Hst.
    set (l2 := match last M with Some q => _ | None => _ end) in *.
    destruct (IH (Some n) L l2 _ _ cbs' Hr Hcb ltac:(simpl in Hf; lia) Hst) as (M' & l' & E & Hcl').
    rewrite last_snoc in E. rewrite Hx, first_or_None. exists M', l'.
    rewrite <- app_assoc in Hcl'. split; [exact E|exact Hcl'].
Qed.

Lemma copy_refines other a :
  refines other a -> exists M, length M = length a /\ refines (CallbackListBase_copy other) (zip M a.*2).
Proof.
  intros [Hr Hc]. unfold CallbackListBase_copy, cloneFrom.
  change (getNextCounter CallbackListBase) with (1, mk_clist (C := C) ∅ None None 1).
  pose proof (rep_length _ _ Hr) as Hlen. pose proof Hr as [Hs _ Hh _ _ _].
  assert (H0 : cloned (mk_clist (C := C) ∅ None None 1) [] 1 []).
  { split; try done; [apply NoDup_nil_2|]. intros n Hn. by apply not_elem_of_nil in Hn. }
  destruct (clone_loop_spec _ other None _ _ [] 1 [] a.*2 Hs Hc Hlen H0) as (M & l' & E & Hcl).
  cbn [last] in E. rewrite Hh, E. destruct Hcl as [Hs' Hnd Hh' Hc' Hn Hcb]. rewrite app_nil_l in Hcb.
  assert (Hlm : length M = length a).
  { apply (f_equal length) in Hcb. unfold callbacks in Hcb. by rewrite !length_fmap in Hcb. }
  exists M. split; [done|].
  assert (Hz1 : (zip M a.*2).*1 = M) by (apply fst_zip; rewrite length_fmap; lia).
  assert (Hz2 : (zip M a.*2).*2 = a.*2) by (apply snd_zip; rewrite length_fmap; lia).
  unfold refines. rewrite Hz1, Hz2. split; [|exact Hcb].
  split; simpl; try done; [|rewrite Hc'; simpl; lia]. apply Forall_forall. intros n Hin.
  destruct (Hn n Hin) as (nd & Hl & Hcn). exists nd. split; [done|]. rewrite Hc'. lia.
Qed.

(** a run that is never told to stop is [forEach] *)
Lemma forEachIf_always {S : Type} (run : C -> S -> S) l (s : S) :
  call_operator (fun _ => true) run l s = forEach run l s.
Proof. done. Qed.
End list_copy.

Section queue_copy.
Context {E : Type} `{Countable E} {A C St : Type}.
Variable run_callback : C -> A -> St -> St.

(** [EventDispatcherBase(const EventDispatcherBase&)] and its assignment: the
    map is copied list by list *)
Definition EventDispatcherBase_copy (other : dispatcher E C) : dispatcher E C :=
  CallbackListBase_copy <$> other.
(** move construction and [swap] *)
Definition EventDispatcherBase_move (other : dispatcher E C) : dispatcher E C * dispatcher E C := (other, ∅).
Definition dispatcher_swap (d other : dispatcher E C) : dispatcher E C * dispatcher E C := (other, d).
(** [forEach(event, func)], [forEachIf(event, func)] *)
Definition dispatcher_forEach (e : E) (func : C -> St -> St) (d : dispatcher E C) (st : St) : St :=
  match doFindCallableList e d with Some l => forEach func l st | None => st end.
Definition dispatcher_forEachIf (e : E) (func : C -> St -> bool * St) (d : dispatcher E C) (st : St) : bool * St :=
  match doFindCallableList e d with Some l => forEachIf func l st | None => (true, st) end.
(** [dispatch(first, args...)] with the default [getEvent]: the first argument *)
Definition dispatch (first : E) (args : A) (d : dispatcher E C) (st : St) : St :=
  directDispatch run_callback first args d st.

(** [EventQueueBase(const EventQueueBase&)]: the listeners, not the events. The
    two counters are not initialised: they are [empty_counter] and
    [notify_counter], whatever the memory held. *)
Definition EventQueueBase_copy (empty_counter notify_counter : Z) (other : equeue E A C) : equeue E A C :=
  mk_eq (EventDispatcherBase_copy (listeners other)) [] [] empty_counter notify_counter.
(** [operator=]: the events of the target stay *)
Definition EventQueueBase_assign (other q : equeue E A C) : equeue E A C :=
  set_listeners (EventDispatcherBase_copy (listeners other)) q.
(** moving takes the listeners away from [other]: the new or changed queue, and
    [other] *)
Definition EventQueueBase_move (empty_counter notify_counter : Z) (other : equeue E A C) : equeue E A C * equeue E A C :=
  let '(d, rest) := EventDispatcherBase_move (listeners other) in
  (mk_eq d [] [] empty_counter notify_counter, set_listeners rest other).
Definition EventQueueBase_move_assign (other q : equeue E A C) : equeue E A C * equeue E A C :=
  let '(d, rest) := EventDispatcherBase_move (listeners other) in
  (set_listeners d q, set_listeners rest other).
(** [wait()] returns when [doCanProcess()] holds; [waitFor] reports it at the
    end of the wait *)
Definition wait (q : equeue E A C) : outcome unit := if doCanProcess q then Ret tt else Blocked.
Definition waitFor (q : equeue E A C) : bool := doCanProcess q.
(** [dispatch(queuedEvent)] *)
Definition dispatch_queued (ev : @QueuedEvent E A) (q : equeue E A C) (st : St) : St :=
  doDispatchQueuedEvent run_callback ev q st.

Lemma copy_list_at (d : gmap E (clist C)) e a :
  refines (default CallbackListBase (d !! e)) a ->
  exists a', refines (default CallbackListBase ((CallbackListBase_copy <$> d) !! e)) a' /\ a'.*2 = a.*2.
Proof.
  rewrite lookup_fmap. destruct (d !! e) as [l|]; simpl; intros He; [|by exists a].
  destruct (copy_refines l a He) as (M & Hlen & Hr). exists (zip M a.*2). split; [done|].
  apply snd_zip. rewrite length_fmap. lia.
Qed.

(** C27. A copied queue has the listeners of the original and none of its
    events: every event has the same callbacks in the same order, so
    dispatching any event on the copy does what it does on the original, and
    there is no event to take; assignment leaves the target's events alone.
    But the constructor leaves the copy's counters uninitialised: the copy is
    empty only if the first happens to be zero, and otherwise [wait] may
    return although there is nothing to process. *)
Theorem copies_listeners (empty_counter notify_counter : Z) (q t : equeue E A C) (m : E -> list (positive * C))
    (evs : list (@QueuedEvent E A)) :
  let copy := EventQueueBase_copy empty_counter notify_counter q in
  listening (listeners q) m -> holds t evs ->
  (forall e, exists a, refines (list_at e (listeners copy)) a /\ a.*2 = (m e).*2) /\
  (forall e args st, directDispatch run_callback e args (listeners copy) st
                     = directDispatch run_callback e args (listeners q) st) /\
  peekEvent copy = Ret None /\ holds (EventQueueBase_assign q t) evs /\
  emptyQueue copy = (empty_counter =? 0) /\
  (wait copy = Ret tt <-> empty_counter <> 0 /\ notify_counter = 0).
Proof.
  intros copy Hm Ht.
  assert (Hl : forall e, exists a, refines (list_at e (listeners copy)) a /\ a.*2 = (m e).*2).
  { intros e. exact (copy_list_at (listeners q) e (m e) (Hm e)). }
  assert (Hd : forall e args st, directDispatch run_callback e args (listeners copy) st
      = fold_left (fun st cb => run_callback cb args st) ((m e).*2) st).
  { intros e args st. destruct (Hl e) as (a & Ha & <-). by apply directDispatch_at. }
  split_and!; try done.
  - intros e args st. rewrite Hd. symmetry. by apply directDispatch_spec.
  - unfold wait, doCanProcess, doCanNotifyQueueAvailable, emptyQueue. cbn [queueList queueEmptyCounter queueNotifyCounter EventQueueBase_copy copy].
    rewrite bool_decide_eq_true_2 by done. cbn [andb].
    destruct (Z.eqb_spec empty_counter 0), (Z.eqb_spec notify_counter 0); simpl; naive_solver.
Qed.
End queue_copy.

Definition copied_queue : equeue Z Z Z :=
  mk_eq {[1 := (append 8 (append 7 CallbackListBase).2).2]} [Some (1, 100)] [] 0 0.
Lemma copied_queue_listening :
  listening (listeners copied_queue) (fun e => if decide (e = 1) then [(1%positive, 7); (2%positive, 8)] else []).
Proof.
  intros e. case_decide as D.
  - subst e. change (list_at 1 (listeners copied_queue)) with (append 8 (append 7 (@CallbackListBase Z)).2).2.
    pose proof (append_refines (C := Z) 7 CallbackListBase [] _ _ (conj rep_new eq_refl) eq_refl) as [_ H1].
    exact (proj2 (append_refines 8 _ _ _ _ H1 eq_refl)).
  - assert (El : list_at e (listeners copied_queue) = CallbackListBase).
    { apply (f_equal (default (@CallbackListBase Z)) (y := None)).
      apply (lookup_singleton_ne (M := gmap Z)). congruence. }
    rewrite El. by split; [apply rep_new|].
Qed.
Lemma copies_listeners_witness :
  directDispatch record 1 5 (listeners (EventQueueBase_copy 3 0 copied_queue)) [] = [(7, 5); (8, 5)] /\
  wait (EventQueueBase_copy 3 0 copied_queue) = Ret tt.
Proof.
  destruct (copies_listeners record 3 0 copied_queue copied_queue _ [(1, 100)] copied_queue_listening)
    as (_ & Hd & _ & _ & _ & Hw); [by split|]. split; [rewrite Hd; by vm_compute|by apply Hw].
Defined.
