(* ===== verification/EventUtil.v ===== *)
(** * EventUtil
    What [eventpp] builds on the listener list: the searches of
    [utilities/eventutil.h], the filters of [mixins/mixinfilter.h] and the
    sorted queue of [utilities/orderedqueuelist.h]. *)

From Stdlib Require Import ZArith Lia Sorted.
From stdpp Require Import base numbers list option gmap fin_maps sorting.
From S2P Require Import Prelude CallbackList CallbackListFacts CallbackDispatch EventQueue EventQueueFacts.

(** ** [utilities/eventutil.h] *)

Section eventutil.
(** callbacks that can be compared with [==] *)
Context {C : Type} `{EqDecision C}.

(** the lambda of [removeListener]: the loop holds the node it examines *)
Definition remove_if_equal (cb : C) (handle : positive) (item : C) (s : bool * clist C)
    : bool * (bool * clist C) :=
  if decide (item = cb) then (false, (true, (remove [handle] handle s.2).2)) else (true, s).
(** [removeListener(callbackList, callback)] *)
Definition list_removeListener (cb : C) (l : clist C) : bool * clist C :=
  (doForEachIf (remove_if_equal cb) l (false, l)).2.
(** [hasListener(callbackList, callback)] *)
Definition list_hasListener (cb : C) (l : clist C) : bool :=
  (doForEachIf (fun _ item found => if decide (item = cb) then (false, true) else (true, found)) l false).2.
(** [hasAnyListener(callbackList)] *)
Definition list_hasAnyListener (l : clist C) : bool := (doForEachIf (fun _ _ _ => (false, true)) l false).2.

Context {E : Type} `{Countable E}.
(** [dispatcher.forEachIf(event, func)] with a function of handle and callback *)
Definition event_forEachIf {S : Type} (f : positive -> C -> S -> bool * S) (e : E) (d : dispatcher E C) (s : S)
    : bool * S :=
  match doFindCallableList e d with Some l => doForEachIf f l s | None => (true, s) end.
(** [removeListener(dispatcher, event, listener)] *)
Definition event_removeListener (e : E) (cb : C) (d : dispatcher E C) : bool * dispatcher E C :=
  let remove_item (handle : positive) (item : C) (s : bool * dispatcher E C) :=
    if decide (item = cb) then
      (false, (true, (removeListener [handle] e handle s.2).2))
    else (true, s) in
  (event_forEachIf remove_item e d (false, d)).2.
(** [hasListener(dispatcher, event, listener)] *)
Definition event_hasListener (e : E) (cb : C) (d : dispatcher E C) : bool :=
  (event_forEachIf (fun _ item found => if decide (item = cb) then (false, true) else (true, found)) e d false).2.
(** [hasAnyListener(dispatcher, event)] *)
Definition event_hasAnyListener (e : E) (d : dispatcher E C) : bool :=
  (event_forEachIf (fun _ _ _ => (false, true)) e d false).2.
End eventutil.

(** ** [mixins/mixinfilter.h] *)

Section mixin_filter.
Context {E : Type} `{Countable E} {A C F St : Type}.
Variable run_callback : C -> A -> St -> St.
(** a call of a filter, which gets references to the arguments *)
Variable run_filter : F -> A -> St -> bool * (A * St).

Definition appendFilter (f : F) (filterList : clist F) : positive * clist F := append f filterList.
Definition removeFilter (h : positive) (filterList : clist F) : bool * clist F := remove [] h filterList.
Definition mixinBeforeDispatch (filterList : clist F) (args : A) (st : St) : bool * (A * St) :=
  if negb (empty filterList) then
    let '(go, s) := doForEachIf (fun _ f s => run_filter f s.1 s.2) filterList (args, st) in
    if negb go then (false, s) else (true, s)
  else (true, (args, st)).
(** [directDispatch(e, args...)] of a dispatcher with this mixin *)
Definition filteredDispatch (filterList : clist F) (e : E) (args : A) (d : dispatcher E C) (st : St) : St :=
  let '(go, s) := mixinBeforeDispatch filterList args st in
  if negb go then s.2 else directDispatch run_callback e s.1 d s.2.
End mixin_filter.

(** ** [utilities/orderedqueuelist.h] *)

Section ordered_queue_list.
Context {A : Type}.
(** [OrderedQueueListCompare], with empty buffers first *)
Definition item_before (a b : @BufferedItem Z A) : bool :=
  match a, b with
  | None, None => false
  | None, Some _ => true
  | Some _, None => false
  | Some x, Some y => x.1 <? y.1
  end.
(** [std::list::sort] is stable: an element goes behind those it is not before *)
Fixpoint insert_item (x : @BufferedItem Z A) (l : list BufferedItem) : list BufferedItem :=
  match l with
  | [] => [x]
  | y :: l => if item_before x y then x :: y :: l else y :: insert_item x l
  end.
Definition doSort (l : list (@BufferedItem Z A)) : list BufferedItem :=
  fold_left (fun sorted x => insert_item x sorted) l [].
(** [splice(pos, other)] *)
Definition ordered_splice (pos : nat) (other l : list (@BufferedItem Z A)) : list BufferedItem :=
  doSort (take pos l ++ other ++ drop pos l).
(** [splice(pos, other, it)]: both lists afterwards *)
Definition ordered_splice_one (pos it : nat) (other l : list (@BufferedItem Z A))
    : list (@BufferedItem Z A) * list BufferedItem :=
  (take it other ++ drop (S it) other, doSort (take pos l ++ option_list (other !! it) ++ drop pos l)).
End ordered_queue_list.

(** ** The loop on the abstract list *)

Section iteration.
Context {C S : Type}.
Implicit Types (l : clist C) (a : list (positive * C)).

Fixpoint iterate (f : positive -> C -> S -> bool * S) a (s : S) : bool * S :=
  match a with
  | [] => (true, s)
  | (h, cb) :: a => let '(go, s') := f h cb s in if go then iterate f a s' else (false, s')
  end.

Lemma doForEachIf_loop_spec (f : positive -> C -> S -> bool * S) l a p fuel s :
  seg (heap l) p a.*1 None -> counted (currentCounter l) (heap l) a.*1 -> (length a <= fuel)%nat ->
  callbacks l a.*1 = Some <$> a.*2 ->
  doForEachIf_loop f fuel l (currentCounter l) (hd_error a.*1) s = iterate f a s.
Proof.
  revert p fuel s. induction a as [|[n cb] a IH]; intros p fuel s Hs Hc Hf Hcb; [by destruct fuel|].
  rewrite fmap_cons in *. destruct Hs as (nd & Hn & Hp & Hx & Hr). cbn [fst] in *.
  apply list.Forall_cons in Hc as [(nd' & Hn' & Hc0) Hc]. rewrite Hn in Hn'. injection Hn' as <-.
  destruct fuel as [|fuel]; [simpl in Hf; lia|].
  unfold callbacks in Hcb. rewrite !fmap_cons, Hn in Hcb. injection Hcb as <- Hcb.
  cbn [hd_error doForEachIf_loop iterate]. rewrite Hn.
  assert (eligible (currentCounter l) nd = true) as ->.
  { unfold eligible, removedCounter. rewrite (proj2 (Z.eqb_neq _ _)), (proj2 (Z.leb_le _ _)) by lia. done. }
  destruct (f n (callback nd) s) as [[] s']; [|done]. rewrite Hx, first_or_None.
  apply (IH (Some n)); try done. simpl in Hf. lia.
Qed.
Lemma doForEachIf_spec (f : positive -> C -> S -> bool * S) l a s :
  refines l a -> doForEachIf f l s = iterate f a s.
Proof.
  intros [Hr Hc]. unfold doForEachIf. pose proof Hr as [Hs _ -> _ Hct _].
  eapply doForEachIf_loop_spec; [exact Hs|exact Hct| |exact Hc].
  apply rep_length in Hr. by rewrite length_fmap in Hr.
Qed.
End iteration.


(** the loop up to the first element a test accepts *)
Lemma iterate_until {C S} (P : C -> Prop) `{!forall c, Decision (P c)} (g : positive -> C -> S -> S)
    (a : list (positive * C)) (s : S) :
  iterate (fun h item s => if decide (P item) then (false, g h item s) else (true, s)) a s
    = match list_find (fun x => P x.2) a with
      | Some (_, (h, item)) => (false, g h item s)
      | None => (true, s)
      end.
Proof.
  induction a as [|[h item] a IH]; [done|]. cbn [iterate list_find snd].
  destruct (decide (P item)); [done|]. rewrite IH.
  by destruct (list_find _ a) as [[i [h' item']]|].
Qed.
Lemma found_iff {C} `{EqDecision C} (cb : C) (a : list (positive * C)) :
  match list_find (fun x => x.2 = cb) a with Some _ => true | None => false end = bool_decide (cb ∈ a.*2).
Proof.
  destruct (list_find _ a) as [[i x]|] eqn:Ef; symmetry.
  - apply list_find_Some in Ef as (Hi & <- & _). apply bool_decide_eq_true_2, list_elem_of_fmap.
    exists x. split; [done|]. by eapply list_elem_of_lookup_2.
  - apply list_find_None in Ef. apply bool_decide_eq_false_2. intros (x & -> & Hx)%list_elem_of_fmap.
    rewrite Forall_forall in Ef. by apply (Ef x).
Qed.

Section facts.
Context {C : Type} `{EqDecision C}.
Implicit Types (l : clist C) (a : list (positive * C)).

(** the first listener equal to [cb] goes, if there is one *)
Definition without_first (cb : C) a : list (positive * C) :=
  match list_find (fun x => x.2 = cb) a with Some (i, _) => take i a ++ drop (S i) a | None => a end.

Lemma list_removeListener_spec cb l a :
  refines l a ->
  (list_removeListener cb l).1 = bool_decide (cb ∈ a.*2) /\
  refines (list_removeListener cb l).2 (without_first cb a).
Proof.
  intros Href. unfold list_removeListener. rewrite (doForEachIf_spec _ l a) by done.
  unfold remove_if_equal.
  rewrite (iterate_until (fun item => item = cb) (fun h _ s => (true, (remove [h] h s.2).2))).
  unfold without_first. pose proof (found_iff cb a) as Hf.
  destruct (list_find _ a) as [[i [h item]]|] eqn:Ef; simpl; [|done].
  split; [done|]. apply list_find_Some in Ef as (Hi & _ & _).
  eapply remove_refines. by rewrite take_drop_middle.
Qed.
Lemma list_hasListener_spec cb l a : refines l a -> list_hasListener cb l = bool_decide (cb ∈ a.*2).
Proof.
  intros Href. unfold list_hasListener. rewrite (doForEachIf_spec _ l a) by done.
  rewrite (iterate_until (fun item => item = cb) (fun _ _ _ => true)), <- found_iff.
  by destruct (list_find _ a) as [[i [h item]]|].
Qed.
Lemma list_hasAnyListener_spec l a : refines l a -> list_hasAnyListener l = negb (bool_decide (a = [])).
Proof.
  intros Href. unfold list_hasAnyListener. rewrite (doForEachIf_spec _ l a) by done. by destruct a as [|[]].
Qed.

Context {E : Type} `{Countable E}.
Implicit Types (d : dispatcher E C) (m : E -> list (positive * C)).

Lemma event_forEachIf_spec {S} (f : positive -> C -> S -> bool * S) e d m s :
  listening d m -> event_forEachIf f e d s = iterate f (m e) s.
Proof.
  intros Hm. pose proof (Hm e) as He. unfold event_forEachIf, doFindCallableList, list_at in *.
  destruct (d !! e) as [l|]; simpl in He; [by apply doForEachIf_spec|].
  destruct He as [[_ _ Hh _ _ _] _]. simpl in Hh. by destruct (m e).
Qed.
Lemma event_removeListener_spec e cb d m :
  listening d m ->
  (event_removeListener e cb d).1 = bool_decide (cb ∈ (m e).*2) /\
  listening (event_removeListener e cb d).2 (fun e' => if decide (e' = e) then without_first cb (m e) else m e').
Proof.
  intros Hm. unfold event_removeListener. rewrite (event_forEachIf_spec _ e d m) by done.
  rewrite (iterate_until (fun item => item = cb) (fun h _ s => (true, (removeListener [h] e h s.2).2))).
  unfold without_first. pose proof (found_iff cb (m e)) as Hf.
  destruct (list_find _ (m e)) as [[i [h item]]|] eqn:Ef; simpl.
  - split; [done|]. apply list_find_Some in Ef as (Hi & _ & _).
    eapply removeListener_spec; [done|]. by rewrite take_drop_middle.
  - split; [done|]. intros e'. destruct (decide (e' = e)) as [->|]; apply Hm.
Qed.
Lemma event_hasListener_spec e cb d m :
  listening d m -> event_hasListener e cb d = bool_decide (cb ∈ (m e).*2).
Proof.
  intros Hm. unfold event_hasListener. rewrite (event_forEachIf_spec _ e d m) by done.
  rewrite (iterate_until (fun item => item = cb) (fun _ _ _ => true)), <- found_iff.
  by destruct (list_find _ (m e)) as [[i [h item]]|].
Qed.
Lemma event_hasAnyListener_spec e d m :
  listening d m -> event_hasAnyListener e d = negb (bool_decide (m e = [])).
Proof.
  intros Hm. unfold event_hasAnyListener. rewrite (event_forEachIf_spec _ e d m) by done.
  by destruct (m e) as [|[]].
Qed.

Context {A F St : Type} (run_callback : C -> A -> St -> St) (run_filter : F -> A -> St -> bool * (A * St)).

(** filters run in order until one refuses *)
Fixpoint run_filters (fs : list F) (x : A * St) : bool * (A * St) :=
  match fs with
  | [] => (true, x)
  | f :: fs => let '(go, x') := run_filter f x.1 x.2 in if go then run_filters fs x' else (false, x')
  end.
Lemma iterate_filters (fs : list (positive * F)) x :
  iterate (fun _ f s => run_filter f s.1 s.2) fs x = run_filters fs.*2 x.
Proof.
  revert x. induction fs as [|[h f] fs IH]; intros x; [done|]. cbn [iterate].
  rewrite fmap_cons. cbn [run_filters snd]. destruct (run_filter f x.1 x.2) as [[] x']; [apply IH|done].
Qed.
Lemma mixinBeforeDispatch_spec fl (fs : list (positive * F)) args st :
  refines fl fs -> mixinBeforeDispatch run_filter fl args st = run_filters fs.*2 (args, st).
Proof.
  intros Href. unfold mixinBeforeDispatch.
  assert (empty fl = bool_decide (fs = [])) as ->.
  { unfold empty. destruct Href as [[_ _ -> _ _ _] _]. by destruct fs. }
  case_bool_decide as D; [by subst|]. simpl. rewrite (doForEachIf_spec _ fl fs), iterate_filters by done.
  by destruct (run_filters fs.*2 (args, st)) as [[] s].
Qed.

(** The helpers of the event library do what they say: [removeListener]
    by value removes the first listener equal to the given one, of that event
    only, and reports whether there was one; [hasListener] and [hasAnyListener]
    answer for exactly the registered listeners; filters run in registration
    order on the arguments, each on what the previous one left, until one
    refuses; a refused event reaches no listener, an accepted one reaches
    exactly the listeners of its event, in order, with the arguments as the
    filters left them. *)
Theorem event_utilities (e : E) (cb : C) d m (fl : clist F) (fs : list (positive * F)) (args : A) (st : St) :
  listening d m -> refines fl fs ->
  (event_removeListener e cb d).1 = bool_decide (cb ∈ (m e).*2) /\
  listening (event_removeListener e cb d).2 (fun e' => if decide (e' = e) then without_first cb (m e) else m e') /\
  event_hasListener e cb d = bool_decide (cb ∈ (m e).*2) /\
  event_hasAnyListener e d = negb (bool_decide (m e = [])) /\
  (forall l, refines l (m e) ->
     (list_removeListener cb l).1 = bool_decide (cb ∈ (m e).*2) /\
     refines (list_removeListener cb l).2 (without_first cb (m e)) /\
     list_hasListener cb l = bool_decide (cb ∈ (m e).*2) /\
     list_hasAnyListener l = negb (bool_decide (m e = []))) /\
  filteredDispatch run_callback run_filter fl e args d st =
    match run_filters fs.*2 (args, st) with
    | (true, (args', st')) => fold_left (fun st cb => run_callback cb args' st) (m e).*2 st'
    | (false, (_, st')) => st'
    end.
Proof.
  intros Hm Hf. destruct (event_removeListener_spec e cb d m Hm) as [Hb Hd]. split_and!; [done|done| | | |].
  - by apply event_hasListener_spec.
  - by apply event_hasAnyListener_spec.
  - intros l Hl. destruct (list_removeListener_spec cb l (m e) Hl). split_and!; [done|done| |].
    + by apply list_hasListener_spec.
    + by apply list_hasAnyListener_spec.
  - unfold filteredDispatch. rewrite (mixinBeforeDispatch_spec fl fs) by done.
    destruct (run_filters fs.*2 (args, st)) as [[] [args' st']]; [|done]. simpl. by apply directDispatch_spec.
Qed.
End facts.

(** ** The sorted queue *)

Section ordered.
Context {A : Type}.
Implicit Types (x y : @BufferedItem Z A) (l : list (@BufferedItem Z A)).

(** [x] may stand in front of [y] *)
Definition in_order x y : Prop := item_before y x = false.
Lemma in_order_trans x y z : in_order x y -> in_order y z -> in_order x z.
Proof. unfold in_order, item_before. destruct x, y, z; try done. rewrite !Z.ltb_ge. lia. Qed.
Lemma before_in_order x y : item_before x y = true -> in_order x y.
Proof. unfold in_order, item_before. destruct x, y; try done. rewrite Z.ltb_lt, Z.ltb_ge. lia. Qed.

Lemma insert_item_perm x l : insert_item x l ≡ₚ x :: l.
Proof.
  induction l as [|y l IH]; [done|]. simpl. destruct (item_before x y); [done|]. rewrite IH. constructor.
Qed.
Lemma insert_item_sorted x l : StronglySorted in_order l -> StronglySorted in_order (insert_item x l).
Proof.
  induction 1 as [|y l Hs IH Hf]; simpl; [by repeat constructor|].
  destruct (item_before x y) eqn:E.
  - apply before_in_order in E. constructor; [by constructor|]. apply list.Forall_cons. split; [done|].
    eapply Forall_impl; [exact Hf|]. intros z. by apply in_order_trans.
  - constructor; [done|]. rewrite insert_item_perm. apply list.Forall_cons. by split.
Qed.
(** the elements of one class keep their order *)
Lemma insert_item_stable (P : @BufferedItem Z A -> Prop) `{!forall x, Decision (P x)} x l :
  (forall y, P x -> P y -> item_before x y = false) -> StronglySorted in_order l ->
  filter P (insert_item x l) = filter P (l ++ [x]).
Proof.
  intros Heq. induction 1 as [|y l Hs IH Hf]; [done|]. simpl insert_item.
  destruct (item_before x y) eqn:E.
  - rewrite filter_app, filter_cons. case_decide as Px; [|by rewrite (filter_cons_False _ x []), app_nil_r by done].
    assert (Hn : filter P (y :: l) = []); [|by rewrite Hn, (filter_cons_True _ x []) by done].
    apply before_in_order in E as Exy.
    assert (Hny : ~ P y) by (intros Py; rewrite Heq in E by done; done).
    rewrite filter_cons_False by done. destruct (filter P l) as [|z r] eqn:Ez; [done|].
    assert (Hz : z ∈ filter P l) by (rewrite Ez; by left). apply list_elem_of_filter in Hz as [Pz Hz].
    rewrite Forall_forall in Hf. specialize (Hf z Hz). pose proof (Heq z Px Pz) as Hxz.
    unfold in_order, item_before in *. destruct x, y, z; try done. rewrite Z.ltb_ge in *. rewrite Z.ltb_lt in E. lia.
  - simpl app. rewrite !filter_cons. by rewrite IH.
Qed.

Lemma doSort_spec l :
  doSort l ≡ₚ l /\ StronglySorted in_order (doSort l) /\
  forall (P : @BufferedItem Z A -> Prop) `{!forall x, Decision (P x)},
    (forall x y, P x -> P y -> item_before x y = false) -> filter P (doSort l) = filter P l.
Proof.
  unfold doSort. induction l as [|x l (Hp & Hs & Hf)] using rev_ind; [by repeat constructor|].
  rewrite fold_left_app. simpl. split_and!.
  - by rewrite insert_item_perm, Hp, Permutation_app_comm.
  - by apply insert_item_sorted.
  - intros P ? Heq. rewrite insert_item_stable by auto. by rewrite !filter_app, Hf.
Qed.

Lemma insert_item_split x l :
  StronglySorted in_order l ->
  exists l1 l2, l = l1 ++ l2 /\ insert_item x l = l1 ++ x :: l2 /\
    Forall (fun y => item_before x y = false) l1 /\ Forall (fun y => item_before x y = true) l2.
Proof.
  induction 1 as [|y l Hs (l1 & l2 & -> & E & H1 & H2) Hf]; [by exists [], []|]. simpl.
  destruct (item_before x y) eqn:Exy.
  - exists [], (y :: l1 ++ l2). split_and!; try done. apply list.Forall_cons. split; [done|].
    eapply Forall_impl; [exact Hf|]. intros z. unfold in_order, item_before in *. destruct x, y, z; try done.
    rewrite Z.ltb_lt, Z.ltb_ge in *. lia.
  - exists (y :: l1), l2. rewrite E. split_and!; try done. by constructor.
Qed.
Lemma doSort_sorted l : StronglySorted in_order l -> doSort l = l.
Proof.
  unfold doSort. induction l as [|x l IH] using rev_ind; intros Hs; [done|].
  apply StronglySorted_app in Hs as (Hx & Hl & _). rewrite fold_left_app, IH by done. simpl.
  assert (Hlast : Forall (fun y => item_before x y = false) l)
    by (apply Forall_forall; intros y Hy; apply (Hx y x); [done|by left]).
  clear - Hlast. induction Hlast as [|y l Hy _ IH]; [done|]. simpl. by rewrite Hy, IH.
Qed.

(** An event spliced into a sorted queue goes behind the events it does not
    precede and in front of the others, which keep their order. *)
Theorem ordered_queue_sorts (q : list (@QueuedEvent Z A)) (ev : @QueuedEvent Z A) :
  StronglySorted in_order (Some <$> q) ->
  exists q1 q2, q = q1 ++ q2 /\ ordered_splice (length q) [Some ev] (Some <$> q) = Some <$> (q1 ++ ev :: q2) /\
    Forall (fun e => e.1 <= ev.1) q1 /\ Forall (fun e => ev.1 < e.1) q2.
Proof.
  intros Hs. destruct (insert_item_split (Some ev) _ Hs) as (l1 & l2 & E & Ei & H1 & H2).
  apply fmap_app_inv in E as (q1 & q2 & -> & -> & ->). exists q1, q2. split; [done|].
  rewrite Forall_fmap in H1, H2. split_and!.
  - unfold ordered_splice. rewrite take_ge, drop_ge, app_nil_r by (rewrite length_fmap; done).
    unfold doSort. rewrite fold_left_app. fold (doSort (Some <$> q1 ++ q2)). rewrite doSort_sorted by done.
    simpl. by rewrite Ei, fmap_app.
  - eapply Forall_impl; [exact H1|]. intros x. simpl. rewrite Z.ltb_ge. done.
  - eapply Forall_impl; [exact H2|]. intros x. simpl. rewrite Z.ltb_lt. done.
Qed.
End ordered.

(** ** Three listeners behind three filters *)

Definition util_listeners (e : Z) : list (positive * Z) :=
  if decide (e = 1) then [(1%positive, 10); (3%positive, 15); (2%positive, 20)] else [].
Definition util_dispatcher : dispatcher Z Z := {[1 := sample_list]}.
Lemma util_listening : listening util_dispatcher util_listeners.
Proof.
  intros e. unfold list_at, util_dispatcher, util_listeners. case_decide as D.
  - subst e. apply sample_list_refines.
  - unfold dispatcher. rewrite lookup_singleton_ne by done. split; [apply rep_new|done].
Qed.
(** a filter adds its number and refuses what grows above 100 *)
Definition util_filter (f a : Z) (st : list (Z * Z)) : bool * (Z * list (Z * Z)) := (a + f <=? 100, (a + f, st)).
Lemma event_utilities_witness :
  event_hasListener 1 15 util_dispatcher = true /\
  (event_removeListener 1 15 util_dispatcher).1 = true /\
  filteredDispatch record util_filter sample_list 1 5 util_dispatcher [] = [(10, 50); (15, 50); (20, 50)] /\
  filteredDispatch record util_filter sample_list 1 70 util_dispatcher [] = [].
Proof.
  destruct (event_utilities record util_filter 1 15 util_dispatcher util_listeners sample_list
    (util_listeners 1) 5 [] util_listening sample_list_refines) as (H1 & _ & H2 & _ & _ & H3).
  destruct (event_utilities record util_filter 1 15 util_dispatcher util_listeners sample_list
    (util_listeners 1) 70 [] util_listening sample_list_refines) as (_ & _ & _ & _ & _ & H4).
  split_and!; [exact H2|exact H1|exact H3|exact H4].
Defined.
