(* ===== verification/Policies.v ===== *)
(** * Policies
    The policies of [3rd/include/eventpp/eventpolicies.h] with behaviour of their
    own: the spin lock, and the mixins a dispatcher asks before it dispatches
    ([internal/eventpolicies_i.h]). *)

From Stdlib Require Import ZArith Lia.
From stdpp Require Import base numbers list option gmap fin_maps.
From S2P Require Import Prelude CallbackList CallbackListFacts EventQueue EventQueueFacts EventUtil.

(** ** [struct SpinLock] *)

(** threads that use the lock: outside, in the loop of [lock()], inside *)
Inductive spc : Type := Outside | Spinning | Inside.
Record spin_state := mk_spin { flag : bool; spinners : list spc }.

(** [test_and_set]: the old value; the flag is set *)
Definition test_and_set (s : spin_state) : bool * spin_state := (flag s, mk_spin true (spinners s)).
Definition flag_clear (s : spin_state) : spin_state := mk_spin false (spinners s).
Definition spin_become (i : nat) (p : spc) (s : spin_state) : spin_state := mk_spin (flag s) (<[i := p]> (spinners s)).

(** one round of the loop of [lock()] *)
Definition spin_lock (i : nat) (s : spin_state) : spin_state :=
  let '(was, s1) := test_and_set s in spin_become i (if was then Spinning else Inside) s1.
Definition spin_unlock (i : nat) (s : spin_state) : spin_state := spin_become i Outside (flag_clear s).
Definition spin_step (i : nat) (s : spin_state) : option spin_state :=
  match spinners s !! i with
  | Some Outside | Some Spinning => Some (spin_lock i s)
  | Some Inside => Some (spin_unlock i s)
  | None => None
  end.
Fixpoint spin_run (js : list nat) (s : spin_state) : option spin_state :=
  match js with [] => Some s | i :: js => s1 ← spin_step i s; spin_run js s1 end.
Definition spin_start (n : nat) : spin_state := mk_spin false (repeat Outside n).

(** the flag is set exactly while one thread is inside *)
Definition spin_ok (s : spin_state) : Prop :=
  exists h : option nat, (flag s = true <-> is_Some h) /\ forall i, spinners s !! i = Some Inside <-> h = Some i.

Lemma spin_become_other i j p s : i <> j -> spinners (spin_become i p s) !! j = spinners s !! j.
Proof. intros Hne. simpl. by rewrite list_lookup_insert_ne. Qed.
Lemma spin_become_self i p0 p s : spinners s !! i = Some p0 -> spinners (spin_become i p s) !! i = Some p.
Proof. intros Hi. simpl. apply list_lookup_insert_eq. by eapply lookup_lt_Some. Qed.

Lemma spin_step_ok i s s' : spin_ok s -> spin_step i s = Some s' -> spin_ok s'.
Proof.
  intros (h & Hl & Hh). unfold spin_step. destruct (spinners s !! i) as [p|] eqn:Hi; [|done].
  assert (Hlock : p <> Inside -> spin_ok (spin_lock i s)).
  { intros Hp. unfold spin_lock, test_and_set. destruct (flag s) eqn:El; cbv beta iota zeta.
    - exists h. split; [done|]. intros j. rewrite <- Hh. destruct (decide (i = j)) as [<-|Hne]; [|by rewrite spin_become_other].
      rewrite (spin_become_self i p) by done. rewrite Hi. naive_solver.
    - assert (h = None) as -> by (destruct h; [|done]; destruct Hl as [_ Hl]; by discriminate Hl).
      exists (Some i). split; [done|]. intros j. destruct (decide (i = j)) as [<-|Hne].
      + by rewrite (spin_become_self i p).
      + rewrite spin_become_other by done. simpl. rewrite Hh. naive_solver. }
  destruct p; intros [= <-]; [by apply Hlock..|]. exists None. split; [by split; [|intros []]|].
  intros j. assert (h = Some i) as -> by (by apply Hh). destruct (decide (i = j)) as [<-|Hne].
  - unfold spin_unlock. by rewrite (spin_become_self i Inside).
  - unfold spin_unlock. rewrite spin_become_other by done. simpl. rewrite Hh. naive_solver.
Qed.
Lemma spin_run_ok js s s' : spin_ok s -> spin_run js s = Some s' -> spin_ok s'.
Proof.
  revert s. induction js as [|i js IH]; intros s Hs; [by intros [= <-]|]. cbn [spin_run]. intros (s1 & E & Hr)%bind_Some.
  eapply IH; [|exact Hr]. by eapply spin_step_ok.
Qed.
Lemma spin_start_ok n : spin_ok (spin_start n).
Proof.
  exists None. split; [by split; [|intros []]|]. intros i. split; [|done]. intros Hi. exfalso.
  apply list_elem_of_lookup_2, list_elem_of_In, repeat_spec in Hi. done.
Qed.

(** a round of two threads in which thread 0 tests in vain *)
Definition starve (n : nat) : list nat := concat (repeat [1; 0; 1]%nat n).
Lemma starve_run n p : p <> Inside -> (0 < n)%nat -> spin_run (starve n) (mk_spin false [p; Outside]) = Some (mk_spin false [Spinning; Outside]).
Proof.
  revert p. induction n as [|n IH]; intros p Hp Hn; [lia|]. unfold starve. cbn [repeat concat]. fold (starve n).
  destruct (decide (n = 0%nat)) as [->|Hn']; [by destruct p|]. destruct p; try done; by apply (IH Spinning); [|lia].
Qed.

(** The spin lock: however the threads' steps are interleaved, at most one
    thread is between [lock()] and [unlock()] and the flag says whether one
    is; when none is, whoever tests next enters. There is no fairness: for
    every [n] a thread can spin through [n] uses of the lock by another. *)
Theorem spin_lock_excludes (n : nat) (js : list nat) (s : spin_state) :
  spin_run js (spin_start n) = Some s ->
  (forall i j, spinners s !! i = Some Inside -> spinners s !! j = Some Inside -> i = j) /\
  (flag s = true <-> exists i, spinners s !! i = Some Inside) /\
  (forall i p, flag s = false -> spinners s !! i = Some p ->
     exists s', spin_step i s = Some s' /\ spinners s' !! i = Some Inside) /\
  (forall k, (0 < k)%nat -> spin_run (starve k) (spin_start 2) = Some (mk_spin false [Spinning; Outside])).
Proof.
  intros Hr. pose proof (spin_run_ok js _ s (spin_start_ok n) Hr) as (h & Hl & Hh). split_and!.
  - intros i j Hi Hj. apply Hh in Hi, Hj. congruence.
  - rewrite Hl. split; [intros [i ->]; exists i; by apply Hh|intros [i Hi]; apply Hh in Hi; by eexists].
  - intros i p El Hi. assert (Hp : p <> Inside).
    { intros ->. apply Hh in Hi. destruct Hl as [_ Hl]. rewrite Hl in El; [done|by eexists]. }
    unfold spin_step. rewrite Hi. exists (spin_lock i s). split; [by destruct p|]. unfold spin_lock, test_and_set. rewrite El.
    by apply (spin_become_self i p).
  - intros k Hk. by apply starve_run.
Qed.
Lemma spin_lock_excludes_witness : exists s', spin_step 0 (mk_spin false [Spinning; Outside]) = Some s' /\ spinners s' !! 0%nat = Some Inside.
Proof.
  destruct (spin_lock_excludes 2 [1; 0; 1]%nat (mk_spin false [Spinning; Outside])) as (_ & _ & H & _); [reflexivity|].
  exact (H 0%nat Spinning eq_refl eq_refl).
Defined.

(** ** Mixins *)

Section mixins.
Context {Evt : Type} `{Countable Evt} {A C F St : Type}.
Variable run_callback : C -> A -> St -> St.
Variable run_filter : F -> A -> St -> bool * (A * St).

(** a mixin of the list: [MixinFilter] with its filters, or one that does not
    declare [mixinBeforeDispatch] *)
Definition mixin : Type := option (clist F).

(** [InheritMixins]: each mixin derives from the next; the name
    [mixinBeforeDispatch] in that class is its own or an inherited one *)
Fixpoint found_in (Mixins : list mixin) : option (clist F) :=
  match Mixins with
  | [] => None
  | Some fl :: _ => Some fl
  | None :: Args => found_in Args
  end.
(** [DoMixinBeforeDispatch::forEach<T>] *)
Definition DoMixinBeforeDispatch (Mixins : list mixin) (x : A * St) : bool * (A * St) :=
  match found_in Mixins with
  | Some fl => mixinBeforeDispatch run_filter fl x.1 x.2
  | None => (true, x)
  end.
(** [ForEachMixins::forEach] *)
Fixpoint ForEachMixins (Mixins : list mixin) (x : A * St) : bool * (A * St) :=
  match Mixins with
  | [] => (true, x)
  | T :: Args =>
      let '(go, x1) := DoMixinBeforeDispatch (T :: Args) x in
      if go then ForEachMixins Args x1 else (false, x1)
  end.
(** [directDispatch] of a dispatcher with these mixins *)
Definition mixinDispatch (Mixins : list mixin) (e : Evt) (args : A) (d : dispatcher Evt C) (st : St) : St :=
  let '(go, x) := ForEachMixins Mixins (args, st) in
  if negb go then x.2 else directDispatch run_callback e x.1 d x.2.

(** the filters of each mixin, and those that run for it *)
Definition mixin_is (m : mixin) (f : option (list (positive * F))) : Prop :=
  match m, f with Some fl, Some fs => refines fl fs | None, None => True | _, _ => False end.
Fixpoint nearest (fss : list (option (list (positive * F)))) : list F :=
  match fss with [] => [] | Some fs :: _ => fs.*2 | None :: fss => nearest fss end.
Fixpoint run_for (fss : list (option (list (positive * F)))) : list F :=
  match fss with [] => [] | f :: fss' => nearest fss ++ run_for fss' end.

Lemma run_filters_app fs1 fs2 x :
  run_filters run_filter (fs1 ++ fs2) x =
  let '(go, x') := run_filters run_filter fs1 x in if go then run_filters run_filter fs2 x' else (false, x').
Proof.
  revert x. induction fs1 as [|f fs1 IH]; intros x; [done|]. simpl. destruct (run_filter f x.1 x.2) as [[] x']; [apply IH|done].
Qed.
Lemma DoMixin_spec ms fss x :
  Forall2 mixin_is ms fss -> DoMixinBeforeDispatch ms x = run_filters run_filter (nearest fss) x.
Proof.
  unfold DoMixinBeforeDispatch. induction 1 as [|[fl|] [fs|] ms fss Hm _ IH]; try done. simpl.
  destruct x as [args st]. by apply mixinBeforeDispatch_spec.
Qed.
Lemma ForEachMixins_spec ms fss x :
  Forall2 mixin_is ms fss -> ForEachMixins ms x = run_filters run_filter (run_for fss) x.
Proof.
  intros Hm. revert x. induction Hm as [|m f ms fss Hm Hms IH]; intros x; [done|]. cbn [ForEachMixins run_for].
  rewrite (DoMixin_spec (m :: ms) (f :: fss) x) by (by constructor). rewrite run_filters_app.
  destruct (run_filters _ _ x) as [[] x']; [apply IH|done].
Qed.
Lemma run_for_all fss : run_for (Some <$> fss) = (fss ≫= fun fs => fs.*2).
Proof. induction fss as [|fs fss IH]; [done|]. cbn. by rewrite IH. Qed.

(** C31. Dispatching through mixins: the mixins are asked in the order of the
    list until one refuses, each through its own filters when all of them are
    filters, and the event reaches its listeners, with the arguments as they
    were left, exactly when none refuses. But a mixin that does not declare
    [mixinBeforeDispatch] is not skipped: the one it inherits runs in its
    place, so the filters below it run once more for every such mixin. *)
Theorem mixins_filter (ms : list mixin) (fss : list (option (list (positive * F)))) (e : Evt) (args : A)
    (d : dispatcher Evt C) (m : Evt -> list (positive * C)) (st : St) :
  listening d m -> Forall2 mixin_is ms fss ->
  mixinDispatch ms e args d st =
    match run_filters run_filter (run_for fss) (args, st) with
    | (true, (args', st')) => fold_left (fun st cb => run_callback cb args' st) (m e).*2 st'
    | (false, (_, st')) => st'
    end /\
  (forall gss, fss = Some <$> gss -> run_for fss = gss ≫= fun fs => fs.*2) /\
  (forall k fs, fss = repeat None k ++ [Some fs] -> run_for fss = concat (repeat fs.*2 (S k))).
Proof.
  intros Hd Hm. split_and!.
  - unfold mixinDispatch. rewrite (ForEachMixins_spec ms fss) by done.
    destruct (run_filters _ _ _) as [[] [args' st']]; [|done]. simpl. by apply directDispatch_spec.
  - intros gss ->. apply run_for_all.
  - intros k fs ->. clear Hm. assert (Hn : forall k, nearest (repeat None k ++ [Some fs]) = fs.*2) by (intros j; by induction j).
    induction k as [|k IH]; [done|]. cbn [repeat app run_for nearest]. by rewrite IH, Hn.
Qed.
End mixins.

(** the filters add 45 to the argument; a mixin above them makes them add it
    twice *)
Lemma mixins_filter_witness :
  mixinDispatch record util_filter [Some sample_list] 1 5 util_dispatcher [] = [(10, 50); (15, 50); (20, 50)] /\
  mixinDispatch record util_filter [None; Some sample_list] 1 5 util_dispatcher [] = [(10, 95); (15, 95); (20, 95)].
Proof.
  split.
  - destruct (mixins_filter record util_filter [Some sample_list] [Some (util_listeners 1)] 1 5 util_dispatcher util_listeners []
      util_listening) as (H1 & _ & _); [apply Forall2_cons; split; [apply sample_list_refines|by apply Forall2_nil]|exact H1].
  - destruct (mixins_filter record util_filter [None; Some sample_list] [None; Some (util_listeners 1)] 1 5 util_dispatcher
      util_listeners [] util_listening) as (H1 & _ & _); [apply Forall2_cons; split; [exact I|apply Forall2_cons; split; [apply sample_list_refines|by apply Forall2_nil]]|exact H1].
Defined.
