(* ===== verification/PolicyModes.v ===== *)
(** * PolicyModes
    The policies of [3rd/include/eventpp/eventpolicies.h] a queue or dispatcher is
    instantiated with: the stand-ins of [SingleThreading] for atomics, mutexes and
    condition variables, the argument passing modes with the [getEvent] policy,
    and the default continuation policy. *)

From Stdlib Require Import ZArith Lia.
From stdpp Require Import base numbers list option gmap fin_maps strings.
From S2P Require Import Prelude CallbackList CallbackListFacts CallbackCopy EventQueue EventQueueFacts.

(** ** [Threading::Atomic<T>] *)

(** the integer types the library instantiates it with: [int] for the counters of
    the queues, [unsigned int] for the counter of the lists *)
Inductive int_type : Set := T_int | T_unsigned.
Definition in_type (t : int_type) (z : Z) : Prop := match t with T_int => is_i32 z | T_unsigned => is_u32 z end.
#[export] Instance in_type_dec t z : Decision (in_type t z).
Proof. destruct t; simpl; unfold is_i32, is_u32; apply _. Defined.
Definition wrap (t : int_type) (z : Z) : Z := match t with T_int => i32 z | T_unsigned => u32 z end.

(** the operations both policies offer *)
Inductive atomic_op : Type := Store (desired : Z) | Load | Exchange (desired : Z) | Incr | Decr.

(** [++value], [--value] on a plain variable: overflow of an [int] is undefined *)
Definition plain_add (t : int_type) (d value : Z) : outcome Z :=
  match t with
  | T_unsigned => Ret (u32 (value + d))
  | T_int => if decide (is_i32 (value + d)) then Ret (value + d) else UB "signed overflow"
  end.
(** [SingleThreading::Atomic<T>]: the result and the new value *)
Definition Atomic_store (desired value : Z) : Z := desired.
Definition Atomic_load (value : Z) : Z := value.
Definition Atomic_exchange (desired value : Z) : Z * Z := let previous := value in (previous, desired).
Definition Atomic_incr (t : int_type) (value : Z) : outcome (Z * Z) := v ← plain_add t 1 value; Ret (v, v).
Definition Atomic_decr (t : int_type) (value : Z) : outcome (Z * Z) := v ← plain_add t (-1) value; Ret (v, v).
Definition single_op (t : int_type) (op : atomic_op) (value : Z) : outcome (option Z * Z) :=
  match op with
  | Store d => Ret (None, Atomic_store d value)
  | Load => Ret (Some (Atomic_load value), value)
  | Exchange d => let '(p, v) := Atomic_exchange d value in Ret (Some p, v)
  | Incr => '(r, v) ← Atomic_incr t value; Ret (Some r, v)
  | Decr => '(r, v) ← Atomic_decr t value; Ret (Some r, v)
  end.
(** [std::atomic<T>] in one thread: arithmetic wraps around, signed types included *)
Definition std_op (t : int_type) (op : atomic_op) (value : Z) : option Z * Z :=
  match op with
  | Store d => (None, d)
  | Load => (Some value, value)
  | Exchange d => (Some value, d)
  | Incr => let v := wrap t (value + 1) in (Some v, v)
  | Decr => let v := wrap t (value - 1) in (Some v, v)
  end.

(** a sequence of operations: the results and the last value *)
Fixpoint single_ops (t : int_type) (ops : list atomic_op) (value : Z) : outcome (list (option Z) * Z) :=
  match ops with
  | [] => Ret ([], value)
  | op :: ops =>
      '(r, v) ← single_op t op value;
      '(rs, v') ← single_ops t ops v;
      Ret (r :: rs, v')
  end.
Fixpoint std_ops (t : int_type) (ops : list atomic_op) (value : Z) : list (option Z) * Z :=
  match ops with
  | [] => ([], value)
  | op :: ops => let '(r, v) := std_op t op value in let '(rs, v') := std_ops t ops v in (r :: rs, v')
  end.

Lemma plain_add_wraps t d value :
  in_type t value ->
  plain_add t d value = Ret (wrap t (value + d)) \/ (t = T_int /\ ~ is_i32 (value + d) /\ is_UB (plain_add t d value) = true).
Proof.
  intros _. destruct t; [|by left]. cbn [plain_add]. case_decide as D; [left|by right].
  f_equal. unfold wrap, i32, is_i32 in *. rewrite Z.mod_small; lia.
Qed.

(** an operation gives the same as [std::atomic], or overflows an [int] *)
Lemma single_op_std t op value :
  in_type t value ->
  single_op t op value = Ret (std_op t op value) \/ (t = T_int /\ is_UB (single_op t op value) = true).
Proof.
  intros Hv. destruct op; try (by left); [pose proof (plain_add_wraps t 1 value Hv) as Ha|pose proof (plain_add_wraps t (-1) value Hv) as Ha];
    (destruct Ha as [Ha|(Ht & _ & Ha)];
     [left; unfold single_op, Atomic_incr, Atomic_decr; by rewrite Ha|right; split; [done|]; apply is_UB_bind_l, is_UB_bind_l; done]).
Qed.

Lemma std_op_in_type t op value :
  in_type t value -> (forall d, op = Store d \/ op = Exchange d -> in_type t d) -> in_type t (std_op t op value).2.
Proof.
  intros Hv Hd. assert (Hw : forall z, in_type t (wrap t z)).
  { intros z. destruct t; simpl; unfold is_i32, is_u32, i32, u32; pose proof (Z.mod_pos_bound (z + 2 ^ 31) (2 ^ 32));
      pose proof (Z.mod_pos_bound z (2 ^ 32)); lia. }
  destruct op; simpl; [apply Hd; by left|done|apply Hd; by right|apply Hw..].
Qed.

(** the values a program stores are of the type *)
Definition stores_typed (t : int_type) (ops : list atomic_op) : Prop :=
  Forall (fun op => forall d, op = Store d \/ op = Exchange d -> in_type t d) ops.

Lemma single_ops_std t ops value :
  in_type t value -> stores_typed t ops ->
  single_ops t ops value = Ret (std_ops t ops value) \/ (t = T_int /\ is_UB (single_ops t ops value) = true).
Proof.
  revert value. induction ops as [|op ops IH]; intros value Hv Hs; [by left|]. apply Forall_cons in Hs as [Ho Hs].
  cbn [single_ops std_ops]. pose proof (std_op_in_type t op value Hv Ho) as Hv1.
  destruct (single_op_std t op value Hv) as [->|[-> Hu]]; [|right; split; [done|by apply is_UB_bind_l]].
  destruct (std_op t op value) as [r v]. cbn [mbind outcome_bind snd] in *.
  destruct (IH v Hv1 Hs) as [->|[-> Hu]]; [left; by destruct (std_ops t ops v)|right; split; [done|by apply is_UB_bind_l]].
Qed.

(** ** [SingleThreading::ConditionVariable] *)

(** [notify_one] does nothing, [wait] returns without looking at its predicate,
    [wait_for] reports that it holds; [pred] would be evaluated in a state [s] *)
Definition cv_notify_one {S : Type} (s : S) : S := s.
Definition cv_wait {S : Type} (pred : S -> bool) (s : S) : S := s.
Definition cv_wait_for {S : Type} (pred : S -> bool) (s : S) : bool * S := (true, s).

(** ** Argument passing modes *)

Record ArgumentPassingMode := mk_mode { canIncludeEventType : bool; canExcludeEventType : bool }.
Definition ArgumentPassingAutoDetect : ArgumentPassingMode := mk_mode true true.
Definition ArgumentPassingIncludeEvent : ArgumentPassingMode := mk_mode true false.
Definition ArgumentPassingExcludeEvent : ArgumentPassingMode := mk_mode false true.

Section modes.
(** events, argument values, callbacks and the state callbacks change *)
Context {Evt : Type} `{Countable Evt} {Val C St : Type}.
Variable run_callback : C -> list Val -> St -> St.
(** the conversion of the first argument to the event type *)
Variable as_event : Val -> Evt.
(** [Policies_::getEvent]: [None] where it cannot be called with the arguments *)
Variable policy_getEvent : list Val -> option Evt.
(** [sizeof...(Args)] of the prototype, and the mode *)
Variable nargs : nat.
Variable mode : ArgumentPassingMode.

(** [DefaultGetEvent::getEvent(e, ...)] *)
Definition DefaultGetEvent (args : list Val) : option Evt := as_event <$> hd_error args.
(** [SelectGetEvent]: the policy's function where it can be called *)
Definition GetEvent (args : list Val) : option Evt :=
  match policy_getEvent args with Some e => Some e | None => DefaultGetEvent args end.

(** [dispatch(args...)] and [dispatch(first, args...)]: the overload that takes
    as many arguments; [None] when there is none, or its [static_assert] fails *)
Definition dispatch_args (args : list Val) : option (Evt * list Val) :=
  if decide (length args = nargs) then
    if canIncludeEventType mode then e ← GetEvent args; Some (e, args) else None
  else if decide (length args = S nargs) then
    if canExcludeEventType mode then e ← GetEvent args; Some (e, tl args) else None
  else None.
(** the event [enqueue(args...)] or [enqueue(first, args...)] stores *)
Definition enqueue_args (args : list Val) : option (@QueuedEvent Evt (list Val)) :=
  if decide (length args = nargs) then
    if canIncludeEventType mode then e ← GetEvent args; Some (e, args) else None
  else
    match args with
    | first :: rest =>
        if decide (length rest = nargs) then
          if canExcludeEventType mode then e ← GetEvent (first :: rest); Some (e, rest) else None
        else None
    | [] => None
    end.

Definition mode_dispatch (args : list Val) (d : dispatcher Evt C) (st : St) : option St :=
  '(e, args) ← dispatch_args args; Some (directDispatch run_callback e args d st).
Definition mode_enqueue (args : list Val) (q : equeue Evt (list Val) C) : option (outcome (bool * equeue Evt (list Val) C)) :=
  ev ← enqueue_args args; Some (enqueue ev q).

Lemma enqueue_dispatch_args args : enqueue_args args = dispatch_args args.
Proof.
  unfold enqueue_args, dispatch_args. case_decide as D; [done|]. destruct args as [|first rest]; [done|].
  cbn [length tl]. destruct (decide (length rest = nargs)) as [E|E]; [rewrite decide_True by lia|rewrite decide_False by lia]; done.
Qed.

(** a call is well formed exactly for the number of arguments of an overload the
    mode allows *)
Lemma dispatch_args_spec args ev :
  dispatch_args args = Some ev <->
  GetEvent args = Some ev.1 /\
  ((length args = nargs /\ canIncludeEventType mode = true /\ ev.2 = args) \/
   (length args = S nargs /\ canExcludeEventType mode = true /\ ev.2 = tl args)).
Proof.
  destruct ev as [e rest]. unfold dispatch_args. cbn [fst snd]. split.
  - case_decide; [|case_decide; [|done]];
      (destruct (canIncludeEventType mode), (canExcludeEventType mode)); try done;
      intros (e' & E & [= -> <-])%bind_Some; split; auto.
  - intros [E [(Hl & -> & ->)|(Hl & -> & ->)]].
    + rewrite decide_True by done. by rewrite E.
    + rewrite decide_False by lia. rewrite decide_True by done. by rewrite E.
Qed.

(** Queued and immediate dispatch agree in every mode and under every [getEvent]
    policy: [enqueue] accepts a call exactly when [dispatch] does, and enqueuing
    it and then processing the queue does to the listeners what processing
    the events before it and then dispatching it does. *)
Theorem enqueue_process_is_dispatch args (q : equeue Evt (list Val) C) evs st :
  holds q evs ->
  (mode_enqueue args q = None <-> mode_dispatch args (listeners q) st = None) /\
  forall r, mode_enqueue args q = Some r ->
  exists b q1 q2 st', r = Ret (b, q1) /\ process run_callback [] q1 st = Ret (true, q2, st') /\
    holds q2 [] /\ same_rest q q2 /\
    mode_dispatch args (listeners q) (dispatches run_callback (listeners q) evs st) = Some st'.
Proof.
  intros Hq. unfold mode_enqueue, mode_dispatch. rewrite enqueue_dispatch_args.
  destruct (dispatch_args args) as [[e rest]|]; cbn [mbind option_bind]; [|by split].
  split; [done|]. intros r [= <-].
  destruct (enqueue_spec q evs (e, rest) Hq) as (b & q1 & -> & Hq1 & Hs1).
  destruct (process_spec run_callback q1 _ [] st Hq1) as (q2 & Hp & Hq2 & Hs2).
  rewrite bool_decide_eq_false_2 in Hp by (by destruct evs). unfold arrived in Hq2. rewrite take_nil in Hq2.
  eexists b, q1, q2, _. split_and!; [done|exact Hp|done|by eapply same_rest_trans|].
  destruct Hs1 as (-> & _). unfold dispatches. by rewrite fold_left_app.
Qed.
End modes.

(** [DefaultCanContinueInvoking]: every callback of the list is invoked *)
Definition DefaultCanContinueInvoking {S : Type} (args : S) : bool := true.
Lemma call_operator_default {C S : Type} (run : C -> S -> S) (l : clist C) (s : S) :
  call_operator DefaultCanContinueInvoking run l s = forEach run l s.
Proof. done. Qed.

(** a prototype of two arguments whose first is the event: [dispatch(3, 7)] and
    [dispatch(3, 3, 7)] both deliver [(3, 7)] to the listeners of event 3 *)
Lemma modes_sample :
  let deliver mode args := dispatch_args (fun v : Z => v) (fun _ => None) 2 mode args in
  deliver ArgumentPassingAutoDetect [3; 7] = Some (3, [3; 7]) /\
  deliver ArgumentPassingAutoDetect [3; 3; 7] = Some (3, [3; 7]) /\
  deliver ArgumentPassingIncludeEvent [3; 3; 7] = None /\
  deliver ArgumentPassingExcludeEvent [3; 7] = None.
Proof. done. Qed.

(** [SingleThreading] and [MultipleThreading] agree on a program of one thread:
    the [unsigned] counter of the lists gives the same results for every sequence
    of operations, the [int] counters of the queues too unless they overflow,
    which is undefined here and wraps around there. *)
Theorem single_threading_agrees (ops : list atomic_op) (value : Z) :
  (is_u32 value -> stores_typed T_unsigned ops -> single_ops T_unsigned ops value = Ret (std_ops T_unsigned ops value)) /\
  (is_i32 value -> stores_typed T_int ops ->
   is_UB (single_ops T_int ops value) = false -> single_ops T_int ops value = Ret (std_ops T_int ops value)) /\
  is_UB (single_op T_int Incr (2 ^ 31 - 1)) = true /\ std_op T_int Incr (2 ^ 31 - 1) = (Some (- 2 ^ 31), - 2 ^ 31).
Proof.
  split_and!; [intros Hv Hs|intros Hv Hs Hu|done|done].
  - destruct (single_ops_std T_unsigned ops value Hv Hs) as [H|[H _]]; done.
  - destruct (single_ops_std T_int ops value Hv Hs) as [H|[_ H]]; congruence.
Qed.
