(* ===== verification/ScopedRemover.v ===== *)
(** * ScopedRemover
    [utilities/scopedremover.h] of [eventpp]: an object that registers listeners
    and removes them when it goes. The header has one class for dispatchers and
    one for callback lists with the same operations; they are written here once,
    over the interface [Registry] of what they use, with an instance for each.

    A remover points to its target; the targets in memory are a finite map. A handle is used
    with the target and the event it comes from. *)

From Stdlib Require Import ZArith Lia.
From stdpp Require Import base numbers list option gmap fin_maps strings.
From S2P Require Import Prelude CallbackList CallbackListFacts EventQueue EventQueueFacts.

(** what a remover uses of a target [T] whose listeners are kept per [K] *)
Class Registry (T K C : Type) := {
  reg_append : K -> C -> T -> positive * T;
  reg_prepend : K -> C -> T -> positive * T;
  reg_insert : K -> C -> positive -> T -> positive * T;
  reg_remove : K -> positive -> T -> bool * T;
  reg_alive : K -> positive -> T -> bool;   (* the handle is not expired *)
}.

#[export] Instance dispatcher_registry {E C} `{Countable E} : Registry (dispatcher E C) E C := {|
  reg_append := appendListener;
  reg_prepend := prependListener;
  reg_insert := insertListener;
  reg_remove := removeListener [];
  reg_alive e h d := match doFindCallableList e d with
                     | Some l => bool_decide (is_Some (lock [] h l))
                     | None => false
                     end;
|}.
#[export] Instance list_registry {C} : Registry (clist C) unit C := {|
  reg_append _ := append;
  reg_prepend _ := prepend;
  reg_insert _ := insert_cb [];
  reg_remove _ := remove [];
  reg_alive _ h l := bool_decide (is_Some (lock [] h l));
|}.

Section scoped_remover.
Context {T K C : Type} `{EqDecision K} `{Registry T K C}.

(** the members [dispatcher] (or [callbackList]) and [itemList] *)
Record ScopedRemover := mk_sr { target : option nat; itemList : list (K * positive) }.

Definition sr_null : ScopedRemover := mk_sr None [].
Definition sr_on (id : nat) : ScopedRemover := mk_sr (Some id) [].

(** [removeHandleFromScopedRemoverItemList]: the list without the first item of
    the same node, if the handle and such an item exist *)
Fixpoint erase_item (k : K) (h : positive) (items : list (K * positive)) : option (list (K * positive)) :=
  match items with
  | [] => None
  | i :: items => if decide (i = (k, h)) then Some items else cons i <$> erase_item k h items
  end.
Definition removeHandle (alive : bool) (k : K) (h : positive) (items : list (K * positive))
    : option (list (K * positive)) := if alive then erase_item k h items else None.

Definition remove_items (items : list (K * positive)) (t : T) : T :=
  fold_left (fun t i => (reg_remove i.1 i.2 t).2) items t.
(** [reset()]; with nothing to remove the target is not touched *)
Definition sr_reset (s : ScopedRemover) (m : gmap nat T) : outcome (ScopedRemover * gmap nat T) :=
  match target s, itemList s with
  | Some id, _ :: _ =>
      t ← deref "dispatcher" (m !! id);
      Ret (mk_sr (target s) [], <[id := remove_items (itemList s) t]> m)
  | _, _ => Ret (mk_sr (target s) [], m)
  end.
(** move construction: the new object and [other], whose [reset] has nothing
    left to remove *)
Definition sr_move (other : ScopedRemover) : ScopedRemover * ScopedRemover :=
  (mk_sr (target other) (itemList other), mk_sr (target other) []).
(** move assignment from another object *)
Definition sr_move_assign (other s : ScopedRemover) : ScopedRemover * ScopedRemover :=
  (mk_sr (target other) (itemList other), mk_sr (target other) []).
Definition sr_swap (s other : ScopedRemover) : ScopedRemover * ScopedRemover := (other, s).
(** [setDispatcher], [setCallbackList] *)
Definition sr_set (id : nat) (s : ScopedRemover) (m : gmap nat T) : outcome (ScopedRemover * gmap nat T) :=
  if decide (target s = Some id) then Ret (s, m)
  else '(s1, m1) ← sr_reset s m; Ret (mk_sr (Some id) (itemList s1), m1).

(** [appendListener], [prependListener] and [insertListener], [append] ... of a
    callback list: register, then remember the handle *)
Definition sr_register (reg : T -> positive * T) (k : K) (s : ScopedRemover) (m : gmap nat T)
    : outcome (positive * ScopedRemover * gmap nat T) :=
  id ← deref "dispatcher" (target s);
  t ← deref "dispatcher" (m !! id);
  let '(p, t') := reg t in
  Ret (p, mk_sr (target s) (itemList s ++ [(k, p)]), <[id := t']> m).
Definition sr_append (k : K) (cb : C) := sr_register (reg_append k cb) k.
Definition sr_prepend (k : K) (cb : C) := sr_register (reg_prepend k cb) k.
Definition sr_insert (k : K) (cb : C) (before : positive) := sr_register (reg_insert k cb before) k.

(** [removeListener(event, handle)], [remove(handle)] *)
Definition sr_remove (k : K) (h : positive) (s : ScopedRemover) (m : gmap nat T)
    : outcome (bool * ScopedRemover * gmap nat T) :=
  match target s, target s ≫= fun id => m !! id with
  | Some id, Some t =>
      match removeHandle (reg_alive k h t) k h (itemList s) with
      | Some items =>
          let '(b, t') := reg_remove k h t in
          Ret (b, mk_sr (target s) items, <[id := t']> m)
      | None => Ret (false, s, m)
      end
  | _, _ => Ret (false, s, m)   (* every handle has expired *)
  end.
End scoped_remover.
Arguments ScopedRemover K : clear implicits.

(** ** What the targets promise *)

(** the listeners per key after a change at [k] *)
Definition put {K X : Type} `{EqDecision K} (k : K) (v : X) (m : K -> X) : K -> X :=
  fun k' => if decide (k' = k) then v else m k'.
(** the listeners with [cb] registered in front of [before], or at the end *)
Definition insert_before {C} (p : positive) (cb : C) (before : positive) (a : list (positive * C))
    : list (positive * C) :=
  match list_find (fun x => x.1 = before) a with
  | Some (i, _) => take i a ++ (p, cb) :: drop i a
  | None => a ++ [(p, cb)]
  end.

(** [shows t m]: [m] are the listeners; [issued t k p]: the handle [p] has been
    given out, so it is never given out again *)
Class RegistryLaws (T K C : Type) `{EqDecision K} `{!Registry T K C} := {
  shows : T -> (K -> list (positive * C)) -> Prop;
  issued : T -> K -> positive -> Prop;
  shows_ext t m m' : (forall k, m k = m' k) -> shows t m -> shows t m';
  shows_nodup t m k : shows t m -> NoDup (m k).*1;
  shows_issued t m k p : shows t m -> p ∈ (m k).*1 -> issued t k p;
  add_law (t t' : T) m k cb p (reg : T -> positive * T) f :
    (reg = reg_append k cb /\ f = (fun a => a ++ [(p, cb)])) \/
    (reg = reg_prepend k cb /\ f = (fun a => (p, cb) :: a)) \/
    (exists before, reg = reg_insert k cb before /\ f = insert_before p cb before) ->
    shows t m -> reg t = (p, t') ->
    ~ issued t k p /\ shows t' (put k (f (m k)) m) /\
    forall k' p', issued t' k' p' <-> issued t k' p' \/ (k' = k /\ p' = p);
  remove_law (t : T) m k h :
    shows t m -> (reg_remove k h t).1 = bool_decide (h ∈ (m k).*1) /\
    shows (reg_remove k h t).2 (put k (filter (fun x => x.1 <> h) (m k)) m) /\
    forall k' p', issued (reg_remove k h t).2 k' p' <-> issued t k' p';
  alive_law t m k h : shows t m -> reg_alive k h t = bool_decide (h ∈ (m k).*1);
}.

Section list_laws.
Context {C : Type}.
Implicit Types (l : clist C) (a : list (positive * C)).

Lemma inserted_issued cb l L1 L2 p l' :
  inserted cb l L1 L2 p l' -> forall q, is_Some (heap l' !! q) <-> is_Some (heap l !! q) \/ q = p.
Proof.
  intros [_ Hp (nd & Hnd & _) Hcb _ _] q. destruct (decide (q = p)) as [->|Hne].
  - rewrite Hnd. split; [by right|by eexists].
  - specialize (Hcb q Hne). destruct (heap l' !! q), (heap l !! q); try done; split; try (by left); intros [?|?]; done.
Qed.
Lemma lookup_split {X Y} (a : list (X * Y)) i h c :
  a !! i = Some (h, c) -> a = take i a ++ (h, c) :: drop (S i) a.
Proof. intros Hi. by rewrite take_drop_middle. Qed.

Lemma filter_keep {X} (P : X -> Prop) `{!forall x, Decision (P x)} (a : list X) :
  (forall x, x ∈ a -> P x) -> filter P a = a.
Proof.
  induction a as [|x a IH]; intros Hp; [done|]. rewrite filter_cons_True by (apply Hp; by left).
  f_equal. apply IH. intros y Hy. apply Hp. by right.
Qed.
Lemma filter_iff_on {X} (P Q : X -> Prop) `{!forall x, Decision (P x)} `{!forall x, Decision (Q x)} (a : list X) :
  (forall x, x ∈ a -> P x <-> Q x) -> filter P a = filter Q a.
Proof.
  induction a as [|x a IH]; intros Hpq; [done|]. rewrite !filter_cons, IH by (intros y Hy; apply Hpq; by right).
  assert (Hx : P x <-> Q x) by (apply Hpq; by left). by repeat case_decide; tauto.
Qed.
Lemma filter_out_middle a1 h (c : C) a2 :
  NoDup (a1 ++ (h, c) :: a2).*1 -> filter (fun x => x.1 <> h) (a1 ++ (h, c) :: a2) = a1 ++ a2.
Proof.
  rewrite fmap_app, fmap_cons. intros (H1 & Hd & H2)%NoDup_app. apply NoDup_cons in H2 as [H2 _]. cbn [fst] in *.
  rewrite filter_app, filter_cons_False by (simpl; tauto).
  rewrite !filter_keep; [done| |].
  - intros x Hx E. apply H2, list_elem_of_fmap. by exists x.
  - intros x Hx E. apply (Hd h); [|by left]. apply list_elem_of_fmap. by exists x.
Qed.

Lemma insert_before_spec cb before l a p l' :
  refines l a -> insert_cb [] cb before l = (p, l') -> refines l' (insert_before p cb before a).
Proof.
  intros Href Hi. unfold insert_before. destruct (list_find _ a) as [[i [b c]]|] eqn:Ef.
  - apply list_find_Some in Ef as (Hl & E & _). simpl in E. subst b.
    rewrite (lookup_split _ _ _ _ Hl) in Href. destruct (insert_refines _ _ _ _ _ _ _ _ Href Hi) as [_ Hr].
    by rewrite (drop_S _ _ _ Hl).
  - apply list_find_None in Ef. pose proof Href as [Hr _].
    assert (Hn : before ∉ a.*1).
    { intros (x & -> & Hx)%list_elem_of_fmap. rewrite Forall_forall in Ef. by apply (Ef x). }
    unfold insert_cb in Hi. rewrite (lock_rep _ _ _ Hr), decide_False in Hi by done.
    by eapply append_refines.
Qed.
Lemma insert_inserted cb before l a p l' :
  refines l a -> insert_cb [] cb before l = (p, l') -> exists L1 L2, inserted cb l L1 L2 p l'.
Proof.
  intros [Hr _] Hi. destruct (decide (before ∈ a.*1)) as [Hin|Hn].
  - apply list_elem_of_split in Hin as (L1 & L2 & E). rewrite E in Hr. exists L1, (before :: L2).
    apply (insert_spec [] cb l L1 before L2); [done| |done]. rewrite (lock_rep _ _ _ Hr), decide_True by set_solver. done.
  - unfold insert_cb in Hi. rewrite (lock_rep _ _ _ Hr), decide_False in Hi by done.
    exists a.*1, []. by eapply append_spec.
Qed.

(** what every registration does to a list *)
Lemma list_add l l' a cb p (reg : clist C -> positive * clist C) f :
  (reg = append cb /\ f = (fun a => a ++ [(p, cb)])) \/
  (reg = prepend cb /\ f = (fun a => (p, cb) :: a)) \/
  (exists before, reg = insert_cb [] cb before /\ f = insert_before p cb before) ->
  refines l a -> reg l = (p, l') ->
  heap l !! p = None /\ refines l' (f a) /\ forall q, is_Some (heap l' !! q) <-> is_Some (heap l !! q) \/ q = p.
Proof.
  intros Hop Href E.
  assert (Hi : exists L1 L2, inserted cb l L1 L2 p l').
  { pose proof Href as [Hr _]. destruct Hop as [[-> _]|[[-> _]|(b & -> & _)]].
    - eexists _, _. by eapply append_spec.
    - eexists _, _. by eapply prepend_spec.
    - by eapply insert_inserted. }
  destruct Hi as (L1 & L2 & Hi). split; [by destruct Hi|]. split; [|by eapply inserted_issued].
  destruct Hop as [[-> ->]|[[-> ->]|(b & -> & ->)]].
  - by eapply append_refines.
  - by eapply prepend_refines.
  - by eapply insert_before_spec.
Qed.
Lemma list_remove l a h :
  refines l a ->
  (remove [] h l).1 = bool_decide (h ∈ a.*1) /\ refines (remove [] h l).2 (filter (fun x => x.1 <> h) a) /\
  forall q, is_Some (heap (remove [] h l).2 !! q) <-> is_Some (heap l !! q).
Proof.
  intros Href. pose proof Href as [Hr _]. destruct (decide (h ∈ a.*1)) as [Hin|Hn].
  - rewrite bool_decide_eq_true_2 by done. pose proof Hin as ((h0 & c) & -> & Hx)%list_elem_of_fmap.
    apply list_elem_of_split in Hx as (a1 & a2 & ->). cbn [fst] in *.
    rewrite filter_out_middle by (by destruct Hr). destruct (remove_refines [] _ _ _ _ _ Href) as [Hb Hrm].
    split_and!; [done|done|]. intros q. unfold remove. rewrite (lock_rep _ _ _ Hr), decide_True by done.
    rewrite fmap_app, fmap_cons in Hr. destruct (rep_dom _ _ h0 Hr) as [nd Hnd]; [set_solver|].
    destruct (doFreeNode_spec l a1.*1 h0 a2.*1 nd Hr Hnd) as (_ & _ & Hcall & _). simpl.
    specialize (Hcall q). by destruct (heap (doFreeNode h0 l) !! q), (heap l !! q).
  - rewrite bool_decide_eq_false_2 by done. unfold remove. rewrite (lock_rep _ _ _ Hr), decide_False by done.
    split_and!; try done. simpl. rewrite filter_keep; [done|]. intros x Hx E. apply Hn, list_elem_of_fmap. by exists x.
Qed.
Lemma list_alive l a h : refines l a -> bool_decide (is_Some (lock [] h l)) = bool_decide (h ∈ a.*1).
Proof.
  intros [Hr _]. rewrite (lock_rep _ _ _ Hr). case_decide; apply bool_decide_ext; split; try done; by intros [].
Qed.
End list_laws.

#[export] Program Instance list_registry_laws {C} : RegistryLaws (clist C) unit C := {|
  shows l m := refines l (m tt);
  issued l _ p := is_Some (heap l !! p);
|}.
Next Obligation. intros C l m m' Hm. cbv beta. by rewrite Hm. Qed.
Next Obligation. intros C l m [] [Hr _]. by destruct Hr. Qed.
Next Obligation. intros C l m [] p [Hr _]. by apply rep_dom. Qed.
Next Obligation.
  intros C l l' m [] cb p reg f Hop Hl Hr. destruct (list_add l l' (m tt) cb p reg f Hop Hl Hr) as (Hp & Hf & Hi).
  split_and!; [by rewrite Hp; intros []|done|]. intros [] q. rewrite Hi. naive_solver.
Qed.
Next Obligation.
  intros C l m [] h Hl. destruct (list_remove l (m tt) h Hl) as (Hb & Hf & Hi).
  split_and!; [done|done|]. intros [] q. apply Hi.
Qed.
Next Obligation. intros C l m [] h Hl. by apply list_alive. Qed.

Lemma list_at_put {E C} `{Countable E} (d : dispatcher E C) e l e' :
  list_at e' (<[e := l]> d) = if decide (e' = e) then l else list_at e' d.
Proof.
  unfold list_at, dispatcher. case_decide as D; [by rewrite D, lookup_insert_eq|by rewrite lookup_insert_ne].
Qed.

#[export] Program Instance dispatcher_registry_laws {E C} `{Countable E} : RegistryLaws (dispatcher E C) E C := {|
  shows := listening;
  issued d e p := is_Some (heap (list_at e d) !! p);
|}.
Next Obligation. intros E C ? ? d m m' Hm Hl e. rewrite <- Hm. apply Hl. Qed.
Next Obligation. intros E C ? ? d m e Hl. destruct (Hl e) as [Hr _]. by destruct Hr. Qed.
Next Obligation. intros E C ? ? d m e p Hl. destruct (Hl e) as [Hr _]. by apply rep_dom. Qed.
Next Obligation.
  intros E C ? ? d d' m e cb p reg f Hop Hl Hr.
  assert (exists reg0 l', reg0 (list_at e d) = (p, l') /\ d' = <[e := l']> d /\
    ((reg0 = append cb /\ f = (fun a => a ++ [(p, cb)])) \/ (reg0 = prepend cb /\ f = (fun a => (p, cb) :: a)) \/
     (exists before, reg0 = insert_cb [] cb before /\ f = insert_before p cb before))) as (reg0 & l' & E0 & -> & Hop0).
  { destruct Hop as [[-> ->]|[[-> ->]|(b & -> & ->)]]; simpl in Hr;
      unfold appendListener, prependListener, insertListener in Hr.
    - exists (append cb). destruct (append cb (list_at e d)) as [p0 l]. injection Hr as <- <-. eexists. split; [done|]. split; [done|]. by left.
    - exists (prepend cb). destruct (prepend cb (list_at e d)) as [p0 l]. injection Hr as <- <-. eexists. split; [done|]. split; [done|]. right. by left.
    - exists (insert_cb [] cb b). destruct (insert_cb [] cb b (list_at e d)) as [p0 l]. injection Hr as <- <-. eexists. split; [done|]. split; [done|]. right. right. by exists b. }
  destruct (list_add _ l' (m e) cb p reg0 f Hop0 (Hl e) E0) as (Hp & Hf & Hi).
  split_and!; [by rewrite Hp; intros []|by apply listening_put|].
  intros e' q. rewrite list_at_put. case_decide as D; [rewrite Hi, D|]; naive_solver.
Qed.
Next Obligation.
  intros E C ? ? d m e h Hl. destruct (list_remove _ (m e) h (Hl e)) as (Hb & Hf & Hi). simpl.
  unfold removeListener, doFindCallableList, list_at in *. destruct (d !! e) as [l|] eqn:Ed; simpl in *.
  - destruct (remove [] h l) as [b l'] eqn:Er. simpl in *. split_and!; [done|by apply listening_put|].
    intros e' q. pose proof (list_at_put d e l' e') as Hat. unfold list_at in Hat. rewrite Hat.
    case_decide as D; [|done]. rewrite D, Ed. apply Hi.
  - split_and!; [done| |done]. intros e'. unfold put. destruct (decide (e' = e)) as [->|]; [|apply Hl].
    unfold list_at. rewrite Ed. exact Hf.
Qed.
Next Obligation.
  intros E C ? ? d m e h Hl. simpl. unfold doFindCallableList. pose proof (Hl e) as He. unfold list_at in He.
  destruct (d !! e) as [l|]; simpl in He; [by apply list_alive|].
  destruct He as [[_ _ Hh _ _ _] _]. simpl in Hh. by destruct (m e).
Qed.

(** ** The scope of a remover *)

Section scope.
Context {T K C : Type} `{EqDecision K} `{!Registry T K C} `{!RegistryLaws T K C}.
Implicit Types (t : T) (m : K -> list (positive * C)) (items : list (K * positive)).

(** a use of the target, through the remover or past it *)
Inductive adding : Type :=
| AtEnd (cb : C)
| AtFront (cb : C)
| Before (cb : C) (before : positive).
Inductive scope_op : Type :=
| Through (k : K) (a : adding)
| RemoveThrough (k : K) (h : positive)
| Direct (k : K) (a : adding)
| RemoveDirect (k : K) (h : positive).

Definition direct_add (k : K) (a : adding) : T -> positive * T :=
  match a with
  | AtEnd cb => reg_append k cb
  | AtFront cb => reg_prepend k cb
  | Before cb b => reg_insert k cb b
  end.
Definition through_add (k : K) (a : adding) : ScopedRemover K -> gmap nat T -> outcome (positive * ScopedRemover K * gmap nat T) :=
  match a with
  | AtEnd cb => sr_append k cb
  | AtFront cb => sr_prepend k cb
  | Before cb b => sr_insert k cb b
  end.

(** a remover, the memory, and the handles it ever returned *)
Record scope := mk_scope { remover : ScopedRemover K; memory : gmap nat T; via : list (K * positive) }.
Definition scope_step (id : nat) (o : scope_op) (x : scope) : outcome scope :=
  match o with
  | Through k a =>
      '(p, s, mem) ← through_add k a (remover x) (memory x); Ret (mk_scope s mem (via x ++ [(k, p)]))
  | RemoveThrough k h => '(_, s, mem) ← sr_remove k h (remover x) (memory x); Ret (mk_scope s mem (via x))
  | Direct k a =>
      t ← deref "dispatcher" (memory x !! id);
      Ret (mk_scope (remover x) (<[id := (direct_add k a t).2]> (memory x)) (via x))
  | RemoveDirect k h =>
      t ← deref "dispatcher" (memory x !! id);
      Ret (mk_scope (remover x) (<[id := (reg_remove k h t).2]> (memory x)) (via x))
  end.
Fixpoint scope_run (id : nat) (os : list scope_op) (x : scope) : outcome scope :=
  match os with
  | [] => Ret x
  | o :: os => x1 ← scope_step id o x; scope_run id os x1
  end.

Record scope_inv (id : nat) (x : scope) t m : Prop := {
  sc_target : target (remover x) = Some id;
  sc_memory : memory x !! id = Some t;
  sc_shows : shows t m;
  sc_owned : forall k p, p ∈ (m k).*1 -> ((k, p) ∈ itemList (remover x) <-> (k, p) ∈ via x);
  sc_issued : forall k p, (k, p) ∈ itemList (remover x) \/ (k, p) ∈ via x -> issued t k p;
}.

(** what an addition does to the listeners *)
Definition added_list (a : adding) (p : positive) (l : list (positive * C)) : list (positive * C) :=
  match a with
  | AtEnd cb => l ++ [(p, cb)]
  | AtFront cb => (p, cb) :: l
  | Before cb b => insert_before p cb b l
  end.
Definition added_cb (a : adding) : C := match a with AtEnd cb | AtFront cb | Before cb _ => cb end.
Lemma added_perm a p l : added_list a p l ≡ₚ (p, added_cb a) :: l.
Proof.
  destruct a as [cb|cb|cb b]; simpl; [by rewrite Permutation_app_comm|done|].
  unfold insert_before. destruct (list_find _ l) as [[i x]|]; [|by rewrite Permutation_app_comm].
  rewrite <- Permutation_middle. by rewrite take_drop.
Qed.
Lemma direct_add_law t t' m k a p :
  shows t m -> direct_add k a t = (p, t') ->
  ~ issued t k p /\ shows t' (put k (added_list a p (m k)) m) /\
  forall k' p', issued t' k' p' <-> issued t k' p' \/ (k' = k /\ p' = p).
Proof.
  destruct a as [cb|cb|cb b]; intros Hs E; eapply add_law; eauto 6.
Qed.

(** an addition, with or without the handle being remembered *)
Lemma inv_add id x t m k a p t' (own : bool) :
  let keep l := if own then l ++ [(k, p)] else l in
  scope_inv id x t m -> direct_add k a t = (p, t') ->
  scope_inv id (mk_scope (mk_sr (Some id) (keep (itemList (remover x)))) (<[id := t']> (memory x)) (keep (via x)))
    t' (put k (added_list a p (m k)) m).
Proof.
  intros keep [Ht Hm Hs Ho Hi] E. destruct (direct_add_law t t' m k a p Hs E) as (Hp & Hs' & Hi').
  assert (Hkeep : forall k' p' l, (k', p') ∈ keep l <-> (k', p') ∈ l \/ (own = true /\ k' = k /\ p' = p)).
  { intros k' p' l. unfold keep. destruct own; [rewrite elem_of_app, list_elem_of_singleton|]; naive_solver. }
  split; simpl; [done|by rewrite lookup_insert_eq|done| |].
  - intros k' p'. rewrite !Hkeep. unfold put. case_decide as D; [|intros Hin; rewrite Ho by done; done].
    subst k'. rewrite added_perm, fmap_cons, elem_of_cons. simpl. intros [->|Hin].
    + split; (intros [Hin|?]; [|by right]); exfalso; apply Hp, Hi; [by left|by right].
    + by rewrite Ho.
  - intros k' p'. rewrite !Hkeep, Hi'. intros [[?|(_ & -> & ->)]|[?|(_ & -> & ->)]]; auto.
Qed.

(** a removal, after which the item may be forgotten *)
Lemma inv_remove id x t m k h items :
  scope_inv id x t m ->
  (forall k' p', (k', p') <> (k, h) -> (k', p') ∈ items <-> (k', p') ∈ itemList (remover x)) ->
  ((k, h) ∈ items -> (k, h) ∈ itemList (remover x)) ->
  scope_inv id (mk_scope (mk_sr (Some id) items) (<[id := (reg_remove k h t).2]> (memory x)) (via x))
    (reg_remove k h t).2 (put k (filter (fun y => y.1 <> h) (m k)) m).
Proof.
  intros [Ht Hm Hs Ho Hi] Hne Heq. destruct (remove_law t m k h Hs) as (_ & Hs' & Hi').
  split; simpl; [done|by rewrite lookup_insert_eq|done| |].
  - intros k' p' Hin.
    assert (Hin' : p' ∈ (m k').*1 /\ (k', p') <> (k, h)).
    { unfold put in Hin. destruct (decide (k' = k)) as [->|D]; [|split; [done|by intros [= ? ?]]].
      apply list_elem_of_fmap in Hin as (y & -> & (Hy & Hin)%list_elem_of_filter).
      split; [apply list_elem_of_fmap; by exists y|by intros [= ?]]. }
    rewrite Hne by apply Hin'. apply Ho, Hin'.
  - intros k' p' Hin. rewrite Hi'. apply Hi. destruct Hin as [Hin|Hin]; [left|by right].
    destruct (decide ((k', p') = (k, h))) as [[= -> ->]|Hn]; [by apply Heq|by rewrite <- Hne].
Qed.

Lemma erase_item_spec k h items items' :
  erase_item k h items = Some items' ->
  (forall k' p', (k', p') <> (k, h) -> (k', p') ∈ items' <-> (k', p') ∈ items) /\ ((k, h) ∈ items' -> (k, h) ∈ items).
Proof.
  revert items'. induction items as [|i items IH]; intros items' E; [done|]. simpl in E. case_decide as D.
  - injection E as <-. subst i. split; [|by right]. intros k' p' Hne. rewrite elem_of_cons. naive_solver.
  - apply fmap_Some in E as (rest & E & ->). destruct (IH rest E) as [H1 H2]. split.
    + intros k' p' Hne. rewrite !elem_of_cons. by rewrite H1.
    + rewrite !elem_of_cons. naive_solver.
Qed.

Lemma scope_step_inv id o x t m :
  scope_inv id x t m -> exists x' t' m', scope_step id o x = Ret x' /\ scope_inv id x' t' m'.
Proof.
  intros Hx. pose proof Hx as [Ht Hm Hs Ho Hi]. destruct o as [k a|k h|k a|k h]; cbn [scope_step].
  - destruct (direct_add k a t) as [p t'] eqn:E.
    assert (through_add k a (remover x) (memory x)
      = Ret (p, mk_sr (Some id) (itemList (remover x) ++ [(k, p)]), <[id := t']> (memory x))) as ->.
    { destruct a; simpl in *; unfold sr_append, sr_prepend, sr_insert, sr_register; rewrite Ht; simpl;
        rewrite Hm; simpl; by rewrite E. }
    eexists _, _, _. split; [done|]. by apply (inv_add id x t m k a p t' true).
  - unfold sr_remove. rewrite Ht. simpl. rewrite Hm. unfold removeHandle.
    destruct (reg_alive k h t); [|by eexists x, t, m; destruct x].
    destruct (erase_item k h (itemList (remover x))) as [items|] eqn:Ee; [|by eexists x, t, m; destruct x].
    destruct (reg_remove k h t) as [b t'] eqn:Er. eexists _, _, _. split; [done|].
    apply erase_item_spec in Ee as [H1 H2].
    pose proof (inv_remove id x t m k h items Hx H1 H2) as Hr. rewrite Er in Hr. exact Hr.
  - rewrite Hm. simpl. destruct (direct_add k a t) as [p t'] eqn:E. eexists _, _, _. split; [done|].
    pose proof (inv_add id x t m k a p t' false Hx E) as Hr. destruct x as [[? ?] ? ?]. simpl in *. by subst.
  - rewrite Hm. simpl. eexists _, _, _. split; [done|].
    pose proof (inv_remove id x t m k h (itemList (remover x)) Hx) as Hr. destruct x as [[? ?] ? ?]. simpl in *.
    subst. by apply Hr.
Qed.
Lemma scope_run_inv id os x t m :
  scope_inv id x t m -> exists x' t' m', scope_run id os x = Ret x' /\ scope_inv id x' t' m'.
Proof.
  revert x t m. induction os as [|o os IH]; intros x t m Hx; [by exists x, t, m|]. cbn [scope_run].
  destruct (scope_step_inv id o x t m Hx) as (x1 & t1 & m1 & -> & Hx1). by apply (IH x1 t1 m1).
Qed.

(** removing a list of handles *)
Lemma remove_items_spec items t m :
  shows t m -> shows (remove_items items t) (fun k => filter (fun x => (k, x.1) ∉ items) (m k)).
Proof.
  revert t m. induction items as [|[k0 h0] items IH]; intros t m Hs.
  - eapply shows_ext; [|exact Hs]. intros k. rewrite filter_keep; [done|]. intros x _. apply not_elem_of_nil.
  - destruct (remove_law t m k0 h0 Hs) as (_ & Hs' & _). eapply shows_ext; [|exact (IH _ _ Hs')].
    intros k. unfold put. cbn beta. destruct (decide (k = k0)) as [->|Hne].
    + rewrite list_filter_filter. apply list_filter_iff. intros x. rewrite not_elem_of_cons. naive_solver.
    + apply list_filter_iff. intros x. rewrite not_elem_of_cons. naive_solver.
Qed.
Lemma sr_reset_spec id s mem t m :
  target s = Some id -> mem !! id = Some t -> shows t m ->
  exists t', sr_reset s mem = Ret (mk_sr (Some id) [], <[id := t']> mem) /\
    shows t' (fun k => filter (fun x => (k, x.1) ∉ itemList s) (m k)).
Proof.
  intros Ht Hm Hs. exists (remove_items (itemList s) t). split; [|by apply remove_items_spec].
  unfold sr_reset. rewrite Ht. destruct (itemList s) as [|i items]; simpl; [by rewrite insert_id|by rewrite Hm].
Qed.

(** C30. The scope of a remover: whatever listeners are registered and removed,
    through the remover and directly, the operations are defined, and when the
    remover is reset or destroyed exactly the listeners registered through it
    are gone; the others stay, in their order. Moving a remover hands its
    listeners over, so the new object removes them and the old one nothing;
    but the target of a move assignment forgets the listeners it had: none of
    them is removed any more. *)
Theorem scoped_remover_owns (id : nat) (os : list scope_op) (mem : gmap nat T) t m (other : ScopedRemover K) :
  mem !! id = Some t -> shows t m ->
  exists x t1 m1, scope_run id os (mk_scope (sr_on id) mem []) = Ret x /\
    memory x !! id = Some t1 /\ shows t1 m1 /\
    (exists t2, sr_reset (remover x) (memory x) = Ret (sr_on id, <[id := t2]> (memory x)) /\
       shows t2 (fun k => filter (fun y => (k, y.1) ∉ via x) (m1 k))) /\
    (exists t2, sr_reset (sr_move (remover x)).1 (memory x) = Ret (sr_on id, <[id := t2]> (memory x)) /\
       shows t2 (fun k => filter (fun y => (k, y.1) ∉ via x) (m1 k))) /\
    sr_reset (sr_move (remover x)).2 (memory x) = Ret (sr_on id, memory x) /\
    (target other = Some id ->
     exists t2, sr_reset (sr_move_assign other (remover x)).1 (memory x) = Ret (sr_on id, <[id := t2]> (memory x)) /\
       shows t2 (fun k => filter (fun y => (k, y.1) ∉ itemList other) (m1 k))).
Proof.
  intros Hm Hs.
  assert (H0 : scope_inv id (mk_scope (sr_on id) mem []) t m).
  { split; simpl; try done. intros k p [Hn|Hn]; by apply not_elem_of_nil in Hn. }
  destruct (scope_run_inv id os _ t m H0) as (x & t1 & m1 & Hr & [Ht1 Hm1 Hs1 Ho1 _]).
  exists x, t1, m1. split; [done|]. split; [done|]. split; [done|].
  assert (Hreset : exists t2, sr_reset (remover x) (memory x) = Ret (sr_on id, <[id := t2]> (memory x)) /\
       shows t2 (fun k => filter (fun y => (k, y.1) ∉ via x) (m1 k))).
  { destruct (sr_reset_spec id (remover x) (memory x) t1 m1 Ht1 Hm1 Hs1) as (t2 & E & Hs2). exists t2.
    split; [done|]. eapply shows_ext; [|exact Hs2]. intros k. apply filter_iff_on.
    intros y Hy. rewrite Ho1; [done|]. apply list_elem_of_fmap. by exists y. }
  split_and!; [done| | |].
  - unfold sr_move. cbn [fst]. by destruct (remover x).
  - unfold sr_move, sr_reset. simpl. by rewrite Ht1.
  - intros Hto. by apply (sr_reset_spec id (mk_sr (target other) (itemList other)) (memory x) t1 m1).
Qed.
End scope.

(** ** A dispatcher with one listener that outlives a remover *)

Definition scope_target : dispatcher Z Z := (appendListener 1 7 (∅ : dispatcher Z Z)).2.
Definition scope_ops : list (@scope_op Z Z) :=
  [Through 1 (AtEnd 8); Direct 1 (AtFront 9); Through 2 (AtEnd 5); RemoveDirect 1 1; Direct 1 (Before 6 2)].
Lemma scope_target_listening : exists m, listening scope_target m.
Proof.
  destruct (appendListener 1 7 (∅ : dispatcher Z Z)) as [p d] eqn:E.
  destruct (appendListener_spec _ _ _ _ _ _ sample_listening E) as [_ Hd]. eexists.
  unfold scope_target. rewrite E. exact Hd.
Qed.
Lemma scoped_remover_owns_witness :
  exists x t2, scope_run 0 scope_ops (mk_scope (sr_on 0) {[0%nat := scope_target]} []) = Ret x /\
    sr_reset (remover x) (memory x) = Ret (sr_on 0, <[0%nat := t2]> (memory x)) /\
    directDispatch record 1 100 t2 [] = [(9, 100); (6, 100)] /\ directDispatch record 2 100 t2 [] = [].
Proof.
  destruct scope_target_listening as [m Hm].
  destruct (scoped_remover_owns (RegistryLaws0 := dispatcher_registry_laws) 0 scope_ops {[0%nat := scope_target]} scope_target m sr_null
    (lookup_singleton_eq (M := gmap nat) 0%nat scope_target) Hm)
    as (x & t1 & m1 & Hr & _ & _ & (t2 & Hreset & _) & _).
  exists x, t2. split; [exact Hr|]. split; [exact Hreset|].
  vm_compute in Hr. injection Hr as <-. vm_compute in Hreset.
  injection Hreset as <-. split; vm_compute; reflexivity.
Defined.

(** ** The class for callback lists *)

Section list_remover.
Context {C : Type}.
Definition list_remover : Type := ScopedRemover unit.
Definition list_sr_null : list_remover := sr_null.
Definition list_sr_on (id : nat) : list_remover := sr_on id.
Definition list_sr_move (other : list_remover) : list_remover * list_remover := sr_move other.
Definition list_sr_move_assign (other s : list_remover) : list_remover * list_remover := sr_move_assign other s.
Definition list_sr_swap (s other : list_remover) : list_remover * list_remover := sr_swap s other.
Definition list_sr_reset : list_remover -> gmap nat (clist C) -> _ := sr_reset.
Definition setCallbackList : nat -> list_remover -> gmap nat (clist C) -> _ := sr_set.
Definition list_sr_append (cb : C) : list_remover -> gmap nat (clist C) -> _ := sr_append tt cb.
Definition list_sr_prepend (cb : C) : list_remover -> gmap nat (clist C) -> _ := sr_prepend tt cb.
Definition list_sr_insert (cb : C) (before : positive) : list_remover -> gmap nat (clist C) -> _ :=
  sr_insert tt cb before.
Definition list_sr_remove (h : positive) : list_remover -> gmap nat (clist C) -> _ := sr_remove tt h.
End list_remover.
