(* ===== verification/SelfRemover.v ===== *)
(** * SelfRemover
    [utilities/counterremover.h] and [utilities/conditionalremover.h] of
    [eventpp]: listeners that remove themselves while they are called, after a
    number of calls or when a condition holds. The dispatch loop is the one of
    [CallbackListBase], run on a list that its callbacks change.

    A wrapper shares its data, which holds the handle of the wrapper itself. The
    wrapped listeners and conditions act on a state [St] of their own. *)

From Stdlib Require Import ZArith Lia.
From stdpp Require Import base numbers list option gmap fin_maps strings.
From S2P Require Import Prelude CallbackList CallbackListFacts CallbackDispatch EventQueue EventQueueFacts EventUtil ScopedRemover.

Section self_remover.
Context {A Cb Cond St : Type}.
Variable run_callback : Cb -> A -> St -> St.
(** [shouldRemove(args...)], or [shouldRemove()] *)
Variable run_condition : Cond -> A -> St -> bool * St.

(** [Wrapper::Data] of [CounterRemover] *)
Record CounterData := mk_counter_data {
  triggerCount : Z;
  counter_listener : Cb;
  counter_handle : option positive;
}.
(** [ItemByCondition::Data] of [ConditionalRemover] *)
Record ConditionData := mk_condition_data {
  shouldRemove : Cond;
  condition_listener : Cb;
  condition_handle : option positive;
}.
(** what is registered: a listener as it is, or a wrapper with its data *)
Inductive wrapped : Type :=
| Plain (cb : Cb)
| Counter (data : nat)
| Condition (data : nat).
Record datas := mk_datas { counter_data : gmap nat CounterData; condition_data : gmap nat ConditionData }.

(** ** Registration *)

(** [CounterRemover::append], [prepend] and [insert]: the handle is stored after
    the registration *)
Definition counter_register (reg : wrapped -> clist wrapped -> positive * clist wrapped) (listener : Cb)
    (count : Z) (l : clist wrapped) (ds : datas) : positive * clist wrapped * datas :=
  let d := fresh (dom (counter_data ds)) in
  let '(h, l') := reg (Counter d) l in
  (h, l', mk_datas (<[d := mk_counter_data count listener (Some h)]> (counter_data ds)) (condition_data ds)).
Definition counter_append := counter_register append.
Definition counter_prepend := counter_register prepend.
Definition counter_insert (before : positive) := counter_register (fun w => insert_cb [] w before).
(** the same of [ConditionalRemover] *)
Definition condition_register (reg : wrapped -> clist wrapped -> positive * clist wrapped) (listener : Cb)
    (cond : Cond) (l : clist wrapped) (ds : datas) : positive * clist wrapped * datas :=
  let d := fresh (dom (condition_data ds)) in
  let '(h, l') := reg (Condition d) l in
  (h, l', mk_datas (counter_data ds) (<[d := mk_condition_data cond listener (Some h)]> (condition_data ds))).
Definition condition_append := condition_register append.
Definition condition_prepend := condition_register prepend.
Definition condition_insert (before : positive) := condition_register (fun w => insert_cb [] w before).

(** ** Calls *)

(** the test of [Wrapper::operator()]: whether to remove, the handle, the
    listener; [--triggerCount] is an [int] operation *)
Definition counter_test (d : nat) (ds : datas) : outcome (bool * option positive * Cb * datas) :=
  data ← deref "data" (counter_data ds !! d);
  if triggerCount data =? - 2 ^ 31 then UB "signed overflow"
  else
    let c := triggerCount data - 1 in
    Ret (c <=? 0, counter_handle data, counter_listener data,
         mk_datas (<[d := mk_counter_data c (counter_listener data) (counter_handle data)]> (counter_data ds))
           (condition_data ds)).
(** the test of [ItemByCondition::operator()] *)
Definition condition_test (d : nat) (args : A) (ds : datas) (st : St)
    : outcome (bool * option positive * Cb * St) :=
  data ← deref "data" (condition_data ds !! d);
  let '(b, st') := run_condition (shouldRemove data) args st in
  Ret (b, condition_handle data, condition_listener data, st').
Definition wrapper_test (w : wrapped) (args : A) (ds : datas) (st : St)
    : outcome (bool * option positive * Cb * datas * St) :=
  match w with
  | Plain cb => Ret (false, None, cb, ds, st)
  | Counter d => '(b, h, cb, ds') ← counter_test d ds; Ret (b, h, cb, ds', st)
  | Condition d => '(b, h, cb, st') ← condition_test d args ds st; Ret (b, h, cb, ds, st')
  end.
(** [operator()]: remove first, then call; the loop holds the node [q] *)
Definition invoke_wrapped (q : positive) (w : wrapped) (args : A) (x : clist wrapped * datas * St)
    : outcome (clist wrapped * datas * St) :=
  let '(l, ds, st) := x in
  '(b, h, cb, ds', st') ← wrapper_test w args ds st;
  let l' := if b : bool then match h with Some h => (remove [q] h l).2 | None => l end else l in
  Ret (l', ds', run_callback cb args st').

(** the loop of [doForEachIf] over a list its callbacks change *)
Fixpoint dispatch_loop (fuel : nat) (snapshot : Z) (p : option positive) (args : A)
    (x : clist wrapped * datas * St) : outcome (clist wrapped * datas * St) :=
  match fuel, p with
  | S fuel, Some q =>
      nd ← deref "node" (heap x.1.1 !! q);
      x' ← (if eligible snapshot nd then invoke_wrapped q (callback nd) args x else Ret x);
      dispatch_loop fuel snapshot (node_next x'.1.1 q) args x'
  | _, _ => Ret x
  end.
Definition dispatch_wrapped (args : A) (x : clist wrapped * datas * St) : outcome (clist wrapped * datas * St) :=
  let l := x.1.1 in dispatch_loop (size (heap l)) (currentCounter l) (head l) args x.

(** ** The classes for dispatchers *)

(** A wrapper is registered for the event its data names, so what it removes
    is in the list that is being dispatched. *)
Context {Event : Type} `{Countable Event}.
(** [CounterRemover::appendListener], [prependListener], [insertListener] *)
Definition counter_registerListener (reg : wrapped -> clist wrapped -> positive * clist wrapped) (e : Event)
    (listener : Cb) (count : Z) (d : dispatcher Event wrapped) (ds : datas) : positive * dispatcher Event wrapped * datas :=
  let '(h, l', ds') := counter_register reg listener count (list_at e d) ds in (h, <[e := l']> d, ds').
Definition counter_appendListener := counter_registerListener append.
Definition counter_prependListener := counter_registerListener prepend.
Definition counter_insertListener (before : positive) := counter_registerListener (fun w => insert_cb [] w before).
(** the same of [ConditionalRemover] *)
Definition condition_registerListener (reg : wrapped -> clist wrapped -> positive * clist wrapped) (e : Event)
    (listener : Cb) (cond : Cond) (d : dispatcher Event wrapped) (ds : datas) : positive * dispatcher Event wrapped * datas :=
  let '(h, l', ds') := condition_register reg listener cond (list_at e d) ds in (h, <[e := l']> d, ds').
Definition condition_appendListener := condition_registerListener append.
Definition condition_prependListener := condition_registerListener prepend.
Definition condition_insertListener (before : positive) := condition_registerListener (fun w => insert_cb [] w before).
Definition dispatch_event (e : Event) (args : A) (x : dispatcher Event wrapped * datas * St)
    : outcome (dispatcher Event wrapped * datas * St) :=
  let '(d, ds, st) := x in
  match doFindCallableList e d with
  | Some l => '(l', ds', st') ← dispatch_wrapped args (l, ds, st); Ret (<[e := l']> d, ds', st')
  | None => Ret x
  end.

(** ** One dispatch *)

(** what a dispatch means: every listener is called once, in order; those whose
    test says so are gone afterwards *)
Fixpoint dispatch_spec (args : A) (a : list (positive * wrapped)) (ds : datas) (st : St)
    : outcome (list (positive * wrapped) * datas * St) :=
  match a with
  | [] => Ret ([], ds, st)
  | (p, w) :: a =>
      '(b, _, cb, ds1, st1) ← wrapper_test w args ds st;
      '(kept, ds2, st2) ← dispatch_spec args a ds1 (run_callback cb args st1);
      Ret ((if b : bool then kept else (p, w) :: kept), ds2, st2)
  end.

(** every wrapper knows its own handle *)
Definition handle_ok (ds : datas) (x : positive * wrapped) : Prop :=
  match x.2 with
  | Plain _ => True
  | Counter d => exists data, counter_data ds !! d = Some data /\ counter_handle data = Some x.1
  | Condition d => exists data, condition_data ds !! d = Some data /\ condition_handle data = Some x.1
  end.
Lemma wrapper_test_handles x w args ds st b h cb ds' st' :
  wrapper_test w args ds st = Ret (b, h, cb, ds', st') -> handle_ok ds x -> handle_ok ds' x.
Proof.
  destruct w as [c|d|d]; simpl; intros E0 Hx.
  - by injection E0 as <- <- <- <- <-.
  - apply bind_Ret_inv in E0 as ([[[b0 h0] cb0] ds0] & E1 & E0). injection E0 as <- <- <- <- <-.
    apply bind_Ret_inv in E1 as (data & Hd & E1). destruct (_ =? _); [done|]. injection E1 as _ _ _ <-.
    unfold handle_ok in *. destruct x as [p [c|d'|d']]; simpl in *; try done.
    destruct Hx as (data' & Hd' & Hh). destruct (decide (d = d')) as [->|Hne].
    + rewrite Hd' in Hd. injection Hd as ->. eexists. by rewrite lookup_insert_eq.
    + exists data'. by rewrite lookup_insert_ne.
  - apply bind_Ret_inv in E0 as ([[[b0 h0] cb0] ds0] & E1 & E0). by injection E0 as <- <- <- <- <-.
Qed.
Lemma wrapper_test_self p w args ds st b h cb ds' st' :
  wrapper_test w args ds st = Ret (b, h, cb, ds', st') -> handle_ok ds (p, w) -> b = true -> h = Some p.
Proof.
  destruct w as [c|d|d]; simpl; intros E0 Hx Hb.
  - by injection E0 as <- <- <- <- <-.
  - apply bind_Ret_inv in E0 as ([[[b0 h0] cb0] ds0] & E1 & E0). injection E0 as <- <- <- <- <-.
    apply bind_Ret_inv in E1 as (data & Hd & E1). destruct (_ =? _); [done|]. injection E1 as _ <- _ _.
    destruct Hx as (data' & Hd' & Hh). simpl in *. rewrite Hd' in Hd. by injection Hd as ->.
  - apply bind_Ret_inv in E0 as ([[[b0 h0] cb0] st0] & E1 & E0). injection E0 as <- <- <- <- <-.
    apply bind_Ret_inv in E1 as (data & Hd & E1). destruct (run_condition _ _ _) as [b1 st1].
    injection E1 as _ <- _ _. destruct Hx as (data' & Hd' & Hh). simpl in *. rewrite Hd' in Hd. by injection Hd as ->.
Qed.

(** the node a loop is at, after its own removal *)
Lemma remove_current (l : clist wrapped) a1 q w a2 :
  refines l (a1 ++ (q, w) :: a2) ->
  refines (remove [q] q l).2 (a1 ++ a2) /\ node_next (remove [q] q l).2 q = hd_error a2.*1 /\
  currentCounter (remove [q] q l).2 = currentCounter l.
Proof.
  intros Href. split; [by eapply remove_refines|]. destruct Href as [Hr _]. rewrite fmap_app, fmap_cons in Hr.
  cbn [fst] in Hr. unfold remove. rewrite (lock_listed [q] l _ q Hr) by set_solver. cbn [snd].
  pose proof (rep_middle _ _ _ _ Hr) as (_ & _ & _ & _ & _ & _ & _ & nd & Hn & _ & Hx).
  destruct (doFreeNode_spec l a1.*1 q a2.*1 nd Hr Hn) as (_ & Hq & _).
  destruct (doFreeNode_heap l a1.*1 q a2.*1 nd Hr Hn) as (_ & _ & _ & Hc).
  split; [|done]. unfold node_next. rewrite Hq. simpl. by rewrite Hx, first_or_None.
Qed.
Lemma current_node (l : clist wrapped) a1 q w a2 :
  refines l (a1 ++ (q, w) :: a2) ->
  exists nd, heap l !! q = Some nd /\ callback nd = w /\ eligible (currentCounter l) nd = true /\
    node_next l q = hd_error a2.*1.
Proof.
  intros [Hr Hc]. pose proof Hr as [_ _ _ _ Hct _]. rewrite fmap_app, fmap_cons in Hr, Hc, Hct. cbn [fst] in *.
  pose proof (rep_middle _ _ _ _ Hr) as (_ & _ & _ & _ & _ & _ & _ & nd & Hn & _ & Hx).
  exists nd. split; [done|]. split_and!.
  - unfold callbacks in Hc. rewrite fmap_app, fmap_cons, Hn in Hc.
    rewrite !fmap_app, !fmap_cons in Hc. apply app_inj_1 in Hc as [_ Hc]; [by injection Hc|by rewrite !length_fmap].
  - apply Forall_app in Hct as [_ Hct]. apply list.Forall_cons in Hct as [(nd' & Hn' & Hc0) _].
    rewrite Hn in Hn'. injection Hn' as <-. unfold eligible, removedCounter.
    rewrite (proj2 (Z.eqb_neq _ _)), (proj2 (Z.leb_le _ _)) by lia. done.
  - unfold node_next. rewrite Hn. simpl. by rewrite Hx, first_or_None.
Qed.

Lemma dispatch_loop_spec args a1 a2 l ds st fuel kept ds' st' :
  refines l (a1 ++ a2) -> Forall (handle_ok ds) a2 -> (length a2 <= fuel)%nat ->
  dispatch_spec args a2 ds st = Ret (kept, ds', st') ->
  exists l', dispatch_loop fuel (currentCounter l) (hd_error a2.*1) args (l, ds, st) = Ret (l', ds', st') /\
    refines l' (a1 ++ kept).
Proof.
  revert a1 l ds st fuel kept. induction a2 as [|[q w] a2 IH]; intros a1 l ds st fuel kept Href Hh Hf E.
  { injection E as <- <- <-. exists l. by destruct fuel. }
  destruct fuel as [|fuel]; [simpl in Hf; lia|]. apply list.Forall_cons in Hh as [Hq Hh].
  cbn [dispatch_spec] in E. apply bind_Ret_inv in E as ([[[[b h] cb] ds1] st1] & Ew & E).
  apply bind_Ret_inv in E as ([[kept1 ds2] st2] & Es & E). injection E as <- <- <-.
  destruct (current_node l a1 q w a2 Href) as (nd & Hn & Hw & Hel & Hnx).
  rewrite fmap_cons. cbn [fst hd_error dispatch_loop]. rewrite Hn. cbn [deref mbind outcome_bind].
  rewrite Hel. cbn [invoke_wrapped]. rewrite Hw, Ew. cbn [mbind outcome_bind fst snd].
  assert (Hh1 : Forall (handle_ok ds1) a2)
    by (eapply Forall_impl; [exact Hh|]; intros x; by eapply wrapper_test_handles).
  assert (Hf' : (length a2 <= fuel)%nat) by (simpl in Hf; lia).
  destruct b.
  - rewrite (wrapper_test_self q w args ds st _ _ _ _ _ Ew Hq eq_refl).
    destruct (remove_current l a1 q w a2 Href) as (Href' & -> & <-). by eapply IH.
  - rewrite Hnx. rewrite (cons_middle (q, w) a1 kept1), app_assoc.
    eapply IH; try done. by rewrite <- app_assoc.
Qed.
Lemma dispatch_wrapped_spec args a l ds st kept ds' st' :
  refines l a -> Forall (handle_ok ds) a -> dispatch_spec args a ds st = Ret (kept, ds', st') ->
  exists l', dispatch_wrapped args (l, ds, st) = Ret (l', ds', st') /\ refines l' kept.
Proof.
  intros Href Hh E. unfold dispatch_wrapped. cbn [fst]. pose proof Href as [Hr _].
  pose proof (rep_length _ _ Hr) as Hlen. rewrite length_fmap in Hlen. destruct Hr as [_ _ -> _ _ _].
  by apply (dispatch_loop_spec args [] a l ds st).
Qed.

(** ** Counted listeners *)

Definition data_of (x : positive * wrapped) : option nat := match x.2 with Counter d => Some d | _ => None end.
Definition listener_of (ds : datas) (w : wrapped) : option Cb :=
  match w with
  | Plain cb => Some cb
  | Counter d => counter_listener <$> counter_data ds !! d
  | Condition d => condition_listener <$> condition_data ds !! d
  end.
Definition called (ds : datas) (args : A) (st : St) (x : positive * wrapped) : St :=
  match listener_of ds x.2 with Some cb => run_callback cb args st | None => st end.
(** whether the listener is still registered at dispatch number [j] *)
Definition alive_at (ds : datas) (j : nat) (x : positive * wrapped) : bool :=
  match x.2 with
  | Counter d => match counter_data ds !! d with
                 | Some data => (j =? 0)%nat || (Z.of_nat j <? triggerCount data)
                 | None => false
                 end
  | _ => true
  end.
(** counted and plain listeners only; the count is an [int] that can be
    decremented *)
Definition counts_ok (ds : datas) (x : positive * wrapped) : Prop :=
  match x.2 with
  | Plain _ => True
  | Counter d => exists data, counter_data ds !! d = Some data /\ counter_handle data = Some x.1 /\
      - 2 ^ 31 < triggerCount data
  | Condition _ => False
  end.
(** the calls of the dispatches [j], [j + 1], ... *)
Fixpoint rounds (ds : datas) (a : list (positive * wrapped)) (j : nat) (argss : list A) (st : St) : St :=
  match argss with
  | [] => st
  | args :: argss =>
      rounds ds a (S j) argss (fold_left (called ds args) (filter (fun x => alive_at ds j x = true) a) st)
  end.
Fixpoint dispatch_all (argss : list A) (x : clist wrapped * datas * St) : outcome (clist wrapped * datas * St) :=
  match argss with
  | [] => Ret x
  | args :: argss => x' ← dispatch_wrapped args x; dispatch_all argss x'
  end.

Definition decremented (data : CounterData) : CounterData :=
  mk_counter_data (triggerCount data - 1) (counter_listener data) (counter_handle data).

Lemma fold_called_ext ds ds' args a st :
  (forall x, x ∈ a -> listener_of ds x.2 = listener_of ds' x.2) ->
  fold_left (called ds args) a st = fold_left (called ds' args) a st.
Proof.
  revert st. induction a as [|x a IH]; intros st Hx; [done|]. simpl.
  assert (called ds args st x = called ds' args st x) as -> by (unfold called; by rewrite Hx by (by left)).
  apply IH. intros y Hy. apply Hx. by right.
Qed.
Lemma data_of_elem d p (a : list (positive * wrapped)) : (p, Counter d) ∈ a -> d ∈ omap data_of a.
Proof. intros Hin. apply list_elem_of_omap. by exists (p, Counter d). Qed.

Lemma same_data ds ds' (a : list (positive * wrapped)) :
  condition_data ds' = condition_data ds ->
  (forall d, d ∈ omap data_of a -> counter_data ds' !! d = counter_data ds !! d) ->
  forall x, x ∈ a -> listener_of ds' x.2 = listener_of ds x.2 /\ (forall j, alive_at ds' j x = alive_at ds j x) /\
    (counts_ok ds x -> counts_ok ds' x).
Proof.
  intros Hcd Hd [p [cb|d|d]] Hx; unfold alive_at, counts_ok; simpl; try done; [|by rewrite Hcd].
  by rewrite (Hd d) by (by eapply data_of_elem).
Qed.

(** one dispatch *)
Lemma counted_dispatch args (a : list (positive * wrapped)) ds st :
  Forall (counts_ok ds) a -> NoDup (omap data_of a) ->
  exists ds', dispatch_spec args a ds st
      = Ret (filter (fun x => alive_at ds 1 x = true) a, ds', fold_left (called ds args) a st) /\
    condition_data ds' = condition_data ds /\
    (forall d, d ∉ omap data_of a -> counter_data ds' !! d = counter_data ds !! d) /\
    (forall d, d ∈ omap data_of a -> counter_data ds' !! d = decremented <$> counter_data ds !! d).
Proof.
  revert ds st. induction a as [|[p w] a IH]; intros ds st Hok Hnd.
  { exists ds. split_and!; try done. by intros d ?%not_elem_of_nil. }
  apply list.Forall_cons in Hok as [Hw Hok]. destruct w as [cb|d|d]; [| |done].
  - destruct (IH ds (run_callback cb args st) Hok Hnd) as (ds' & E & Hc & H1 & H2).
    exists ds'. cbn [dispatch_spec wrapper_test mbind outcome_bind]. rewrite E. cbn [mbind outcome_bind].
    rewrite filter_cons_True by done. done.
  - destruct Hw as (data & Hd & Hh & Hn). simpl in Hd, Hh.
    cbn [omap list_omap data_of snd] in Hnd. apply NoDup_cons in Hnd as [Hda Hnd].
    set (ds1 := mk_datas (<[d := decremented data]> (counter_data ds)) (condition_data ds)).
    assert (Hsame : forall x, x ∈ a -> listener_of ds1 x.2 = listener_of ds x.2 /\
        (forall j, alive_at ds1 j x = alive_at ds j x) /\ (counts_ok ds x -> counts_ok ds1 x)).
    { apply same_data; [done|]. intros d' Hd'. simpl. rewrite lookup_insert_ne; [done|]. by intros ->. }
    assert (Hok1 : Forall (counts_ok ds1) a).
    { rewrite Forall_forall in *. intros x Hx. apply (Hsame x Hx), Hok, Hx. }
    destruct (IH ds1 (run_callback (counter_listener data) args st) Hok1 Hnd) as (ds' & E & Hc & H1 & H2).
    exists ds'. cbn [dispatch_spec wrapper_test]. unfold counter_test. rewrite Hd. cbn [deref mbind outcome_bind].
    rewrite (proj2 (Z.eqb_neq _ _)) by lia. cbn [mbind outcome_bind]. fold (decremented data) ds1. rewrite E.
    assert (Hcall : called ds args st (p, Counter d) = run_callback (counter_listener data) args st)
      by (unfold called; simpl; by rewrite Hd).
    cbn [mbind outcome_bind fold_left]. rewrite Hcall.
    split_and!.
    + f_equal. f_equal; [f_equal|].
      * rewrite (filter_iff_on (fun x => alive_at ds1 1 x = true) (fun x => alive_at ds 1 x = true))
          by (intros x Hx; by rewrite (proj1 (proj2 (Hsame x Hx)))).
        assert (Hal : alive_at ds 1 (p, Counter d) = negb (triggerCount data - 1 <=? 0)).
        { unfold alive_at. simpl. rewrite Hd. apply Bool.eq_iff_eq_true.
          rewrite Bool.negb_true_iff, Z.ltb_lt, Z.leb_gt. lia. }
        rewrite filter_cons, Hal. by destruct (triggerCount data - 1 <=? 0).
      * apply fold_called_ext. intros x Hx. apply Hsame, Hx.
    + done.
    + intros d' Hd'. cbn [omap list_omap data_of snd] in Hd'. apply not_elem_of_cons in Hd' as [Hne Hd'].
      rewrite H1 by done. simpl. by rewrite lookup_insert_ne.
    + intros d' Hd'. cbn [omap list_omap data_of snd] in Hd'. apply elem_of_cons in Hd' as [->|Hd'].
      * rewrite H1 by done. simpl. by rewrite lookup_insert_eq, Hd.
      * rewrite H2 by done. simpl. rewrite lookup_insert_ne; [done|]. by intros ->.
Qed.

(** the state after one dispatch sees the remaining dispatches one earlier *)
Lemma after_dispatch ds ds' (a : list (positive * wrapped)) x :
  Forall (counts_ok ds) a -> condition_data ds' = condition_data ds ->
  (forall d, d ∈ omap data_of a -> counter_data ds' !! d = decremented <$> counter_data ds !! d) ->
  x ∈ a -> alive_at ds 1 x = true ->
  listener_of ds' x.2 = listener_of ds x.2 /\ (forall j, alive_at ds' j x = alive_at ds (S j) x) /\ counts_ok ds' x.
Proof.
  intros Hok Hc Hd Hx Hal. rewrite Forall_forall in Hok. specialize (Hok x Hx).
  destruct x as [p [cb|d|d]]; unfold counts_ok, alive_at in *; simpl in *; try done.
  destruct Hok as (data & E & Hh & Hn). rewrite (Hd d) by (by eapply data_of_elem). rewrite E in *. simpl.
  apply Z.ltb_lt in Hal. split_and!; [done| |].
  - intros j. destruct j as [|j]; cbn [Nat.eqb orb]; symmetry; [by apply Z.ltb_lt|].
    apply Bool.eq_iff_eq_true. rewrite !Z.ltb_lt. lia.
  - exists (decremented data). simpl. split_and!; [done|done|lia].
Qed.
Lemma alive_at_mono ds j x : alive_at ds (S j) x = true -> alive_at ds 1 x = true.
Proof.
  unfold alive_at. destruct x.2; try done. destruct (_ !! _); [|done]. cbn [Nat.eqb orb]. rewrite !Z.ltb_lt. lia.
Qed.
Lemma filter_alive ds ds' j (a : list (positive * wrapped)) :
  (forall x, x ∈ a -> alive_at ds 1 x = true -> forall j, alive_at ds' j x = alive_at ds (S j) x) ->
  filter (fun x => alive_at ds' j x = true) (filter (fun x => alive_at ds 1 x = true) a)
    = filter (fun x => alive_at ds (S j) x = true) a.
Proof.
  intros Hal. rewrite list_filter_filter. apply filter_iff_on. intros x Hx. split.
  - intros [H1 H2]. by rewrite <- (Hal x Hx H2 j).
  - intros Hj. pose proof (alive_at_mono _ _ _ Hj) as H1. by rewrite (Hal x Hx H1 j).
Qed.
Lemma rounds_shift ds ds' a j argss st :
  (forall x, x ∈ a -> alive_at ds 1 x = true ->
     listener_of ds' x.2 = listener_of ds x.2 /\ forall j, alive_at ds' j x = alive_at ds (S j) x) ->
  rounds ds' (filter (fun x => alive_at ds 1 x = true) a) j argss st = rounds ds a (S j) argss st.
Proof.
  intros Hx. revert j st. induction argss as [|args argss IH]; intros j st; [done|]. cbn [rounds].
  rewrite IH. f_equal. rewrite filter_alive by (intros x Hin Hal; by apply Hx).
  apply fold_called_ext. intros x Hin. apply list_elem_of_filter in Hin as [Hj Hin].
  apply Hx; [done|]. by eapply alive_at_mono.
Qed.
Lemma filter_omap_NoDup ds (a : list (positive * wrapped)) :
  NoDup (omap data_of a) -> NoDup (omap data_of (filter (fun x => alive_at ds 1 x = true) a)).
Proof.
  intros Hn. eapply sublist_NoDup; [exact Hn|]. clear Hn. induction a as [|x a IH]; [done|].
  rewrite filter_cons. case_decide; cbn [omap list_omap]; destruct (data_of x); [by apply sublist_skip|done|by apply sublist_cons|done].
Qed.

Lemma filter_alive_start ds (a : list (positive * wrapped)) :
  Forall (counts_ok ds) a -> filter (fun x => alive_at ds 0 x = true) a = a.
Proof.
  intros Hok. apply filter_keep. intros x Hx. rewrite Forall_forall in Hok. specialize (Hok x Hx).
  unfold counts_ok, alive_at in *. destruct x as [p [cb|d|d]]; simpl in *; try done. by destruct Hok as (data & -> & _).
Qed.
Lemma dispatch_all_counted argss a l ds st :
  refines l a -> Forall (counts_ok ds) a -> NoDup (omap data_of a) ->
  exists l' ds', dispatch_all argss (l, ds, st) = Ret (l', ds', rounds ds a 0 argss st) /\
    refines l' (filter (fun x => alive_at ds (length argss) x = true) a).
Proof.
  revert a l ds st. induction argss as [|args argss IH]; intros a l ds st Href Hok Hnd.
  { exists l, ds. split; [done|]. by rewrite filter_alive_start. }
  destruct (counted_dispatch args a ds st Hok Hnd) as (ds1 & E & Hc & _ & Hd).
  assert (Hh : Forall (handle_ok ds) a).
  { eapply Forall_impl; [exact Hok|]. intros [p [cb|d|d]]; unfold handle_ok; simpl; try done.
    intros (data & ? & ? & _). by exists data. }
  destruct (dispatch_wrapped_spec args a l ds st _ _ _ Href Hh E) as (l1 & E1 & Href1).
  cbn [dispatch_all rounds length]. rewrite E1, filter_alive_start by done. cbn [mbind outcome_bind].
  pose proof (fun x => after_dispatch ds ds1 a x Hok Hc Hd) as Hafter.
  destruct (IH _ l1 ds1 (fold_left (called ds args) a st) Href1) as (l' & ds' & E2 & Href2).
  - rewrite Forall_forall. intros x [Hal Hx]%list_elem_of_filter. by apply Hafter.
  - by apply filter_omap_NoDup.
  - exists l', ds'. rewrite E2. split.
    + f_equal. f_equal. apply rounds_shift. intros x Hx Hal. split; by apply Hafter.
    + rewrite filter_alive in Href2; [done|]. intros x Hx Hal. by apply Hafter.
Qed.

Lemma counter_append_ok cb n l ds a h l' ds' :
  refines l a -> Forall (counts_ok ds) a -> NoDup (omap data_of a) -> - 2 ^ 31 < n ->
  counter_append cb n l ds = (h, l', ds') ->
  exists d, refines l' (a ++ [(h, Counter d)]) /\ Forall (counts_ok ds') (a ++ [(h, Counter d)]) /\
    NoDup (omap data_of (a ++ [(h, Counter d)])) /\ counter_data ds' !! d = Some (mk_counter_data n cb (Some h)) /\
    forall x, x ∈ a -> forall j, alive_at ds' j x = alive_at ds j x.
Proof.
  intros Href Hok Hnd Hn. unfold counter_append, counter_register.
  set (d := fresh (dom (counter_data ds))). destruct (append (Counter d) l) as [p l1] eqn:Ea.
  intros [= <- <- <-]. exists d.
  assert (Hfresh : d ∉ omap data_of a).
  { intros Hin. apply list_elem_of_omap in Hin as ([q [c|d'|d']] & Hx & [= ->]).
    rewrite Forall_forall in Hok. destruct (Hok _ Hx) as (data & Hd & _).
    apply (is_fresh (dom (counter_data ds))), elem_of_dom. by exists data. }
  assert (Hsame : forall x, x ∈ a -> (forall j, alive_at
      (mk_datas (<[d := mk_counter_data n cb (Some p)]> (counter_data ds)) (condition_data ds)) j x = alive_at ds j x) /\
      (counts_ok ds x -> counts_ok
      (mk_datas (<[d := mk_counter_data n cb (Some p)]> (counter_data ds)) (condition_data ds)) x)).
  { intros x Hx. eapply (same_data ds _ a); [done| |done]. intros d' Hd'. simpl.
    rewrite lookup_insert_ne; [done|]. by intros <-. }
  split_and!.
  - by eapply append_refines.
  - apply Forall_app. split.
    + rewrite Forall_forall in *. intros x Hx. by apply Hsame, Hok.
    + apply list.Forall_singleton. eexists. simpl. by rewrite lookup_insert_eq.
  - rewrite omap_app. apply NoDup_app. split; [done|]. split; [|apply NoDup_singleton].
    intros d' Hd'. simpl. rewrite list_elem_of_singleton. by intros ->.
  - simpl. by rewrite lookup_insert_eq.
  - intros x Hx. by apply Hsame.
Qed.

(** C29. Listeners that remove themselves during a dispatch: although the loop
    walks over the nodes that its callbacks unlink, every registered listener
    is called exactly once per dispatch, in order, and exactly those whose
    counter or condition says so are gone afterwards. A listener registered
    with a trigger count [n] is called by the next [max 1 n] dispatches
    and by none after them; plain listeners are called by all. Registration
    establishes what this needs. *)
Theorem self_removing_listeners (l : clist wrapped) (a : list (positive * wrapped)) (ds : datas) (st : St)
    (args : A) (argss : list A) (cb : Cb) (n : Z) :
  refines l a ->
  (forall kept ds' st', Forall (handle_ok ds) a -> dispatch_spec args a ds st = Ret (kept, ds', st') ->
     exists l', dispatch_wrapped args (l, ds, st) = Ret (l', ds', st') /\ refines l' kept) /\
  (Forall (counts_ok ds) a -> NoDup (omap data_of a) ->
   (exists l' ds', dispatch_all argss (l, ds, st) = Ret (l', ds', rounds ds a 0 argss st) /\
      refines l' (filter (fun x => alive_at ds (length argss) x = true) a)) /\
   (- 2 ^ 31 < n -> let '(h, l', ds') := counter_append cb n l ds in
    exists d, refines l' (a ++ [(h, Counter d)]) /\ Forall (counts_ok ds') (a ++ [(h, Counter d)]) /\
      NoDup (omap data_of (a ++ [(h, Counter d)])) /\
      forall j, alive_at ds' j (h, Counter d) = (j =? 0)%nat || (Z.of_nat j <? n))).
Proof.
  intros Href. split; [intros kept ds' st' Hh E; by eapply dispatch_wrapped_spec|]. intros Hok Hnd.
  split; [by apply dispatch_all_counted|]. intros Hn.
  destruct (counter_append cb n l ds) as [[h l'] ds'] eqn:E.
  destruct (counter_append_ok cb n l ds a h l' ds' Href Hok Hnd Hn E) as (d & H1 & H2 & H3 & H4 & _).
  exists d. split_and!; try done. intros j. unfold alive_at. simpl. by rewrite H4.
Qed.
End self_remover.

(** ** A plain listener between two counted ones *)

Definition self_start : clist (@wrapped Z) * @datas Z Z :=
  let '(_, l1, ds1) := counter_append (Cond := Z) 10 1 CallbackListBase (mk_datas ∅ ∅) in
  let '(_, l2) := append (Plain 20) l1 in
  let '(_, l3, ds3) := counter_append (Cond := Z) 30 2 l2 ds1 in (l3, ds3).
Definition self_listeners : list (positive * @wrapped Z) :=
  [(1%positive, Counter 0); (2%positive, Plain 20); (3%positive, Counter 1)].
Lemma self_start_refines : refines self_start.1 self_listeners.
Proof.
  pose proof (append_refines (C := @wrapped Z) (Counter 0) CallbackListBase [] _ _ (conj rep_new eq_refl) eq_refl) as [_ H1].
  pose proof (append_refines (Plain 20) _ _ _ _ H1 eq_refl) as [_ H2].
  exact (proj2 (append_refines (Counter 1) _ _ _ _ H2 eq_refl)).
Qed.
Lemma self_removing_listeners_witness :
  exists l' ds', dispatch_all record (fun _ _ st => (false, st)) [100; 200; 300] (self_start.1, self_start.2, [])
    = Ret (l', ds', [(10, 100); (20, 100); (30, 100); (20, 200); (30, 200); (20, 300)]) /\
    refines l' [(2%positive, Plain 20)].
Proof.
  destruct (self_removing_listeners record (fun (_ : Z) _ st => (false, st)) self_start.1 self_listeners self_start.2
    [] 100 [100; 200; 300] 40 1 self_start_refines) as [_ Hc].
  destruct Hc as [(l' & ds' & E & Hl) _].
  - repeat (apply list.Forall_cons; split); try done; (eexists; split; [reflexivity|by vm_compute]).
  - apply (bool_decide_unpack _). by vm_compute.
  - exists l', ds'. split; [exact E|exact Hl].
Defined.
