(* ===== verification/HeterList.v ===== *)
(** * HeterList
    The heterogeneous containers of [3rd/include/eventpp]: the search for a
    prototype ([internal/hetercallbacklist_i.h]), [HeterCallbackListBase]
    ([hetercallbacklist.h]), one [CallbackList] per prototype, and
    [HeterEventDispatcherBase] ([hetereventdispatcher.h]).

    What the compiler decides about types is a parameter: [can_call] is
    [CanInvoke] of a callable with the arguments of a prototype, [accepts] is
    [CanInvoke] of a prototype with arguments of given types. A program a
    [static_assert] rejects throws. *)

From Stdlib Require Import ZArith Lia.
From stdpp Require Import base numbers list option gmap fin_maps strings.
From S2P Require Import Prelude CallbackList CallbackListFacts CallbackDispatch EventQueue EventQueueFacts CallbackCopy.

(** ** [internal/hetercallbacklist_i.h] *)

Section prototypes.
Context {P K T : Type}.
Variable can_call : K -> P -> bool.
Variable accepts : P -> T -> bool.

(** [FindPrototypeByCallableFromIndex<N, PrototypeList, Callable, M>]: the
    index counts from [N] and stays below [M]; [None] is the index -1 *)
Fixpoint FindPrototypeByCallableFromIndex (N M : nat) (protos : list P) (c : K) : option (nat * P) :=
  match protos with
  | [] => None
  | p :: others =>
      if (N <? M)%nat then
        if can_call c p then Some (N, p) else FindPrototypeByCallableFromIndex (S N) M others c
      else None
  end.
Definition FindPrototypeByCallable (protos : list P) (c : K) : option (nat * P) :=
  FindPrototypeByCallableFromIndex 0 (length protos) protos c.

(** [FindPrototypeByArgsFromIndex<N, PrototypeList, InArgs...>] *)
Fixpoint FindPrototypeByArgsFromIndex (N : nat) (protos : list P) (t : T) : option (nat * P) :=
  match protos with
  | [] => None
  | p :: others => if accepts p t then Some (N, p) else FindPrototypeByArgsFromIndex (S N) others t
  end.
Definition FindPrototypeByArgs (protos : list P) (t : T) : option (nat * P) :=
  FindPrototypeByArgsFromIndex 0 protos t.

(** a program that does not compile *)
Definition static_assert {X} (o : option X) : outcome X :=
  match o with Some x => Ret x | None => Throw "Can't find invoker for the given argument types." end.

Lemma find_args_from N protos t i p :
  FindPrototypeByArgsFromIndex N protos t = Some (i, p) ->
  (N <= i)%nat /\ protos !! (i - N)%nat = Some p /\ accepts p t = true.
Proof.
  revert N. induction protos as [|q protos IH]; intros N Hf; [done|]. simpl in Hf.
  destruct (accepts q t) eqn:Ea.
  - injection Hf as <- <-. by rewrite Nat.sub_diag.
  - destruct (IH (S N) Hf) as (H1 & H2 & H3). split_and!; [lia| |done].
    by replace (i - N)%nat with (S (i - S N)) by lia.
Qed.
Lemma find_args protos t i p :
  FindPrototypeByArgs protos t = Some (i, p) -> (i < length protos)%nat /\ protos !! i = Some p.
Proof.
  intros Hf. apply find_args_from in Hf as (_ & Hp & _). rewrite Nat.sub_0_r in Hp.
  split; [by eapply lookup_lt_Some|done].
Qed.
Lemma find_callable_from N M protos c i p :
  FindPrototypeByCallableFromIndex N M protos c = Some (i, p) ->
  (N <= i < M)%nat /\ protos !! (i - N)%nat = Some p /\ can_call c p = true.
Proof.
  revert N. induction protos as [|q protos IH]; intros N Hf; [done|]. simpl in Hf.
  destruct (Nat.ltb_spec N M); [|done]. destruct (can_call c q) eqn:Ec.
  - injection Hf as <- <-. rewrite Nat.sub_diag. split; [lia|done].
  - destruct (IH (S N) Hf) as (H1 & H2 & H3). split_and!; [lia|lia| |done].
    by replace (i - N)%nat with (S (i - S N)) by lia.
Qed.
Lemma find_callable protos c i p :
  FindPrototypeByCallable protos c = Some (i, p) -> (i < length protos)%nat /\ protos !! i = Some p.
Proof.
  intros Hf. apply find_callable_from in Hf as (_ & Hp & _). rewrite Nat.sub_0_r in Hp.
  split; [by eapply lookup_lt_Some|done].
Qed.
(** the first prototype found does not depend on where the index starts *)
Lemma find_callable_shift N N' M M' protos c i p i' p' :
  FindPrototypeByCallableFromIndex N M protos c = Some (i, p) ->
  FindPrototypeByCallableFromIndex N' M' protos c = Some (i', p') -> p' = p.
Proof.
  revert N N'. induction protos as [|q protos IH]; intros N N' H1 H2; [done|]. simpl in *.
  destruct (N <? M)%nat; [|done]. destruct (N' <? M')%nat; [|done].
  destruct (can_call c q); [congruence|]. by eapply IH.
Qed.
End prototypes.

(** ** [HeterCallbackListBase] *)

(** [HeterHandle_] *)
Record HeterHandle := mk_hh { index : nat; homoHandle : positive }.

Section heter_list.
Context {P K T A C St : Type}.
Variable can_call : K -> P -> bool.
Variable accepts : P -> T -> bool.
Variable run_callback : C -> A -> St -> St.
Variable protos : list P.

(** [callbackListList]: the lists are made when first used *)
Notation hlist := (list (option (clist C))).
Definition HeterCallbackListBase : hlist := replicate (length protos) None.
Definition hlist_at (i : nat) (l : hlist) : clist C := default CallbackListBase (l !! i ≫= id).
(** [doGetCallbackList<PrototypeInfo>()] *)
Definition doGetCallbackList (i : nat) (l : hlist) : clist C * hlist :=
  match l !! i with
  | Some (Some cl) => (cl, l)
  | _ => (CallbackListBase, <[i := Some CallbackListBase]> l)
  end.

Definition heter_empty (l : hlist) : bool :=
  forallb (fun o : option (clist C) => match o with Some cl => empty cl | None => true end) l.
Definition heter_append (c : K) (cb : C) (l : hlist) : outcome (HeterHandle * hlist) :=
  '(i, _) ← static_assert (FindPrototypeByCallable can_call protos c);
  let '(cl, l1) := doGetCallbackList i l in
  let '(h, cl') := append cb cl in
  Ret (mk_hh i h, <[i := Some cl']> l1).
Definition heter_prepend (c : K) (cb : C) (l : hlist) : outcome (HeterHandle * hlist) :=
  '(i, _) ← static_assert (FindPrototypeByCallable can_call protos c);
  let '(cl, l1) := doGetCallbackList i l in
  let '(h, cl') := prepend cb cl in
  Ret (mk_hh i h, <[i := Some cl']> l1).
Definition heter_insert (c : K) (cb : C) (before : HeterHandle) (l : hlist) : outcome (HeterHandle * hlist) :=
  '(i, _) ← static_assert (FindPrototypeByCallable can_call protos c);
  let '(cl, l1) := doGetCallbackList i l in
  let '(h, cl') := if negb (index before =? i)%nat then append cb cl else insert_cb [] cb (homoHandle before) cl in
  Ret (mk_hh i h, <[i := Some cl']> l1).
(** [callbackListList[handle.index]] is not checked *)
Definition heter_remove (handle : HeterHandle) (l : hlist) : outcome (bool * hlist) :=
  o ← deref "callbackListList[handle.index]" (l !! index handle);
  match o with
  | Some cl => let '(b, cl') := remove [] (homoHandle handle) cl in Ret (b, <[index handle := Some cl']> l)
  | None => Ret (false, l)
  end.
(** [forEach<Prototype>(func)], [forEachIf<Prototype>(func)] *)
Definition heter_forEach (c : K) (func : C -> St -> St) (l : hlist) (st : St) : outcome (hlist * St) :=
  '(i, _) ← static_assert (FindPrototypeByCallable can_call protos c);
  let '(cl, l1) := doGetCallbackList i l in
  Ret (l1, forEach func cl st).
Definition heter_forEachIf (c : K) (func : C -> St -> bool * St) (l : hlist) (st : St) : outcome (bool * hlist * St) :=
  '(i, _) ← static_assert (FindPrototypeByCallable can_call protos c);
  let '(cl, l1) := doGetCallbackList i l in
  let '(b, st') := forEachIf func cl st in
  Ret (b, l1, st').
(** [operator()(args...)] with arguments of the types [t] *)
Definition heter_call (t : T) (args : A) (l : hlist) (st : St) : outcome (hlist * St) :=
  '(i, _) ← static_assert (FindPrototypeByArgs accepts protos t);
  let '(cl, l1) := doGetCallbackList i l in
  Ret (l1, forEach (fun cb st => run_callback cb args st) cl st).
(** copies: [doClone] of every list there is *)
Definition HeterCallbackList_copy (other : hlist) : hlist := map (option_map CallbackListBase_copy) other.
Definition heter_swap (l other : hlist) : hlist * hlist := (other, l).
(** [operator=]; [self] when the two are one object *)
Definition heter_copy_assign (self : bool) (other l : hlist) : hlist :=
  if self then l else (heter_swap l (HeterCallbackList_copy other)).1.
(** a move leaves null pointers: the list moved to, and the other *)
Definition HeterCallbackList_move (other : hlist) : hlist * hlist := (other, replicate (length other) None).
Definition heter_move_assign (self : bool) (other l : hlist) : hlist * hlist :=
  if self then (l, other) else HeterCallbackList_move other.

(** *** Refinement: one list of listeners per prototype *)

Definition hrefines (l : hlist) (m : nat -> list (positive * C)) : Prop :=
  length l = length protos /\ forall i, (i < length protos)%nat -> refines (hlist_at i l) (m i).
Definition upd_at (i : nat) (a : list (positive * C)) (m : nat -> list (positive * C)) (j : nat) :
    list (positive * C) := if decide (j = i) then a else m j.

Lemma hrefines_new : hrefines HeterCallbackListBase (fun _ => []).
Proof.
  split; [apply length_replicate|]. intros i Hi. unfold hlist_at.
  replace (HeterCallbackListBase !! i) with (Some (@None (clist C))) by (symmetry; by apply lookup_replicate_2).
  by split; [apply rep_new|].
Qed.
Lemma hlist_at_insert (l : hlist) i j cl :
  (i < length l)%nat -> hlist_at j (<[i := Some cl]> l) = if decide (j = i) then cl else hlist_at j l.
Proof.
  intros Hi. unfold hlist_at. case_decide as D.
  - subst j. by rewrite list_lookup_insert_eq.
  - by rewrite list_lookup_insert_ne.
Qed.
Lemma get_list_spec l m i :
  hrefines l m -> (i < length protos)%nat ->
  exists l1, doGetCallbackList i l = (hlist_at i l, l1) /\ hrefines l1 m.
Proof.
  intros [Hl Hm] Hi. unfold doGetCallbackList, hlist_at. destruct (l !! i) as [[cl|]|] eqn:E; simpl.
  - by exists l.
  - eexists. split; [done|]. split; [by rewrite length_insert|]. intros j Hj.
    rewrite hlist_at_insert by lia. case_decide as D; [|by apply Hm]. subst j. specialize (Hm i Hi).
    unfold hlist_at in Hm. by rewrite E in Hm.
  - apply lookup_ge_None in E. lia.
Qed.
Lemma put_list_spec l m i cl a :
  hrefines l m -> (i < length protos)%nat -> refines cl a -> hrefines (<[i := Some cl]> l) (upd_at i a m).
Proof.
  intros [Hl Hm] Hi Hc. split; [by rewrite length_insert|]. intros j Hj. rewrite hlist_at_insert by lia.
  unfold upd_at. case_decide; [done|by apply Hm].
Qed.

Lemma heter_append_spec c cb l m i p :
  hrefines l m -> FindPrototypeByCallable can_call protos c = Some (i, p) ->
  exists h l', heter_append c cb l = Ret (mk_hh i h, l') /\ h ∉ (m i).*1 /\ hrefines l' (upd_at i (m i ++ [(h, cb)]) m).
Proof.
  intros Hm Hf. pose proof (find_callable _ _ _ _ _ Hf) as [Hi _]. unfold heter_append. rewrite Hf.
  cbn [static_assert mbind outcome_bind]. destruct (get_list_spec l m i Hm Hi) as (l1 & -> & Hm1).
  destruct (append cb (hlist_at i l)) as [h cl'] eqn:Ea.
  destruct (append_refines cb _ _ h cl' (proj2 Hm i Hi) Ea) as [Hn Hr]. eexists _, _. split; [done|].
  split; [done|]. by apply put_list_spec.
Qed.
Lemma heter_prepend_spec c cb l m i p :
  hrefines l m -> FindPrototypeByCallable can_call protos c = Some (i, p) ->
  exists h l', heter_prepend c cb l = Ret (mk_hh i h, l') /\ h ∉ (m i).*1 /\ hrefines l' (upd_at i ((h, cb) :: m i) m).
Proof.
  intros Hm Hf. pose proof (find_callable _ _ _ _ _ Hf) as [Hi _]. unfold heter_prepend. rewrite Hf.
  cbn [static_assert mbind outcome_bind]. destruct (get_list_spec l m i Hm Hi) as (l1 & -> & Hm1).
  destruct (prepend cb (hlist_at i l)) as [h cl'] eqn:Ea.
  destruct (prepend_refines cb _ _ h cl' (proj2 Hm i Hi) Ea) as [Hn Hr]. eexists _, _. split; [done|].
  split; [done|]. by apply put_list_spec.
Qed.
(** before a listener of the same prototype, or else at the end *)
Lemma heter_insert_spec c cb before l m i p :
  hrefines l m -> FindPrototypeByCallable can_call protos c = Some (i, p) ->
  (index before = i -> exists a1 b a2, m i = a1 ++ (homoHandle before, b) :: a2) ->
  exists h l' a, heter_insert c cb before l = Ret (mk_hh i h, l') /\ h ∉ (m i).*1 /\ hrefines l' (upd_at i a m) /\
    if decide (index before = i)
    then exists a1 b a2, m i = a1 ++ (homoHandle before, b) :: a2 /\ a = a1 ++ (h, cb) :: (homoHandle before, b) :: a2
    else a = m i ++ [(h, cb)].
Proof.
  intros Hm Hf Hb. pose proof (find_callable _ _ _ _ _ Hf) as [Hi _]. unfold heter_insert. rewrite Hf.
  cbn [static_assert mbind outcome_bind]. destruct (get_list_spec l m i Hm Hi) as (l1 & -> & Hm1).
  pose proof (proj2 Hm i Hi) as Hr. case_decide as D.
  - rewrite (proj2 (Nat.eqb_eq _ _) D). cbn [negb]. destruct (Hb D) as (a1 & b & a2 & Ea). rewrite Ea in Hr.
    destruct (insert_cb [] cb (homoHandle before) (hlist_at i l)) as [h cl'] eqn:Ei.
    destruct (insert_refines cb _ a1 _ b a2 h cl' Hr Ei) as [Hn Hr']. eexists h, _, _. split; [done|].
    rewrite Ea. split; [done|]. split; [by apply put_list_spec|]. by exists a1, b, a2.
  - rewrite (proj2 (Nat.eqb_neq _ _) D). cbn [negb]. destruct (append cb (hlist_at i l)) as [h cl'] eqn:Ei.
    destruct (append_refines cb _ _ h cl' Hr Ei) as [Hn Hr']. eexists h, _, _. split; [done|].
    split; [done|]. split; [by apply put_list_spec|done].
Qed.
Lemma heter_remove_spec l m i h a1 cb a2 :
  hrefines l m -> (i < length protos)%nat -> m i = a1 ++ (h, cb) :: a2 ->
  exists l', heter_remove (mk_hh i h) l = Ret (true, l') /\ hrefines l' (upd_at i (a1 ++ a2) m).
Proof.
  intros Hm Hi Ea. pose proof (proj2 Hm i Hi) as Hr. rewrite Ea in Hr. unfold heter_remove. cbn [index homoHandle].
  destruct (lookup_lt_is_Some_2 l i) as [o Ho]; [by rewrite (proj1 Hm)|]. rewrite Ho. cbn [deref mbind outcome_bind].
  unfold hlist_at in Hr. rewrite Ho in Hr. destruct o as [cl|]; simpl in Hr.
  - destruct (remove_refines [] cl a1 h cb a2 Hr) as [Hb Hr']. destruct (remove [] h cl) as [b cl']. simpl in *. subst b.
    eexists. split; [done|]. by apply put_list_spec.
  - destruct Hr as [[_ _ Hh _ _ _] _]. simpl in Hh. by destruct a1.
Qed.
Lemma heter_call_spec t args l m i p st :
  hrefines l m -> FindPrototypeByArgs accepts protos t = Some (i, p) ->
  exists l', heter_call t args l st = Ret (l', fold_left (fun st cb => run_callback cb args st) (m i).*2 st) /\
    hrefines l' m.
Proof.
  intros Hm Hf. pose proof (find_args _ _ _ _ _ Hf) as [Hi _]. unfold heter_call. rewrite Hf.
  cbn [static_assert mbind outcome_bind]. destruct (get_list_spec l m i Hm Hi) as (l1 & -> & Hm1).
  exists l1. split; [|done]. do 2 f_equal. destruct (proj2 Hm i Hi) as [Hr Hc].
  unfold forEach, doForEachIf. pose proof Hr as [Hs _ -> _ Hct _].
  by erewrite (forEach_loop_spec (fun cb st => run_callback cb args st));
    [|exact Hs|exact Hct|by eapply rep_length|exact Hc].
Qed.
(** a copy has the same callbacks, and calls them alike *)
Lemma heter_copy_spec l m :
  hrefines l m -> exists m', hrefines (HeterCallbackList_copy l) m' /\
    forall i, (i < length protos)%nat -> (m' i).*2 = (m i).*2.
Proof.
  intros [Hl Hm].
  assert (Hex : forall i, (i < length protos)%nat ->
    exists a, refines (hlist_at i (HeterCallbackList_copy l)) a /\ a.*2 = (m i).*2).
  { intros i Hi. specialize (Hm i Hi). unfold hlist_at, HeterCallbackList_copy in *. rewrite list_lookup_fmap.
    destruct (l !! i) as [[cl|]|]; simpl in *; [|by exists (m i)..].
    destruct (copy_refines cl (m i) Hm) as (M & Hlen & Hr). exists (zip M (m i).*2). split; [done|].
    apply snd_zip. rewrite length_fmap. lia. }
  exists (fun i => zip (to_list (hlist_at i (HeterCallbackList_copy l))) (m i).*2).
  split; [split; [unfold HeterCallbackList_copy; by rewrite length_fmap|]|]; intros i Hi;
    destruct (Hex i Hi) as (a & Ha & <-); rewrite (to_list_rep _ _ (proj1 Ha)), zip_fst_snd; done.
Qed.
Lemma heter_copy_call t args l m i p st :
  hrefines l m -> FindPrototypeByArgs accepts protos t = Some (i, p) ->
  snd <$> heter_call t args (HeterCallbackList_copy l) st = snd <$> heter_call t args l st.
Proof.
  intros Hm Hf. destruct (heter_copy_spec l m Hm) as (m' & Hm' & E).
  destruct (heter_call_spec t args l m i p st Hm Hf) as (l1 & -> & _).
  destruct (heter_call_spec t args _ m' i p st Hm' Hf) as (l2 & -> & _).
  apply find_args in Hf as [Hi _]. simpl. by rewrite (E i Hi).
Qed.
End heter_list.
