(* ===== verification/HeterQueue.v ===== *)
(** * HeterQueue
    [HeterEventDispatcherBase] ([3rd/include/eventpp/hetereventdispatcher.h]) and
    [HeterEventQueueBase] ([hetereventqueue.h]), with the default policies and
    without mixins, while one thread uses them. A queued item is stored under
    the type of its prototype's argument tuple; reading the buffer under another
    type is undefined behaviour. *)

From Stdlib Require Import ZArith Lia.
From stdpp Require Import base numbers list option gmap fin_maps strings.
From S2P Require Import Prelude CallbackList CallbackListFacts EventQueue EventQueueFacts CallbackCopy HeterList.

Section heter_queue.
Context {E : Type} `{Countable E} {P K T A C St : Type} `{EqDecision T}.
Variable can_call : K -> P -> bool.
Variable accepts : P -> T -> bool.
(** the types of the elements of a prototype's [const ArgsTuple] *)
Variable tuple_of : P -> T.
Variable run_callback : C -> A -> St -> St.
Variable protos : list P.

(** ** [HeterEventDispatcherBase] *)

Notation hdispatcher := (gmap E (list (option (clist C)))).
(** [eventCallbackListMap[event]] *)
Definition hlist_of (e : E) (d : hdispatcher) : list (option (clist C)) :=
  default (HeterCallbackListBase protos) (d !! e).
Definition heter_appendListener (e : E) (c : K) (cb : C) (d : hdispatcher) : outcome (HeterHandle * hdispatcher) :=
  '(h, l) ← heter_append can_call protos c cb (hlist_of e d); Ret (h, <[e := l]> d).
Definition heter_prependListener (e : E) (c : K) (cb : C) (d : hdispatcher) : outcome (HeterHandle * hdispatcher) :=
  '(h, l) ← heter_prepend can_call protos c cb (hlist_of e d); Ret (h, <[e := l]> d).
Definition heter_insertListener (e : E) (c : K) (cb : C) (before : HeterHandle) (d : hdispatcher)
    : outcome (HeterHandle * hdispatcher) :=
  '(h, l) ← heter_insert can_call protos c cb before (hlist_of e d); Ret (h, <[e := l]> d).
Definition heter_removeListener (e : E) (handle : HeterHandle) (d : hdispatcher) : outcome (bool * hdispatcher) :=
  match d !! e with
  | Some l => '(b, l') ← heter_remove handle l; Ret (b, <[e := l']> d)
  | None => Ret (false, d)
  end.
Definition heter_hasAnyListener (e : E) (d : hdispatcher) : bool :=
  match d !! e with Some l => negb (heter_empty l) | None => false end.
(** [directDispatch(e, args...)] with arguments of the types [t] *)
Definition heter_directDispatch (e : E) (t : T) (args : A) (d : hdispatcher) (st : St) : outcome (hdispatcher * St) :=
  _ ← static_assert (FindPrototypeByArgs accepts protos t);
  match d !! e with
  | Some l => '(l', st') ← heter_call accepts run_callback protos t args l st; Ret (<[e := l']> d, st')
  | None => Ret (d, st)
  end.

(** [dispatch(first, args...)] with the default [getEvent] *)
Definition heter_dispatch (first : E) (t : T) (args : A) (d : hdispatcher) (st : St) : outcome (hdispatcher * St) :=
  heter_directDispatch first t args d st.
(** [forEach<Prototype>(event, func)], [forEachIf<Prototype>(event, func)] *)
Definition heter_forEachListener (e : E) (c : K) (func : C -> St -> St) (d : hdispatcher) (st : St)
    : outcome (hdispatcher * St) :=
  _ ← static_assert (FindPrototypeByCallable can_call protos c);
  match d !! e with
  | Some l => '(l', st') ← heter_forEach can_call protos c func l st; Ret (<[e := l']> d, st')
  | None => Ret (d, st)
  end.
Definition heter_forEachIfListener (e : E) (c : K) (func : C -> St -> bool * St) (d : hdispatcher) (st : St)
    : outcome (bool * hdispatcher * St) :=
  _ ← static_assert (FindPrototypeByCallable can_call protos c);
  match d !! e with
  | Some l => '(b, l', st') ← heter_forEachIf can_call protos c func l st; Ret (b, <[e := l']> d, st')
  | None => Ret (true, d, st)
  end.
Definition HeterEventDispatcherBase_copy (other : hdispatcher) : hdispatcher := HeterCallbackList_copy <$> other.
Definition HeterEventDispatcherBase_move (other : hdispatcher) : hdispatcher * hdispatcher := (other, ∅).
Definition heter_dispatcher_swap (d other : hdispatcher) : hdispatcher * hdispatcher := (other, d).

(** ** [HeterEventQueueBase] *)

(** [QueuedItem<ArgsTuple>]: [proto] is the prototype whose [ArgsTuple] is
    stored, and with it the [dispatcher] *)
Record QueuedItem := mk_qi { callableIndex : nat; event : E; proto : P; arguments : A }.
(** [BufferedUnion]; [None] when [dtor] is null *)
Definition union_set (x : QueuedItem) (i : option QueuedItem) : outcome (option QueuedItem) :=
  match i with None => Ret (Some x) | Some _ => UB "assert(dtor == nullptr)" end.
Definition union_base (i : option QueuedItem) : outcome QueuedItem := deref "assert(dtor != nullptr)" i.
(** [get<QueuedItem<ArgsTuple>>()] for the [ArgsTuple] of [p] *)
Definition union_get (p : P) (i : option QueuedItem) : outcome QueuedItem :=
  x ← union_base i;
  if decide (tuple_of (proto x) = tuple_of p) then Ret x else UB "object of another type".
Definition union_clear (i : option QueuedItem) : outcome (option QueuedItem) :=
  match i with Some _ => Ret None | None => UB "assert(dtor != nullptr)" end.

Record hqueue := mk_hq {
  hlisteners : hdispatcher;
  hqueueList : list (option QueuedItem);
  hfreeList : list (option QueuedItem);
  hqueueEmptyCounter : Z;
  hqueueNotifyCounter : Z;
}.
Definition HeterEventQueueBase : hqueue := mk_hq ∅ [] [] 0 0.
Definition set_hl (d : hdispatcher) (q : hqueue) : hqueue :=
  mk_hq d (hqueueList q) (hfreeList q) (hqueueEmptyCounter q) (hqueueNotifyCounter q).
Definition set_hq (l : list (option QueuedItem)) (q : hqueue) : hqueue :=
  mk_hq (hlisteners q) l (hfreeList q) (hqueueEmptyCounter q) (hqueueNotifyCounter q).
Definition set_hf (l : list (option QueuedItem)) (q : hqueue) : hqueue :=
  mk_hq (hlisteners q) (hqueueList q) l (hqueueEmptyCounter q) (hqueueNotifyCounter q).
(** [CounterGuard] *)
Definition hguard (n : Z) (q : hqueue) : hqueue :=
  mk_hq (hlisteners q) (hqueueList q) (hfreeList q) (hqueueEmptyCounter q + n) (hqueueNotifyCounter q).

Definition heter_emptyQueue (q : hqueue) : bool :=
  bool_decide (hqueueList q = []) && (hqueueEmptyCounter q =? 0).
Definition heter_doCanProcess (q : hqueue) : bool :=
  negb (heter_emptyQueue q) && (hqueueNotifyCounter q =? 0).

(** [doEnqueueItem] *)
Definition doEnqueueItem (x : QueuedItem) (q : hqueue) : outcome hqueue :=
  let '(it, q1) := match hfreeList q with i :: rest => (i, set_hf rest q) | [] => (None, q) end in
  it' ← union_set x it;
  Ret (set_hq (hqueueList q1 ++ [it']) q1).
(** [enqueue(event, args...)] with arguments of the types [t] *)
Definition heter_enqueue (e : E) (t : T) (args : A) (q : hqueue) : outcome (bool * hqueue) :=
  '(i, p) ← static_assert (FindPrototypeByArgs accepts protos t);
  q' ← doEnqueueItem (mk_qi i e p args) q;
  Ret (heter_doCanProcess q', q').

(** [doDispatchItem]: the types are those of the stored tuple *)
Definition heter_dispatchItem (x : QueuedItem) (q : hqueue) (st : St) : outcome (hqueue * St) :=
  '(d, st') ← heter_directDispatch (event x) (tuple_of (proto x)) (arguments x) (hlisteners q) st;
  Ret (set_hl d q, st').

Fixpoint heter_clear (l : list (option QueuedItem)) : outcome (list (option QueuedItem)) :=
  match l with
  | [] => Ret []
  | i :: l => i' ← union_clear i; l' ← heter_clear l; Ret (i' :: l')
  end.
Definition heter_clearEvents (q : hqueue) : outcome hqueue :=
  if bool_decide (hqueueList q = []) then Ret q
  else
    cleared ← heter_clear (hqueueList q);
    Ret (set_hf (hfreeList q ++ cleared) (set_hq [] q)).

Fixpoint heter_process_loop (temp : list (option QueuedItem)) (q : hqueue) (st : St)
    : outcome (list (option QueuedItem) * hqueue * St) :=
  match temp with
  | [] => Ret ([], q, st)
  | i :: temp =>
      x ← union_base i;
      '(q1, st1) ← heter_dispatchItem x q st;
      i' ← union_clear i;
      '(cleared, q2, st2) ← heter_process_loop temp q1 st1;
      Ret (i' :: cleared, q2, st2)
  end.
Definition heter_process (q : hqueue) (st : St) : outcome (bool * hqueue * St) :=
  if bool_decide (hqueueList q = []) then Ret (false, q, st)
  else
    '(cleared, q1, st1) ← heter_process_loop (hqueueList q) (set_hq [] (hguard 1 q)) st;
    Ret (true, hguard (-1) (set_hf (hfreeList q1 ++ cleared) q1), st1).
Definition heter_processOne (q : hqueue) (st : St) : outcome (bool * hqueue * St) :=
  match hqueueList q with
  | [] => Ret (false, q, st)
  | i :: rest =>
      x ← union_base i;
      '(q1, st1) ← heter_dispatchItem x (set_hq rest (hguard 1 q)) st;
      i' ← union_clear i;
      Ret (true, hguard (-1) (set_hf (hfreeList q1 ++ [i']) q1), st1)
  end.

(** one pass of [doProcessIf<PrototypeInfo>] over [tempList]: each item is read
    as an item of the prototype [p] before its index is compared *)
Fixpoint processIf_pass (func : A -> bool) (i : nat) (p : P) (temp : list (option QueuedItem)) (q : hqueue) (st : St)
    : outcome (list (option QueuedItem) * list (option QueuedItem) * hqueue * St) :=
  match temp with
  | [] => Ret ([], [], q, st)
  | it :: temp =>
      x ← union_get p it;
      if negb (callableIndex x =? i)%nat then
        '(kept, idle, q2, st2) ← processIf_pass func i p temp q st;
        Ret (it :: kept, idle, q2, st2)
      else if func (arguments x) then
        '(q1, st1) ← heter_dispatchItem x q st;
        it' ← union_clear it;
        '(kept, idle, q2, st2) ← processIf_pass func i p temp q1 st1;
        Ret (kept, it' :: idle, q2, st2)
      else
        '(kept, idle, q2, st2) ← processIf_pass func i p temp q st;
        Ret (it :: kept, idle, q2, st2)
  end.
(** [doProcessIf<PrototypeInfo>]: the next [PrototypeInfo] counts from
    [index + 1] but searches the whole list of prototypes again *)
Fixpoint doProcessIf (fuel : nat) (c : K) (func : A -> bool) (info : option (nat * P)) (q : hqueue) (st : St)
    : outcome (bool * hqueue * St) :=
  match fuel with
  | O => Blocked
  | S fuel =>
      match info with
      | None => Ret (false, q, st)
      | Some (i, p) =>
          '(kept, idle, q1, st1) ← processIf_pass func i p (hqueueList q) (set_hq [] (hguard 1 q)) st;
          let q2 := set_hf (hfreeList q1 ++ idle) (set_hq (kept ++ hqueueList q1) q1) in
          '(b, q3, st3) ←
            (if bool_decide (idle = []) then
               doProcessIf fuel c func
                 (FindPrototypeByCallableFromIndex can_call (S i) (length protos) protos c) q2 st1
             else Ret (true, q2, st1));
          Ret (b, hguard (-1) q3, st3)
      end
  end.
(** [processIf(func)] for a [func] of type [c] *)
Definition heter_processIf (c : K) (func : A -> bool) (q : hqueue) (st : St) : outcome (bool * hqueue * St) :=
  if bool_decide (hqueueList q = []) then Ret (false, q, st)
  else doProcessIf (S (length protos)) c func (FindPrototypeByCallable can_call protos c) q st.

(** copying takes the listeners only; the constructor leaves the two counters
    uninitialised, and assignment leaves the target's events alone *)
Definition HeterEventQueueBase_copy (empty_counter notify_counter : Z) (other : hqueue) : hqueue :=
  mk_hq (HeterEventDispatcherBase_copy (hlisteners other)) [] [] empty_counter notify_counter.
Definition HeterEventQueueBase_assign (other q : hqueue) : hqueue :=
  set_hl (HeterEventDispatcherBase_copy (hlisteners other)) q.
(** moving takes the listeners away from [other] *)
Definition HeterEventQueueBase_move (empty_counter notify_counter : Z) (other : hqueue) : hqueue * hqueue :=
  let '(d, rest) := HeterEventDispatcherBase_move (hlisteners other) in
  (mk_hq d [] [] empty_counter notify_counter, set_hl rest other).
Definition HeterEventQueueBase_move_assign (other q : hqueue) : hqueue * hqueue :=
  let '(d, rest) := HeterEventDispatcherBase_move (hlisteners other) in
  (set_hl d q, set_hl rest other).
(** [wait()] returns when [doCanProcess()] holds; [waitFor] reports it *)
Definition heter_wait (q : hqueue) : outcome unit := if heter_doCanProcess q then Ret tt else Blocked.
Definition heter_waitFor (q : hqueue) : bool := heter_doCanProcess q.

(** ** Specifications *)

(** the listeners of each event and prototype, in order *)
Definition hlistening (d : hdispatcher) (m : E -> nat -> list (positive * C)) : Prop :=
  forall e, hrefines protos (hlist_of e d) (m e).
(** the queue holds [xs]; queued buffers are full, free ones empty *)
Definition hholds (q : hqueue) (xs : list QueuedItem) : Prop :=
  hqueueList q = Some <$> xs /\ Forall (fun i => i = None) (hfreeList q).
(** the prototype the stored tuple is dispatched to *)
Definition target (x : QueuedItem) : option nat := fst <$> FindPrototypeByArgs accepts protos (tuple_of (proto x)).
Definition dispatchable (x : QueuedItem) : Prop := is_Some (target x).
(** the calls of the listeners *)
Definition hdispatches (m : E -> nat -> list (positive * C)) (xs : list QueuedItem) (st : St) : St :=
  fold_left (fun st x => fold_left (fun st cb => run_callback cb (arguments x) st)
    (default [] ((fun i => (m (event x) i).*2) <$> target x)) st) xs st.

Lemma hlistening_put d m e l :
  hlistening d m -> hrefines protos l (m e) -> hlistening (<[e := l]> d) m.
Proof.
  intros Hm Hl e'. unfold hlist_of. destruct (decide (e' = e)) as [->|Hne].
  - by rewrite lookup_insert_eq.
  - rewrite lookup_insert_ne by done. apply Hm.
Qed.
Lemma dispatchItem_spec x q m st :
  hlistening (hlisteners q) m -> dispatchable x ->
  exists d, heter_dispatchItem x q st = Ret (set_hl d q, hdispatches m [x] st) /\ hlistening d m.
Proof.
  intros Hm [j Hj]. unfold target in Hj. destruct (FindPrototypeByArgs accepts protos (tuple_of (proto x))) as [[j' p]|] eqn:Ef;
    [|done]. injection Hj as ->. unfold heter_dispatchItem, heter_directDispatch, hdispatches, target. rewrite Ef.
  cbn [static_assert mbind outcome_bind]. cbn [fold_left]. rewrite ?Ef. simpl default.
  destruct (hlisteners q !! event x) as [l|] eqn:El.
  - pose proof (Hm (event x)) as He. unfold hlist_of in He. rewrite El in He.
    destruct (heter_call_spec accepts run_callback protos _ (arguments x) l (m (event x)) j p st He Ef) as (l' & -> & Hl').
    cbn [mbind outcome_bind]. eexists. split; [done|]. by apply hlistening_put.
  - exists (hlisteners q). cbn [mbind outcome_bind]. split; [|done]. do 2 f_equal.
    pose proof (Hm (event x)) as He. unfold hlist_of in He. rewrite El in He. simpl default in He.
    pose proof (find_args _ _ _ _ _ Ef) as [Hj _].
    destruct (proj2 He j Hj) as [[_ _ Hh _ _ _] _].
    destruct (proj2 (hrefines_new (C := C) protos) j Hj) as [[_ _ Hh0 _ _ _] _].
    rewrite Hh0 in Hh. by destruct (m (event x) j).
Qed.
Lemma hdispatches_cons m x xs st : hdispatches m (x :: xs) st = hdispatches m xs (hdispatches m [x] st).
Proof. done. Qed.

Lemma heter_process_loop_spec xs q m st :
  hlistening (hlisteners q) m -> Forall dispatchable xs ->
  exists d, heter_process_loop (Some <$> xs) q st
      = Ret (replicate (length xs) None, set_hl d q, hdispatches m xs st) /\ hlistening d m.
Proof.
  revert q st. induction xs as [|x xs IH]; intros q st Hm Hd.
  - exists (hlisteners q). split; [|done]. by destruct q.
  - apply list.Forall_cons in Hd as [Hx Hd]. cbn [fmap list_fmap heter_process_loop union_base deref mbind outcome_bind].
    destruct (dispatchItem_spec x q m st Hm Hx) as (d1 & -> & Hm1). cbn [mbind outcome_bind union_clear].
    destruct (IH (set_hl d1 q) (hdispatches m [x] st) Hm1 Hd) as (d2 & -> & Hm2). cbn [mbind outcome_bind].
    exists d2. split; [|done]. by rewrite hdispatches_cons.
Qed.
Lemma heter_process_spec q xs m st :
  hholds q xs -> hlistening (hlisteners q) m -> Forall dispatchable xs ->
  exists q', heter_process q st = Ret (negb (bool_decide (xs = [])), q', hdispatches m xs st) /\
    hholds q' [] /\ hlistening (hlisteners q') m.
Proof.
  intros [Hq Hf] Hm Hd. unfold heter_process. rewrite Hq. destruct xs as [|x xs].
  - exists q. split; [done|]. by split.
  - rewrite bool_decide_eq_false_2 by done.
    destruct (heter_process_loop_spec (x :: xs) (set_hq [] (hguard 1 q)) m st) as (d & -> & Hm'); [done|done|].
    cbn [mbind outcome_bind]. eexists. split; [done|]. split; [|done]. split; [done|]. simpl.
    apply Forall_app. split; [done|]. by apply (Forall_replicate _ (S (length xs))).
Qed.

(** ** [processIf] *)

Definition chosen (func : A -> bool) (i : nat) (x : QueuedItem) : bool := (callableIndex x =? i)%nat && func (arguments x).

(** a pass over items that all have the tuple type of [p] *)
Lemma pass_spec func i p xs q m st :
  hlistening (hlisteners q) m -> Forall dispatchable xs ->
  Forall (fun x => tuple_of (proto x) = tuple_of p) xs ->
  exists d, processIf_pass func i p (Some <$> xs) q st
      = Ret (Some <$> filter (fun x => chosen func i x = false) xs,
             replicate (length (filter (fun x => chosen func i x = true) xs)) None,
             set_hl d q, hdispatches m (filter (fun x => chosen func i x = true) xs) st) /\ hlistening d m /\
      (filter (fun x => chosen func i x = true) xs = [] -> d = hlisteners q).
Proof.
  revert q st. induction xs as [|x xs IH]; intros q st Hm Hd Ht.
  - exists (hlisteners q). split; [|done]. by destruct q.
  - apply list.Forall_cons in Hd as [Hx Hd]. apply list.Forall_cons in Ht as [Htx Ht].
    cbn [fmap list_fmap processIf_pass]. unfold union_get. cbn [union_base deref mbind outcome_bind].
    rewrite decide_True by done. cbn [mbind outcome_bind]. rewrite !filter_cons.
    assert (Hskip : chosen func i x = false -> exists d,
      ('(kept, idle, q2, st2) ← processIf_pass func i p (Some <$> xs) q st; Ret (Some x :: kept, idle, q2, st2))
      = Ret (Some <$> x :: filter (fun x => chosen func i x = false) xs,
             replicate (length (filter (fun x => chosen func i x = true) xs)) None,
             set_hl d q, hdispatches m (filter (fun x => chosen func i x = true) xs) st) /\ hlistening d m /\
        (filter (fun x => chosen func i x = true) xs = [] -> d = hlisteners q)).
    { intros _. destruct (IH q st Hm Hd Ht) as (d2 & -> & Hm2 & Hsame). by exists d2. }
    destruct (callableIndex x =? i)%nat eqn:Ei; cbn [negb].
    + destruct (func (arguments x)) eqn:Ef.
      * assert (Ec : chosen func i x = true) by (unfold chosen; by rewrite Ei, Ef).
        rewrite decide_False by congruence. rewrite decide_True by done.
        destruct (dispatchItem_spec x q m st Hm Hx) as (d1 & -> & Hm1). cbn [mbind outcome_bind union_clear].
        destruct (IH (set_hl d1 q) (hdispatches m [x] st) Hm1 Hd Ht) as (d2 & -> & Hm2 & _). cbn [mbind outcome_bind].
        exists d2. split; [|done]. by rewrite hdispatches_cons.
      * assert (Ec : chosen func i x = false) by (unfold chosen; by rewrite Ei, Ef).
        rewrite decide_True by done. rewrite decide_False by congruence. by apply Hskip.
    + assert (Ec : chosen func i x = false) by (unfold chosen; by rewrite Ei).
      rewrite decide_True by done. rewrite decide_False by congruence. by apply Hskip.
Qed.
(** an item with another tuple is read under the wrong type *)
Lemma pass_confused func i p xs q m st :
  hlistening (hlisteners q) m -> Forall dispatchable xs ->
  Exists (fun x => tuple_of (proto x) <> tuple_of p) xs ->
  is_UB (processIf_pass func i p (Some <$> xs) q st) = true.
Proof.
  intros Hm Hd Hex. revert q st Hm. induction xs as [|x xs IH]; intros q st Hm; [by inversion Hex|].
  apply list.Forall_cons in Hd as [Hx Hd].
  cbn [fmap list_fmap processIf_pass]. unfold union_get. cbn [union_base deref mbind outcome_bind].
  destruct (decide (tuple_of (proto x) = tuple_of p)) as [Et|]; [|done]. cbn [mbind outcome_bind].
  assert (Hex' : Exists (fun x => tuple_of (proto x) <> tuple_of p) xs) by (apply Exists_cons in Hex as [?|?]; done).
  destruct (callableIndex x =? i)%nat; cbn [negb]; [|by apply is_UB_bind_l, IH].
  destruct (func (arguments x)); [|by apply is_UB_bind_l, IH].
  destruct (dispatchItem_spec x q m st Hm Hx) as (d1 & -> & Hm1). cbn [mbind outcome_bind union_clear].
  by apply is_UB_bind_l, IH.
Qed.

Lemma filter_Forall_false (f : QueuedItem -> bool) xs :
  Forall (fun x => f x = false) xs ->
  filter (fun x => f x = true) xs = [] /\ filter (fun x => f x = false) xs = xs.
Proof.
  induction 1 as [|x xs Hx _ [IH1 IH2]]; [done|]. rewrite !filter_cons.
  rewrite decide_False by congruence. by rewrite decide_True, IH1, IH2.
Qed.

(** the further searches of [doProcessIf] count from a larger index and find
    nothing to do when all events have the index [i] *)
Lemma later_passes func c i p xs m N fuel q st :
  FindPrototypeByCallable can_call protos c = Some (i, p) -> (i < N)%nat -> (length protos - N < fuel)%nat ->
  hholds q xs -> hlistening (hlisteners q) m -> Forall dispatchable xs ->
  Forall (fun x => tuple_of (proto x) = tuple_of p /\ callableIndex x = i) xs ->
  exists q', doProcessIf fuel c func (FindPrototypeByCallableFromIndex can_call N (length protos) protos c) q st
      = Ret (false, q', st) /\ hholds q' xs /\ hlisteners q' = hlisteners q.
Proof.
  intros Hfind. revert N q. induction fuel as [|fuel IH]; intros N q HiN Hfuel Hq Hm Hd Hx; [lia|]. cbn [doProcessIf].
  destruct (FindPrototypeByCallableFromIndex can_call N (length protos) protos c) as [[i' p']|] eqn:Efi;
    [|exists q; done].
  pose proof (find_callable_shift _ _ _ _ _ _ _ _ _ _ _ Hfind Efi) as ->.
  apply find_callable_from in Efi as ((Hi1 & Hi2) & _). destruct Hq as [Hq Hf]. rewrite Hq.
  destruct (pass_spec func i' p xs (set_hq [] (hguard 1 q)) m st) as (d & -> & _ & Hsame); [done|done| |].
  { eapply Forall_impl; [exact Hx|]. by intros x [? _]. }
  destruct (filter_Forall_false (chosen func i') xs) as [E1 E2].
  { eapply Forall_impl; [exact Hx|]. intros x [_ Ex]. simpl. unfold chosen.
    by rewrite (proj2 (Nat.eqb_neq _ _)) by lia. }
  rewrite E1, E2 in *. specialize (Hsame eq_refl). subst d. cbn [mbind outcome_bind length replicate].
  rewrite bool_decide_eq_true_2 by done. change (hdispatches m [] st) with st.
  match goal with |- context [doProcessIf fuel c func _ ?q2 st] => set (q1 := q2) end.
  assert (Hq1 : hholds q1 xs) by (split; simpl; [by rewrite app_nil_r|by rewrite app_nil_r]).
  destruct (IH (S i') q1 ltac:(lia) ltac:(lia) Hq1 Hm Hd Hx) as (q' & -> & Hq' & Hl). cbn [mbind outcome_bind].
  exists (hguard (-1) q'). done.
Qed.

Lemma existsb_chosen func i xs :
  Forall (fun x => callableIndex x = i) xs ->
  existsb (fun x => func (arguments x)) xs = negb (bool_decide (filter (fun x => chosen func i x = true) xs = [])) /\
  filter (fun x => chosen func i x = true) xs = filter (fun x => func (arguments x) = true) xs /\
  filter (fun x => chosen func i x = false) xs = filter (fun x => func (arguments x) = false) xs.
Proof.
  induction 1 as [|x xs Hx _ (IH1 & IH2 & IH3)]; [done|]. cbn [existsb].
  assert (Ec : chosen func i x = func (arguments x)) by (unfold chosen; by rewrite Hx, Nat.eqb_refl).
  rewrite !filter_cons, IH1. destruct (func (arguments x)) eqn:Ef; simpl.
  - rewrite (decide_True (P := chosen func i x = true)) by done.
    rewrite (decide_False (P := chosen func i x = false)) by congruence.
    rewrite (bool_decide_eq_false_2 (_ :: _ = [])) by done. by rewrite IH2, IH3.
  - rewrite (decide_False (P := chosen func i x = true)) by congruence.
    rewrite (decide_True (P := chosen func i x = false)) by done. by rewrite IH2, IH3.
Qed.

(** C28. The heterogeneous queue: [enqueue] stores the event under the first
    prototype that accepts the arguments, and [process] hands the stored events,
    in order, to the listeners of the prototype the stored tuple selects, and
    empties the queue. [processIf] with a predicate for the prototype [i] works
    like that of the homogeneous queue while every queued event is one of
    prototype [i]: the chosen events are dispatched in order, the others stay.
    But it reads every queued item under the type of that prototype before it
    looks at the item's index: one queued event with another argument tuple
    makes it undefined behaviour. *)
Theorem heter_queue_processes (q : hqueue) (xs : list QueuedItem) (m : E -> nat -> list (positive * C)) (st : St)
    (e : E) (t : T) (args : A) (c : K) (func : A -> bool) (i j : nat) (p p' : P) :
  hholds q xs -> hlistening (hlisteners q) m -> Forall dispatchable xs ->
  FindPrototypeByArgs accepts protos t = Some (j, p') ->
  FindPrototypeByCallable can_call protos c = Some (i, p) ->
  (exists b q', heter_enqueue e t args q = Ret (b, q') /\ hholds q' (xs ++ [mk_qi j e p' args]) /\
     hlisteners q' = hlisteners q) /\
  (exists q', heter_process q st = Ret (negb (bool_decide (xs = [])), q', hdispatches m xs st) /\
     hholds q' [] /\ hlistening (hlisteners q') m) /\
  (Forall (fun x => tuple_of (proto x) = tuple_of p /\ callableIndex x = i) xs ->
   exists q', heter_processIf c func q st
       = Ret (existsb (fun x => func (arguments x)) xs, q',
              hdispatches m (filter (fun x => func (arguments x) = true) xs) st) /\
     hholds q' (filter (fun x => func (arguments x) = false) xs) /\ hlistening (hlisteners q') m) /\
  (Exists (fun x => tuple_of (proto x) <> tuple_of p) xs -> is_UB (heter_processIf c func q st) = true).
Proof.
  intros Hq Hm Hd Ht Hc. split_and!.
  - unfold heter_enqueue. rewrite Ht. cbn [static_assert mbind outcome_bind]. unfold doEnqueueItem.
    destruct Hq as [Hq Hf]. destruct (hfreeList q) as [|o rest] eqn:Ef.
    + eexists _, _. split; [done|]. split; [|done]. split; simpl; [by rewrite Hq, fmap_app|by rewrite Ef].
    + apply list.Forall_cons in Hf as [-> Hf]. eexists _, _. split; [done|]. split; [|done].
      split; simpl; [by rewrite Hq, fmap_app|done].
  - by apply heter_process_spec.
  - intros Hx. unfold heter_processIf. destruct Hq as [Hq Hf]. rewrite Hq. destruct (decide (xs = [])) as [->|Hne].
    { rewrite bool_decide_eq_true_2 by done. exists q. split; [done|]. by split. }
    rewrite bool_decide_eq_false_2 by (by destruct xs). rewrite Hc. cbn [doProcessIf]. rewrite Hq.
    destruct (pass_spec func i p xs (set_hq [] (hguard 1 q)) m st) as (d & -> & Hm' & Hsame); [done|done| |].
    { eapply Forall_impl; [exact Hx|]. by intros x [? _]. }
    destruct (existsb_chosen func i xs) as (-> & E2 & E3).
    { eapply Forall_impl; [exact Hx|]. by intros x [_ ?]. }
    rewrite E2, E3 in *. cbn [mbind outcome_bind].
    destruct (filter (fun x => func (arguments x) = true) xs) as [|y ys] eqn:Ey; cbn [length replicate].
    + rewrite bool_decide_eq_true_2 by done. specialize (Hsame eq_refl). subst d.
      assert (Hall : filter (fun x => func (arguments x) = false) xs = xs).
      { clear -Ey. induction xs as [|x xs IH]; [done|]. rewrite filter_cons in *. case_decide; [done|].
        rewrite decide_True by (by destruct (func (arguments x))). by rewrite IH. }
      rewrite Hall in *.
      match goal with |- context [doProcessIf _ c func _ ?q2 _] => set (q1 := q2) end.
      assert (Hq1 : hholds q1 xs) by (split; simpl; by rewrite app_nil_r).
      destruct (later_passes func c i p xs m (S i) (length protos) q1 st Hc ltac:(lia)) as (q' & Ep & Hq' & Hl);
        [apply find_callable in Hc as [? _]; lia|done|done|done|done|].
      change (hdispatches m [] st) with st. rewrite Ep. cbn [mbind outcome_bind].
      exists (hguard (-1) q'). split; [done|]. split; [done|]. simpl. by rewrite Hl.
    + rewrite bool_decide_eq_false_2 by done. cbn [mbind outcome_bind]. eexists. split; [done|]. split; [|done].
      split; simpl; [by rewrite app_nil_r|]. apply Forall_app. split; [done|].
      by apply (Forall_replicate _ (S (length ys))).
  - intros Hex. unfold heter_processIf. destruct Hq as [Hq Hf]. rewrite Hq.
    rewrite bool_decide_eq_false_2 by (destruct xs; [by inversion Hex|done]). rewrite Hc. cbn [doProcessIf]. rewrite Hq.
    apply is_UB_bind_l. by eapply (pass_confused func i p xs _ m).
Qed.
End heter_queue.
Arguments hqueue E {_ _} P A C : assert.

(** ** A queue of two prototypes *)

Definition two_protos : list nat := [0; 1]%nat.
Definition one_listener : list (option (clist Z)) :=
  match heter_append Nat.eqb two_protos 0%nat 70 (HeterCallbackListBase two_protos) with
  | Ret (_, l) => l
  | _ => []
  end.
Definition one_listens (e : Z) (i : nat) : list (positive * Z) :=
  if decide (e = 7) then upd_at 0 [(1%positive, 70)] (fun _ => []) i else [].
Lemma one_listener_listening : hlistening two_protos {[7 := one_listener]} one_listens.
Proof.
  assert (Hnew : hrefines two_protos (HeterCallbackListBase two_protos) (fun _ => @nil (positive * Z))) by apply hrefines_new.
  destruct (heter_append_spec Nat.eqb two_protos 0%nat 70 _ _ 0%nat 0%nat Hnew eq_refl) as (h & l' & Ea & _ & Hl).
  assert (El : one_listener = l') by (unfold one_listener; by rewrite Ea).
  assert (Eh : h = 1%positive). { vm_compute in Ea. by injection Ea. } subst h. rewrite <- El in Hl.
  intros e. unfold hlist_of, one_listens. case_decide as D.
  - subst e. by rewrite lookup_singleton_eq.
  - rewrite lookup_singleton_ne by done. apply hrefines_new.
Qed.
Definition hitem (i : nat) (n : Z) : QueuedItem := mk_qi i 7 i n.
Definition mixed_queue : hqueue Z nat Z Z := mk_hq {[7 := one_listener]} [Some (hitem 0 5); Some (hitem 1 6)] [] 0 0.
Lemma heter_queue_processes_witness :
  is_UB (heter_processIf Nat.eqb Nat.eqb (fun p => p) record two_protos 0%nat (fun n => n =? 5) mixed_queue []) = true /\
  exists q', heter_process Nat.eqb (fun p => p) record two_protos mixed_queue [] = Ret (true, q', [(70, 5)]).
Proof.
  destruct (heter_queue_processes Nat.eqb Nat.eqb (fun p => p) record two_protos mixed_queue [hitem 0 5; hitem 1 6]
    one_listens [] 7 0%nat 9 0%nat (fun n => n =? 5) 0%nat 0%nat 0%nat 0%nat) as (_ & Hp & _ & Hub).
  - by split.
  - apply one_listener_listening.
  - repeat (apply list.Forall_cons; split; [by eexists|]). by apply list.Forall_nil.
  - done.
  - done.
  - split; [apply Hub; right; by left|]. destruct Hp as (q' & -> & _). exists q'. by vm_compute.
Defined.
