(* ===== verification/EventAdapters.v ===== *)
(** * EventAdapters
    Small utilities of [3rd/include/eventpp]: ids made of any value
    ([utilities/anyid.h]), functors behind a condition
    ([utilities/conditionalfunctor.h]) and the filters of the heterogeneous
    dispatcher ([mixins/mixinheterfilter.h]). *)

From Stdlib Require Import ZArith Lia.
From stdpp Require Import base numbers list option gmap fin_maps strings.
From S2P Require Import Prelude CallbackList CallbackListFacts EventQueue EventQueueFacts CallbackCopy EventUtil HeterList HeterQueue.

(** ** [utilities/anyid.h] *)

(** An id is the digest of a value and the value itself, in a storage that may
    forget it. What the storage type offers is found by [HasLess] and
    [HasEqual]: [less] and [equal] are [None] where it has no such operator. *)
Section any_id.
Context {V S : Type}.
Variable Digester : V -> Z.
Variable store : V -> S.
Variables less equal : option (S -> S -> bool).

Record AnyId := mk_any { getDigest : Z; getValue : S }.
Definition AnyId_of (v : V) : AnyId := mk_any (Digester v) (store v).
Definition compareLessThan (a b : S) : bool := match less with Some lt => lt a b | None => false end.
Definition compareEqual (a b : S) : bool := match equal with Some eq => eq a b | None => true end.
Definition any_eq (a b : AnyId) : bool := (getDigest a =? getDigest b) && compareEqual (getValue a) (getValue b).
Definition any_lt (a b : AnyId) : bool :=
  (getDigest a <? getDigest b) || (compareLessThan (getValue a) (getValue b) && (getDigest a =? getDigest b)).
(** [std::hash<AnyId>], for a digest that converts to [std::size_t] *)
Definition any_hash (a : AnyId) : Z := u64 (getDigest a).

(** neither is smaller *)
Definition same_key {X} (lt : X -> X -> bool) (a b : X) : Prop := lt a b = false /\ lt b a = false.
Record weak_order {X} (lt : X -> X -> bool) : Prop := {
  wo_irrefl a : lt a a = false;
  wo_trans a b c : lt a b = true -> lt b c = true -> lt a c = true;
  wo_same a b c : same_key lt a b -> same_key lt b c -> same_key lt a c;
}.
Definition storage_ok : Prop :=
  weak_order compareLessThan /\
  forall a b, compareEqual a b = true <-> same_key compareLessThan a b.

Lemma any_lt_spec a b :
  any_lt a b = true <->
  getDigest a < getDigest b \/ (getDigest a = getDigest b /\ compareLessThan (getValue a) (getValue b) = true).
Proof. unfold any_lt. rewrite Bool.orb_true_iff, Bool.andb_true_iff, Z.ltb_lt, Z.eqb_eq. tauto. Qed.
Lemma any_same_spec a b :
  same_key any_lt a b <-> getDigest a = getDigest b /\ same_key compareLessThan (getValue a) (getValue b).
Proof.
  unfold same_key. rewrite <- !Bool.not_true_iff_false, !any_lt_spec. split.
  - intros [H1 H2]. assert (getDigest a = getDigest b) by lia. naive_solver.
  - intros (-> & H1 & H2). split; intros [?|[_ ?]]; [lia|done|lia|done].
Qed.
Lemma any_weak_order : weak_order compareLessThan -> weak_order any_lt.
Proof.
  intros [Hi Ht Hs]. split.
  - intros a. apply Bool.not_true_iff_false. rewrite any_lt_spec, Hi. intros [?|[_ ?]]; [lia|done].
  - intros a b c. rewrite !any_lt_spec. intros [H1|[H1 H1']] [H2|[H2 H2']]; [left; lia..|].
    right. split; [lia|]. by eapply Ht.
  - intros a b c. rewrite !any_same_spec. intros [H1 H1'] [H2 H2']. split; [lia|]. by eapply Hs.
Qed.

(** Ids are keys: [<] is a strict weak order, and two ids are [==] exactly
    when neither is smaller, so an ordered and a hashed map agree on them; ids
    that are [==] have the same hash. Where the storage forgets the value (it
    has neither operator, as [EmptyAnyStorage]), two values are one id exactly
    when their digests collide. *)
Theorem any_id_is_a_key (a b : AnyId) (v w : V) :
  storage_ok ->
  weak_order any_lt /\ (any_eq a b = true <-> same_key any_lt a b) /\
  (any_eq a b = true -> any_hash a = any_hash b) /\
  (equal = None -> any_eq (AnyId_of v) (AnyId_of w) = true <-> Digester v = Digester w).
Proof.
  intros [Hw Heq]. split_and!.
  - by apply any_weak_order.
  - unfold any_eq. by rewrite any_same_spec, Bool.andb_true_iff, Z.eqb_eq, Heq.
  - unfold any_eq, any_hash. rewrite Bool.andb_true_iff, Z.eqb_eq. by intros [-> _].
  - intros He. unfold any_eq, compareEqual. rewrite He, Bool.andb_true_iff, Z.eqb_eq. simpl. tauto.
Qed.
End any_id.

(** A storage with [==] but without [<]: the ordered map takes two different
    ids with one digest for the same key. *)
Lemma equal_without_less :
  let a := mk_any 5 1 in let b := mk_any 5 2 in
  any_eq (Some Z.eqb) a b = false /\ same_key (any_lt None) a b.
Proof. by vm_compute. Qed.
Lemma any_id_is_a_key_witness :
  any_eq None (AnyId_of (fun v => v mod 7) (fun _ => tt) 3) (AnyId_of (fun v => v mod 7) (fun _ => tt) 10) = true.
Proof.
  destruct (any_id_is_a_key (fun v => v mod 7) (fun _ => tt) None None (mk_any 0 tt) (mk_any 0 tt) 3 10) as (_ & _ & _ & H).
  - split; [by split|]. by intros a b.
  - by apply H.
Defined.

(** ** [utilities/conditionalfunctor.h] *)

Section conditional.
Context {F A St : Type}.
Variable run_func : F -> A -> St -> St.

Record ConditionalFunctor := mk_cf { func : F; condition : A -> bool }.
Definition conditionalFunctor (f : F) (c : A -> bool) : ConditionalFunctor := mk_cf f c.
Definition run_conditional (cf : ConditionalFunctor) (args : A) (st : St) : St :=
  if condition cf args then run_func (func cf) args st else st.

(** a dispatch calls the functions whose condition holds, in order *)
Lemma conditional_dispatch (l : clist ConditionalFunctor) (a : list (positive * ConditionalFunctor)) args st :
  refines l a ->
  forEach (fun cf st => run_conditional cf args st) l st
  = fold_left (fun st cf => run_func (func cf) args st) (filter (fun cf => condition cf args = true) a.*2) st.
Proof.
  intros [Hr Hc]. unfold forEach, doForEachIf. pose proof Hr as [Hs _ -> _ Hct _].
  erewrite (forEach_loop_spec (fun cf st => run_conditional cf args st));
    [|exact Hs|exact Hct|by eapply rep_length|exact Hc]. simpl. clear. revert st.
  induction a.*2 as [|cf cfs IH]; intros st; [done|]. rewrite filter_cons. simpl. unfold run_conditional at 2.
  case_decide as D; [rewrite D|apply Bool.not_true_is_false in D; rewrite D]; apply IH.
Qed.
End conditional.

(** ** [mixins/mixinheterfilter.h] *)

Section heter_filter.
Context {E : Type} `{Countable E} {P K T A C F St : Type}.
(** [CanInvoke] of a filter or of [void (Args...)] with the arguments of a
    prototype of [BoolReferencePrototypeList] *)
Variable can_filter : K -> P -> bool.
Variable accepts : P -> T -> bool.
Variable run_callback : C -> A -> St -> St.
Variable run_filter : F -> A -> St -> bool * (A * St).
Variable protos : list P.

Notation filters := (list (option (clist F))).
Definition heter_appendFilter (c : K) (f : F) (l : filters) : outcome (HeterHandle * filters) :=
  heter_append can_filter protos c f l.
Definition heter_removeFilter (h : HeterHandle) (l : filters) : outcome (bool * filters) := heter_remove h l.
(** [mixinBeforeDispatch(args...)], where [c] is [void (Args...)] *)
Definition heter_mixinBeforeDispatch (c : K) (args : A) (l : filters) (st : St) : outcome (bool * filters * (A * St)) :=
  '(b, l', s) ← heter_forEachIf can_filter protos c (fun f s => run_filter f s.1 s.2) l (args, st);
  if negb b then Ret (false, l', s) else Ret (true, l', s).
(** [directDispatch] behind the filters *)
Definition heter_filteredDispatch (c : K) (e : E) (t : T) (args : A) (l : filters)
    (d : gmap E (list (option (clist C)))) (st : St) : outcome (filters * gmap E (list (option (clist C))) * St) :=
  '(go, l', s) ← heter_mixinBeforeDispatch c args l st;
  if negb go then Ret (l', d, s.2)
  else '(d', st') ← heter_directDispatch accepts run_callback protos e t s.1 d s.2; Ret (l', d', st').

(** the filters of the prototype the arguments fit run in order until one
    refuses *)
Lemma heter_mixinBeforeDispatch_spec c args l fs i p st :
  hrefines protos l fs -> FindPrototypeByCallable can_filter protos c = Some (i, p) ->
  exists l', hrefines protos l' fs /\
    heter_mixinBeforeDispatch c args l st
    = let '(go, s) := run_filters run_filter (fs i).*2 (args, st) in Ret (go, l', s).
Proof.
  intros Hm Hf. pose proof (find_callable _ _ _ _ _ Hf) as [Hi _].
  destruct (get_list_spec protos l fs i Hm Hi) as (l1 & E1 & Hm1). exists l1. split; [done|].
  unfold heter_mixinBeforeDispatch, heter_forEachIf. rewrite Hf. cbn [static_assert mbind outcome_bind]. rewrite E1.
  unfold forEachIf. rewrite (doForEachIf_spec _ _ (fs i)) by (by apply Hm).
  rewrite (iterate_filters run_filter). by destruct (run_filters run_filter (fs i).*2 (args, st)) as [[] s].
Qed.
End heter_filter.
