(* ===== verification/ArgumentAdapter.v ===== *)
(** * ArgumentAdapter
    [3rd/include/eventpp/utilities/argumentadapter.h]: a listener for arguments of
    derived classes, registered where the prototype passes references or shared
    pointers to base classes. The adapter casts every argument without a test. *)

From Stdlib Require Import ZArith Lia.
From stdpp Require Import base numbers list option gmap fin_maps strings.
From S2P Require Import Prelude CallbackList CallbackListFacts EventQueue EventQueueFacts.

Section adapter.
(** classes and their derivation, objects and the class an object was created as *)
Context {Cls Obj : Type}.
Variable derives : Cls -> Cls -> bool.
Variable class_of : Obj -> Cls.

(** an argument: a number, an object by reference, a shared pointer *)
Inductive argument : Type := ANum (z : Z) | ARef (o : Obj) | AShared (o : option Obj).
(** the type a parameter of the adapted function has *)
Inductive param : Type := TNum | TRef (c : Cls) | TShared (c : Cls).

(** [static_cast] to a class: undefined when the object is not one of it *)
Definition cast_object (c : Cls) (o : Obj) : outcome Obj :=
  if derives (class_of o) c then Ret o else UB "static_cast to a class the object is not of".
(** [static_cast<T>(value)]; a conversion that does not exist does not compile *)
Definition static_cast (t : param) (a : argument) : outcome argument :=
  match t, a with
  | TNum, ANum z => Ret (ANum z)
  | TRef c, ARef o => o' ← cast_object c o; Ret (ARef o')
  | _, _ => Throw "no such conversion"
  end.
(** [StaticCast<T>::cast]: shared pointers go through [static_pointer_cast] *)
Definition StaticCast (t : param) (a : argument) : outcome argument :=
  match t, a with
  | TShared c, AShared None => Ret (AShared None)
  | TShared c, AShared (Some o) => o' ← cast_object c o; Ret (AShared (Some o'))
  | _, _ => static_cast t a
  end.
Definition IsSharedPtr (t : param) : bool := match t with TShared _ => true | _ => false end.
Definition IsAnySharedPtr (ts : list param) : bool := existsb IsSharedPtr ts.

(** every argument by its own cast *)
Fixpoint cast_all (cast : param -> argument -> outcome argument) (ts : list param) (args : list argument)
    : outcome (list argument) :=
  match ts, args with
  | [], [] => Ret []
  | t :: ts, a :: args => a' ← cast t a; args' ← cast_all cast ts args; Ret (a' :: args')
  | _, _ => Throw "no such conversion"
  end.
(** [operator()]: the specialisation for parameters without and with shared pointers *)
Definition ArgumentAdapter {St : Type} (ts : list param) (func : list argument -> St -> St) (args : list argument) (st : St)
    : outcome St :=
  args' ← cast_all (if IsAnySharedPtr ts then StaticCast else static_cast) ts args;
  Ret (func args' st).

(** ** What an adapted listener gets *)

(** the argument is of the parameter's class *)
Definition fits (t : param) (a : argument) : bool :=
  match t, a with
  | TNum, ANum _ => true
  | TRef c, ARef o => derives (class_of o) c
  | TShared c, AShared (Some o) => derives (class_of o) c
  | TShared c, AShared None => true
  | _, _ => false
  end.
(** the conversion compiles *)
Definition converts (t : param) (a : argument) : bool :=
  match t, a with TNum, ANum _ | TRef _, ARef _ | TShared _, AShared _ => true | _, _ => false end.
Definition all2 (f : param -> argument -> bool) (ts : list param) (args : list argument) : Prop :=
  Forall2 (fun t a => f t a = true) ts args.

Lemma StaticCast_spec t a :
  converts t a = true -> StaticCast t a = if fits t a then Ret a else UB "static_cast to a class the object is not of".
Proof.
  destruct t as [|c|c], a as [z|o|[o|]]; try done; intros _; simpl; unfold cast_object; by destruct (derives _ c).
Qed.
Lemma static_cast_spec t a : IsSharedPtr t = false -> static_cast t a = StaticCast t a.
Proof. by destruct t. Qed.

Lemma cast_all_same ts args :
  IsAnySharedPtr ts = false -> cast_all static_cast ts args = cast_all StaticCast ts args.
Proof.
  revert args. induction ts as [|t ts IH]; intros [|a args] Hs; try done. simpl in Hs. apply orb_false_elim in Hs as [Ht Hs].
  cbn [cast_all]. rewrite static_cast_spec by done. apply bind_ext. intros a'. by rewrite IH.
Qed.
Lemma cast_all_spec ts args :
  all2 converts ts args ->
  (all2 fits ts args -> cast_all StaticCast ts args = Ret args) /\
  (~ all2 fits ts args -> is_UB (cast_all StaticCast ts args) = true).
Proof.
  intros Hc. induction Hc as [|t a ts args Hta Hc IH]; [split; [done|intros Hn; destruct Hn; constructor]|].
  destruct IH as [IH1 IH2]. cbn [cast_all]. rewrite StaticCast_spec by done. split.
  - intros Hf. inversion Hf as [|? ? ? ? Hft Hfts]; subst. rewrite Hft. cbn [mbind outcome_bind]. by rewrite IH1.
  - intros Hn. destruct (fits t a) eqn:E; [|done]. cbn [mbind outcome_bind]. apply is_UB_bind_l, IH2.
    intros Hf. apply Hn. by constructor.
Qed.

(** An adapted listener: whichever specialisation its parameters select, a call
    whose conversions compile passes the very same arguments on, null pointers
    included, when every object is of the class its parameter asks for, and is
    undefined as soon as one is not: nothing is tested, so a listener that is
    not meant for an event must not be registered for it. *)
Theorem adapted_listener {St : Type} (ts : list param) (func : list argument -> St -> St) (args : list argument) (st : St) :
  all2 converts ts args ->
  (all2 fits ts args -> ArgumentAdapter ts func args st = Ret (func args st)) /\
  (~ all2 fits ts args -> is_UB (ArgumentAdapter ts func args st) = true).
Proof.
  intros Hc. destruct (cast_all_spec ts args Hc) as [H1 H2]. unfold ArgumentAdapter.
  replace (cast_all (if IsAnySharedPtr ts then StaticCast else static_cast) ts args) with (cast_all StaticCast ts args);
    [|destruct (IsAnySharedPtr ts) eqn:E; [done|by rewrite cast_all_same]].
  split; intros Hf; [by rewrite H1|]. by apply is_UB_bind_l, H2.
Qed.
End adapter.

(** classes 1 and 2 derive from class 0; objects are named by their class *)
Definition sample_derives (d b : Z) : bool := (d =? b) || (b =? 0).
Lemma adapted_listener_witness :
  ArgumentAdapter sample_derives (fun o => o) [TRef 1; TNum] (fun args _ => length args) [ARef 1; ANum 5] 0%nat = Ret 2%nat /\
  is_UB (ArgumentAdapter sample_derives (fun o => o) [TShared 1] (fun args _ => length args) [AShared (Some 2)] 0%nat) = true.
Proof.
  split.
  - apply (adapted_listener sample_derives (fun o => o) [TRef 1; TNum]); by repeat constructor.
  - apply (adapted_listener sample_derives (fun o => o) [TShared 1]); [by repeat constructor|].
    intros Hf. inversion Hf as [|? ? ? ? Hft _]. discriminate Hft.
Defined.
