(* ===== verification/Agent.v ===== *)
(** * Agent
    The server program [can_agent]: the receiving thread of [main.cc] that turns
    CAN frames into protocol lines, the sessions of [server/session.cc] that
    forward the lines to the connected clients, [server/session_pool.cc] and
    [server/server.cc], which accepts the clients.

    Two threads run. The receiving thread owns the device, enqueues and
    dispatches; the io thread runs the completion handlers of the sessions and
    of the acceptor. What happens in the io thread is a sequence of [io_event]s,
    which comes in pieces between the iterations of the receiving loop. *)

From Stdlib Require Import ZArith Lia.
From Stdlib Require Import Strings.Byte.
From stdpp Require Import base numbers list option gmap fin_maps strings.
From S2P Require Import Prelude UsbCan HexCodec CanImp Facade CallbackList EventQueue.

(** ** [server/canobj_queue_type.h] *)

Definition kCanobjCapacity : nat := 256.
Record CanobjQueueNodeT := mk_qnode { can_obj_ : list byte; len_ : nat }.
(** [os << node] *)
Definition put_node (os : list byte) (n : CanobjQueueNodeT) : outcome (list byte) :=
  if decide (len_ n <= length (can_obj_ n))%nat then Ret (os ++ take (len_ n) (can_obj_ n))
  else UB "read outside can_obj_".
(** [os << node.can_obj_]: the array is printed as a C string *)
Definition put_can_obj (os : list byte) (n : CanobjQueueNodeT) : outcome (list byte) :=
  if decide (NUL ∈ can_obj_ n) then Ret (os ++ cstr (can_obj_ n)) else UB "read outside can_obj_".

Definition kPpqCanObjEvtId : Z := 1.
(** a listener is [std::bind(&Session::consumeCanObjHandler, session)] *)
Definition eventpp_queue_t : Type := equeue Z CanobjQueueNodeT nat.

(** ** [class Session] *)

(** the asynchronous operation that keeps a session going *)
Inductive pending : Set := NoOp | TimerWait | Writing.
#[export] Instance pending_eq_dec : EqDecision pending.
Proof. solve_decision. Defined.

Record Session := mk_session {
  socket_ : list byte;      (* what was sent to the client *)
  spsc_queue_ : list CanobjQueueNodeT;
  shr_tx_buff_ : list byte;
  ppq_handle_ : option positive;
  pending_op : pending;
}.
Definition new_session : Session := mk_session [] [] [] None NoOp.
Definition set_spsc (l : list CanobjQueueNodeT) (s : Session) : Session :=
  mk_session (socket_ s) l (shr_tx_buff_ s) (ppq_handle_ s) (pending_op s).
Definition set_tx_buff (b : list byte) (s : Session) : Session :=
  mk_session (socket_ s) (spsc_queue_ s) b (ppq_handle_ s) (pending_op s).
Definition set_handle (h : option positive) (s : Session) : Session :=
  mk_session (socket_ s) (spsc_queue_ s) (shr_tx_buff_ s) h (pending_op s).
Definition set_pending (p : pending) (s : Session) : Session :=
  mk_session (socket_ s) (spsc_queue_ s) (shr_tx_buff_ s) (ppq_handle_ s) p.
Definition add_socket (b : list byte) (s : Session) : Session :=
  mk_session (socket_ s ++ b) (spsc_queue_ s) (shr_tx_buff_ s) (ppq_handle_ s) (pending_op s).

(** [boost::lockfree::capacity<2048>] *)
Definition spsc_capacity : nat := 2048.
(** [consumeCanObjHandler(node)]: a full queue drops the node *)
Definition consumeCanObjHandler (n : CanobjQueueNodeT) (s : Session) : Session :=
  if (length (spsc_queue_ s) <? spsc_capacity)%nat then set_spsc (spsc_queue_ s ++ [n]) s else s.

(** [writeMessage()] *)
Definition writeMessage (s : Session) : Session := set_pending Writing s.
(** the loop of [doCanObjTranspose] *)
Fixpoint transpose_loop (i : nat) (s : Session) : outcome Session :=
  match i with
  | O => Ret s
  | S i =>
      match spsc_queue_ s with
      | [] => Ret s
      | n :: rest =>
          b ← put_can_obj (shr_tx_buff_ s) n;
          transpose_loop i (set_tx_buff b (set_spsc rest s))
      end
  end.
(** [doCanObjTranspose(ec)] *)
Definition doCanObjTranspose (s : Session) : outcome Session :=
  s1 ← transpose_loop 8 s;
  if (0 <? length (shr_tx_buff_ s1))%nat then Ret (writeMessage s1) else Ret (set_pending TimerWait s1).

(** [streambuf::consume(n)] *)
Definition consume (n : nat) (s : Session) : Session := set_tx_buff (drop n (shr_tx_buff_ s)) s.

(** ** The process *)

Record agent := mk_agent {
  ppq : eventpp_queue_t;
  sessions : gmap nat Session;   (* the [Session] objects *)
  next_id : nat;
  accepting : bool;              (* an [async_accept] is pending *)
  session_ : option nat;
  session_pool_ : list nat;      (* weak pointers *)
}.
Definition set_ppq (q : eventpp_queue_t) (a : agent) : agent :=
  mk_agent q (sessions a) (next_id a) (accepting a) (session_ a) (session_pool_ a).
Definition set_sessions (ss : gmap nat Session) (a : agent) : agent :=
  mk_agent (ppq a) ss (next_id a) (accepting a) (session_ a) (session_pool_ a).
Definition put_session (id : nat) (s : Session) (a : agent) : agent :=
  set_sessions (<[id := s]> (sessions a)) a.

(** the listeners of the frames; below, [pins] are the nodes a running
    dispatch holds *)
Definition canobj_list (a : agent) : clist nat := list_at kPpqCanObjEvtId (listeners (ppq a)).

(** [disconnectToEventqq()]: [use_count() > 0] while the listener's node exists *)
Definition disconnectToEventqq (pins : list positive) (id : nat) (a : agent) : agent :=
  match sessions a !! id ≫= ppq_handle_ with
  | Some h =>
      match lock pins h (canobj_list a) with
      | Some _ =>
          let '(_, d) := removeListener pins kPpqCanObjEvtId h (listeners (ppq a)) in
          set_ppq (set_listeners d (ppq a)) a
      | None => a
      end
  | None => a
  end.

(** whether a listener is bound to the session *)
Definition listens (pins : list positive) (id : nat) (a : agent) : bool :=
  let l := canobj_list a in
  existsb (fun h => bool_decide (callback <$> heap l !! h = Some id)) (elements (alive pins l)).
(** whether a [shared_ptr] to the session is left: the server's, the one bound
    into a pending operation, the one bound into a listener *)
Definition owned (pins : list positive) (id : nat) (a : agent) : bool :=
  bool_decide (session_ a = Some id) ||
  match sessions a !! id with Some s => negb (bool_decide (pending_op s = NoOp)) | None => false end ||
  listens pins id a.
(** [~Session] runs when the last one goes *)
Definition release (pins : list positive) (id : nat) (a : agent) : agent :=
  if owned pins id a then a
  else let a1 := disconnectToEventqq pins id a in set_sessions (delete id (sessions a1)) a1.

(** [Session::start()] *)
Definition session_start (id : nat) (a : agent) : outcome agent :=
  s ← deref "session" (sessions a !! id);
  let '(h, d) := appendListener kPpqCanObjEvtId id (listeners (ppq a)) in
  s1 ← doCanObjTranspose (set_handle (Some h) s);
  Ret (put_session id s1 (set_ppq (set_listeners d (ppq a)) a)).

(** [Session::handleWrite(ec, bytesTransfered)]; the handler owns the session
    until it returns *)
Definition handleWrite (pins : list positive) (id : nat) (ec : Z) (n : nat) (a : agent) : outcome agent :=
  s ← deref "session" (sessions a !! id);
  let a1 := put_session id (consume n s) a in
  if negb (ec =? 0) then Ret (release pins id (disconnectToEventqq pins id a1))
  else
    s1 ← doCanObjTranspose (consume n s);
    Ret (put_session id s1 a1).

(** ** [server/session_pool.cc] *)

Definition addToPool (id : nat) (a : agent) : agent :=
  mk_agent (ppq a) (sessions a) (next_id a) (accepting a) (session_ a) (session_pool_ a ++ [id]).
Definition getSize (a : agent) : nat := length (session_pool_ a).
(** [pool_[session].lock()] *)
Definition getSession (pins : list positive) (i : nat) (a : agent) : outcome (option nat) :=
  id ← deref "pool_[session]" (session_pool_ a !! i);
  Ret (if owned pins id a then Some id else None).

(** ** [class Server] *)

(** the loop of [startAccepting] over the pool *)
Fixpoint visit_pool (pins : list positive) (i n : nat) (a : agent) : outcome unit :=
  match n with
  | O => Ret tt
  | S n => _ ← getSession pins i a; visit_pool pins (S i) n a
  end.
(** [startAccepting()]: the assignment drops the previous [session_] *)
Definition startAccepting (pins : list positive) (a : agent) : outcome agent :=
  let id := next_id a in
  let a1 := mk_agent (ppq a) (<[id := new_session]> (sessions a)) (S id) (accepting a) (Some id) (session_pool_ a) in
  let a2 := match session_ a with Some old => release pins old a1 | None => a1 end in
  _ ← visit_pool pins 0 (getSize a2) a2;
  Ret (mk_agent (ppq a2) (sessions a2) (next_id a2) true (session_ a2) (session_pool_ a2)).
(** [handleAccept(ec)] *)
Definition handleAccept (pins : list positive) (ec : Z) (a : agent) : outcome agent :=
  if ec =? 0 then
    id ← deref "session_" (session_ a);
    a1 ← session_start id (addToPool id a);
    startAccepting pins a1
  else Ret a.
(** [Server::Server]: nothing is accepted yet *)
Definition server_init (a : agent) : agent :=
  mk_agent (ppq a) (sessions a) (next_id a) false None [].
Definition agent_init : agent := mk_agent EventQueueBase ∅ 0 false None [].

(** ** The io thread *)

(** The completion of a pending operation. [async_write] on a [streambuf]
    removes what it wrote from the buffer and completes without an error only
    when it wrote everything; [ec = 0] is success. *)
Inductive io_event : Set :=
| EvAccept (ec : Z)
| EvTimer (id : nat) (ec : Z)
| EvWrite (id : nat) (ec : Z) (n : nat).

Definition io_handle (pins : list positive) (ev : io_event) (a : agent) : outcome agent :=
  match ev with
  | EvAccept ec =>
      if accepting a then
        handleAccept pins ec (mk_agent (ppq a) (sessions a) (next_id a) false (session_ a) (session_pool_ a))
      else Blocked
  | EvTimer id _ =>
      match sessions a !! id with
      | Some s =>
          if decide (pending_op s = TimerWait) then
            s1 ← doCanObjTranspose (set_pending NoOp s); Ret (put_session id s1 a)
          else Blocked
      | None => Blocked
      end
  | EvWrite id ec n =>
      match sessions a !! id with
      | Some s =>
          if decide (pending_op s = Writing /\ (n <= length (shr_tx_buff_ s))%nat /\
                     (ec = 0 -> n = length (shr_tx_buff_ s)))
          then
            let s1 := consume n (add_socket (take n (shr_tx_buff_ s)) (set_pending NoOp s)) in
            handleWrite pins id ec n (put_session id s1 a)
          else Blocked
      | None => Blocked
      end
  end.
(** the io thread while no dispatch runs *)
Fixpoint io_run (evs : list io_event) (a : agent) : outcome agent :=
  match evs with
  | [] => Ret a
  | ev :: evs => a1 ← io_handle [] ev a; io_run evs a1
  end.

(** ** The receiving thread *)

Definition kDevtype : Z := 4.
Definition kDevid : Z := 0.
Definition kChannel : Z := 0.
Definition kRxBuffSize : nat := 100.

Definition createVciInitCfg (timing0 timing1 : byte) (mask : Z) : VCI_INIT_CONFIG := {|
  AccCode := 0; AccMask := mask; cfg_Reserved := 0;
  Filter := NUL; Timing0 := timing0; Timing1 := timing1; Mode := NUL |}.

(** the locals of the loop *)
Record rx := mk_rx { send_buff : CanobjQueueNodeT; send_count : Z }.

(** the arguments of [bin2hex_fast] *)
Definition rx_args (send_count now : Z) (can_obj : list byte) : list arg :=
  [AStr (lit "VCI_Receive,"); ABin (le_bytes 8 send_count); ABin (le_bytes 8 now); ABin can_obj; AStr [LF]].
(** [can_rx_buff[i]] *)
Definition rx_obj (can_rx_buff : list byte) (i : nat) : outcome (list byte) :=
  if decide ((S i * sizeof_CAN_OBJ <= length can_rx_buff)%nat)
  then Ret (slice can_rx_buff (i * sizeof_CAN_OBJ) sizeof_CAN_OBJ)
  else UB "read outside can_rx_buff".
(** format one frame into [send_buff] and enqueue a copy *)
Definition publish (now : Z) (can_obj : list byte) (r : rx) (q : eventpp_queue_t)
    : outcome (rx * eventpp_queue_t) :=
  '(buf, len) ← bin2hex_fast (can_obj_ (send_buff r)) 0 (rx_args (send_count r) now can_obj);
  let node := mk_qnode buf len in
  '(_, q1) ← enqueue (kPpqCanObjEvtId, node) q;
  Ret (mk_rx node (u64 (send_count r + 1)), q1).
(** the loop over the frames received; [now i] is what [getTick] returns *)
Fixpoint rx_frames (n i : nat) (now : nat -> Z) (can_rx_buff : list byte) (r : rx) (q : eventpp_queue_t)
    : outcome (rx * eventpp_queue_t) :=
  match n with
  | O => Ret (r, q)
  | S n =>
      can_obj ← rx_obj can_rx_buff i;
      '(r1, q1) ← publish (now i) can_obj r q;
      rx_frames n (S i) now can_rx_buff r1 q1
  end.

(** a listener's call: the session it is bound to *)
Definition call_listener (id : nat) (n : CanobjQueueNodeT) (ss : gmap nat Session) : gmap nat Session :=
  alter (consumeCanObjHandler n) id ss.

(** what the loop of [canRxFunc] does with the frames of one [VCI_Receive] *)
Definition rx_iteration (frame_num : nat) (now : nat -> Z) (can_rx_buff : list byte) (r : rx) (a : agent)
    : outcome (rx * agent) :=
  '(r1, q1) ← rx_frames frame_num 0 now can_rx_buff r (ppq a);
  '(_, q2, ss) ← processIf call_listener (fun _ => (0 <? frame_num)%nat) [] q1 (sessions a);
  Ret (r1, set_sessions ss (set_ppq q2 a)).

Section rx_thread.
Context {V : Type} `{Host V}.

(** [CHECK]: logs and aborts *)
Definition glog_check (what : string) (b : bool) : outcome unit :=
  if b then Ret tt else Throw what.

(** [canRxFunc] before the loop *)
Definition canRx_open (cc : CanAbstract V) (w : world V) : outcome (CanAbstract V * world V) :=
  '(e1, cc1, w1) ← VCI_OpenDevice_c kDevtype 0 0 cc w;
  _ ← glog_check "VCI_OpenDevice fail" (negb (e1 =? 0));
  let cfg := createVciInitCfg x00 x1c 0xffffffff in
  '(e2, cc2, w2) ← VCI_InitCAN_c kDevtype kDevid kChannel (Some cfg) cc1 w1;
  _ ← glog_check "VCI_InitCAN fail" (negb (e2 =? 0));
  '(e3, cc3, w3) ← VCI_StartCAN_c kDevtype kDevid kChannel cc2 w2;
  _ ← glog_check "VCI_StartCAN fail" (negb (e3 =? 0));
  Ret (cc3, w3).

(** the loop while [runFlag] is set: each iteration with the io events before
    its dispatch and the ticks it reads *)
Fixpoint canRx_loop (iters : list (list io_event * (nat -> Z))) (can_rx_buff : list byte) (r : rx)
    (a : agent) (cc : CanAbstract V) (w : world V) : outcome (rx * agent * CanAbstract V * world V) :=
  match iters with
  | [] => Ret (r, a, cc, w)
  | (evs, now) :: iters =>
      '(frame_num, pReceive, cc1, w1) ←
        VCI_Receive_c kDevtype kDevid kChannel (Some can_rx_buff) kRxBuffSize 10 cc w;
      can_rx_buff1 ← deref "can_rx_buff" pReceive;
      a1 ← io_run evs a;
      '(r1, a2) ← rx_iteration frame_num now can_rx_buff1 r a1;
      canRx_loop iters can_rx_buff1 r1 a2 cc1 w1
  end.

(** [main]: the device is opened before the server listens; when the port is
    taken the constructor of the acceptor throws and nothing is served *)
Definition main (bind_ok : bool) (iters : list (list io_event * (nat -> Z))) (can_rx_buff : list byte)
    (send_buff : list byte) (cc : CanAbstract V) (w : world V)
    : outcome (rx * agent * CanAbstract V * world V) :=
  '(cc1, w1) ← canRx_open cc w;
  a ← (if bind_ok then startAccepting [] (server_init agent_init) else Ret agent_init);
  canRx_loop iters can_rx_buff (mk_rx (mk_qnode send_buff 0) 0) a cc1 w1.
End rx_thread.

(** ** [pubSimuFunc] *)

(** the frame with [send_count] as its data *)
Definition simu_obj (send_count : Z) : VCI_CAN_OBJ := {|
  ID := 0; TimeStamp := 0; TimeFlag := NUL; SendType := NUL; RemoteFlag := NUL; ExternFlag := NUL;
  DataLen := NUL; Data := le_bytes 8 send_count; obj_Reserved := repeat NUL 3 |}.
Fixpoint simu_frames (n i : nat) (now : nat -> Z) (r : rx) (q : eventpp_queue_t)
    : outcome (rx * eventpp_queue_t) :=
  match n with
  | O => Ret (r, q)
  | S n =>
      '(r1, q1) ← publish (now i) (enc_CAN_OBJ (simu_obj (send_count r))) r q;
      simu_frames n (S i) now r1 q1
  end.
Definition pubSimu_iteration (now : nat -> Z) (r : rx) (a : agent) : outcome (rx * agent) :=
  '(r1, q1) ← simu_frames 10 0 now r (ppq a);
  '(err, q2, ss) ← process call_listener [] q1 (sessions a);
  _ ← glog_check "eventpp_queue_t::process fail." err;
  Ret (r1, set_sessions ss (set_ppq q2 a)).
(** [pubSimuFunc]: each iteration with the io events before it and its ticks *)
Fixpoint pubSimuFunc (iters : list (list io_event * (nat -> Z))) (r : rx) (a : agent) : outcome (rx * agent) :=
  match iters with
  | [] => Ret (r, a)
  | (evs, now) :: iters =>
      a1 ← io_run evs a;
      '(r1, a2) ← pubSimu_iteration now r a1;
      pubSimuFunc iters r1 a2
  end.
