(* ===== verification/AgentFacts.v ===== *)
(** * AgentFacts
    The agent: what the receiving thread publishes, the stream a session sends,
    how the handlers of the io thread act on the sessions, and the way of a
    frame from the bus to a client's [VCI_Receive]. *)

From Stdlib Require Import ZArith Lia.
From Stdlib Require Import Strings.Byte.
From stdpp Require Import base numbers list option gmap fin_maps strings.
From S2P Require Import Prelude UsbCan HexCodec AsioRun Ini NetClient NetClientFacts NetClientProps CanImp Facade CallbackList CallbackListFacts EventQueue EventQueueFacts Agent.

(** ** Lines in queue nodes *)

(** the node holds the line [l]: its text, a line feed and the terminator *)
Definition carries (n : CanobjQueueNodeT) (l : list byte) : Prop :=
  NUL ∉ l /\ len_ n = S (length l) /\ length (can_obj_ n) = kCanobjCapacity /\
  exists rest, can_obj_ n = l ++ LF :: NUL :: rest.

Lemma put_can_obj_carries os n l : carries n l -> put_can_obj os n = Ret (os ++ l ++ [LF]).
Proof.
  intros (Hn & _ & _ & rest & E). unfold put_can_obj. rewrite E.
  rewrite decide_True by set_solver. do 2 f_equal.
  change (l ++ LF :: NUL :: rest) with (l ++ [LF] ++ NUL :: rest). rewrite (app_assoc l [LF]).
  apply cstr_app_NUL, Forall_forall. intros b [Hb|Hb%list_elem_of_singleton]%elem_of_app.
  - intros ->. done.
  - by subst b.
Qed.
(** the two ways to print a node agree *)
Lemma put_node_carries os n l : carries n l -> put_node os n = put_can_obj os n.
Proof.
  intros Hc. rewrite (put_can_obj_carries _ _ _ Hc). destruct Hc as (_ & Hl & Hc & rest & E).
  unfold put_node. rewrite Hl, E. rewrite decide_True by (rewrite length_app; simpl; lia). do 2 f_equal.
  change (l ++ LF :: NUL :: rest) with (l ++ [LF] ++ NUL :: rest). rewrite (app_assoc l [LF]).
  rewrite take_app_length'; [done|]. rewrite length_app. simpl. lia.
Qed.

Lemma rx_text num now bs :
  length bs = sizeof_CAN_OBJ ->
  text_of (rx_args num now bs) = receive_line num now (dec_CAN_OBJ bs) ++ [LF].
Proof.
  intros Hl. unfold rx_args, receive_line. rewrite enc_dec_CAN_OBJ by done.
  rewrite !text_of_cons. cbn [arg_text]. unfold text_of. cbn [mbind list_bind].
  rewrite app_nil_r, <- !app_assoc. done.
Qed.
Lemma length_receive_line num now o :
  wf_CAN_OBJ o -> length (receive_line num now o) = 92%nat.
Proof.
  intros Hwf. unfold receive_line. rewrite !length_app, !length_hex_of, !length_le_bytes, length_enc_CAN_OBJ by done.
  by vm_compute.
Qed.
Lemma hex_no_NUL s : Forall (fun c => is_hex c = true) s -> NUL ∉ s.
Proof.
  intros Hs Hin. rewrite Forall_forall in Hs. by apply Hs, is_hex_not_special in Hin as [].
Qed.
Lemma receive_line_NUL_free num now o : NUL ∉ receive_line num now o.
Proof.
  unfold receive_line. rewrite !not_elem_of_app. split_and!.
  - apply (bool_decide_unpack _). by vm_compute.
  - apply hex_no_NUL, hex_of_is_hex.
  - apply hex_no_NUL, hex_of_is_hex.
  - apply hex_no_NUL, hex_of_is_hex.
Qed.

(** ** The receiving thread *)

(** the frames of one call, as the lines number and stamp them *)
Fixpoint rx_list (n i : nat) (now : nat -> Z) (buf : list byte) (c : Z) : list (Z * Z * VCI_CAN_OBJ) :=
  match n with
  | O => []
  | S n => (c, now i, dec_CAN_OBJ (slice buf (i * sizeof_CAN_OBJ) sizeof_CAN_OBJ))
             :: rx_list n (S i) now buf (u64 (c + 1))
  end.

Definition rx_ok (r : rx) : Prop := length (can_obj_ (send_buff r)) = kCanobjCapacity.
Definition frame_event (n : CanobjQueueNodeT) : @QueuedEvent Z CanobjQueueNodeT := (kPpqCanObjEvtId, n).

Lemma publish_spec now bs r q evs :
  rx_ok r -> length bs = sizeof_CAN_OBJ -> holds q evs ->
  exists r' q', publish now bs r q = Ret (r', q') /\ rx_ok r' /\ send_count r' = u64 (send_count r + 1) /\
    carries (send_buff r') (receive_line (send_count r) now (dec_CAN_OBJ bs)) /\
    holds q' (evs ++ [frame_event (send_buff r')]) /\ same_rest q q'.
Proof.
  intros Hr Hb Hq. unfold publish.
  set (l := receive_line (send_count r) now (dec_CAN_OBJ bs)).
  assert (Ht : text_of (rx_args (send_count r) now bs) = l ++ [LF]) by (by apply rx_text).
  assert (Hl : length (l ++ [LF]) = 93%nat).
  { rewrite length_app. unfold l. rewrite length_receive_line by (by apply wf_dec_CAN_OBJ). done. }
  unfold rx_ok, kCanobjCapacity in Hr.
  rewrite bin2hex_fast_fits by (rewrite Ht, Hl; lia).
  rewrite Ht, write_at_Ret by (rewrite length_app, Hl; simpl; lia). cbn [mbind outcome_bind].
  rewrite take_0, app_nil_l. rewrite (length_app (l ++ [LF])), Hl. simpl (_ + _)%nat.
  match goal with |- context [enqueue (kPpqCanObjEvtId, ?nd) q] => set (node := nd) end.
  change (kPpqCanObjEvtId, node) with (frame_event node). unfold enqueue.
  destruct (doEnqueue_spec (frame_event node) q evs Hq) as (q' & -> & Hh & Hs).
  cbn [mbind outcome_bind]. eexists _, q'. split; [done|]. cbn [send_buff send_count].
  assert (Hcap : length (can_obj_ node) = kCanobjCapacity).
  { simpl. rewrite !length_app in *. simpl in *. rewrite length_drop, Hr. unfold kCanobjCapacity. lia. }
  split_and!; try done. unfold carries. cbn [can_obj_ len_]. split_and!.
  - apply receive_line_NUL_free.
  - rewrite length_app in Hl. simpl in *. lia.
  - done.
  - eexists. simpl. rewrite <- !app_assoc. simpl. done.
Qed.

Lemma rx_obj_spec buf i :
  (S i * sizeof_CAN_OBJ <= length buf)%nat ->
  rx_obj buf i = Ret (slice buf (i * sizeof_CAN_OBJ) sizeof_CAN_OBJ) /\
  length (slice buf (i * sizeof_CAN_OBJ) sizeof_CAN_OBJ) = sizeof_CAN_OBJ.
Proof.
  intros Hi. unfold rx_obj, slice. rewrite decide_True by done. split; [done|].
  rewrite length_take, length_drop. lia.
Qed.

Lemma rx_frames_spec n i now buf r q evs :
  rx_ok r -> ((i + n) * sizeof_CAN_OBJ <= length buf)%nat -> holds q evs ->
  exists r' q' ns, rx_frames n i now buf r q = Ret (r', q') /\ rx_ok r' /\
    Forall2 carries ns (agent_lines (rx_list n i now buf (send_count r))) /\
    holds q' (evs ++ (frame_event <$> ns)) /\ same_rest q q' /\
    (is_u64 (send_count r) -> send_count r' = u64 (send_count r + Z.of_nat n)).
Proof.
  revert i r q evs. induction n as [|n IH]; intros i r q evs Hr Hi Hq; cbn [rx_frames rx_list].
  - exists r, q, []. rewrite app_nil_r. split_and!; try done.
    intros Hc. by rewrite Z.add_0_r, u64_small.
  - destruct (rx_obj_spec buf i) as [-> Hl]; [lia|]. cbn [mbind outcome_bind].
    destruct (publish_spec (now i) _ r q evs Hr Hl Hq) as (r1 & q1 & -> & Hr1 & Hc1 & Hn1 & Hq1 & Hs1).
    cbn [mbind outcome_bind].
    destruct (IH (S i) r1 q1 (evs ++ [frame_event (send_buff r1)]) Hr1)
      as (r2 & q2 & ns & -> & Hr2 & Hns & Hq2 & Hs2 & Hc2); [lia|done|].
    exists r2, q2, (send_buff r1 :: ns). rewrite Hc1 in Hns. split_and!; try done.
    + by constructor.
    + by rewrite <- app_assoc in Hq2.
    + by eapply same_rest_trans.
    + intros Hc. rewrite Hc2 by (rewrite Hc1; auto with can). rewrite Hc1. autorewrite with can. f_equal. lia.
Qed.

(** ** A session *)

(** what happens to one session: a delivery by the receiving thread, the timer,
    the end of a write *)
Inductive session_event : Type :=
| SDeliver (n : CanobjQueueNodeT)
| STimer
| SWrite (ec : Z) (n : nat).
Definition session_step (ev : session_event) (s : Session) : outcome Session :=
  match ev with
  | SDeliver n => Ret (consumeCanObjHandler n s)
  | STimer => if decide (pending_op s = TimerWait) then doCanObjTranspose (set_pending NoOp s) else Blocked
  | SWrite ec n =>
      if decide (pending_op s = Writing /\ (n <= length (shr_tx_buff_ s))%nat /\
                 (ec = 0 -> n = length (shr_tx_buff_ s)))
      then
        let s1 := consume n (add_socket (take n (shr_tx_buff_ s)) (set_pending NoOp s)) in
        let s2 := consume n s1 in
        if negb (ec =? 0) then Ret s2 else doCanObjTranspose s2
      else Blocked
  end.
Fixpoint session_run (evs : list session_event) (s : Session) : outcome Session :=
  match evs with
  | [] => Ret s
  | ev :: evs => s1 ← session_step ev s; session_run evs s1
  end.
Lemma session_run_app e1 e2 s :
  session_run (e1 ++ e2) s = (s1 ← session_run e1 s; session_run e2 s1).
Proof.
  revert s. induction e1 as [|ev e1 IH]; intros s; [done|]. cbn [session_run app].
  destruct (session_step ev s); [apply IH|done..].
Qed.

(** the nodes delivered in a run *)
Definition delivered (evs : list session_event) : list CanobjQueueNodeT :=
  omap (fun ev => match ev with SDeliver n => Some n | _ => None end) evs.

(** [ks] are the lines that left the queue, [qs] those in it; [ls] were delivered *)
Record session_inv (s : Session) (ls ks qs : list (list byte)) : Prop := {
  si_queue : Forall2 carries (spsc_queue_ s) qs;
  si_cap : (length qs <= spsc_capacity)%nat;
  si_order : (ks ++ qs) `sublist_of` ls;
  si_all : (length ls <= spsc_capacity)%nat -> ks ++ qs = ls;
  si_live : pending_op s <> NoOp -> socket_ s ++ shr_tx_buff_ s = lines_text ks;
  si_sent : socket_ s `prefix_of` lines_text ks;
  si_idle : pending_op s = TimerWait -> shr_tx_buff_ s = [];
  si_busy : pending_op s = Writing -> shr_tx_buff_ s <> [];
}.

Lemma transpose_loop_spec i s qs :
  Forall2 carries (spsc_queue_ s) qs ->
  transpose_loop i s = Ret (set_tx_buff (shr_tx_buff_ s ++ lines_text (take i qs))
                              (set_spsc (drop i (spsc_queue_ s)) s)).
Proof.
  revert s qs. induction i as [|i IH]; intros [so sp tx h p] qs Hq; cbn [transpose_loop spsc_queue_] in *.
  - rewrite take_0. unfold lines_text. simpl. by rewrite app_nil_r.
  - destruct Hq as [|n l sp qs Hn Hq]; cbn [take drop shr_tx_buff_].
    + unfold lines_text. simpl. by rewrite app_nil_r.
    + rewrite (put_can_obj_carries _ _ _ Hn). cbn [mbind outcome_bind].
      rewrite (IH _ qs) by exact Hq. unfold set_tx_buff, set_spsc. simpl.
      by rewrite lines_text_cons, <- !app_assoc.
Qed.

(** the state after [doCanObjTranspose]: up to eight lines have left the queue,
    and a write is pending exactly when there is something to write *)
Lemma doCanObjTranspose_spec s ls ks qs :
  session_inv s ls ks qs -> socket_ s ++ shr_tx_buff_ s = lines_text ks ->
  exists s', doCanObjTranspose s = Ret s' /\ pending_op s' <> NoOp /\
    session_inv s' ls (ks ++ take 8 qs) (drop 8 qs) /\
    socket_ s' = socket_ s /\ shr_tx_buff_ s' = shr_tx_buff_ s ++ lines_text (take 8 qs) /\
    ppq_handle_ s' = ppq_handle_ s.
Proof.
  intros [Hq Hc Ho Ha _ Hp _ _] Hl. unfold doCanObjTranspose. rewrite (transpose_loop_spec 8 s qs Hq).
  cbn [mbind outcome_bind]. set (s1 := set_tx_buff _ _).
  assert (Hs1 : session_inv (set_pending NoOp s1) ls (ks ++ take 8 qs) (drop 8 qs)).
  { split; simpl; try done.
    - by apply Forall2_drop.
    - rewrite length_drop. lia.
    - by rewrite <- app_assoc, take_drop.
    - intros H. by rewrite <- app_assoc, take_drop, Ha.
    - rewrite lines_text_app. by apply prefix_app_r. }
  assert (Hb : socket_ s1 ++ shr_tx_buff_ s1 = lines_text (ks ++ take 8 qs)).
  { simpl. by rewrite lines_text_app, app_assoc, Hl. }
  destruct Hs1 as [Hq1 Hc1 Ho1 Ha1 _ Hp1 _ _].
  destruct (0 <? length (shr_tx_buff_ s1))%nat eqn:E; eexists; (split; [done|]).
  - apply Nat.ltb_lt in E. split_and!; try done. split; try done. simpl. intros _ E1.
    unfold s1 in E. simpl in E. rewrite E1 in E. simpl in E. lia.
  - apply Nat.ltb_ge in E. split_and!; try done. split; try done. simpl. intros _.
    apply nil_length_inv. unfold s1 in E. simpl in E. lia.
Qed.

Lemma deliver_inv s ls ks qs n l :
  session_inv s ls ks qs -> carries n l ->
  exists qs', session_inv (consumeCanObjHandler n s) (ls ++ [l]) ks qs' /\
    qs' = if (length qs <? spsc_capacity)%nat then qs ++ [l] else qs.
Proof.
  intros [Hq Hc Ho Ha Hl Hp Hi Hb] Hn. unfold consumeCanObjHandler.
  pose proof (Forall2_length _ _ _ Hq) as <-. destruct (Nat.ltb_spec (length (spsc_queue_ s)) spsc_capacity).
  - exists (qs ++ [l]). pose proof (Forall2_length _ _ _ Hq) as Hlen. split; [|done]. split; simpl; try done.
    + apply Forall2_app; [done|]. by apply Forall2_cons.
    + rewrite length_app. simpl. lia.
    + rewrite app_assoc. by apply sublist_app.
    + rewrite length_app. simpl. intros. rewrite app_assoc, Ha by lia. done.
  - exists qs. pose proof (Forall2_length _ _ _ Hq) as Hlen. split; [|done]. split; try done.
    + by apply sublist_inserts_r.
    + rewrite length_app. simpl. intros Hle. exfalso. specialize (Ha ltac:(lia)).
      apply (f_equal length) in Ha. rewrite length_app in Ha. lia.
Qed.

(** a live session is waiting for its timer or for the end of a write *)
Lemma timer_step s ls ks qs :
  session_inv s ls ks qs -> pending_op s = TimerWait ->
  exists s', session_step STimer s = Ret s' /\ pending_op s' <> NoOp /\
    session_inv s' ls (ks ++ take 8 qs) (drop 8 qs) /\ socket_ s' = socket_ s /\
    shr_tx_buff_ s' = lines_text (take 8 qs) /\ ppq_handle_ s' = ppq_handle_ s.
Proof.
  intros Hi Hp. cbn [session_step]. rewrite decide_True by done.
  pose proof (si_idle _ _ _ _ Hi Hp) as Htx.
  assert (Hl : socket_ s ++ shr_tx_buff_ s = lines_text ks) by (eapply si_live; [done|by rewrite Hp]).
  destruct (doCanObjTranspose_spec (set_pending NoOp s) ls ks qs) as (s' & -> & Hp' & Hi' & Hs & Ht & Hh).
  - destruct Hi as [Hq Hc Ho Ha _ Hx _ _]. by split.
  - done.
  - exists s'. split_and!; try done. rewrite Ht. simpl. by rewrite Htx.
Qed.

Lemma write_step s ls ks qs :
  session_inv s ls ks qs -> pending_op s = Writing ->
  exists s', session_step (SWrite 0 (length (shr_tx_buff_ s))) s = Ret s' /\ pending_op s' <> NoOp /\
    session_inv s' ls (ks ++ take 8 qs) (drop 8 qs) /\ socket_ s' = lines_text ks /\
    shr_tx_buff_ s' = lines_text (take 8 qs) /\ ppq_handle_ s' = ppq_handle_ s.
Proof.
  intros Hi Hp. cbn [session_step]. rewrite decide_True by done. cbn [negb Z.eqb].
  assert (Hl : socket_ s ++ shr_tx_buff_ s = lines_text ks) by (eapply si_live; [done|by rewrite Hp]).
  set (s2 := consume _ _).
  assert (Hs2 : socket_ s2 = lines_text ks) by (simpl; by rewrite take_ge).
  assert (Ht2 : shr_tx_buff_ s2 = []) by (simpl; by rewrite drop_all, drop_nil).
  destruct (doCanObjTranspose_spec s2 ls ks qs) as (s' & -> & Hp' & Hi' & Hs & Ht & Hh).
  - destruct Hi as [Hq Hc Ho Ha _ Hx _ _]. split; try done. by rewrite Hs2.
  - by rewrite Hs2, Ht2, app_nil_r.
  - exists s'. split_and!; try done; [by rewrite Hs|by rewrite Ht, Ht2].
Qed.

Lemma failed_write s ls ks qs ec n s' :
  session_inv s ls ks qs -> ec <> 0 -> session_step (SWrite ec n) s = Ret s' -> session_inv s' ls ks qs.
Proof.
  intros Hi He. cbn [session_step]. case_decide as D; [|done]. destruct D as (Hp & Hn & _).
  rewrite (proj2 (Z.eqb_neq ec 0) He). cbn [negb]. intros [= <-].
  assert (Hl : socket_ s ++ shr_tx_buff_ s = lines_text ks) by (eapply si_live; [done|by rewrite Hp]).
  destruct Hi as [Hq Hc Ho Ha _ Hx _ _]. split; try done. simpl. rewrite <- Hl.
  apply prefix_app. exists (drop n (shr_tx_buff_ s)). by rewrite take_drop.
Qed.

(** *** The reference: a bounded queue *)

(** The lines that left the queue, those in it, and how many were turned away. *)
Record backlog : Type := mk_backlog { taken : list (list byte); queued : list (list byte); lost : nat }.
(** a line comes: it is turned away exactly when 2048 lines are in the queue *)
Definition offer (l : list byte) (w : backlog) : backlog :=
  if (length (queued w) <? spsc_capacity)%nat then mk_backlog (taken w) (queued w ++ [l]) (lost w)
  else mk_backlog (taken w) (queued w) (S (lost w)).
(** a timer or the end of a write: up to eight lines leave the queue *)
Definition take_eight (w : backlog) : backlog :=
  mk_backlog (taken w ++ take 8 (queued w)) (drop 8 (queued w)) (lost w).
Fixpoint bounded (evs : list session_event) (ls : list (list byte)) (w : backlog) : backlog :=
  match evs with
  | [] => w
  | SDeliver _ :: evs => match ls with l :: ls => bounded evs ls (offer l w) | [] => w end
  | STimer :: evs => bounded evs ls (take_eight w)
  | SWrite ec _ :: evs => bounded evs ls (if ec =? 0 then take_eight w else w)
  end.

(** the session follows the reference: after the lines [ls] it stands at [w] *)
Definition follows (s : Session) (ls : list (list byte)) (w : backlog) : Prop :=
  session_inv s ls (taken w) (queued w) /\ length ls = (length (taken w ++ queued w) + lost w)%nat.

Lemma follows_exact s ls w : follows s ls w -> lost w = 0%nat -> taken w ++ queued w = ls.
Proof.
  intros [Hi Hl] E. rewrite E, Nat.add_0_r in Hl. apply sublist_same_length; [apply (si_order _ _ _ _ Hi)|done].
Qed.
Lemma length_take_eight w : length (taken (take_eight w) ++ queued (take_eight w)) = length (taken w ++ queued w).
Proof. simpl. by rewrite <- app_assoc, take_drop. Qed.

Lemma follows_step ev s s' ls w l1 :
  follows s ls w -> Forall2 carries (delivered [ev]) l1 -> session_step ev s = Ret s' ->
  follows s' (ls ++ l1) (bounded [ev] l1 w).
Proof.
  intros [Hi Hl] Hd Hs. destruct ev as [n| |ec n]; simpl in Hd.
  - inversion Hd as [|? l ? ? Hn Hnil]; subst. inversion Hnil; subst. injection Hs as <-.
    destruct (deliver_inv s ls _ _ n l Hi Hn) as (qs' & Hi' & E). cbn [bounded]. unfold offer, follows.
    rewrite length_app, Hl, !length_app. destruct (_ <? _)%nat; subst qs'; (split; [done|]); simpl; rewrite ?length_app; simpl; lia.
  - inversion Hd; subst. rewrite app_nil_r. pose proof Hs as Hs0. cbn [session_step] in Hs0.
    case_decide as D; [|done]. destruct (timer_step s ls _ _ Hi D) as (s1 & E & _ & Hi1 & _).
    rewrite E in Hs. injection Hs as <-. split; [done|]. cbn [bounded]. by rewrite length_take_eight.
  - inversion Hd; subst. rewrite app_nil_r. cbn [bounded]. destruct (Z.eqb_spec ec 0) as [->|He].
    + pose proof Hs as Hs0. cbn [session_step] in Hs0. case_decide as D; [|done]. destruct D as (Hp & _ & Hn).
      destruct (write_step s ls _ _ Hi Hp) as (s1 & E & _ & Hi1 & _). rewrite <- Hn in E by done.
      rewrite E in Hs. injection Hs as <-. split; [done|]. by rewrite length_take_eight.
    + split; [by eapply failed_write|done].
Qed.

(** a step that delivers nothing loses nothing *)
Lemma session_step_inv ev s s' ls ks qs :
  session_inv s ls ks qs -> delivered [ev] = [] -> session_step ev s = Ret s' ->
  exists ks' qs', session_inv s' ls ks' qs' /\ ks' ++ qs' = ks ++ qs.
Proof.
  intros Hi Hd Hs. destruct ev as [n| |ec n]; [done|..].
  - pose proof Hs as Hs0. cbn [session_step] in Hs0. case_decide as D; [|done].
    destruct (timer_step s ls ks qs Hi D) as (s1 & E & _ & Hi1 & _). rewrite E in Hs. injection Hs as <-.
    eexists _, _. split; [exact Hi1|]. by rewrite <- app_assoc, take_drop.
  - destruct (decide (ec = 0)) as [->|He]; [|exists ks, qs; split; [by eapply failed_write|done]].
    pose proof Hs as Hs0. cbn [session_step] in Hs0. case_decide as D; [|done]. destruct D as (Hp & _ & Hn).
    destruct (write_step s ls ks qs Hi Hp) as (s1 & E & _ & Hi1 & _). rewrite <- Hn in E by done.
    rewrite E in Hs. injection Hs as <-. eexists _, _. split; [exact Hi1|]. by rewrite <- app_assoc, take_drop.
Qed.

Lemma session_step_defined ev s ls ks qs : session_inv s ls ks qs -> is_UB (session_step ev s) = false.
Proof.
  intros Hi. destruct ev as [n| |ec n]; [done| |].
  - destruct (decide (pending_op s = TimerWait)) as [Hp|Hp].
    + by destruct (timer_step s ls ks qs Hi Hp) as (s1 & -> & _).
    + cbn [session_step]. by rewrite decide_False.
  - destruct (decide (pending_op s = Writing /\ (n <= length (shr_tx_buff_ s))%nat /\
      (ec = 0 -> n = length (shr_tx_buff_ s)))) as [D|D]; [|cbn [session_step]; by rewrite decide_False].
    pose proof D as (Hp & _ & Hn). destruct (decide (ec = 0)) as [->|He].
    + destruct (write_step s ls ks qs Hi Hp) as (s1 & E1 & _). rewrite <- Hn in E1 by done. by rewrite E1.
    + cbn [session_step]. rewrite decide_True by done. by rewrite (proj2 (Z.eqb_neq ec 0) He).
Qed.

Lemma delivered_cons ev evs : delivered (ev :: evs) = delivered [ev] ++ delivered evs.
Proof. by destruct ev. Qed.

Lemma bounded_cons ev evs l1 l2 w :
  Forall2 carries (delivered [ev]) l1 -> bounded (ev :: evs) (l1 ++ l2) w = bounded evs l2 (bounded [ev] l1 w).
Proof.
  intros Hd. destruct ev as [n| |ec n]; simpl in Hd; inversion Hd as [|? ? ? ? ? Hnil]; subst; [|done..].
  by inversion Hnil; subst.
Qed.
Lemma follows_run evs s ls w l1 :
  follows s ls w -> Forall2 carries (delivered evs) l1 ->
  is_UB (session_run evs s) = false /\
  forall s', session_run evs s = Ret s' -> follows s' (ls ++ l1) (bounded evs l1 w).
Proof.
  revert s ls w l1. induction evs as [|ev evs IH]; intros s ls w l1 Hi Hd.
  - inversion Hd; subst. split; [done|]. intros s' [= <-]. by rewrite app_nil_r.
  - rewrite delivered_cons in Hd. apply Forall2_app_inv_l in Hd as (l2 & l3 & Hd1 & Hd2 & ->).
    cbn [session_run]. pose proof (session_step_defined ev s ls _ _ (proj1 Hi)) as Hu.
    destruct (session_step ev s) as [s1| | |] eqn:E; try done. cbn [mbind outcome_bind].
    rewrite app_assoc, (bounded_cons _ _ _ _ _ Hd1). apply (IH s1); [|done]. by eapply follows_step.
Qed.

(** deliveries alone *)
Lemma deliveries_inv ns s ls ks qs l1 :
  session_inv s ls ks qs -> Forall2 carries ns l1 ->
  exists ks' qs', session_inv (fold_left (fun s n => consumeCanObjHandler n s) ns s) (ls ++ l1) ks' qs'.
Proof.
  intros Hi Hn. revert s ls qs Hi. induction Hn as [|n l ns l1 Hc Hn IH]; intros s ls qs Hi.
  - rewrite app_nil_r. by exists ks, qs.
  - destruct (deliver_inv s ls ks qs n l Hi Hc) as (qs' & Hi' & _). cbn [fold_left].
    change (l :: l1) with ([l] ++ l1). rewrite app_assoc. by eapply IH.
Qed.

(** ** Draining a session *)

Definition drains (s : Session) (ks qs : list (list byte)) (bound : nat) : Prop :=
  exists evs s', (length evs <= bound)%nat /\ delivered evs = [] /\ session_run evs s = Ret s' /\
    socket_ s' = lines_text (ks ++ qs) /\ spsc_queue_ s' = [] /\ shr_tx_buff_ s' = [].

Lemma drains_step ev s s1 ks1 qs1 ks qs b :
  session_step ev s = Ret s1 -> delivered [ev] = [] -> ks1 ++ qs1 = ks ++ qs ->
  drains s1 ks1 qs1 b -> drains s ks qs (S b).
Proof.
  intros Hs Hd Heq (evs & s' & Hb & Hde & Hr & Hso & Hq & Ht). exists (ev :: evs), s'.
  rewrite delivered_cons, Hd, Hde. cbn [session_run]. rewrite Hs, <- Heq. split_and!; try done. simpl. lia.
Qed.

Lemma drained s ls ks : session_inv s ls ks [] -> pending_op s = TimerWait -> drains s ks [] 0.
Proof.
  intros Hi Hp. exists [], s. pose proof (si_idle _ _ _ _ Hi Hp) as Ht.
  pose proof (si_live _ _ _ _ Hi ltac:(by rewrite Hp)) as Hl. pose proof (si_queue _ _ _ _ Hi) as Hq.
  inversion Hq. rewrite Ht in Hl. split_and!; try done. by rewrite app_nil_r in Hl |- *.
Qed.

(** after a transposition of some lines a write is pending *)
Lemma writing_after s ls ks qs l tx :
  session_inv s ls ks qs -> pending_op s <> NoOp -> shr_tx_buff_ s = lines_text (l :: tx) ->
  pending_op s = Writing.
Proof.
  intros Hi Hp Ht. destruct (pending_op s) eqn:E; [done| |done]. exfalso.
  pose proof (si_idle _ _ _ _ Hi E) as Hn. rewrite Ht, lines_text_cons in Hn. by destruct l.
Qed.

Lemma rounds_step m : (0 < m -> S ((m - 8 + 7) / 8) <= (m + 7) / 8)%nat.
Proof.
  intros Hm. destruct (decide (m <= 8)%nat) as [H|H].
  - replace (m - 8)%nat with 0%nat by lia. change (1 <= (m + 7) / 8)%nat.
    apply (Nat.div_le_mono 8 (m + 7) 8); lia.
  - replace (m + 7)%nat with (m - 8 + 7 + 1 * 8)%nat by lia. rewrite Nat.div_add by lia. lia.
Qed.

Lemma drains_writing s ls ks qs :
  session_inv s ls ks qs -> pending_op s = Writing -> drains s ks qs (1 + (length qs + 7) / 8).
Proof.
  remember (length qs) as n eqn:En. revert s ks qs En.
  induction n as [n IH] using (well_founded_induction lt_wf). intros s ks qs En Hi Hp.
  destruct (write_step s ls ks qs Hi Hp) as (s1 & E & Hp1 & Hi1 & Hso & Htx & _).
  destruct qs as [|l qs].
  - eapply (drains_step _ _ _ ks []); [exact E|done|done|]. subst n. simpl.
    rewrite take_nil, app_nil_r in Hi1. cbn [drop] in Hi1.
    apply (drained s1 ls ks Hi1). destruct (pending_op s1) eqn:E1; try done.
    exfalso. by apply (si_busy _ _ _ _ Hi1).
  - assert (Hw : pending_op s1 = Writing) by (by eapply writing_after).
    assert (Hlt : (length (drop 8 (l :: qs)) < n)%nat) by (rewrite length_drop; simpl in *; lia).
    pose proof (IH _ Hlt s1 _ _ eq_refl Hi1 Hw) as Hd.
    assert (Hb : (S (1 + (length (drop 8 (l :: qs)) + 7) / 8) <= 1 + (n + 7) / 8)%nat).
    { rewrite length_drop, <- En. pose proof (rounds_step n). simpl in En. lia. }
    assert (Hsplit : (ks ++ take 8 (l :: qs)) ++ drop 8 (l :: qs) = ks ++ l :: qs)
      by (by rewrite <- app_assoc, take_drop).
    destruct (drains_step _ _ _ _ _ _ _ _ E eq_refl Hsplit Hd) as (evs & s' & Hle & Hrest).
    exists evs, s'. split; [lia|done].
Qed.

Lemma live_drains s ls ks qs :
  session_inv s ls ks qs -> pending_op s <> NoOp -> drains s ks qs (1 + (length qs + 7) / 8).
Proof.
  intros Hi Hp. destruct (pending_op s) eqn:Ep; [done| |by eapply drains_writing].
  destruct qs as [|l qs].
  - destruct (drained s ls ks Hi Ep) as (evs & s' & Hle & Hrest). exists evs, s'. split; [lia|done].
  - destruct (timer_step s ls ks (l :: qs) Hi Ep) as (s1 & E & Hp1 & Hi1 & Hso & Htx & _).
    assert (Hw : pending_op s1 = Writing) by (by eapply writing_after).
    pose proof (drains_writing s1 ls _ _ Hi1 Hw) as Hd.
    assert (Hsplit : (ks ++ take 8 (l :: qs)) ++ drop 8 (l :: qs) = ks ++ l :: qs)
      by (by rewrite <- app_assoc, take_drop).
    destruct (drains_step _ _ _ _ _ _ _ _ E eq_refl Hsplit Hd) as (evs & s' & Hle & Hrest).
    exists evs, s'. rewrite length_drop in Hle. split; [|done].
      pose proof (rounds_step (length (l :: qs)) ltac:(simpl; lia)). lia.
Qed.
