(* ===== verification/AgentProps.v ===== *)
(** * AgentProps
    The properties of the agent as a whole: the receiving thread publishes, the
    io thread serves, every session sends its stream, and the frames reach the
    clients. *)

From Stdlib Require Import ZArith Lia.
From Stdlib Require Import Strings.Byte.
From stdpp Require Import base numbers list option gmap fin_maps strings.
From S2P Require Import Prelude UsbCan HexCodec AsioRun Ini NetClient NetClientFacts NetClientProps CanImp Facade CallbackList CallbackListFacts EventQueue EventQueueFacts Agent AgentFacts.

(** ** Publishing *)

(** nothing is queued, and the listeners of the frames are [L] *)
Definition only (L : list (positive * nat)) (e : Z) : list (positive * nat) :=
  if decide (e = kPpqCanObjEvtId) then L else [].
Definition quiet (q : eventpp_queue_t) (L : list (positive * nat)) : Prop :=
  holds q [] /\ listening (listeners q) (only L).

Definition deliver_all (ns : list CanobjQueueNodeT) (s : Session) : Session :=
  fold_left (fun s n => consumeCanObjHandler n s) ns s.

Lemma call_listeners ids n (ss : gmap nat Session) id :
  NoDup ids ->
  fold_left (fun ss cb => call_listener cb n ss) ids ss !! id
    = if decide (id ∈ ids) then consumeCanObjHandler n <$> ss !! id else ss !! id.
Proof.
  intros Hnd. revert ss. induction Hnd as [|x ids Hx Hnd IH]; intros ss; cbn [fold_left].
  - by rewrite decide_False by (by apply not_elem_of_nil).
  - rewrite IH. unfold call_listener. destruct (decide (id = x)) as [->|Hne].
    + rewrite decide_False by done. rewrite decide_True by (by left). by rewrite lookup_alter_eq.
    + rewrite lookup_alter_ne by done. destruct (decide (id ∈ ids)).
      * by rewrite decide_True by (by right).
      * rewrite decide_False; [done|]. by intros [|]%elem_of_cons.
Qed.

Lemma dispatch_frames d L ns (ss : gmap nat Session) id :
  listening d (only L) -> NoDup L.*2 ->
  dispatches call_listener d (frame_event <$> ns) ss !! id
    = if decide (id ∈ L.*2) then deliver_all ns <$> ss !! id else ss !! id.
Proof.
  intros Hd Hnd. revert ss. induction ns as [|n ns IH]; intros ss.
  - change (ss !! id = if decide (id ∈ L.*2) then deliver_all [] <$> ss !! id else ss !! id).
    case_decide; [|done]. by destruct (ss !! id).
  - unfold dispatches in *. rewrite fmap_cons. cbn [fold_left]. rewrite IH.
    rewrite (directDispatch_spec _ _ _ _ _ _ Hd). change (only L (fst (frame_event n))) with L.
    rewrite call_listeners by done. case_decide; [|done]. by destruct (ss !! id).
Qed.

Lemma filter_all {X} (P : X -> Prop) `{forall x, Decision (P x)} (l : list X) :
  (forall x, P x) -> filter P l = l.
Proof. intros Hp. induction l as [|x l IH]; [done|]. rewrite filter_cons_True by done. by rewrite IH. Qed.
Lemma filter_none {X} (P : X -> Prop) `{forall x, Decision (P x)} (l : list X) :
  (forall x, ~ P x) -> filter P l = [].
Proof. intros Hp. induction l as [|x l IH]; [done|]. by rewrite filter_cons_False. Qed.

Lemma quiet_after q q' L : quiet q L -> holds q' [] -> same_rest q q' -> quiet q' L.
Proof. intros [_ Hl] Hh (El & _). split; [done|]. by rewrite El. Qed.

Lemma rx_iteration_spec n now buf r a L :
  quiet (ppq a) L -> NoDup L.*2 -> rx_ok r -> is_u64 (send_count r) ->
  length buf = (kRxBuffSize * sizeof_CAN_OBJ)%nat -> (n <= kRxBuffSize)%nat ->
  exists r' ns q' ss, rx_iteration n now buf r a = Ret (r', set_sessions ss (set_ppq q' a)) /\
    Forall2 carries ns (agent_lines (rx_list n 0 now buf (send_count r))) /\ rx_ok r' /\
    send_count r' = u64 (send_count r + Z.of_nat n) /\ quiet q' L /\
    forall id, ss !! id = if decide (id ∈ L.*2) then deliver_all ns <$> sessions a !! id else sessions a !! id.
Proof.
  intros Hq Hnd Hr Hc Hb Hn. unfold rx_iteration.
  destruct (rx_frames_spec n 0 now buf r (ppq a) [] Hr) as (r' & q1 & ns & -> & Hr' & Hns & Hq1 & Hs1 & Hc');
    [rewrite Hb; unfold kRxBuffSize, sizeof_CAN_OBJ in *; lia|by apply Hq|].
  cbn [mbind outcome_bind]. rewrite app_nil_l in Hq1.
  destruct (processIf_spec call_listener q1 _ (fun _ => (0 <? n)%nat) [] (sessions a) Hq1) as (q2 & -> & Hq2 & Hs2).
  cbn [mbind outcome_bind]. exists r', ns, q2. eexists. split; [done|].
  assert (Hall : n <> 0%nat \/ ns = []).
  { destruct n; [right|by left]. simpl in Hns. by inversion Hns. }
  assert (Hq2' : holds q2 []).
  { unfold arrived in Hq2. rewrite take_nil in Hq2. destruct Hall as [H0| ->]; [|done].
    rewrite filter_none in Hq2; [done|]. intros _ E. apply Nat.ltb_ge in E. lia. }
  split_and!; try done.
  - by apply Hc'.
  - eapply quiet_after; [exact Hq|exact Hq2'|]. by eapply same_rest_trans.
  - intros id. replace (filter _ _) with (frame_event <$> ns); cycle 1.
    { destruct Hall as [H0| ->]; [|done]. symmetry. apply filter_all. intros _. apply Nat.ltb_lt. lia. }
    apply dispatch_frames; [|done]. destruct Hs1 as (-> & _). apply Hq.
Qed.

Lemma rx_frames_overflow n i k now buf r q evs :
  rx_ok r -> length buf = (k * sizeof_CAN_OBJ)%nat -> holds q evs -> (i <= k)%nat -> (k < i + n)%nat ->
  is_UB (rx_frames n i now buf r q) = true.
Proof.
  intros Hr Hb. revert i r q evs Hr. induction n as [|n IH]; intros i r q evs Hr Hq Hi Hk; [lia|].
  cbn [rx_frames]. destruct (decide (i = k)) as [->|Hne].
  - apply is_UB_bind_l. unfold rx_obj. rewrite decide_False; [done|]. rewrite Hb. unfold sizeof_CAN_OBJ. lia.
  - destruct (rx_obj_spec buf i) as [-> Hl]; [rewrite Hb; unfold sizeof_CAN_OBJ; lia|]. cbn [mbind outcome_bind].
    destruct (publish_spec (now i) _ r q evs Hr Hl Hq) as (r1 & q1 & -> & Hr1 & _ & _ & Hq1 & _).
    cbn [mbind outcome_bind]. eapply IH; [done|exact Hq1|lia|lia].
Qed.

(** C7. Publishing: when [VCI_Receive] reports [n] frames, at most the size of
    the array, one turn of the receiving loop stays inside its buffers, writes
    one well-formed line per frame, numbered consecutively modulo 2^64, and
    hands exactly these lines, in order, to every connected session and to no
    other object, leaving the queue empty. When a back end reports more frames
    than the array holds (vendor libraries report an error as 0xFFFFFFFF, which
    the loop does not test), the loop reads past the array. *)
Theorem rx_publishes (n : nat) (now : nat -> Z) (buf : list byte) (r : rx) (a : agent) (L : list (positive * nat)) :
  quiet (ppq a) L -> NoDup L.*2 -> rx_ok r -> is_u64 (send_count r) ->
  length buf = (kRxBuffSize * sizeof_CAN_OBJ)%nat ->
  ((n <= kRxBuffSize)%nat ->
   exists r' ns q' ss, rx_iteration n now buf r a = Ret (r', set_sessions ss (set_ppq q' a)) /\
     Forall2 carries ns (agent_lines (rx_list n 0 now buf (send_count r))) /\ rx_ok r' /\
     send_count r' = u64 (send_count r + Z.of_nat n) /\ quiet q' L /\
     forall id, ss !! id = if decide (id ∈ L.*2) then deliver_all ns <$> sessions a !! id else sessions a !! id) /\
  ((kRxBuffSize < n)%nat -> is_UB (rx_iteration n now buf r a) = true).
Proof.
  intros Hq Hnd Hr Hc Hb. split; [by apply rx_iteration_spec|]. intros Hn. apply is_UB_bind_l.
  eapply (rx_frames_overflow n 0 kRxBuffSize); [done|done|apply Hq|lia|lia].
Qed.

(** ** The simulator *)

(** the frames of the simulator, counting *)
Fixpoint simu_list (n i : nat) (now : nat -> Z) (c : Z) : list (Z * Z * VCI_CAN_OBJ) :=
  match n with
  | O => []
  | S n => (c, now i, simu_obj c) :: simu_list n (S i) now (u64 (c + 1))
  end.
Lemma simu_obj_wf c : wf_CAN_OBJ (simu_obj c).
Proof. unfold wf_CAN_OBJ, is_u32. simpl ID. simpl TimeStamp. split_and!; try lia; try done. Qed.

Lemma simu_frames_spec n i now r q evs :
  rx_ok r -> holds q evs ->
  exists r' q' ns, simu_frames n i now r q = Ret (r', q') /\ rx_ok r' /\
    Forall2 carries ns (agent_lines (simu_list n i now (send_count r))) /\
    holds q' (evs ++ (frame_event <$> ns)) /\ same_rest q q'.
Proof.
  revert i r q evs. induction n as [|n IH]; intros i r q evs Hr Hq; cbn [simu_frames simu_list].
  - exists r, q, []. rewrite app_nil_r. by split_and!.
  - destruct (publish_spec (now i) (enc_CAN_OBJ (simu_obj (send_count r))) r q evs Hr) as
      (r1 & q1 & -> & Hr1 & Hc1 & Hn1 & Hq1 & Hs1); [by apply length_enc_CAN_OBJ, simu_obj_wf|done|].
    rewrite dec_enc_CAN_OBJ in Hn1 by apply simu_obj_wf. cbn [mbind outcome_bind].
    destruct (IH (S i) r1 q1 (evs ++ [frame_event (send_buff r1)]) Hr1 Hq1)
      as (r2 & q2 & ns & -> & Hr2 & Hns & Hq2 & Hs2).
    exists r2, q2, (send_buff r1 :: ns). rewrite Hc1 in Hns. split_and!; try done.
    + by constructor.
    + by rewrite <- app_assoc in Hq2.
    + by eapply same_rest_trans.
Qed.

(** The simulator: one turn of [pubSimuFunc] never fails its [CHECK]; it
    hands ten lines, whose frames carry the running count as their data, to
    every connected session, in order, and leaves the queue empty. *)
Theorem simulator_publishes (now : nat -> Z) (r : rx) (a : agent) (L : list (positive * nat)) :
  quiet (ppq a) L -> NoDup L.*2 -> rx_ok r ->
  exists r' ns q' ss, pubSimu_iteration now r a = Ret (r', set_sessions ss (set_ppq q' a)) /\
    length ns = 10%nat /\ rx_ok r' /\
    Forall2 carries ns (agent_lines (simu_list 10 0 now (send_count r))) /\ quiet q' L /\
    forall id, ss !! id = if decide (id ∈ L.*2) then deliver_all ns <$> sessions a !! id else sessions a !! id.
Proof.
  intros Hq Hnd Hr. unfold pubSimu_iteration.
  destruct (simu_frames_spec 10 0 now r (ppq a) [] Hr) as (r' & q1 & ns & -> & Hr' & Hns & Hq1 & Hs1); [apply Hq|].
  cbn [mbind outcome_bind]. rewrite app_nil_l in Hq1. pose proof (Forall2_length _ _ _ Hns) as Hlen.
  destruct (process_spec call_listener q1 _ [] (sessions a) Hq1) as (q2 & -> & Hq2 & Hs2).
  rewrite bool_decide_eq_false_2 by (by destruct ns). cbn [mbind outcome_bind glog_check negb].
  unfold arrived in Hq2. rewrite take_nil in Hq2. eexists r', ns, q2, _. split; [done|]. split_and!; try done.
  - eapply quiet_after; [exact Hq|exact Hq2|]. by eapply same_rest_trans.
  - intros id. apply dispatch_frames; [|done]. destruct Hs1 as (-> & _). apply Hq.
Qed.

(** ** Sessions *)

(** a session after [start()] *)
Definition started (h : positive) : Session := mk_session [] [] [] (Some h) TimerWait.
Lemma started_inv h : session_inv (started h) [] [] [].
Proof. split; try done; try (simpl; lia). Qed.

(** C5. The stream of a session: whatever the interleaving of deliveries,
    timers and ends of writes after [start()], nothing leaves a buffer, and the
    session behaves as the reference [bounded]: a line delivered is queued unless
    2048 lines are in the queue at that moment, in which case it alone is lost,
    and each timer or successful write takes the next eight lines from the queue,
    which makes room for eight more. The bytes sent are a prefix of the lines
    taken, in the order of their delivery; while the session lives, what is sent
    and what is in the transmit buffer are exactly those lines. Every line is
    accounted for, taken, queued or lost, and none is lost as long as the queue
    was never full at a delivery, however many came. A live session that gets no
    more frames has sent everything after at most [1 + ceil (queued / 8)] timers
    and writes. *)
Theorem session_stream (evs : list session_event) (h : positive) (ls : list (list byte)) :
  Forall2 carries (delivered evs) ls ->
  is_UB (session_run evs (started h)) = false /\
  forall s', session_run evs (started h) = Ret s' ->
    let w := bounded evs ls (mk_backlog [] [] 0) in
    session_inv s' ls (taken w) (queued w) /\
    length ls = (length (taken w) + length (queued w) + lost w)%nat /\
    (lost w = 0%nat -> taken w ++ queued w = ls) /\
    (pending_op s' <> NoOp -> drains s' (taken w) (queued w) (1 + (length (queued w) + 7) / 8)).
Proof.
  intros Hd. destruct (follows_run evs (started h) [] (mk_backlog [] [] 0) ls) as [Hu Hr];
    [split; [apply started_inv|done]|done|].
  split; [done|]. intros s' Hs w. pose proof (Hr s' Hs) as Hf. fold w in Hf. rewrite app_nil_l in Hf. pose proof Hf as [Hi Hl].
  rewrite length_app in Hl. split_and!; [done|done|by apply (follows_exact s' ls w)|]. intros. by eapply live_drains.
Qed.

(** ** The io thread *)

(** The agent while the server runs, with the listeners [L]: every listener is
    bound to its own session, which lives and knows its handle; the server holds
    one fresh session; there are no other sessions. *)
Record agent_inv (a : agent) (L : list (positive * nat)) : Prop := {
  ai_quiet : quiet (ppq a) L;
  ai_nodup : NoDup L.*2;
  ai_live h id : (h, id) ∈ L -> exists s, sessions a !! id = Some s /\ ppq_handle_ s = Some h /\
    pending_op s <> NoOp /\ exists ls ks qs, session_inv s ls ks qs;
  ai_new : exists k, session_ a = Some k /\ sessions a !! k = Some new_session /\ k ∉ L.*2;
  ai_dom id s : sessions a !! id = Some s -> id ∈ L.*2 \/ session_ a = Some id;
  ai_fresh id s : sessions a !! id = Some s -> (id < next_id a)%nat;
}.

Lemma quiet_refines a L : quiet (ppq a) L -> refines (canobj_list a) L.
Proof. intros [_ Hl]. exact (Hl kPpqCanObjEvtId). Qed.

Lemma listens_spec a L id : quiet (ppq a) L -> listens [] id a = bool_decide (id ∈ L.*2).
Proof.
  intros Hq. pose proof (quiet_refines a L Hq) as [Hr Hc]. unfold listens. rewrite (alive_rep _ _ Hr).
  set (l := canobj_list a) in *.
  assert (Hcb : forall h, h ∈ L.*1 -> (callback <$> heap l !! h = Some id <-> (h, id) ∈ L)).
  { intros h Hh. apply list_elem_of_fmap in Hh as ((h0 & c) & -> & Hin). simpl.
    apply list_elem_of_lookup in Hin as (i & Hi).
    assert (Hlk : callback <$> heap l !! h0 = Some c).
    { unfold callbacks in Hc. apply (f_equal (fun x => x !! i)) in Hc.
      rewrite !list_lookup_fmap, Hi in Hc. simpl in Hc. by injection Hc. }
    rewrite Hlk. split.
    - intros [= ->]. by eapply list_elem_of_lookup_2.
    - intros Hin%list_elem_of_lookup. destruct Hin as (j & Hj).
      assert (i = j); [|congruence]. eapply NoDup_lookup; [exact (rep_nodup _ _ Hr)| |].
      + by rewrite list_lookup_fmap, Hi.
      + by rewrite list_lookup_fmap, Hj. }
  apply Bool.eq_iff_eq_true. rewrite existsb_exists, bool_decide_eq_true. split.
  - intros (h & Hin & Hb). apply list_elem_of_In, elem_of_elements, elem_of_list_to_set in Hin.
    apply bool_decide_eq_true, Hcb in Hb; [|done]. apply list_elem_of_fmap. by exists (h, id).
  - intros ((h & c) & -> & Hin)%list_elem_of_fmap. exists h. simpl in *.
    assert (Hh : h ∈ L.*1) by (apply list_elem_of_fmap; by exists (h, c)).
    split; [by apply list_elem_of_In, elem_of_elements, elem_of_list_to_set|].
    apply bool_decide_eq_true. by apply Hcb.
Qed.

Lemma listening_ext d (m1 m2 : Z -> list (positive * nat)) :
  (forall e, m1 e = m2 e) -> listening d m1 -> listening d m2.
Proof. intros Hm Hl e. rewrite <- Hm. apply Hl. Qed.

Lemma quiet_append q L id h d :
  quiet q L -> appendListener kPpqCanObjEvtId id (listeners q) = (h, d) ->
  h ∉ L.*1 /\ quiet (set_listeners d q) (L ++ [(h, id)]).
Proof.
  intros [Hh Hl] Ha. destruct (appendListener_spec _ _ _ _ _ _ Hl Ha) as [Hn Hd].
  split; [done|]. split; [done|]. eapply listening_ext; [|exact Hd].
  intros e. unfold only. by repeat case_decide.
Qed.

(** the queue without the listener [h] *)
Definition dropped (pins : list positive) (h : positive) (q : eventpp_queue_t) : eventpp_queue_t :=
  set_listeners (removeListener pins kPpqCanObjEvtId h (listeners q)).2 q.
Lemma disconnect_spec pins a L1 h id L2 s :
  quiet (ppq a) (L1 ++ (h, id) :: L2) -> sessions a !! id = Some s -> ppq_handle_ s = Some h ->
  disconnectToEventqq pins id a = set_ppq (dropped pins h (ppq a)) a /\ quiet (dropped pins h (ppq a)) (L1 ++ L2).
Proof.
  intros Hq Hs Hh. unfold disconnectToEventqq, dropped. rewrite Hs. simpl. rewrite Hh.
  pose proof (quiet_refines _ _ Hq) as [Hr _].
  rewrite (lock_listed _ _ _ _ Hr) by (rewrite fmap_app; set_solver).
  destruct Hq as [Hq Hl].
  destruct (removeListener_spec pins _ _ kPpqCanObjEvtId h L1 id L2 Hl eq_refl) as [_ Hd].
  destruct (removeListener pins kPpqCanObjEvtId h (listeners (ppq a))) as [b d]. split; [done|].
  split; [done|]. eapply listening_ext; [|exact Hd]. intros e. unfold only. by repeat case_decide.
Qed.

Lemma disconnect_gone a L id h s :
  quiet (ppq a) L -> sessions a !! id = Some s -> ppq_handle_ s = Some h -> h ∉ L.*1 ->
  disconnectToEventqq [] id a = a.
Proof.
  intros Hq Hs Hh Hn. unfold disconnectToEventqq. rewrite Hs. simpl. rewrite Hh.
  pose proof (quiet_refines _ _ Hq) as [Hr _]. by rewrite (lock_rep _ _ _ Hr), decide_False.
Qed.

Lemma inv_update a L id s s' :
  agent_inv a L -> sessions a !! id = Some s -> id ∈ L.*2 -> ppq_handle_ s' = ppq_handle_ s ->
  pending_op s' <> NoOp -> (exists ls ks qs, session_inv s' ls ks qs) -> agent_inv (put_session id s' a) L.
Proof.
  intros [Hq Hn Hl Hk Hd Hf] Hs Hin Hh Hp Hi. split; simpl; try done.
  - intros h i Hhi. destruct (decide (i = id)) as [->|Hne].
    + rewrite lookup_insert_eq. exists s'. destruct (Hl h id Hhi) as (s0 & E & Hh0 & _).
      split_and!; try done. congruence.
    + rewrite lookup_insert_ne by done. by apply Hl.
  - destruct Hk as (k & Ek & El & Hnk). exists k. rewrite lookup_insert_ne by congruence. done.
  - intros i si. destruct (decide (i = id)) as [->|Hne]; [by left|].
    rewrite lookup_insert_ne by done. apply Hd.
  - intros i si. destruct (decide (i = id)) as [->|Hne]; [by intros; eapply Hf|].
    rewrite lookup_insert_ne by done. apply Hf.
Qed.

(** a session with a pending operation has a listener *)
Lemma pending_listens a L id s :
  agent_inv a L -> sessions a !! id = Some s -> pending_op s <> NoOp ->
  exists h, (h, id) ∈ L /\ ppq_handle_ s = Some h /\ exists ls ks qs, session_inv s ls ks qs.
Proof.
  intros [Hq Hn Hl (k & Ek & El & Hnk) Hd Hf] Hs Hp. destruct (Hd id s Hs) as [Hin|E].
  - apply list_elem_of_fmap in Hin as ((h & c) & -> & Hin). exists h. simpl in *.
    destruct (Hl h c Hin) as (s0 & E & Hh & _ & Hi). rewrite Hs in E. injection E as <-. done.
  - exfalso. rewrite Ek in E. injection E as ->. rewrite El in Hs. injection Hs as <-. done.
Qed.
Lemma elem_snd (L : list (positive * nat)) h id : (h, id) ∈ L -> id ∈ L.*2.
Proof. intros Hin. apply list_elem_of_fmap. by exists (h, id). Qed.

Lemma put_put id s1 s2 a : put_session id s2 (put_session id s1 a) = put_session id s2 a.
Proof. unfold put_session, set_sessions. simpl. by rewrite insert_insert_eq. Qed.

Lemma handle_timer a L id ec :
  agent_inv a L ->
  is_UB (io_handle [] (EvTimer id ec) a) = false /\
  forall a', io_handle [] (EvTimer id ec) a = Ret a' -> exists s s', sessions a !! id = Some s /\
    session_step STimer s = Ret s' /\ a' = put_session id s' a /\ agent_inv a' L.
Proof.
  intros Hi. cbn [io_handle]. destruct (sessions a !! id) as [s|] eqn:Es; [|done].
  case_decide as Hp; [|done].
  destruct (pending_listens a L id s Hi Es) as (h & Hin & Hh & ls & ks & qs & Hsi); [by rewrite Hp|].
  destruct (timer_step s ls ks qs Hsi Hp) as (s' & E & Hp' & Hi' & _ & _ & Hh'). pose proof E as E0.
  cbn [session_step] in E0. rewrite decide_True in E0 by done. rewrite E0. cbn [mbind outcome_bind].
  split; [done|]. intros a' [= <-]. exists s, s'. split_and!; try done.
  eapply inv_update; try done; [by eapply elem_snd|]. by eexists _, _, _.
Qed.

Lemma handle_written a L id n :
  agent_inv a L ->
  is_UB (io_handle [] (EvWrite id 0 n) a) = false /\
  forall a', io_handle [] (EvWrite id 0 n) a = Ret a' -> exists s s', sessions a !! id = Some s /\
    session_step (SWrite 0 n) s = Ret s' /\ a' = put_session id s' a /\ agent_inv a' L.
Proof.
  intros Hi. cbn [io_handle]. destruct (sessions a !! id) as [s|] eqn:Es; [|done].
  case_decide as D; [|done]. pose proof D as (Hp & _ & Hn).
  destruct (pending_listens a L id s Hi Es) as (h & Hin & Hh & ls & ks & qs & Hsi); [by rewrite Hp|].
  destruct (write_step s ls ks qs Hsi Hp) as (s' & E & Hp' & Hi' & _ & _ & Hh').
  rewrite <- Hn in E by done. pose proof E as E0.
  cbn [session_step] in E0. rewrite decide_True in E0 by done. cbv zeta in E0. cbn [negb Z.eqb] in E0.
  unfold handleWrite. simpl sessions. rewrite lookup_insert_eq. cbn [deref mbind outcome_bind negb Z.eqb].
  rewrite E0. cbn [mbind outcome_bind]. rewrite !put_put.
  split; [done|]. intros a' [= <-]. exists s, s'. split_and!; try done.
  eapply inv_update; try done; [by eapply elem_snd|]. by eexists _, _, _.
Qed.

Lemma NoDup_middle {X Y} (L1 L2 : list (X * Y)) h id :
  NoDup (L1 ++ (h, id) :: L2).*2 -> NoDup (L1 ++ L2).*2 /\ id ∉ (L1 ++ L2).*2.
Proof.
  rewrite !fmap_app, fmap_cons. cbn [fst snd]. intros Hn.
  apply NoDup_app in Hn as (H1 & H2 & H3). apply NoDup_cons in H3 as [H3 H4].
  split.
  - apply NoDup_app. split_and!; try done. intros x Hx Hx2. apply (H2 x Hx). by right.
  - intros [Hx|Hx]%elem_of_app; [|done]. apply (H2 id Hx). by left.
Qed.

(** a session whose operations failed and whose listener is gone is destroyed *)
Lemma release_dead a L id h s :
  quiet (ppq a) L -> id ∉ L.*2 -> h ∉ L.*1 -> session_ a <> Some id ->
  sessions a !! id = Some s -> pending_op s = NoOp -> ppq_handle_ s = Some h ->
  release [] id a = set_sessions (delete id (sessions a)) a.
Proof.
  intros Hq Hi Hh Hk Hs Hp Hhs. unfold release.
  assert (Ho : owned [] id a = false).
  { unfold owned. rewrite Hs, Hp, (listens_spec a L id Hq). rewrite (bool_decide_eq_false_2 _ Hk), (bool_decide_eq_false_2 _ Hi). done. }
  by rewrite Ho, (disconnect_gone a L id h s).
Qed.

Lemma inv_delete a L1 h id L2 q :
  agent_inv a (L1 ++ (h, id) :: L2) -> quiet q (L1 ++ L2) ->
  agent_inv (set_sessions (delete id (sessions a)) (set_ppq q a)) (L1 ++ L2).
Proof.
  intros [_ Hn Hl (k & Ek & El & Hnk) Hd Hf] Hq.
  destruct (NoDup_middle L1 L2 h id Hn) as [Hn' Hid].
  assert (Hsub : forall x, x ∈ L1 ++ L2 -> x ∈ L1 ++ (h, id) :: L2) by set_solver.
  split; simpl; try done.
  - intros h0 i Hin. rewrite lookup_delete_ne; [by apply Hl, Hsub|].
    intros <-. apply Hid. by eapply elem_snd.
  - exists k. rewrite !fmap_app, fmap_cons in Hnk. cbn [snd] in Hnk.
    rewrite lookup_delete_ne by set_solver. rewrite fmap_app. split_and!; try done. set_solver.
  - intros i s Hs. apply lookup_delete_Some in Hs as [Hne Hs]. destruct (Hd i s Hs) as [Hin|?]; [left|by right].
    rewrite !fmap_app, fmap_cons in *. cbn [snd] in Hin. set_solver.
  - intros i s Hs. apply lookup_delete_Some in Hs as [Hne Hs]. by eapply Hf.
Qed.

Lemma handle_failed a L id ec n :
  agent_inv a L -> ec <> 0 ->
  is_UB (io_handle [] (EvWrite id ec n) a) = false /\
  forall a', io_handle [] (EvWrite id ec n) a = Ret a' -> exists s L1 h L2, sessions a !! id = Some s /\
    pending_op s = Writing /\ L = L1 ++ (h, id) :: L2 /\ ppq_handle_ s = Some h /\
    a' = set_sessions (delete id (sessions a)) (set_ppq (dropped [] h (ppq a)) a) /\ agent_inv a' (L1 ++ L2).
Proof.
  intros Hi He. cbn [io_handle]. destruct (sessions a !! id) as [s|] eqn:Es; [|done].
  case_decide as D; [|done]. pose proof D as (Hp & _ & _).
  destruct (pending_listens a L id s Hi Es) as (h & Hin & Hh & _); [by rewrite Hp|].
  unfold handleWrite. simpl sessions. rewrite lookup_insert_eq. cbn [deref mbind outcome_bind].
  rewrite (proj2 (Z.eqb_neq ec 0) He). cbn [negb]. split; [done|]. intros a' [= <-]. rewrite put_put.
  apply list_elem_of_split in Hin as (L1 & L2 & ->). set (s2 := consume n _).
  pose proof (ai_quiet _ _ Hi) as Hq.
  destruct (disconnect_spec [] (put_session id s2 a) L1 h id L2 s2) as (-> & Hq'); [done| |done|].
  { simpl. by rewrite lookup_insert_eq. }
  simpl ppq in *. set (q := dropped [] h (ppq a)) in *.
  pose proof (quiet_refines _ _ Hq) as [Hr _]. pose proof (rep_nodup _ _ Hr) as Hn1.
  destruct (NoDup_middle L1 L2 h id (ai_nodup _ _ Hi)) as [_ Hid].
  rewrite (release_dead _ (L1 ++ L2) id h s2); try done.
  - exists s, L1, h, L2.
    assert (Ha : set_sessions (delete id (sessions (set_ppq q (put_session id s2 a)))) (set_ppq q (put_session id s2 a))
      = set_sessions (delete id (sessions a)) (set_ppq q a)).
    { unfold set_sessions, set_ppq. simpl. by rewrite delete_insert_eq. }
    rewrite Ha. split_and!; try done. by apply (inv_delete a L1 h id L2 q).
  - rewrite !fmap_app, fmap_cons in *. cbn [fst] in *. apply NoDup_app in Hn1 as (_ & H2 & [H3 _]%NoDup_cons).
    intros [Hx|Hx]%elem_of_app; [|done]. apply (H2 h Hx). by left.
  - simpl. destruct (ai_new _ _ Hi) as (k & -> & _ & Hk). intros [= ->]. apply Hk. rewrite fmap_app. set_solver.
  - simpl. by rewrite lookup_insert_eq.
Qed.

Lemma visit_pool_Ret pins i n a : (i + n <= getSize a)%nat -> visit_pool pins i n a = Ret tt.
Proof.
  revert i. induction n as [|n IH]; intros i Hi; [done|]. cbn [visit_pool]. unfold getSession.
  destruct (lookup_lt_is_Some_2 (session_pool_ a) i) as [id ->]; [unfold getSize in Hi; lia|].
  cbn [deref mbind outcome_bind]. apply IH. lia.
Qed.

(** the agent after the server session [k] was started and replaced *)
Definition accepted (k : nat) (h : positive) (d : dispatcher Z nat) (a : agent) : agent :=
  mk_agent (set_listeners d (ppq a)) (<[next_id a := new_session]> (<[k := started h]> (sessions a)))
    (S (next_id a)) true (Some (next_id a)) (session_pool_ a ++ [k]).

Lemma handleAccept_ok pins a k h d :
  session_ a = Some k -> sessions a !! k = Some new_session -> (k < next_id a)%nat ->
  appendListener kPpqCanObjEvtId k (listeners (ppq a)) = (h, d) ->
  handleAccept pins 0 a = Ret (accepted k h d a).
Proof.
  intros Hk Hs Hlt Ha.
  unfold handleAccept. cbn [Z.eqb]. rewrite Hk. cbn [deref mbind outcome_bind].
  unfold session_start. cbn [addToPool sessions ppq]. rewrite Hs, Ha. cbn [deref mbind outcome_bind].
  change (doCanObjTranspose (set_handle (Some h) new_session)) with (Ret (started h)). cbn [mbind outcome_bind].
  unfold startAccepting. cbn [put_session set_sessions set_ppq ppq sessions next_id accepting session_ session_pool_ addToPool].
  rewrite Hk. unfold release.
  match goal with |- context [owned pins k ?x] => assert (Ho : owned pins k x = true) end.
  { unfold owned. cbn [sessions session_]. rewrite lookup_insert_ne by lia. rewrite lookup_insert_eq.
    by rewrite Bool.orb_true_r. }
  rewrite Ho. rewrite visit_pool_Ret by done. done.
Qed.

Lemma accepted_inv a L k h d :
  agent_inv a L -> session_ a = Some k ->
  appendListener kPpqCanObjEvtId k (listeners (ppq a)) = (h, d) ->
  agent_inv (accepted k h d a) (L ++ [(h, k)]).
Proof.
  intros [Hq Hn Hl (k0 & E & Hs & Hnk) Hd Hf] Hk Ha. rewrite Hk in E. injection E as <-.
  pose proof (Hf _ _ Hs) as Hlt.
  assert (Hfr : forall id s, sessions a !! id = Some s -> id <> next_id a).
  { intros id s Hids. specialize (Hf _ _ Hids). lia. }
  assert (HL : forall id, id ∈ L.*2 -> id <> next_id a /\ id <> k).
  { intros id Hin. split; [|by intros ->]. apply list_elem_of_fmap in Hin as ((h0 & c) & -> & Hin).
    destruct (Hl h0 c Hin) as (s & Hss & _). by eapply Hfr. }
  split; simpl.
  - by eapply quiet_append.
  - rewrite fmap_app. apply NoDup_app. split_and!; [done| |apply NoDup_singleton].
    intros x Hx ->%list_elem_of_singleton. by apply (HL k Hx).
  - intros h0 id [Hin|Hin%list_elem_of_singleton]%elem_of_app.
    + destruct (HL id) as [H1 H2]; [by eapply elem_snd|]. rewrite !lookup_insert_ne by done. by apply Hl.
    + injection Hin as -> ->. rewrite lookup_insert_ne by lia. rewrite lookup_insert_eq.
      eexists. split_and!; try done. eexists _, _, _. apply started_inv.
  - exists (next_id a). rewrite lookup_insert_eq. split_and!; try done. rewrite fmap_app.
    intros [Hin|Hin%list_elem_of_singleton]%elem_of_app; [by apply HL in Hin as []|simpl in Hin; lia].
  - intros id s Hids. rewrite fmap_app, elem_of_app. apply lookup_insert_Some in Hids as [[<- _]|[Hne Hids]]; [by right|].
    left. apply lookup_insert_Some in Hids as [[<- _]|[Hne2 Hids]]; [right; by left|].
    destruct (Hd id s Hids) as [?|Hx]; [by left|]. congruence.
  - intros id s Hids. apply lookup_insert_Some in Hids as [[<- _]|[Hne Hids]]; [lia|].
    apply lookup_insert_Some in Hids as [[<- _]|[Hne2 Hids]]; [lia|]. specialize (Hf _ _ Hids). lia.
Qed.

(** the agent without the pending [async_accept] *)
Definition not_accepting (a : agent) : agent :=
  mk_agent (ppq a) (sessions a) (next_id a) false (session_ a) (session_pool_ a).
Lemma not_accepting_inv a L : agent_inv a L -> agent_inv (not_accepting a) L.
Proof. intros [Hq Hn Hl Hk Hd Hf]. by split. Qed.

Lemma handle_accept a L ec :
  agent_inv a L ->
  is_UB (io_handle [] (EvAccept ec) a) = false /\
  forall a', io_handle [] (EvAccept ec) a = Ret a' -> accepting a = true /\
    if decide (ec = 0) then exists k h d, session_ a = Some k /\
      a' = accepted k h d (not_accepting a) /\ agent_inv a' (L ++ [(h, k)])
    else a' = not_accepting a.
Proof.
  intros Hi. cbn [io_handle]. destruct (accepting a); [|done]. fold (not_accepting a).
  pose proof (not_accepting_inv a L Hi) as Hi'. destruct (decide (ec = 0)) as [->|He].
  - destruct (ai_new _ _ Hi') as (k & Ek & Hk & _). pose proof (ai_fresh _ _ Hi' k _ Hk).
    destruct (appendListener kPpqCanObjEvtId k (listeners (ppq (not_accepting a)))) as [h d] eqn:Ea.
    rewrite (handleAccept_ok _ _ k h d) by done. split; [done|]. intros a' [= <-]. split; [done|].
    exists k, h, d. split_and!; try done. by apply accepted_inv.
  - unfold handleAccept. rewrite (proj2 (Z.eqb_neq ec 0) He). split; [done|]. by intros a' [= <-].
Qed.

Lemma listening_none : listening (∅ : dispatcher Z nat) (only []).
Proof.
  intros e. replace (only [] e) with (@nil (positive * nat)) by (unfold only; by case_decide).
  split; [apply rep_new|done].
Qed.
(** the agent when the server starts *)
Definition agent_started : agent := mk_agent EventQueueBase {[0%nat := new_session]} 1 true (Some 0%nat) [].
Lemma agent_started_inv : agent_inv agent_started [].
Proof.
  split; simpl.
  - split; [by split|apply listening_none].
  - constructor.
  - by intros h id ?%not_elem_of_nil.
  - exists 0%nat. split_and!; try done. apply not_elem_of_nil.
  - intros id s [<- _]%lookup_singleton_Some. by right.
  - intros id s [<- _]%lookup_singleton_Some. lia.
Qed.

(** C9. Serving: the server starts with one fresh session and a pending accept;
    no handler of the io thread leaves the agent's objects, and the
    invariant is kept: listeners and live sessions correspond one to one.
    A timer or a completed write advances its session and touches no other; an
    accepted client becomes exactly one more listener, starts empty, and the
    server accepts the next; a failed write removes the listener of its session
    and destroys the session, and no other is touched; a failed accept leaves
    the server without a pending accept, and from then on no event makes it
    accept again. *)
Theorem io_thread_serves (ev : io_event) (a : agent) (L : list (positive * nat)) :
  startAccepting [] (server_init agent_init) = Ret agent_started /\ agent_inv agent_started [] /\
  (agent_inv a L ->
  is_UB (io_handle [] ev a) = false /\
  forall a', io_handle [] ev a = Ret a' ->
  (accepting a = false -> accepting a' = false) /\
  exists L', agent_inv a' L' /\
    match ev with
    | EvAccept ec =>
        if decide (ec = 0) then exists h k, session_ a = Some k /\ L' = L ++ [(h, k)] /\
          sessions a' !! k = Some (started h) /\ accepting a' = true /\
          forall id, id ∈ L.*2 -> sessions a' !! id = sessions a !! id
        else L' = L /\ sessions a' = sessions a /\ accepting a' = false
    | EvTimer id _ => L' = L /\ exists s s', sessions a !! id = Some s /\
        session_step STimer s = Ret s' /\ sessions a' = <[id := s']> (sessions a)
    | EvWrite id ec n =>
        if decide (ec = 0) then L' = L /\ exists s s', sessions a !! id = Some s /\
          session_step (SWrite 0 n) s = Ret s' /\ sessions a' = <[id := s']> (sessions a)
        else exists L1 h L2, L = L1 ++ (h, id) :: L2 /\ L' = L1 ++ L2 /\ sessions a' = delete id (sessions a)
    end).
Proof.
  split; [done|]. split; [apply agent_started_inv|]. intros Hi. destruct ev as [ec|id ec|id ec n].
  - destruct (handle_accept a L ec Hi) as [Hu Hr]. split; [done|]. intros a' [Hacc Ha]%Hr. split; [congruence|].
    case_decide.
    + destruct Ha as (k & h & d & Ek & -> & Hi'). eexists. split; [exact Hi'|]. exists h, k.
      split_and!; try done; simpl.
      * destruct (ai_new _ _ Hi) as (k0 & E & Hs & _). rewrite Ek in E. injection E as <-.
        pose proof (ai_fresh _ _ Hi _ _ Hs). rewrite lookup_insert_ne by lia. by rewrite lookup_insert_eq.
      * intros id Hin. apply list_elem_of_fmap in Hin as ((h0 & c) & -> & Hin). simpl.
        destruct (ai_live _ _ Hi h0 c Hin) as (s & Hs & _). pose proof (ai_fresh _ _ Hi _ _ Hs).
        rewrite !lookup_insert_ne; [done| |lia]. intros ->.
        destruct (ai_new _ _ Hi) as (k0 & E & _ & Hk). rewrite Ek in E. injection E as <-.
        apply Hk. by eapply elem_snd.
    + subst a'. exists L. split; [by apply not_accepting_inv|done].
  - destruct (handle_timer a L id ec Hi) as [Hu Hr]. split; [done|].
    intros a' (s & s' & Hs & Hst & -> & Hi')%Hr. split; [done|]. exists L. split; [done|]. split; [done|].
    by exists s, s'.
  - case_decide as D.
    + subst ec. destruct (handle_written a L id n Hi) as [Hu Hr]. split; [done|].
      intros a' (s & s' & Hs & Hst & -> & Hi')%Hr. split; [done|]. exists L. split; [done|]. split; [done|].
      by exists s, s'.
    + destruct (handle_failed a L id ec n Hi D) as [Hu Hr]. split; [done|].
      intros a' (s & L1 & h & L2 & Hs & Hp & HL & _ & -> & Hi')%Hr. split; [done|].
      exists (L1 ++ L2). split; [done|]. by exists L1, h, L2.
Qed.

(** ** From the bus to the clients *)

(** one step of the agent: an event of the io thread, or a turn of the
    receiving loop on [n] frames *)
Inductive agent_event : Type :=
| AIo (ev : io_event)
| ARx (n : nat) (now : nat -> Z) (buf : list byte).
Definition agent_step (ev : agent_event) (r : rx) (a : agent) : outcome (rx * agent) :=
  match ev with
  | AIo ev => a' ← io_handle [] ev a; Ret (r, a')
  | ARx n now buf => rx_iteration n now buf r a
  end.
Fixpoint agent_run (evs : list agent_event) (r : rx) (a : agent) : outcome (rx * agent) :=
  match evs with
  | [] => Ret (r, a)
  | ev :: evs => '(r1, a1) ← agent_step ev r a; agent_run evs r1 a1
  end.

(** what the back end may report, and no write of the session [id] fails *)
Definition good_event (id : nat) (ev : agent_event) : Prop :=
  match ev with
  | AIo (EvWrite i ec _) => i = id -> ec = 0
  | AIo _ => True
  | ARx n _ buf => (n <= kRxBuffSize)%nat /\ length buf = (kRxBuffSize * sizeof_CAN_OBJ)%nat
  end.
(** the frames that come from the bus, numbered from [c] *)
Fixpoint bus_frames (evs : list agent_event) (c : Z) : list (Z * Z * VCI_CAN_OBJ) :=
  match evs with
  | [] => []
  | AIo _ :: evs => bus_frames evs c
  | ARx n now buf :: evs => rx_list n 0 now buf c ++ bus_frames evs (u64 (c + Z.of_nat n))
  end.

(** the session [id] is served: it has the listener [h] and was given [ls] *)
Definition served (a : agent) (h : positive) (id : nat) (ls : list (list byte)) : Prop :=
  exists L s ks qs, agent_inv a L /\ (h, id) ∈ L /\ sessions a !! id = Some s /\
    ppq_handle_ s = Some h /\ pending_op s <> NoOp /\ session_inv s ls ks qs.
(** and, when [x], nothing of [ls] was lost *)
Definition served_as (x : bool) (a : agent) (h : positive) (id : nat) (ls : list (list byte)) : Prop :=
  exists L s ks qs, agent_inv a L /\ (h, id) ∈ L /\ sessions a !! id = Some s /\
    ppq_handle_ s = Some h /\ pending_op s <> NoOp /\ session_inv s ls ks qs /\ (x = true -> ks ++ qs = ls).
Lemma served_as_served x a h id ls : served_as x a h id ls -> served a h id ls.
Proof. intros (L & s & ks & qs & ? & ? & ? & ? & ? & ? & _). by exists L, s, ks, qs. Qed.
Lemma served_served_as a h id ls : served a h id ls -> served_as false a h id ls.
Proof. intros (L & s & ks & qs & ? & ? & ? & ? & ? & ?). by exists L, s, ks, qs. Qed.

Lemma deliver_all_same ns s :
  pending_op (deliver_all ns s) = pending_op s /\ ppq_handle_ (deliver_all ns s) = ppq_handle_ s.
Proof.
  revert s. induction ns as [|n ns IH]; intros s; [done|]. unfold deliver_all. cbn [fold_left].
  fold (deliver_all ns (consumeCanObjHandler n s)). destruct (IH (consumeCanObjHandler n s)) as [-> ->].
  unfold consumeCanObjHandler. by destruct (_ <? _)%nat.
Qed.
Lemma deliver_all_inv ns s ls ks qs l1 :
  session_inv s ls ks qs -> Forall2 carries ns l1 ->
  exists ks' qs', session_inv (deliver_all ns s) (ls ++ l1) ks' qs'.
Proof.
  apply deliveries_inv.
Qed.

Lemma rx_inv a L q ss ns ls :
  agent_inv a L -> quiet q L -> Forall2 carries ns ls ->
  (forall id, ss !! id = if decide (id ∈ L.*2) then deliver_all ns <$> sessions a !! id else sessions a !! id) ->
  agent_inv (set_sessions ss (set_ppq q a)) L.
Proof.
  intros [_ Hn Hl (k & Ek & El & Hnk) Hd Hf] Hq Hc Hss. split; simpl; try done.
  - intros h id Hin. destruct (Hl h id Hin) as (s & Hs & Hh & Hp & ls0 & ks & qs & Hi).
    destruct (deliver_all_same ns s) as [E1 E2]. exists (deliver_all ns s).
    rewrite Hss, decide_True, Hs by (by eapply elem_snd). rewrite E1, E2. split_and!; try done.
    destruct (deliver_all_inv ns s ls0 ks qs ls Hi Hc) as (ks' & qs' & Hi'). by eexists _, _, _.
  - exists k. split_and!; try done. by rewrite Hss, decide_False.
  - intros id s Hs. rewrite Hss in Hs. case_decide; [by left|by eapply Hd].
  - intros id s Hs. rewrite Hss in Hs. case_decide; [|by eapply Hf].
    destruct (sessions a !! id) as [s0|] eqn:E; [by eapply Hf|done].
Qed.

(** a step of some session that is still live afterwards *)
Lemma served_put x ev a h id ls i s0 s' L' :
  served_as x a h id ls -> sessions a !! i = Some s0 -> session_step ev s0 = Ret s' -> delivered [ev] = [] ->
  agent_inv (put_session i s' a) L' ->
  (h, id) ∈ L' -> served_as x (put_session i s' a) h id ls.
Proof.
  intros (L & s & ks & qs & Hi & Hin & Hs & Hh & Hp & Hsi & Hx) Hs0 Hst Hd Hi' Hin'.
  destruct (decide (i = id)) as [->|Hne].
  - rewrite Hs in Hs0. injection Hs0 as <-.
    destruct (session_step_inv ev s s' ls ks qs) as (ks' & qs' & Hsi' & E); [done..|].
    rewrite <- E in Hx. destruct (ai_live _ _ Hi' h id Hin') as (s1 & Hs1 & Hh1 & Hp1 & _).
    simpl in Hs1. rewrite lookup_insert_eq in Hs1. injection Hs1 as <-.
    exists L', s', ks', qs'. split_and!; try done. simpl. by rewrite lookup_insert_eq.
  - exists L', s, ks, qs. split_and!; try done. simpl. by rewrite lookup_insert_ne.
Qed.

Lemma served_accept x ec a a' h id ls :
  served_as x a h id ls ->
  is_UB (io_handle [] (EvAccept ec) a) = false /\ (io_handle [] (EvAccept ec) a = Ret a' -> served_as x a' h id ls).
Proof.
  intros (L & s & ks & qs & Hi & Hin & Hs & Hh & Hp & Hsi & Hx).
  destruct (handle_accept a L ec Hi) as [Hu Hr]. split; [done|]. intros [_ Ha]%Hr. case_decide.
  - destruct Ha as (k & h1 & d & Ek & -> & Hi'). exists (L ++ [(h1, k)]), s, ks, qs.
    pose proof (ai_fresh _ _ Hi _ _ Hs) as Hlt. destruct (ai_new _ _ Hi) as (k0 & E & _ & Hk).
    assert (k <> id) by (intros ->; rewrite Ek in E; injection E as <-; by apply Hk, (elem_snd L h)).
    split_and!; try done; [set_solver|]. simpl. by rewrite !lookup_insert_ne by lia.
  - subst a'. exists L, s, ks, qs. split_and!; try done. by apply not_accepting_inv.
Qed.

(** every step keeps the session served, and gives it the frames of the step *)
Lemma served_io x ev a a' h id ls :
  served_as x a h id ls -> good_event id (AIo ev) ->
  is_UB (io_handle [] ev a) = false /\ (io_handle [] ev a = Ret a' -> served_as x a' h id ls).
Proof.
  intros Hsv Hg. pose proof Hsv as (L & s & ks & qs & Hi & Hin & Hs & Hh & Hp & Hsi & Hx).
  destruct ev as [ec|i ec|i ec n]; [by apply served_accept| |].
  - destruct (handle_timer a L i ec Hi) as [Hu Hr]. split; [done|]. intros (s0 & s' & Hs0 & Hst & -> & Hi')%Hr.
    by eapply (served_put x STimer).
  - destruct (decide (ec = 0)) as [->|He].
    + destruct (handle_written a L i n Hi) as [Hu Hr]. split; [done|]. intros (s0 & s' & Hs0 & Hst & -> & Hi')%Hr.
      by eapply (served_put x (SWrite 0 n)).
    + assert (Hne : i <> id) by (intros ->; apply He; by apply Hg).
      destruct (handle_failed a L i ec n Hi He) as [Hu Hr]. split; [done|].
      intros (s0 & L1 & h1 & L2 & Hs0 & Hp0 & -> & _ & -> & Hi')%Hr. exists (L1 ++ L2), s, ks, qs.
      split_and!; try done; [|simpl; by rewrite lookup_delete_ne].
      rewrite elem_of_app, elem_of_cons in *. destruct Hin as [?|[[= _ E]|?]]; [by left|congruence|by right].
Qed.

Lemma served_rx n now buf r a h id ls :
  served a h id ls -> rx_ok r -> is_u64 (send_count r) -> good_event id (ARx n now buf) ->
  exists r' a', rx_iteration n now buf r a = Ret (r', a') /\ rx_ok r' /\
    send_count r' = u64 (send_count r + Z.of_nat n) /\
    served a' h id (ls ++ agent_lines (rx_list n 0 now buf (send_count r))).
Proof.
  intros (L & s & ks & qs & Hi & Hin & Hs & Hh & Hp & Hsi) Hr Hc [Hn Hb].
  destruct (rx_iteration_spec n now buf r a L (ai_quiet _ _ Hi) (ai_nodup _ _ Hi) Hr Hc Hb Hn)
    as (r' & ns & q' & ss & -> & Hns & Hr' & Hc' & Hq & Hss).
  eexists _, _. split; [done|]. split_and!; try done.
  destruct (deliver_all_inv ns s ls ks qs _ Hsi Hns) as (ks' & qs' & Hsi').
  destruct (deliver_all_same ns s) as [E1 E2]. exists L, (deliver_all ns s), ks', qs'. rewrite E1, E2.
  split_and!; try done; [by eapply rx_inv|]. simpl. rewrite Hss, decide_True, Hs by (by eapply elem_snd). done.
Qed.

Lemma served_run evs r a h id ls :
  served a h id ls -> rx_ok r -> is_u64 (send_count r) -> Forall (good_event id) evs ->
  is_UB (agent_run evs r a) = false /\
  forall r' a', agent_run evs r a = Ret (r', a') ->
    served a' h id (ls ++ agent_lines (bus_frames evs (send_count r))).
Proof.
  revert r a ls. induction evs as [|ev evs IH]; intros r a ls Hsv Hr Hc Hg.
  - split; [done|]. intros r' a' [= <- <-]. by rewrite app_nil_r.
  - apply list.Forall_cons in Hg as [Hg1 Hg]. cbn [agent_run]. destruct ev as [ev|n now buf]; cbn [agent_step bus_frames].
    + destruct (io_handle [] ev a) as [a1| | |] eqn:E; cbn [mbind outcome_bind].
      * apply IH; try done. apply (served_as_served false), (served_io false ev a a1); [by apply served_served_as|done|done].
      * done.
      * by destruct (served_io false ev a a h id ls (served_served_as _ _ _ _ Hsv) Hg1) as [Hu _]; rewrite E in Hu.
      * done.
    + destruct (served_rx n now buf r a h id ls Hsv Hr Hc Hg1) as (r1 & a1 & -> & Hr1 & Hc1 & Hsv1).
      cbn [mbind outcome_bind]. unfold agent_lines in *. rewrite fmap_app, app_assoc, <- Hc1.
      apply IH; try done. rewrite Hc1. auto with can.
Qed.

Lemma rx_list_wf n i now buf c :
  ((i + n) * sizeof_CAN_OBJ <= length buf)%nat ->
  Forall (fun f => wf_CAN_OBJ f.2) (rx_list n i now buf c).
Proof.
  revert i c. induction n as [|n IH]; intros i c Hi; cbn [rx_list]; [done|].
  apply list.Forall_cons. split; [|apply IH; lia]. apply wf_dec_CAN_OBJ.
  by apply rx_obj_spec; lia.
Qed.
Lemma bus_frames_wf id evs c :
  Forall (good_event id) evs -> Forall (fun f => wf_CAN_OBJ f.2) (bus_frames evs c).
Proof.
  intros Hg. revert c. induction Hg as [|ev evs Hg _ IH]; intros c; [done|].
  destruct ev as [ev|n now buf]; cbn [bus_frames]; [apply IH|]. apply Forall_app. split; [|apply IH].
  destruct Hg as [Hn Hb]. apply rx_list_wf. rewrite Hb. unfold sizeof_CAN_OBJ. lia.
Qed.

(** a served session that lost nothing, as when it was given at most 2048 lines,
    sends all of them *)
Lemma served_lines x a h id ls :
  served_as x a h id ls -> x = true \/ (length ls <= spsc_capacity)%nat ->
  exists s more s', sessions a !! id = Some s /\ (length more <= 1 + (length ls + 7) / 8)%nat /\
    delivered more = [] /\ session_run more s = Ret s' /\ socket_ s' = lines_text ls.
Proof.
  intros (L & s & ks & qs & _ & _ & Hs & _ & Hp & Hsi & Hx) Hle.
  assert (Hall : ks ++ qs = ls) by (destruct Hle; [by apply Hx|by apply (si_all _ _ _ _ Hsi)]).
  destruct (live_drains s _ ks qs Hsi Hp) as (more & s' & Hb & Hd & Hm & Hso & _).
  assert (Hq : (length qs <= length ls)%nat) by (rewrite <- Hall, length_app; lia).
  exists s, more, s'. rewrite Hall in Hso. split_and!; try done.
  etrans; [exact Hb|]. apply le_n_S, Nat.div_le_mono; lia.
Qed.
Lemma served_drains a h id ls fs :
  served a h id ls -> ls = agent_lines fs -> (length fs <= spsc_capacity)%nat ->
  exists s more s', sessions a !! id = Some s /\ (length more <= 1 + (length fs + 7) / 8)%nat /\
    delivered more = [] /\ session_run more s = Ret s' /\ socket_ s' = lines_text (agent_lines fs).
Proof.
  intros Hs -> Hle. assert (Hlen : length (agent_lines fs) = length fs) by (unfold agent_lines; by rewrite length_fmap).
  rewrite <- Hlen in *. apply (served_lines false a h id); [by apply served_served_as|by right].
Qed.
(** an accepted client is served from its first frame *)
Lemma accept_served a a' L :
  agent_inv a L -> io_handle [] (EvAccept 0) a = Ret a' ->
  exists id h, session_ a = Some id /\ served a' h id [].
Proof.
  intros Hi E. apply (handle_accept a L 0 Hi) in E as [_ Ha]. rewrite decide_True in Ha by done.
  destruct Ha as (k & h & d & Ek & -> & Hi2). exists k, h. split; [done|].
  exists (L ++ [(h, k)]), (started h), [], [].
  split_and!; try done; [set_solver| |apply started_inv].
  unfold accepted. simpl. destruct (ai_new _ _ Hi) as (k0 & E & Hk & _). rewrite Ek in E. injection E as <-.
  pose proof (ai_fresh _ _ Hi _ _ Hk). rewrite lookup_insert_ne by lia. by rewrite lookup_insert_eq.
Qed.

(** From the bus to the client: a client connects and, whatever the
    interleaving of receiving turns, accepts, timers and writes after that (its
    own writes succeed), up to 2048 frames from the bus are queued for it without
    undefined behaviour; a bounded number of further timers and writes sends it
    exactly the lines of all of them; and a client that reads these bytes with
    [VCI_Receive], in whatever pieces they arrive, gets exactly the frames of the
    bus, in order, up to the size of its array. *)
Theorem frames_reach_client `{Platform} (evs : list agent_event) (r : rx) (a : agent)
    (L : list (positive * nat)) (h : positive) (id : nat) :
  let fs := bus_frames evs (send_count r) in
  agent_inv a L -> (h, id) ∈ L -> sessions a !! id = Some (started h) ->
  rx_ok r -> is_u64 (send_count r) -> Forall (good_event id) evs -> (length fs <= spsc_capacity)%nat ->
  is_UB (agent_run evs r a) = false /\
  forall r' a', agent_run evs r a = Ret (r', a') ->
  exists s more s', sessions a' !! id = Some s /\ (length more <= 1 + (length fs + 7) / 8)%nat /\
    delivered more = [] /\ session_run more s = Ret s' /\ socket_ s' = lines_text (agent_lines fs) /\
    forall sched dt di ci objs len wt st n pr' st',
      connected st = true -> rx_buff st = [] -> received sched = socket_ s' ->
      (0 < len)%nat -> length objs = (len * sizeof_CAN_OBJ)%nat ->
      VCI_Receive sched dt di ci (Some objs) len wt st = Ret (n, pr', st') ->
      exists objs', pr' = Some objs' /\ (connected st' = true -> n = Nat.min len (length fs)) /\
        forall i f, (i < n)%nat -> fs !! i = Some f ->
          dec_CAN_OBJ (slice objs' (i * sizeof_CAN_OBJ) sizeof_CAN_OBJ) = f.2.
Proof.
  intros fs Hi Hin Hs Hr Hc Hg Hle.
  assert (Hsv : served a h id []).
  { exists L, (started h), [], []. split_and!; try done. apply started_inv. }
  destruct (served_run evs r a h id [] Hsv Hr Hc Hg) as [Hu Hrun]. split; [done|]. intros r' a' Ha.
  destruct (served_drains a' h id _ fs (Hrun r' a' Ha) (app_nil_l _) Hle)
    as (s & more & s' & Hs' & Hb & Hd & Hm & Hso).
  exists s, more, s'. split_and!; try done.
  - intros sched dt di ci objs len wt st n pr' st' Hcn Hrx Hrec Hl Ho Hv.
    destruct (receive_frames sched dt di ci objs len wt st fs []) as [_ Hrf]; try done.
    + by eapply bus_frames_wf.
    + apply not_elem_of_nil.
    + by rewrite Hrx, Hrec, Hso, app_nil_r.
    + destruct (Hrf n pr' st' Hv) as (objs' & -> & _ & _ & Hfr & _ & Hmin). by exists objs'.
Qed.

(** ** A concrete agent *)

Definition sample_dispatch : dispatcher Z nat :=
  (appendListener kPpqCanObjEvtId 0%nat (listeners (ppq agent_started))).2.
Definition sample_agent : agent := accepted 0 1 sample_dispatch (not_accepting agent_started).
Lemma sample_agent_inv : agent_inv sample_agent [(1%positive, 0%nat)].
Proof.
  apply (accepted_inv (not_accepting agent_started) [] 0 1 sample_dispatch).
  - apply not_accepting_inv, agent_started_inv.
  - done.
  - by vm_compute.
Qed.
Definition sample_rx : rx := mk_rx (mk_qnode (repeat x20 256) 0) 0.
Definition sample_bus : list byte := repeat x07 24 ++ repeat NUL 2376.

Lemma rx_publishes_witness :
  is_UB (rx_iteration 101 (fun _ => 5) sample_bus sample_rx sample_agent) = true.
Proof.
  apply (rx_publishes 101 (fun _ => 5) sample_bus sample_rx sample_agent [(1%positive, 0%nat)]).
  - apply sample_agent_inv.
  - apply NoDup_singleton.
  - done.
  - by vm_compute.
  - done.
  - unfold kRxBuffSize. lia.
Defined.

Lemma simulator_publishes_witness :
  exists r' (ns : list CanobjQueueNodeT) q' ss, pubSimu_iteration (fun _ => 5) sample_rx sample_agent
      = Ret (r', set_sessions ss (set_ppq q' sample_agent)) /\ length ns = 10%nat.
Proof.
  destruct (simulator_publishes (fun _ => 5) sample_rx sample_agent [(1%positive, 0%nat)])
    as (r' & ns & q' & ss & E & Hl & _); [apply sample_agent_inv|apply NoDup_singleton|done|].
  exists r', ns, q', ss. split; [exact E|exact Hl].
Defined.
Lemma io_thread_serves_witness :
  exists a', io_handle [] (EvTimer 0 0) sample_agent = Ret a' /\ exists L', agent_inv a' L'.
Proof.
  eexists. split; [vm_compute; reflexivity|].
  destruct (io_thread_serves (EvTimer 0 0) sample_agent [(1%positive, 0%nat)]) as (_ & _ & Hio).
  destruct (proj2 (Hio sample_agent_inv) _ eq_refl) as (_ & L' & Hi & _). by exists L'.
Defined.

Definition sample_node : CanobjQueueNodeT := mk_qnode (lit "ab" ++ LF :: NUL :: repeat x20 252) 3.
Lemma sample_node_carries : carries sample_node (lit "ab").
Proof.
  unfold carries. split_and!; try done.
  - apply (bool_decide_unpack _). by vm_compute.
  - by exists (repeat x20 252).
Qed.
(** a full queue turns one line away, a timer makes room, the next line is kept *)
Definition full_session_events : list session_event :=
  replicate 2049 (SDeliver sample_node) ++ [STimer; SDeliver sample_node; SWrite 0 24].
Definition full_lines : list (list byte) := replicate 2050 (lit "ab").
Lemma replicate_carried n : Forall2 carries (replicate n sample_node) (replicate n (lit "ab")).
Proof. induction n as [|n IH]; [constructor|]. constructor; [apply sample_node_carries|done]. Qed.
Lemma full_lines_carried : Forall2 carries (delivered full_session_events) full_lines.
Proof.
  assert (E : delivered full_session_events = replicate 2050 sample_node) by (vm_compute; reflexivity).
  rewrite E. apply replicate_carried.
Qed.
Lemma session_stream_witness :
  let w := bounded full_session_events full_lines (mk_backlog [] [] 0) in
  lost w = 1%nat /\ length (taken w) = 16%nat /\ length (queued w) = 2033%nat /\
  exists s', session_run full_session_events (started 1) = Ret s' /\ length (socket_ s') = 24%nat /\
    session_inv s' full_lines (taken w) (queued w).
Proof.
  destruct (session_stream full_session_events 1 full_lines full_lines_carried) as [_ Hs].
  assert (Hr : match session_run full_session_events (started 1) with
    | Ret s => length (socket_ s) | _ => 0%nat end = 24%nat) by (vm_compute; reflexivity).
  cbv zeta. do 3 (split; [vm_compute; reflexivity|]).
  destruct (session_run full_session_events (started 1)) as [s'| | |] eqn:E; [|discriminate Hr..].
  exists s'. destruct (Hs s' eq_refl) as (Hi & _). split; [reflexivity|]. split; [exact Hr|exact Hi].
Defined.

Definition sample_trace : list agent_event := [ARx 1 (fun _ => 5) sample_bus; AIo (EvTimer 0 0)].
Lemma frames_reach_client_witness :
  exists r' a' s more s', agent_run sample_trace sample_rx sample_agent = Ret (r', a') /\
    sessions a' !! 0%nat = Some s /\ session_run more s = Ret s' /\
    socket_ s' = lines_text [receive_line 0 5 sample_frame].
Proof.
  assert (Hg : Forall (good_event 0) sample_trace).
  { apply list.Forall_cons. split; [split; [unfold kRxBuffSize; lia|done]|]. by apply list.Forall_singleton. }
  destruct (frames_reach_client (H := linux_x86_64) sample_trace sample_rx sample_agent [(1%positive, 0%nat)] 1 0)
    as [_ Hf]; [apply sample_agent_inv|by left|done|done|by vm_compute|exact Hg|unfold spsc_capacity; simpl; lia|].
  destruct (agent_run sample_trace sample_rx sample_agent) as [[r' a']| | |] eqn:E; [|by vm_compute in E..].
  destruct (Hf r' a' eq_refl) as (s & more & s' & Hs & _ & _ & Hm & Hso & _).
  exists r', a', s, more, s'. split_and!; [reflexivity|exact Hs|exact Hm|]. rewrite Hso. vm_compute. reflexivity.
Defined.
