(* ===== verification/AgentMain.v ===== *)
(** * AgentMain
    The whole process [can_agent/main.cc]: opening the device, starting the
    server and the receiving loop. A run of [main] is a run of the steps
    [AgentProps] reasons about, on the frames the back end reports; so what is
    shown of these steps holds of the process from its start. *)

From Stdlib Require Import ZArith Lia.
From Stdlib Require Import Strings.Byte.
From stdpp Require Import base numbers list option gmap fin_maps strings.
From S2P Require Import Prelude UsbCan HexCodec AsioRun Ini NetClient CanImp DirectCan DirectFacts Facade FacadeFacts CallbackList EventQueue EventQueueFacts NetClientProps Agent AgentFacts AgentProps.

(** ** Runs of the two threads *)

Lemma agent_run_app evs1 evs2 r a :
  agent_run (evs1 ++ evs2) r a = ('(r1, a1) ← agent_run evs1 r a; agent_run evs2 r1 a1).
Proof.
  revert r a. induction evs1 as [|ev evs1 IH]; intros r a; [done|]. simpl.
  destruct (agent_step ev r a) as [[r1 a1]| | |]; simpl; [apply IH|done..].
Qed.
Lemma agent_run_io evs r a :
  agent_run (AIo <$> evs) r a = (a1 ← io_run evs a; Ret (r, a1)).
Proof.
  revert a. induction evs as [|ev evs IH]; intros a; [done|]. simpl.
  destruct (io_handle [] ev a) as [a1| | |]; simpl; [apply IH|done..].
Qed.

(** a turn whose report fits the array *)
Definition good_turn (ev : agent_event) : Prop :=
  match ev with
  | AIo _ => True
  | ARx n _ buf => (n <= kRxBuffSize)%nat /\ length buf = (kRxBuffSize * sizeof_CAN_OBJ)%nat
  end.

Lemma io_handle_inv ev a L :
  agent_inv a L ->
  is_UB (io_handle [] ev a) = false /\ forall a', io_handle [] ev a = Ret a' -> exists L', agent_inv a' L'.
Proof.
  intros Hi. destruct ev as [ec|id ec|id ec n].
  - destruct (handle_accept a L ec Hi) as [Hu Hr]. split; [done|]. intros a' [_ Ha]%Hr. case_decide.
    + destruct Ha as (k & h & d & _ & _ & Hi'). by eexists.
    + subst a'. eexists. by apply not_accepting_inv.
  - destruct (handle_timer a L id ec Hi) as [Hu Hr]. split; [done|]. intros a' (s & s' & _ & _ & _ & Hi')%Hr. by eexists.
  - destruct (decide (ec = 0)) as [->|He].
    + destruct (handle_written a L id n Hi) as [Hu Hr]. split; [done|]. intros a' (s & s' & _ & _ & _ & Hi')%Hr. by eexists.
    + destruct (handle_failed a L id ec n Hi He) as [Hu Hr]. split; [done|].
      intros a' (s & L1 & h & L2 & _ & _ & _ & _ & _ & Hi')%Hr. by eexists.
Qed.

Lemma agent_run_inv evs r a L :
  agent_inv a L -> rx_ok r -> is_u64 (send_count r) -> Forall good_turn evs ->
  is_UB (agent_run evs r a) = false /\
  forall r' a', agent_run evs r a = Ret (r', a') ->
    rx_ok r' /\ is_u64 (send_count r') /\ exists L', agent_inv a' L'.
Proof.
  revert r a L. induction evs as [|ev evs IH]; intros r a L Hi Hr Hc Hg.
  - split; [done|]. intros r' a' [= <- <-]. split_and!; try done. by eexists.
  - apply list.Forall_cons in Hg as [Hg1 Hg]. cbn [agent_run].
    destruct ev as [ev|n now buf]; cbn [agent_step].
    + destruct (io_handle_inv ev a L Hi) as [Hu Ha].
      destruct (io_handle [] ev a) as [a1| | |]; cbn [mbind outcome_bind]; try done.
      destruct (Ha a1 eq_refl) as [L1 Hi1]. by eapply IH.
    + destruct Hg1 as [Hn Hb].
      destruct (rx_iteration_spec n now buf r a L (ai_quiet _ _ Hi) (ai_nodup _ _ Hi) Hr Hc Hb Hn)
        as (r1 & ns & q & ss & -> & Hns & Hr1 & Hc1 & Hq & Hss).
      cbn [mbind outcome_bind]. eapply IH; try done; [by eapply rx_inv|]. rewrite Hc1. auto with can.
Qed.

(** ** The trace of a process *)

Section process.
Context {V : Type} `{Host V}.

(** the events of the receiving loop: before each dispatch what the io thread
    does, then the frames [VCI_Receive] reports *)
Fixpoint bus_trace (iters : list (list io_event * (nat -> Z))) (can_rx_buff : list byte)
    (cc : CanAbstract V) (w : world V) : outcome (list agent_event * CanAbstract V * world V) :=
  match iters with
  | [] => Ret ([], cc, w)
  | (evs, now) :: iters =>
      '(n, pReceive, cc1, w1) ← VCI_Receive_c kDevtype kDevid kChannel (Some can_rx_buff) kRxBuffSize 10 cc w;
      buf ← deref "can_rx_buff" pReceive;
      '(t, cc2, w2) ← bus_trace iters buf cc1 w1;
      Ret ((AIo <$> evs) ++ ARx n now buf :: t, cc2, w2)
  end.

Lemma canRx_loop_trace iters buf r a cc w t cc' w' :
  bus_trace iters buf cc w = Ret (t, cc', w') ->
  canRx_loop iters buf r a cc w = ('(r1, a1) ← agent_run t r a; Ret (r1, a1, cc', w')).
Proof.
  revert buf r a cc w t. induction iters as [|[evs now] iters IH]; intros buf r a cc w t Ht.
  - injection Ht as <- <- <-. done.
  - cbn [bus_trace] in Ht. apply bind_Ret_inv in Ht as ([[[n p] cc1] w1] & E1 & Ht).
    apply bind_Ret_inv in Ht as (buf1 & E2 & Ht). apply bind_Ret_inv in Ht as ([[t1 cc2] w2] & E3 & Ht).
    injection Ht as <- -> ->. cbn [canRx_loop]. rewrite E1. cbn [mbind outcome_bind]. rewrite E2.
    cbn [mbind outcome_bind]. rewrite agent_run_app, agent_run_io.
    destruct (io_run evs a) as [a1| | |]; cbn [mbind outcome_bind]; [|done..].
    cbn [agent_run agent_step]. destruct (rx_iteration n now buf1 r a1) as [[r1 a2]| | |];
      cbn [mbind outcome_bind]; [|done..]. by apply IH.
Qed.

Definition loop_start (send_buff : list byte) : rx := mk_rx (mk_qnode send_buff 0) 0.
Definition first_agent (bind_ok : bool) : agent := if bind_ok then agent_started else agent_init.

Lemma main_trace bind_ok iters buf send cc w cc1 w1 t cc' w' :
  canRx_open cc w = Ret (cc1, w1) -> bus_trace iters buf cc1 w1 = Ret (t, cc', w') ->
  main bind_ok iters buf send cc w
    = ('(r, a) ← agent_run t (loop_start send) (first_agent bind_ok); Ret (r, a, cc', w')).
Proof.
  intros Ho Ht. unfold main. rewrite Ho. cbn [mbind outcome_bind].
  assert (Ha : (if bind_ok then startAccepting [] (server_init agent_init) else Ret agent_init) = Ret (first_agent bind_ok))
    by (by destruct bind_ok).
  rewrite Ha. cbn [mbind outcome_bind]. by apply canRx_loop_trace.
Qed.

(** what [main] needs of the device before it serves anyone *)
Definition opened (cc : CanAbstract V) (w : world V) : Prop :=
  exists e1 e2 e3 cc1 w1 cc2 w2 cc3 w3,
    VCI_OpenDevice_c kDevtype 0 0 cc w = Ret (e1, cc1, w1) /\ e1 <> 0 /\
    VCI_InitCAN_c kDevtype kDevid kChannel (Some (createVciInitCfg x00 x1c 0xffffffff)) cc1 w1 = Ret (e2, cc2, w2) /\
    e2 <> 0 /\ VCI_StartCAN_c kDevtype kDevid kChannel cc2 w2 = Ret (e3, cc3, w3) /\ e3 <> 0.

Lemma main_opened bind_ok iters buf send cc w x :
  main bind_ok iters buf send cc w = Ret x -> opened cc w.
Proof.
  intros ([cc' w'] & E & _)%bind_Ret_inv. unfold canRx_open in E.
  apply bind_Ret_inv in E as ([[e1 cc1] w1] & E1 & E). apply bind_Ret_inv in E as ([] & C1 & E).
  apply bind_Ret_inv in E as ([[e2 cc2] w2] & E2 & E). apply bind_Ret_inv in E as ([] & C2 & E).
  apply bind_Ret_inv in E as ([[e3 cc3] w3] & E3 & E). apply bind_Ret_inv in E as ([] & C3 & _).
  unfold glog_check in *.
  destruct (Z.eqb_spec e1 0), (Z.eqb_spec e2 0), (Z.eqb_spec e3 0); simpl in *; try done.
  exists e1, e2, e3, cc1, w1, cc2, w2, cc3, w3. done.
Qed.

(** The process: nothing is served unless opening, configuring and starting
    the device all report success; once the device is open, the
    process is, step for step, the run of the two threads on the frames the back
    end reports. While the reports fit the receive array it has no
    undefined behaviour, and a client whose connection is accepted at any point
    of the run, and whose writes succeed, is sent, after a bounded number
    of further timers and writes, exactly the lines of all frames reported after
    its accept, when these are at most 2048. *)
Theorem process_serves_clients (bind_ok : bool) (iters : list (list io_event * (nat -> Z)))
    (buf send : list byte) (cc cc1 cc' : CanAbstract V) (w w1 w' : world V) (t : list agent_event) :
  (forall x, main bind_ok iters buf send cc w = Ret x -> opened cc w) /\
  (canRx_open cc w = Ret (cc1, w1) -> bus_trace iters buf cc1 w1 = Ret (t, cc', w') ->
   main bind_ok iters buf send cc w
     = ('(r, a) ← agent_run t (loop_start send) (first_agent bind_ok); Ret (r, a, cc', w')) /\
   (length send = kCanobjCapacity -> Forall good_turn t ->
    is_UB (main true iters buf send cc w) = false /\
    forall r a cc2 w2 t1 t2, main true iters buf send cc w = Ret (r, a, cc2, w2) ->
      t = t1 ++ AIo (EvAccept 0) :: t2 ->
      exists id r1 a1, agent_run t1 (loop_start send) agent_started = Ret (r1, a1) /\ session_ a1 = Some id /\
      let fs := bus_frames t2 (send_count r1) in
      (Forall (good_event id) t2 -> (length fs <= spsc_capacity)%nat ->
       exists s more s', sessions a !! id = Some s /\ (length more <= 1 + (length fs + 7) / 8)%nat /\
         delivered more = [] /\ session_run more s = Ret s' /\ socket_ s' = lines_text (agent_lines fs)))).
Proof.
  split; [apply main_opened|]. intros Ho Ht.
  split; [by eapply main_trace|]. intros Hlen Hg.
  rewrite (main_trace true iters buf send cc w cc1 w1 t cc' w' Ho Ht). cbn [first_agent].
  pose proof (fun t => agent_run_inv t (loop_start send) agent_started [] agent_started_inv Hlen ltac:(done)) as Hinv.
  split.
  { destruct (Hinv t Hg) as [Hu _]. by destruct (agent_run _ _ _) as [[r a]| | |]. }
  intros r a cc2 w2 t1 t2 Hm ->. apply bind_Ret_inv in Hm as ([r0 a0] & Hrun & [= <- <- <- <-]).
  rewrite agent_run_app in Hrun. apply bind_Ret_inv in Hrun as ([r1 a1] & E1 & Hrun).
  apply Forall_app in Hg as [Hg1 _].
  destruct (proj2 (Hinv t1 Hg1) r1 a1 E1) as (Hr1 & Hc1 & L & Hi). cbn [agent_run agent_step] in Hrun.
  apply bind_Ret_inv in Hrun as ([r2 a2] & E2 & Hrun). apply bind_Ret_inv in E2 as (a3 & E2 & [= <- ->]).
  destruct (accept_served a1 a2 L Hi E2) as (k & h & Ek & Hs). exists k, r1, a1. split; [done|]. split; [done|].
  intros Hg3 Hle. destruct (served_run t2 r1 a2 h k [] Hs Hr1 Hc1 Hg3) as [_ Hsv].
  by apply (served_drains a0 h k _ _ (Hsv r0 a0 Hrun)).
Qed.
End process.

(** ** A bus that reports one frame per turn *)

Definition bus_dll : dll_load_dll_type Z := {|
  path := path sample_dll;
  fOpenDevice := fOpenDevice sample_dll;
  fCloseDevice := fCloseDevice sample_dll;
  fResetCan := fResetCan sample_dll;
  fInitCan := fInitCan sample_dll;
  fReadBoardInfo := fReadBoardInfo sample_dll;
  fReadErrInfo := fReadErrInfo sample_dll;
  fReadCanStatus := fReadCanStatus sample_dll;
  fGetReference := fGetReference sample_dll;
  fSetReference := fSetReference sample_dll;
  fGetReceiveNum := fGetReceiveNum sample_dll;
  fClearBuffer := fClearBuffer sample_dll;
  fStartCan := fStartCan sample_dll;
  fTransmit := fTransmit sample_dll;
  fReceive t i c pr len wt v := (1%nat, (fun b => repeat x07 24 ++ drop 24 b) <$> pr, v + 1);
|}.
Definition bus_host : Host Z := {|
  platform := linux_x86_64;
  kernel_ini := kernel_ini (Host := sample_host);
  control_ini := None;
  sub_path := sub_path (Host := sample_host);
  file_exists := file_exists (Host := sample_host);
  try_lexical_convert := try_lexical_convert (Host := sample_host);
  traversal := traversal (Host := sample_host);
  shared_library p := Ret bus_dll;
  dl_load p v := v;
  dl_unload p v := v;
  resolves _ _ := false;
|}.
(** a turn without clients, then a client connects and another frame comes *)
Definition bus_iters : list (list io_event * (nat -> Z)) := [([], fun _ => 5); ([EvAccept 0], fun _ => 6)].
Definition bus_cc : CanAbstract Z := mk_cc (Some (IDirect (mk_dc2 (Some bus_dll) (Some 4)))).
Definition bus_events : list agent_event :=
  [ARx 1 (fun _ => 5) sample_bus; AIo (EvAccept 0); ARx 1 (fun _ => 6) sample_bus].
Lemma process_serves_clients_witness :
  exists r a cc2 w2 s more s',
    main (H := bus_host) true bus_iters (repeat NUL 2400) (repeat x20 256) (mk_cc None) sample_world = Ret (r, a, cc2, w2) /\
    sessions a !! 0%nat = Some s /\ session_run more s = Ret s' /\
    socket_ s' = lines_text [receive_line 1 6 sample_frame].
Proof.
  destruct (process_serves_clients (H := bus_host) true bus_iters (repeat NUL 2400) (repeat x20 256) (mk_cc None)
    bus_cc bus_cc sample_world (set_vendor 3 sample_world) (set_vendor 5 sample_world) bus_events) as [_ Hp].
  destruct Hp as [_ Hp]; [by vm_compute|by vm_compute|].
  destruct Hp as [_ Hp]; [done|repeat (apply list.Forall_cons; split; [try (split; [unfold kRxBuffSize; lia|done]); done|]); done|].
  destruct (main (H := bus_host) true bus_iters (repeat NUL 2400) (repeat x20 256) (mk_cc None) sample_world)
    as [[[[r a] cc2] w2]| | |] eqn:E; [|by vm_compute in E..].
  destruct (Hp r a cc2 w2 [ARx 1 (fun _ => 5) sample_bus] [ARx 1 (fun _ => 6) sample_bus] eq_refl eq_refl)
    as (id & r1 & a1 & E1 & Eid & Hs).
  vm_compute in E1. injection E1 as <- <-. vm_compute in Eid. injection Eid as <-.
  destruct Hs as (s & more & s' & Hs & _ & _ & Hm & Hso).
  - apply list.Forall_singleton. split; [unfold kRxBuffSize; lia|done].
  - unfold spsc_capacity. simpl. lia.
  - exists r, a, cc2, w2, s, more, s'. split_and!; [reflexivity|exact Hs|exact Hm|]. rewrite Hso. vm_compute. reflexivity.
Defined.
