(* ===== verification/AgentClock.v ===== *)
(** * AgentClock
    The two publishing threads of [can_agent/main.cc] with the clock they keep:
    [canRxFunc] and [pubSimuFunc] calibrate a [tickExt], and read and update it
    for every frame. [Agent] takes the time stamps as inputs; here they come from
    the clock, and on an ideal counter the threads do what [Agent] does with
    the true times, so that what is shown there holds with them. *)

From Stdlib Require Import ZArith Lia Sorted.
From Stdlib Require Import Strings.Byte.
From stdpp Require Import base numbers list option gmap fin_maps strings.
From S2P Require Import Prelude UsbCan HexCodec Tick TickClock AsioRun NetClient CanImp DirectCan DirectFacts Facade FacadeFacts CallbackList EventQueue EventQueueFacts NetClientProps Agent AgentFacts AgentProps AgentMain.

(** ** The loops with their clock *)

(** what a frame reads of the clocks: the counter in [getTick], then the
    readings of [updateTick] *)
Definition frame_reads : Type := Z * reading.
(** [now = tick_ext.getTick(); tick_ext.updateTick();] *)
Definition read_clock (rd : frame_reads) (te : tickExt) : outcome (Z * tickExt) :=
  now ← getTick rd.1 te;
  let '(us, t1, t2) := rd.2 in Ret (now, updateTick us t1 t2 te).

Fixpoint rx_frames_clock (n i : nat) (rd : nat -> frame_reads) (can_rx_buff : list byte) (te : tickExt) (r : rx)
    (q : eventpp_queue_t) : outcome (tickExt * (rx * eventpp_queue_t)) :=
  match n with
  | O => Ret (te, (r, q))
  | S n =>
      '(now, te1) ← read_clock (rd i) te;
      can_obj ← rx_obj can_rx_buff i;
      '(r1, q1) ← publish now can_obj r q;
      rx_frames_clock n (S i) rd can_rx_buff te1 r1 q1
  end.
Definition rx_iteration_clock (frame_num : nat) (rd : nat -> frame_reads) (can_rx_buff : list byte) (te : tickExt)
    (r : rx) (a : agent) : outcome (tickExt * (rx * agent)) :=
  '(te1, (r1, q1)) ← rx_frames_clock frame_num 0 rd can_rx_buff te r (ppq a);
  '(_, q2, ss) ← processIf call_listener (fun _ => (0 <? frame_num)%nat) [] q1 (sessions a);
  Ret (te1, (r1, set_sessions ss (set_ppq q2 a))).

Fixpoint simu_frames_clock (n i : nat) (rd : nat -> frame_reads) (te : tickExt) (r : rx) (q : eventpp_queue_t)
    : outcome (tickExt * (rx * eventpp_queue_t)) :=
  match n with
  | O => Ret (te, (r, q))
  | S n =>
      '(now, te1) ← read_clock (rd i) te;
      '(r1, q1) ← publish now (enc_CAN_OBJ (simu_obj (send_count r))) r q;
      simu_frames_clock n (S i) rd te1 r1 q1
  end.
Definition pubSimu_iteration_clock (rd : nat -> frame_reads) (te : tickExt) (r : rx) (a : agent)
    : outcome (tickExt * (rx * agent)) :=
  '(te1, (r1, q1)) ← simu_frames_clock 10 0 rd te r (ppq a);
  '(err, q2, ss) ← process call_listener [] q1 (sessions a);
  _ ← glog_check "eventpp_queue_t::process fail." err;
  Ret (te1, (r1, set_sessions ss (set_ppq q2 a))).
Fixpoint pubSimu_loop_clock (iters : list (list io_event * (nat -> frame_reads))) (te : tickExt) (r : rx) (a : agent)
    : outcome (tickExt * (rx * agent)) :=
  match iters with
  | [] => Ret (te, (r, a))
  | (evs, rd) :: iters =>
      a1 ← io_run evs a;
      '(te1, (r1, a2)) ← pubSimu_iteration_clock rd te r a1;
      pubSimu_loop_clock iters te1 r1 a2
  end.

Section rx_thread.
Context {V : Type} `{Host V}.

Fixpoint canRx_loop_clock (iters : list (list io_event * (nat -> frame_reads))) (can_rx_buff : list byte) (te : tickExt)
    (r : rx) (a : agent) (cc : CanAbstract V) (w : world V) : outcome (tickExt * (rx * agent * CanAbstract V * world V)) :=
  match iters with
  | [] => Ret (te, (r, a, cc, w))
  | (evs, rd) :: iters =>
      '(frame_num, pReceive, cc1, w1) ←
        VCI_Receive_c kDevtype kDevid kChannel (Some can_rx_buff) kRxBuffSize 10 cc w;
      can_rx_buff1 ← deref "can_rx_buff" pReceive;
      a1 ← io_run evs a;
      '(te1, (r1, a2)) ← rx_iteration_clock frame_num rd can_rx_buff1 te r a1;
      canRx_loop_clock iters can_rx_buff1 te1 r1 a2 cc1 w1
  end.

(** [main] with the clock of its receiving thread *)
Definition main_clock (bind_ok : bool) (created begun ended : Z * Z)
    (iters : list (list io_event * (nat -> frame_reads))) (can_rx_buff send_buff : list byte)
    (cc : CanAbstract V) (w : world V) : outcome (tickExt * (rx * agent * CanAbstract V * world V)) :=
  '(cc1, w1) ← canRx_open cc w;
  let '(_, te) := clock_init created begun ended in
  a ← (if bind_ok then startAccepting [] (server_init agent_init) else Ret agent_init);
  canRx_loop_clock iters can_rx_buff te (mk_rx (mk_qnode send_buff 0) 0) a cc1 w1.
End rx_thread.

(** ** What the threads rely on *)

(** a clock that has been read up to [now] gives the frame at a later time [u],
    which reads [reads u], the stamp [stamp u] *)
Class StampClock (inv : Z -> tickExt -> Prop) (ok : Z -> Prop) (reads : Z -> frame_reads) (stamp : Z -> Z) : Prop :=
  read_stamps : forall now te u, inv now te -> ok u -> now <= u ->
    exists te', read_clock (reads u) te = Ret (stamp u, te') /\ inv u te'.

(** the times of the frames of each iteration, in order, after [now] *)
Fixpoint later (ok : Z -> Prop) (now : Z) (iters : list (list io_event * (nat -> Z))) : Prop :=
  match iters with
  | [] => True
  | (_, tm) :: iters =>
      exists hi, (forall i, now <= tm i <= hi /\ ok (tm i)) /\
        (forall i j, (i <= j)%nat -> tm i <= tm j) /\ later ok hi iters
  end.
(** the same iterations, with each frame's time turned into what it reads or into its stamp *)
Definition at_times {B} (f : Z -> B) (iters : list (list io_event * (nat -> Z))) : list (list io_event * (nat -> B)) :=
  (fun it => (it.1, fun i => f (it.2 i))) <$> iters.

Section stamped.
Context {inv : Z -> tickExt -> Prop} {ok : Z -> Prop} {reads : Z -> frame_reads} {stamp : Z -> Z} `{!StampClock inv ok reads stamp}.

(** a clock left by a run, still good for the times from [hi] on *)
Definition left_at (hi : Z) (te : tickExt) : Prop := exists now, now <= hi /\ inv now te.

Lemma left_at_read hi te u : left_at hi te -> ok u -> hi <= u -> exists te', read_clock (reads u) te = Ret (stamp u, te') /\ inv u te'.
Proof. intros (now & Hn & Hi) Hu Hhi. apply (read_stamps now); [done|done|lia]. Qed.

Lemma rx_frames_stamped n i tm buff lo hi te r q :
  left_at lo te -> (forall j, (i <= j)%nat -> lo <= tm j <= hi /\ ok (tm j)) -> (forall j j', (j <= j')%nat -> tm j <= tm j') ->
  exists te', left_at hi te' /\
    rx_frames_clock n i (fun j => reads (tm j)) buff te r q =
      (x ← rx_frames n i (fun j => stamp (tm j)) buff r q; Ret (te', x)).
Proof.
  revert i lo te r q. induction n as [|n IH]; intros i lo te r q Hte Htm Hmono; cbn [rx_frames_clock rx_frames].
  - exists te. split; [|done]. destruct Hte as (now & Hn & Hi). exists now. destruct (Htm i); [lia|]. split; [lia|done].
  - destruct (Htm i) as [Hi Hoki]; [lia|]. destruct (left_at_read lo te (tm i) Hte Hoki) as (te1 & -> & Hte1); [lia|].
    cbn [mbind outcome_bind].
    assert (Hl : forall u, tm i <= u -> left_at u te1) by (intros u Hu; by exists (tm i)).
    destruct (rx_obj buff i) as [o| | |]; cbn [mbind outcome_bind]; [|exists te1; split; [apply Hl; lia|done]..].
    destruct (publish (stamp (tm i)) o r q) as [[r1 q1]| | |]; cbn [mbind outcome_bind];
      [|exists te1; split; [apply Hl; lia|done]..].
    apply (IH (S i) (tm i)); [apply Hl; lia| |done]. intros j Hj. destruct (Htm j) as [? ?]; [lia|].
    split; [|done]. split; [apply Hmono; lia|lia].
Qed.

Lemma simu_frames_stamped n i tm lo hi te r q :
  left_at lo te -> (forall j, (i <= j)%nat -> lo <= tm j <= hi /\ ok (tm j)) -> (forall j j', (j <= j')%nat -> tm j <= tm j') ->
  exists te', left_at hi te' /\
    simu_frames_clock n i (fun j => reads (tm j)) te r q =
      (x ← simu_frames n i (fun j => stamp (tm j)) r q; Ret (te', x)).
Proof.
  revert i lo te r q. induction n as [|n IH]; intros i lo te r q Hte Htm Hmono; cbn [simu_frames_clock simu_frames].
  - exists te. split; [|done]. destruct Hte as (now & Hn & Hi). exists now. destruct (Htm i); [lia|]. split; [lia|done].
  - destruct (Htm i) as [Hi Hoki]; [lia|]. destruct (left_at_read lo te (tm i) Hte Hoki) as (te1 & -> & Hte1); [lia|].
    cbn [mbind outcome_bind].
    assert (Hl : forall u, tm i <= u -> left_at u te1) by (intros u Hu; by exists (tm i)).
    destruct (publish (stamp (tm i)) _ r q) as [[r1 q1]| | |]; cbn [mbind outcome_bind];
      [|exists te1; split; [apply Hl; lia|done]..].
    apply (IH (S i) (tm i)); [apply Hl; lia| |done]. intros j Hj. destruct (Htm j) as [? ?]; [lia|].
    split; [|done]. split; [apply Hmono; lia|lia].
Qed.

Lemma pubSimu_stamped iters lo te r a :
  left_at lo te -> later ok lo iters ->
  (x ← pubSimu_loop_clock (at_times reads iters) te r a; Ret x.2) = pubSimuFunc (at_times stamp iters) r a.
Proof.
  revert lo te r a. induction iters as [|[evs tm] iters IH]; intros lo te r a Hte Hl; [done|].
  destruct Hl as (hi & Htm & Hmono & Hl). cbn [at_times fmap list_fmap pubSimu_loop_clock pubSimuFunc fst snd].
  destruct (io_run evs a) as [a1| | |]; cbn [mbind outcome_bind]; [|done..].
  unfold pubSimu_iteration_clock, pubSimu_iteration.
  destruct (simu_frames_stamped 10 0 tm lo hi te r (ppq a1) Hte (fun j _ => Htm j) Hmono) as (te1 & Hte1 & ->).
  destruct (simu_frames _ _ _ r (ppq a1)) as [[r1 q1]| | |]; cbn [mbind outcome_bind]; [|done..].
  destruct (process _ _ _ _) as [[[err q2] ss]| | |]; cbn [mbind outcome_bind]; [|done..].
  destruct (glog_check _ err); cbn [mbind outcome_bind]; [|done..]. by apply (IH hi).
Qed.

Section rx_stamped.
Context {V : Type} `{Host V}.

Lemma canRx_stamped iters buff lo te r a (cc : CanAbstract V) (w : world V) :
  left_at lo te -> later ok lo iters ->
  (x ← canRx_loop_clock (at_times reads iters) buff te r a cc w; Ret x.2) = canRx_loop (at_times stamp iters) buff r a cc w.
Proof.
  revert buff lo te r a cc w. induction iters as [|[evs tm] iters IH]; intros buff lo te r a cc w Hte Hl; [done|].
  destruct Hl as (hi & Htm & Hmono & Hl). cbn [at_times fmap list_fmap canRx_loop_clock canRx_loop fst snd].
  destruct (VCI_Receive_c _ _ _ _ _ _ _ _) as [[[[n pr] cc1] w1]| | |]; cbn [mbind outcome_bind]; [|done..].
  destruct (deref "can_rx_buff" pr) as [buff1| | |]; cbn [mbind outcome_bind]; [|done..].
  destruct (io_run evs a) as [a1| | |]; cbn [mbind outcome_bind]; [|done..].
  unfold rx_iteration_clock, rx_iteration.
  destruct (rx_frames_stamped n 0 tm buff1 lo hi te r (ppq a1) Hte (fun j _ => Htm j) Hmono) as (te1 & Hte1 & ->).
  destruct (rx_frames _ _ _ _ r (ppq a1)) as [[r1 q1]| | |]; cbn [mbind outcome_bind]; [|done..].
  destruct (processIf _ _ _ _ _) as [[[b q2] ss]| | |]; cbn [mbind outcome_bind]; [|done..]. by apply (IH buff1 hi).
Qed.

Lemma main_stamped bind_ok created begun ended lo iters buff sb (cc : CanAbstract V) (w : world V) :
  inv lo (clock_init created begun ended).2 -> later ok lo iters ->
  (x ← main_clock bind_ok created begun ended (at_times reads iters) buff sb cc w; Ret x.2) =
    main bind_ok (at_times stamp iters) buff sb cc w.
Proof.
  intros Hi Hl. unfold main_clock, main. destruct (canRx_open cc w) as [[cc1 w1]| | |]; cbn [mbind outcome_bind]; [|done..].
  destruct (clock_init created begun ended) as [code te]. cbn [snd] in Hi.
  destruct (if bind_ok then _ else _) as [a| | |]; cbn [mbind outcome_bind]; [|done..].
  apply canRx_stamped with lo; [by exists lo|done].
Qed.
End rx_stamped.
End stamped.

(** ** The two clocks *)

(** a calibrated clock on an ideal counter: a frame reads the counter at its time *)
Definition ideal_reads (k : nat) (boot u : Z) : frame_reads := (ticks k boot u, at_time k boot u).
Definition ideal_ok (k : nat) (boot start u : Z) : Prop := in_range k boot u /\ u - boot <= start + 1000.

#[export] Instance ideal_clock k boot start :
  StampClock (on_time k boot start) (ideal_ok k boot start) (ideal_reads k boot) (fun u => u).
Proof.
  intros now te u Hte [Hu Hage] Hnu. unfold read_clock, ideal_reads. cbn [fst snd at_time].
  rewrite (on_time_getTick k boot start now te u) by done. cbn [mbind outcome_bind].
  eexists. split; [done|]. by apply on_time_step with now.
Qed.

(** a clock whose calibration was rejected: it stays so, and gives 0 *)
#[export] Instance rejected_clock (reads : Z -> frame_reads) :
  StampClock (fun _ te => valid_tick_ te = false) (fun _ => True) reads (fun _ => 0).
Proof.
  intros now te u Hte _ _. unfold read_clock, getTick. rewrite Hte. cbn [negb mbind outcome_bind].
  destruct (reads u) as [t [[us t1] t2]]. cbn [fst snd]. eexists. split; [done|].
  by destruct (updateTick_ratio us t1 t2 te) as [_ ->].
Qed.

Lemma at_times_id iters : at_times (fun u => u) iters = iters.
Proof. unfold at_times. induction iters as [|[evs tm] iters IH]; [done|]. cbn [fmap list_fmap]. f_equal. exact IH. Qed.

(** C8. The time stamps of the agent. The receiving thread and the simulator
    calibrate a clock, and read and update it for every frame. On an ideal counter
    of [2 ^ k] ticks per microsecond, younger than the date, the whole process
    with its clock is the process of [Agent] in which every frame is stamped
    with its true time, on every path, failures and undefined behaviour included;
    so every line a client gets carries the microsecond its frame was read. When
    the pause of the calibration is too short or a clock went back during it, the
    code of [endInitTick] is not looked at, and every frame is stamped 0. *)
Theorem agent_time_stamps {V} `{Host V} (cc : CanAbstract V) (w : world V) (bind_ok : bool)
    (iters : list (list io_event * (nat -> Z))) (buf send : list byte) (r : rx) (a : agent) (created : Z * Z) :
  (forall k boot start v,
     in_range k boot start -> in_range k boot v -> start + 10 <= v -> 1000 <= (v - start) * 2 ^ Z.of_nat k ->
     later (ideal_ok k boot start) v iters ->
     let begun := (start, ticks k boot start) in let ended := (v, ticks k boot v) in
     let rds := at_times (ideal_reads k boot) iters in
     (x ← main_clock bind_ok created begun ended rds buf send cc w; Ret x.2) = main bind_ok iters buf send cc w /\
     (x ← pubSimu_loop_clock rds (clock_init created begun ended).2 r a; Ret x.2) = pubSimuFunc iters r a) /\
  (forall begun ended reads lo,
     is_u64 begun.1 -> is_u64 begun.2 -> is_u64 ended.1 -> is_u64 ended.2 ->
     ended.1 < begun.1 + 10 \/ ended.2 < begun.2 + 1000 ->
     later (fun _ => True) lo iters ->
     let rds := at_times reads iters in let zeros := at_times (fun _ => 0) iters in
     (x ← main_clock bind_ok created begun ended rds buf send cc w; Ret x.2) = main bind_ok zeros buf send cc w /\
     (x ← pubSimu_loop_clock rds (clock_init created begun ended).2 r a; Ret x.2) = pubSimuFunc zeros r a).
Proof.
  split.
  - intros k boot start v Hs Hv Hsv Hk Hl begun ended rds.
    pose proof (calibrated_on_time k boot start v Hs Hv Hsv Hk) as Hc.
    split; rewrite <- (at_times_id iters) at 1;
      [by apply (main_stamped (inv := on_time k boot start)) with v|].
    apply (pubSimu_stamped (inv := on_time k boot start)) with v; [by exists v|done].
  - intros [b1 b2] [e1 e2] reads lo H1 H2 H3 H4 Hrej Hl rds zeros. cbn [fst snd] in *.
    assert (Hc : valid_tick_ (clock_init created (b1, b2) (e1, e2)).2 = false).
    { unfold clock_init. cbn [fst snd]. pose proof (endInitTick_code e1 e2 (beginInitTick b1 b2 (tickExt_new created.1 created.2))) as E.
      cbn in E. specialize (E H3 H4 H1 H2). destruct (endInitTick _ _ _) as [code te]. cbn [snd].
      destruct E as (_ & E & _). destruct (valid_tick_ te); [|done]. destruct E as [E _]. destruct (E eq_refl). lia. }
    split; [by apply (main_stamped (inv := fun _ te => valid_tick_ te = false)) with lo|].
    apply (pubSimu_stamped (inv := fun _ te => valid_tick_ te = false)) with lo; [by exists lo|done].
Qed.

(** the bus of [AgentMain] with a client; the frames of the two turns at two times *)
Definition clock_iters : list (list io_event * (nat -> Z)) :=
  [([EvAccept 0], fun _ => 1700000001000100); ([], fun _ => 1700000002000007)].
Lemma agent_time_stamps_witness :
  (x ← main_clock (H := bus_host) true (0, 0)
         (1700000000000000, ticks 11 set_date 1700000000000000) (1700000001000000, ticks 11 set_date 1700000001000000)
         (at_times (ideal_reads 11 set_date) clock_iters) (repeat NUL 2400) (repeat x20 256) (mk_cc None) sample_world; Ret x.2)
    = main (H := bus_host) true clock_iters (repeat NUL 2400) (repeat x20 256) (mk_cc None) sample_world /\
  (x ← pubSimu_loop_clock (at_times (ideal_reads 11 set_date) clock_iters)
         (clock_init (0, 0) (1700000000000000, 1000) (1699999999999999, 5000)).2 sample_rx sample_agent; Ret x.2)
    = pubSimuFunc (at_times (fun _ => 0) clock_iters) sample_rx sample_agent.
Proof.
  destruct (agent_time_stamps (H := bus_host) (mk_cc None) sample_world true clock_iters (repeat NUL 2400) (repeat x20 256)
    sample_rx sample_agent (0, 0)) as [H1 H2]. split.
  - destruct (H1 11%nat set_date 1700000000000000 1700000001000000) as [E _]; [by vm_compute..| |exact E].
    exists 1700000001000100. split; [intros _; by vm_compute|]. split; [lia|].
    exists 1700000002000007. split; [intros _; by vm_compute|]. split; [lia|done].
  - destruct (H2 (1700000000000000, 1000) (1699999999999999, 5000) (ideal_reads 11 set_date) 0) as [_ E];
      [by vm_compute..|left; simpl; lia| |exact E].
    exists 1700000001000100. split; [intros _; by vm_compute|]. split; [lia|].
    exists 1700000002000007. split; [intros _; by vm_compute|]. split; [lia|done].
Defined.
