(* ===== verification/AgentThreads.v ===== *)
(** * AgentThreads
    The two threads of the agent, step by step. The receiving loop of
    [can_agent/main.cc] is a program counter over its own steps: one frame
    published, one event taken from the queue, and inside a dispatch the steps of
    [doForEachIf] between which the list's mutex is free. Between any two of
    these steps the io thread may run a handler: it registers and removes
    listeners while the loop stands on one of them, and a session whose
    listener is gone lives on while the loop still holds its node. *)

From Stdlib Require Import ZArith Lia.
From Stdlib Require Import Strings.Byte.
From stdpp Require Import base numbers list option gmap fin_maps strings relations.
From S2P Require Import Prelude UsbCan HexCodec NetClientProps CallbackList CallbackListFacts CallbackDispatch EventQueue EventQueueFacts Agent AgentFacts AgentProps.

(** ** The receiving thread *)

Notation item := (@BufferedItem Z CanobjQueueNodeT).

(** where the receiving loop stands: before [VCI_Receive]; in the loop over [n]
    frames, at frame [i]; in [processIf], with the items to examine, those kept
    and those cleared; in the dispatch of an item *)
Inductive rx_pc : Type :=
| AtReceive
| InFrames (n i : nat) (now : nat -> Z) (buf : list byte)
| InQueue (n : nat) (todo kept idle : list item)
| InCall (n : nat) (it : item) (todo kept idle : list item)
    (ev : @QueuedEvent Z CanobjQueueNodeT) (d : disp).

Record threads := mk_threads { shared : agent; locals : rx; pc : rx_pc }.

(** the node the dispatch holds *)
Definition held (p : rx_pc) : list positive :=
  match p with InCall _ _ _ _ _ _ d => option_list (cursor d) | _ => [] end.

(** the sessions whose last owner was a node that is gone now *)
Definition collect (pins : list positive) (a : agent) : agent :=
  fold_right (release pins) a (elements (dom (sessions a))).

(** [VCI_Receive] reported [n] frames in [buf]; [now] are the ticks the loop
    reads *)
Definition report : Type := nat * (nat -> Z) * list byte.

(** one step of [doForEachIf], which calls the session a node is bound to *)
Definition call_step (ev : @QueuedEvent Z CanobjQueueNodeT) (d : disp) (a : agent) : outcome (disp * agent) :=
  let l := list_at (fst ev) (listeners (ppq a)) in
  match cursor d, snap d with
  | c, None => Ret (mk_disp c (Some (currentCounter l)) (visited d) (invoked d), a)
  | None, Some _ => Ret (d, a)
  | Some q, Some s =>
      nd ← deref "node" (heap l !! q);
      if visited d then
        let d' := mk_disp (next nd) (Some s) false (invoked d) in
        Ret (d', collect (option_list (cursor d')) a)
      else
        let d' := mk_disp (Some q) (Some s) true (invoked d ++ if eligible s nd then [q] else []) in
        Ret (d', if eligible s nd then set_sessions (call_listener (callback nd) (snd ev) (sessions a)) a else a)
  end.
Definition call_over (d : disp) : bool :=
  match cursor d, snap d with None, Some _ => true | _, _ => false end.

(** one step of [canRxFunc]'s loop *)
Definition rx_step (inp : report) (t : threads) : outcome threads :=
  let a := shared t in
  match pc t with
  | AtReceive => let '(n, now, buf) := inp in Ret (mk_threads a (locals t) (InFrames n 0 now buf))
  | InFrames n i now buf =>
      if (i <? n)%nat then
        can_obj ← rx_obj buf i;
        '(r, q) ← publish (now i) can_obj (locals t) (ppq a);
        Ret (mk_threads (set_ppq q a) r (InFrames n (S i) now buf))
      else if bool_decide (queueList (ppq a) = []) then Ret (mk_threads a (locals t) AtReceive)
      else
        Ret (mk_threads (set_ppq (set_queue [] (add_empty 1 (ppq a))) a) (locals t)
               (InQueue n (queueList (ppq a)) [] []))
  | InQueue n [] kept idle =>
      let q := set_queue (kept ++ queueList (ppq a)) (ppq a) in
      Ret (mk_threads (set_ppq (add_empty (-1) (set_free (freeList q ++ idle) q)) a) (locals t) AtReceive)
  | InQueue n (it :: todo) kept idle =>
      ev ← item_get it;
      if (0 <? n)%nat then
        match doFindCallableList (fst ev) (listeners (ppq a)) with
        | Some l => Ret (mk_threads a (locals t) (InCall n it todo kept idle ev (start l)))
        | None =>
            it' ← item_clear it;
            Ret (mk_threads a (locals t) (InQueue n todo kept (idle ++ [it'])))
        end
      else Ret (mk_threads a (locals t) (InQueue n todo (kept ++ [it]) idle))
  | InCall n it todo kept idle ev d =>
      if call_over d then
        it' ← item_clear it;
        Ret (mk_threads a (locals t) (InQueue n todo kept (idle ++ [it'])))
      else
        '(d', a') ← call_step ev d a;
        Ret (mk_threads a' (locals t) (InCall n it todo kept idle ev d'))
  end.

(** ** Runs *)

Inductive thread_event : Type :=
| TRx (inp : report)
| TIo (ev : io_event).
Definition thread_step (e : thread_event) (t : threads) : outcome threads :=
  match e with
  | TRx inp => rx_step inp t
  | TIo ev => a ← io_handle (held (pc t)) ev (shared t); Ret (mk_threads a (locals t) (pc t))
  end.
Fixpoint thread_run (es : list thread_event) (t : threads) : outcome threads :=
  match es with
  | [] => Ret t
  | e :: es => t1 ← thread_step e t; thread_run es t1
  end.

(** the frame a step publishes *)
Definition published (e : thread_event) (t : threads) : list (Z * Z * VCI_CAN_OBJ) :=
  match e, pc t with
  | TRx _, InFrames n i now buf =>
      if (i <? n)%nat
      then [(send_count (locals t), now i, dec_CAN_OBJ (slice buf (i * sizeof_CAN_OBJ) sizeof_CAN_OBJ))]
      else []
  | _, _ => []
  end.
Fixpoint all_published (es : list thread_event) (t : threads) : list (Z * Z * VCI_CAN_OBJ) :=
  match es with
  | [] => []
  | e :: es => published e t ++ match thread_step e t with Ret t1 => all_published es t1 | _ => [] end
  end.

(** ** An agent in the middle of a turn *)

(** the agent [a], with a queue in use and with sessions that only the dispatch
    keeps alive *)
Definition wrap (q : eventpp_queue_t) (z : gmap nat Session) (a : agent) : agent :=
  mk_agent (set_listeners (listeners (ppq a)) q) (sessions a ∪ z) (next_id a) (accepting a) (session_ a)
    (session_pool_ a).

(** a session that waits for its destruction *)
Record zombie (a : agent) (L : list (positive * nat)) (id : nat) (s : Session) : Prop := {
  zo_gone : sessions a !! id = None;
  zo_old : (id < next_id a)%nat;
  zo_idle : pending_op s = NoOp;
  zo_handle : exists h, ppq_handle_ s = Some h /\ h ∉ L.*1 /\ callback <$> heap (canobj_list a) !! h = Some id;
}.
Definition zombies (a : agent) (L : list (positive * nat)) (z : gmap nat Session) : Prop :=
  forall id s, z !! id = Some s -> zombie a L id s.

Lemma wrap_session z a L id s :
  zombies a L z -> (sessions a ∪ z) !! id = Some s ->
  sessions a !! id = Some s \/ (sessions a !! id = None /\ pending_op s = NoOp).
Proof.
  intros Hz Hs. apply lookup_union_Some_raw in Hs as [Hs|[Hn Hs]]; [by left|right].
  split; [done|]. by destruct (Hz id s Hs).
Qed.
Lemma wrap_put q z a id s : put_session id s (wrap q z a) = wrap q z (put_session id s a).
Proof. unfold put_session, set_sessions, wrap. simpl. by rewrite insert_union_l. Qed.

(** the steps of a session do not see the rest *)
Lemma wrap_timer pins q z a L id ec :
  agent_inv a L -> zombies a L z ->
  io_handle pins (EvTimer id ec) (wrap q z a) = wrap q z <$> io_handle [] (EvTimer id ec) a.
Proof.
  intros Hi Hz. cbn [io_handle wrap sessions].
  destruct (sessions a !! id) as [s|] eqn:Es.
  - rewrite (lookup_union_Some_l _ _ _ _ Es). case_decide; [|done].
    destruct (doCanObjTranspose (set_pending NoOp s)) as [s1| | |]; [|done..]. simpl. f_equal. apply wrap_put.
  - rewrite lookup_union_r by done. destruct (z !! id) as [s|] eqn:Ez; [|done].
    destruct (Hz id s Ez) as [_ _ Hp _]. by rewrite decide_False by (by rewrite Hp).
Qed.
Lemma wrap_written pins q z a L id n :
  agent_inv a L -> zombies a L z ->
  io_handle pins (EvWrite id 0 n) (wrap q z a) = wrap q z <$> io_handle [] (EvWrite id 0 n) a.
Proof.
  intros Hi Hz. cbn [io_handle wrap sessions].
  destruct (sessions a !! id) as [s|] eqn:Es.
  - rewrite (lookup_union_Some_l _ _ _ _ Es). case_decide; [|done]. fold (wrap q z a). rewrite wrap_put.
    unfold handleWrite. cbn [wrap sessions put_session set_sessions].
    rewrite (lookup_union_Some_l _ _ _ _ (lookup_insert_eq _ _ _)), lookup_insert_eq.
    cbn [deref mbind outcome_bind Z.eqb negb].
    match goal with |- context [doCanObjTranspose ?s2] => destruct (doCanObjTranspose s2) as [s1| | |]; [|done..] end.
    cbn [mbind outcome_bind fmap outcome_fmap]. f_equal. fold (wrap q z (put_session id (consume n (add_socket (take n (shr_tx_buff_ s)) (set_pending NoOp s))) a)). by rewrite !wrap_put.
  - rewrite lookup_union_r by done. destruct (z !! id) as [s|] eqn:Ez; [|done].
    destruct (Hz id s Ez) as [_ _ Hp _]. rewrite decide_False by (rewrite Hp; naive_solver). done.
Qed.

(** ** Handlers of the io thread during a dispatch *)

(** what a handler does to the listeners of the frames *)
Definition list_effect (pins : list positive) (ev : io_event) (l l' : clist nat) : Prop :=
  l' = l \/
  (ev = EvAccept 0 /\ exists k, l' = apply_op pins (OAppend k) l) \/
  exists h, h ∈ to_list l /\ l' = apply_op pins (ORemove h) l.

Lemma zombies_put a L z id s s' : sessions a !! id = Some s -> zombies a L z -> zombies (put_session id s' a) L z.
Proof.
  intros Hs Hz i si Hi. destruct (Hz i si Hi) as [Hg Ho Hp Hh]. split; try done. simpl.
  rewrite lookup_insert_ne; [done|congruence].
Qed.
Lemma wrap_accepted q z k h d a : accepted k h d (wrap q z a) = wrap q z (accepted k h d a).
Proof. unfold accepted, wrap. simpl. by rewrite !insert_union_l. Qed.
Lemma wrap_not_accepting q z a : not_accepting (wrap q z a) = wrap q z (not_accepting a).
Proof. done. Qed.

Lemma canobj_appended a k h d :
  appendListener kPpqCanObjEvtId k (listeners (ppq a)) = (h, d) ->
  append k (canobj_list a) = (h, canobj_list (accepted k h d a)).
Proof.
  unfold appendListener. fold (canobj_list a). destruct (append k (canobj_list a)) as [h0 l'].
  intros [= <- <-]. unfold canobj_list, list_at. simpl. unfold dispatcher. by rewrite lookup_insert_eq.
Qed.

Lemma zombies_accepted a L z k h d :
  agent_inv a L -> session_ a = Some k -> zombies a L z ->
  appendListener kPpqCanObjEvtId k (listeners (ppq a)) = (h, d) ->
  zombies (accepted k h d a) (L ++ [(h, k)]) z.
Proof.
  intros Hi Hk Hz Ha id s Hs. destruct (Hz id s Hs) as [Hg Ho Hp (h0 & Hh & Hn & Hc)].
  destruct (ai_new _ _ Hi) as (k0 & E & Hnew & _). rewrite Hk in E. injection E as <-.
  pose proof (quiet_refines _ _ (ai_quiet _ _ Hi)) as [Hr _].
  destruct (append_spec k _ _ h _ Hr (canobj_appended a k h d Ha)) as [_ Hfr _ Hcb _ _].
  assert (h0 <> h) by (intros ->; by rewrite Hfr in Hc). split; simpl.
  - rewrite !lookup_insert_ne by (try congruence; lia). done.
  - lia.
  - done.
  - exists h0. split_and!; try done; [|by rewrite Hcb]. rewrite fmap_app, not_elem_of_app. split; [done|].
    by intros ?%list_elem_of_singleton.
Qed.

Lemma wrap_accept pins q z a L ec :
  agent_inv a L -> zombies a L z ->
  is_UB (io_handle pins (EvAccept ec) (wrap q z a)) = false /\
  forall x, io_handle pins (EvAccept ec) (wrap q z a) = Ret x ->
  exists a' L', x = wrap q z a' /\ io_handle [] (EvAccept ec) a = Ret a' /\ agent_inv a' L' /\ zombies a' L' z /\
    list_effect pins (EvAccept ec) (canobj_list a) (canobj_list a').
Proof.
  intros Hi Hz. cbn [io_handle]. change (accepting (wrap q z a)) with (accepting a).
  destruct (accepting a); [|done]. fold (not_accepting (wrap q z a)). fold (not_accepting a).
  rewrite wrap_not_accepting. pose proof (not_accepting_inv a L Hi) as Hi'.
  assert (Hz' : zombies (not_accepting a) L z) by (intros id s Hs; destruct (Hz id s Hs); by split).
  change (canobj_list a) with (canobj_list (not_accepting a)). set (a0 := not_accepting a) in *. clearbody a0.
  destruct (decide (ec = 0)) as [->|He].
  - destruct (ai_new _ _ Hi') as (k & Ek & Hk & _). pose proof (ai_fresh _ _ Hi' k _ Hk) as Hlt.
    destruct (appendListener kPpqCanObjEvtId k (listeners (ppq a0))) as [h d] eqn:Ea.
    rewrite (handleAccept_ok pins (wrap q z a0) k h d), (handleAccept_ok [] a0 k h d); try done.
    2: by apply lookup_union_Some_l.
    split; [done|]. intros x [= <-]. rewrite wrap_accepted. eexists _, _. split_and!; try done.
    + by apply accepted_inv.
    + by apply zombies_accepted.
    + right. left. split; [done|]. exists k. simpl. by rewrite (canobj_appended a0 k h d Ea).
  - unfold handleAccept. rewrite (proj2 (Z.eqb_neq ec 0) He). split; [done|]. intros x [= <-].
    exists a0, L. split_and!; try done. by left.
Qed.

Lemma remove_listed pins (l : clist nat) L h : rep l L -> h ∈ L -> remove pins h l = (true, doFreeNode h l).
Proof. intros Hr Hh. unfold remove. by rewrite (lock_listed _ _ _ _ Hr Hh). Qed.
Lemma removeListener_listed pins (d : dispatcher Z nat) L h :
  refines (list_at kPpqCanObjEvtId d) L -> h ∈ L.*1 ->
  removeListener pins kPpqCanObjEvtId h d
    = (true, <[kPpqCanObjEvtId := doFreeNode h (list_at kPpqCanObjEvtId d)]> d).
Proof.
  intros [Hr _] Hh. unfold removeListener, doFindCallableList, list_at, dispatcher in *.
  destruct (d !! kPpqCanObjEvtId) as [l|]; simpl in *; [by rewrite (remove_listed _ _ _ _ Hr Hh)|].
  exfalso. destruct Hr as [_ _ Hn _ _ _]. simpl in Hn. destruct L; [by apply not_elem_of_nil in Hh|done].
Qed.
Lemma dropped_list pins h a L :
  quiet (ppq a) L -> h ∈ L.*1 ->
  dropped pins h (ppq a) = dropped [] h (ppq a) /\
  canobj_list (set_ppq (dropped [] h (ppq a)) a) = apply_op pins (ORemove h) (canobj_list a).
Proof.
  intros Hq Hh. pose proof (quiet_refines a L Hq) as Hr. unfold dropped.
  rewrite !(removeListener_listed _ _ L h Hr Hh). split; [done|]. unfold canobj_list at 1, list_at. simpl.
  unfold dispatcher. rewrite lookup_insert_eq. simpl. by rewrite (remove_listed _ _ _ _ (proj1 Hr) Hh).
Qed.
Lemma dropped_callback pins h q a L n :
  quiet (ppq a) L -> h ∈ L.*1 -> ppq q = dropped pins h (ppq a) ->
  callback <$> heap (canobj_list q) !! n = callback <$> heap (canobj_list a) !! n.
Proof.
  intros Hq Hh E. destruct (dropped_list pins h a L Hq Hh) as [E1 E2]. rewrite E1 in E.
  assert (E3 : canobj_list q = doFreeNode h (canobj_list a)).
  { pose proof (quiet_refines a L Hq) as [Hr _]. unfold canobj_list at 1. rewrite E.
    change (list_at kPpqCanObjEvtId (listeners (dropped [] h (ppq a)))) with
      (canobj_list (set_ppq (dropped [] h (ppq a)) a)). rewrite E2. simpl. by rewrite (remove_listed _ _ _ _ Hr Hh). }
  rewrite E3. pose proof (quiet_refines a L Hq) as [Hr _]. destruct (rep_dom _ _ h Hr Hh) as [nd Hnd].
  apply list_elem_of_split in Hh as (L1 & L2 & HL). rewrite HL in Hr.
  by destruct (doFreeNode_spec _ L1 h L2 nd Hr Hnd) as (_ & _ & Hcall & _).
Qed.

(** a session whose handle's node is gone is not bound by any node, and its
    destructor finds the handle expired *)
Lemma unowned_handle pins a id h :
  listens pins id a = false -> callback <$> heap (canobj_list a) !! h = Some id ->
  lock pins h (canobj_list a) = None.
Proof.
  intros Hl Hc. unfold lock. rewrite decide_False; [done|]. intros Hin.
  unfold listens in Hl. apply Bool.not_true_iff_false in Hl. apply Hl, existsb_exists.
  exists h. split; [by apply list_elem_of_In, elem_of_elements|]. by apply bool_decide_eq_true.
Qed.
Lemma release_zombie pins a id s h :
  sessions a !! id = Some s -> pending_op s = NoOp -> ppq_handle_ s = Some h -> session_ a <> Some id ->
  callback <$> heap (canobj_list a) !! h = Some id ->
  release pins id a = if listens pins id a then a else set_sessions (delete id (sessions a)) a.
Proof.
  intros Hs Hp Hh Hk Hc. unfold release, owned. rewrite Hs, Hp, (bool_decide_eq_false_2 _ Hk).
  rewrite bool_decide_eq_true_2 by done. cbn [negb orb]. destruct (listens pins id a) eqn:El; [done|].
  unfold disconnectToEventqq. rewrite Hs. simpl. rewrite Hh. by rewrite (unowned_handle pins a id h El Hc).
Qed.

Lemma wrap_dropped pins q z h a : set_ppq (dropped pins h (ppq (wrap q z a))) (wrap q z a) = wrap q z (set_ppq (dropped pins h (ppq a)) a).
Proof. done. Qed.

Lemma failed_Ret pins a id ec n s :
  sessions a !! id = Some s -> ec <> 0 ->
  pending_op s = Writing /\ (n <= length (shr_tx_buff_ s))%nat /\ (ec = 0 -> n = length (shr_tx_buff_ s)) ->
  let s2 := consume n (consume n (add_socket (take n (shr_tx_buff_ s)) (set_pending NoOp s))) in
  io_handle pins (EvWrite id ec n) a
    = Ret (release pins id (disconnectToEventqq pins id (put_session id s2 a))).
Proof.
  intros Hs He D s2. cbn [io_handle]. rewrite Hs, decide_True by done. unfold handleWrite.
  simpl sessions. rewrite lookup_insert_eq. cbn [deref mbind outcome_bind].
  rewrite (proj2 (Z.eqb_neq ec 0) He). cbn [negb]. by rewrite put_put.
Qed.

Lemma zombies_dropped a L1 h id L2 z :
  agent_inv a (L1 ++ (h, id) :: L2) -> zombies a (L1 ++ (h, id) :: L2) z ->
  zombies (set_sessions (delete id (sessions a)) (set_ppq (dropped [] h (ppq a)) a)) (L1 ++ L2) z.
Proof.
  intros Hi Hz i s Hs. destruct (Hz i s Hs) as [Hg Ho Hp (h0 & Hh & Hn & Hc)].
  assert (Hin : h ∈ (L1 ++ (h, id) :: L2).*1) by (rewrite fmap_app; set_solver).
  split; try done; simpl.
  - rewrite lookup_delete_None. by right.
  - exists h0. split_and!; try done.
    + rewrite fmap_app, fmap_cons in Hn. rewrite fmap_app. cbn [fst] in Hn. set_solver.
    + by erewrite dropped_callback; [exact Hc|apply Hi|exact Hin|].
Qed.
Lemma new_zombie a L1 h id L2 s :
  agent_inv a (L1 ++ (h, id) :: L2) -> pending_op s = NoOp -> ppq_handle_ s = Some h ->
  is_Some (sessions a !! id) ->
  zombie (set_sessions (delete id (sessions a)) (set_ppq (dropped [] h (ppq a)) a)) (L1 ++ L2) id s.
Proof.
  intros Hi Hp Hh [s0 Hs]. pose proof (quiet_refines _ _ (ai_quiet _ _ Hi)) as Hq.
  assert (Hin : h ∈ (L1 ++ (h, id) :: L2).*1) by (rewrite fmap_app; set_solver).
  split; try done; simpl.
  - by rewrite lookup_delete_eq.
  - by eapply ai_fresh.
  - exists h. split_and!; try done.
    + pose proof (rep_nodup _ _ (proj1 Hq)) as Hn. rewrite fmap_app, fmap_cons in Hn. cbn [fst] in Hn.
      rewrite fmap_app. apply NoDup_app in Hn as (_ & H2 & [H3 _]%NoDup_cons). specialize (H2 h). set_solver.
    + erewrite dropped_callback; [|apply Hi|exact Hin|done].
      destruct Hq as [_ Hc]. rewrite !fmap_app, !fmap_cons, callbacks_app in Hc. cbn [fst snd] in Hc.
      assert (Hlen : length (callbacks (canobj_list a) L1.*1) = length (Some <$> L1.*2)).
      { unfold callbacks. by rewrite !length_fmap. }
      apply app_inj_1 in Hc as [_ Hc]; [|done]. unfold callbacks in Hc. simpl in Hc. by injection Hc.
Qed.

(** the listener goes; the session goes with it unless the dispatch stands on
    the listener's node *)
Lemma wrap_release pins q z a L1 h id L2 s :
  agent_inv a (L1 ++ (h, id) :: L2) -> zombies a (L1 ++ (h, id) :: L2) z ->
  is_Some (sessions a !! id) -> pending_op s = NoOp -> ppq_handle_ s = Some h ->
  let a' := set_sessions (delete id (sessions a)) (set_ppq (dropped [] h (ppq a)) a) in
  exists z', release pins id (disconnectToEventqq pins id (put_session id s (wrap q z a))) = wrap q z' a' /\
    zombies a' (L1 ++ L2) z' /\ (pins = [] -> z' = z).
Proof.
  intros Hi Hz Hs Hp Hh a'. pose proof (ai_quiet _ _ Hi) as Hq.
  assert (Hin : h ∈ (L1 ++ (h, id) :: L2).*1) by (rewrite fmap_app; set_solver).
  pose proof (new_zombie a L1 h id L2 s Hi Hp Hh Hs) as Hnz.
  pose proof (zombies_dropped a L1 h id L2 z Hi Hz) as Hz'. fold a' in Hnz, Hz'.
  assert (Hzi : z !! id = None).
  { destruct (z !! id) as [s0|] eqn:E; [|done]. destruct (Hz id s0 E) as [Hg _ _ _]. by destruct Hs; congruence. }
  rewrite wrap_put. set (a1 := put_session id s a).
  assert (Hd : disconnectToEventqq pins id (wrap q z a1) = wrap q z (set_ppq (dropped [] h (ppq a)) a1)).
  { destruct (dropped_list pins h a _ Hq Hin) as [E _]. rewrite <- E.
    unfold disconnectToEventqq. simpl sessions. rewrite (lookup_union_Some_l _ _ _ s) by (apply lookup_insert_eq).
    simpl. rewrite Hh. pose proof (quiet_refines _ _ Hq) as [Hr _].
    change (canobj_list (wrap q z a1)) with (canobj_list a). rewrite (lock_listed _ _ _ _ Hr Hin).
    unfold dropped, wrap, set_ppq. simpl. by destruct (removeListener _ _ _ _). }
  rewrite Hd. set (w := wrap q z _).
  assert (Hl : sessions w !! id = Some s) by (apply lookup_union_Some_l, lookup_insert_eq).
  destruct Hnz as [_ _ _ (h0 & Hh0 & _ & Hc)]. rewrite Hh in Hh0. injection Hh0 as <-.
  rewrite (release_zombie pins w id s h); [|done..| |done].
  2: { destruct (ai_new _ _ Hi) as (k & Ek & _ & Hk). simpl. rewrite Ek. intros [= ->].
       apply Hk. rewrite fmap_app. set_solver. }
  destruct (listens pins id w) eqn:El.
  - exists (<[id := s]> z). split_and!.
    + unfold w, wrap, a', a1. simpl. f_equal. apply map_eq. intros i. destruct (decide (i = id)) as [->|Hne].
      * rewrite (lookup_union_Some_l _ _ _ s) by (apply lookup_insert_eq).
        by rewrite lookup_union_r, lookup_insert_eq by apply lookup_delete_eq.
      * by rewrite !lookup_union, !lookup_insert_ne, lookup_delete_ne by done.
    + intros i si [[<- <-]|[Hne Hi2]]%lookup_insert_Some; [|by apply Hz'].
      by apply new_zombie.
    + intros ->. exfalso. change (listens [] id a' = true) in El.
      destruct (NoDup_middle L1 L2 h id (ai_nodup _ _ Hi)) as [_ Hid].
      rewrite (listens_spec a' (L1 ++ L2)) in El; [by apply bool_decide_eq_true in El|].
      destruct Hs as [s0 Hs]. destruct (ai_live _ _ Hi h id) as (s1 & Hs1 & Hh1 & _); [set_solver|].
      by destruct (disconnect_spec [] a L1 h id L2 s1 Hq Hs1 Hh1).
  - exists z. split_and!; try done. unfold w, wrap, a', a1, set_sessions. simpl. f_equal. apply map_eq. intros i.
    destruct (decide (i = id)) as [->|Hne].
    + by rewrite lookup_delete_eq, lookup_union, lookup_delete_eq, Hzi.
    + rewrite lookup_delete_ne by done. by rewrite !lookup_union, lookup_insert_ne, lookup_delete_ne.
Qed.

Lemma wrap_failed pins q z a L id ec n :
  agent_inv a L -> zombies a L z -> ec <> 0 ->
  is_UB (io_handle pins (EvWrite id ec n) (wrap q z a)) = false /\
  forall x, io_handle pins (EvWrite id ec n) (wrap q z a) = Ret x ->
  exists a' z' L', x = wrap q z' a' /\ io_handle [] (EvWrite id ec n) a = Ret a' /\ agent_inv a' L' /\
    zombies a' L' z' /\ (pins = [] -> z' = z) /\
    list_effect pins (EvWrite id ec n) (canobj_list a) (canobj_list a').
Proof.
  intros Hi Hz He. destruct (sessions (wrap q z a) !! id) as [s|] eqn:Hw; [|cbn [io_handle]; by rewrite Hw].
  destruct (decide (pending_op s = Writing /\ (n <= length (shr_tx_buff_ s))%nat /\
    (ec = 0 -> n = length (shr_tx_buff_ s)))) as [D|D]; [|cbn [io_handle]; by rewrite Hw, decide_False].
  destruct (wrap_session z a L id s Hz Hw) as [Hs|[_ Hp]]; [|by destruct D as [Hp' _]; rewrite Hp in Hp'].
  rewrite (failed_Ret pins (wrap q z a) id ec n s Hw He D). split; [done|]. intros x [= <-].
  destruct (handle_failed a L id ec n Hi He) as [_ Hf]. pose proof (failed_Ret [] a id ec n s Hs He D) as E. cbv zeta in E.
  destruct (Hf _ E) as (s0 & L1 & h & L2 & Hs0 & _ & -> & Hh & Ea & Hi').
  rewrite Hs in Hs0. injection Hs0 as <-. set (s2 := consume n _) in *.
  destruct (wrap_release pins q z a L1 h id L2 s2 Hi Hz) as (z' & -> & Hz' & Hp); [by eexists|done|done|].
  rewrite Ea in Hi', E. eexists _, z', (L1 ++ L2). split_and!; try done.
  assert (Hin : h ∈ (L1 ++ (h, id) :: L2).*1) by (rewrite fmap_app; set_solver).
  right. right. exists h. pose proof (ai_quiet _ _ Hi) as Hq. split.
  - by rewrite (to_list_rep _ _ (proj1 (quiet_refines _ _ Hq))).
  - by destruct (dropped_list pins h a _ Hq Hin) as [_ <-].
Qed.

(** a handler acts on the agent as if no dispatch were running, apart from the
    sessions the dispatch keeps *)
Lemma wrap_io pins ev q z a L :
  agent_inv a L -> zombies a L z ->
  is_UB (io_handle pins ev (wrap q z a)) = false /\
  forall x, io_handle pins ev (wrap q z a) = Ret x ->
  exists a' z' L', x = wrap q z' a' /\ io_handle [] ev a = Ret a' /\ agent_inv a' L' /\
    zombies a' L' z' /\ (pins = [] -> z' = z) /\ list_effect pins ev (canobj_list a) (canobj_list a').
Proof.
  intros Hi Hz.
  assert (Hstep : forall ev, io_handle pins ev (wrap q z a) = wrap q z <$> io_handle [] ev a ->
    is_UB (io_handle [] ev a) = false ->
    (forall a', io_handle [] ev a = Ret a' -> exists id s s', sessions a !! id = Some s /\
      a' = put_session id s' a /\ agent_inv a' L) ->
    is_UB (io_handle pins ev (wrap q z a)) = false /\
    forall x, io_handle pins ev (wrap q z a) = Ret x ->
    exists a' z' L', x = wrap q z' a' /\ io_handle [] ev a = Ret a' /\ agent_inv a' L' /\
      zombies a' L' z' /\ (pins = [] -> z' = z) /\ list_effect pins ev (canobj_list a) (canobj_list a')).
  { intros ev0 -> Hu Hr. destruct (io_handle [] ev0 a) as [a1| | |]; try done. split; [done|].
    intros x [= <-]. destruct (Hr a1 eq_refl) as (id & s & s' & Hs & -> & Hi').
    eexists _, z, L. split_and!; try done; [by eapply zombies_put|by left]. }
  destruct ev as [ec|id ec|id ec n].
  - destruct (wrap_accept pins q z a L ec Hi Hz) as [Hu Hr]. split; [done|].
    intros x (a' & L' & ? & ? & ? & ? & ?)%Hr. by exists a', z, L'.
  - destruct (handle_timer a L id ec Hi) as [Hu Hr]. apply Hstep; [by apply (wrap_timer pins q z a L)|done|].
    intros a' (s & s' & Hs & _ & E & Hi')%Hr. by exists id, s, s'.
  - destruct (decide (ec = 0)) as [->|He]; [|by apply (wrap_failed pins q z a L)].
    destruct (handle_written a L id n Hi) as [Hu Hr]. apply Hstep; [by apply (wrap_written pins q z a L)|done|].
    intros a' (s & s' & Hs & _ & E & Hi')%Hr. by exists id, s, s'.
Qed.

(** ** The end of the sessions a dispatch kept *)

Lemma release_live pins q z a L id :
  agent_inv a L -> zombies a L z -> z !! id = None -> release pins id (wrap q z a) = wrap q z a.
Proof.
  intros Hi Hz Hn. unfold release, owned. cbn [wrap sessions session_]. fold (wrap q z a).
  destruct (sessions a !! id) as [s|] eqn:Es.
  - rewrite (lookup_union_Some_l _ _ _ _ Es). destruct (ai_dom _ _ Hi id s Es) as [Hin|E].
    + apply list_elem_of_fmap in Hin as ((h & c) & -> & Hin). simpl in *.
      destruct (ai_live _ _ Hi h c Hin) as (s0 & Hs0 & _ & Hp & _). rewrite Es in Hs0. injection Hs0 as <-.
      by rewrite (bool_decide_eq_false_2 _ Hp), Bool.orb_true_r.
    + by rewrite bool_decide_eq_true_2.
  - rewrite lookup_union_r, Hn by done. destruct (_ || _); [done|].
    assert (Hu : (sessions a ∪ z) !! id = None) by (by rewrite lookup_union_r).
    unfold disconnectToEventqq, wrap, set_sessions. simpl. rewrite Hu. simpl. by rewrite delete_id.
Qed.
Lemma release_wrap pins q z a L id :
  agent_inv a L -> zombies a L z ->
  exists z', release pins id (wrap q z a) = wrap q z' a /\ zombies a L z' /\
    z' ⊆ z /\ (pins = [] -> z' !! id = None).
Proof.
  intros Hi Hz. destruct (z !! id) as [s|] eqn:Ez; [|exists z; by rewrite (release_live pins q z a L)].
  destruct (Hz id s Ez) as [Hg Ho Hp (h & Hh & Hn & Hc)].
  assert (Hs : sessions (wrap q z a) !! id = Some s) by (simpl; by rewrite lookup_union_r).
  rewrite (release_zombie pins _ id s h Hs Hp Hh); [| |done].
  2: { destruct (ai_new _ _ Hi) as (k & Ek & Hk & _). simpl. rewrite Ek. intros [= ->]. congruence. }
  destruct (listens pins id (wrap q z a)) eqn:El.
  - exists z. split_and!; try done. intros ->. change (listens [] id a = true) in El.
    rewrite (listens_spec a L id (ai_quiet _ _ Hi)) in El. apply bool_decide_eq_true in El.
    apply list_elem_of_fmap in El as ((h0 & c) & -> & Hin). simpl in *.
    destruct (ai_live _ _ Hi h0 c Hin) as (s0 & Hs0 & _). congruence.
  - exists (delete id z). split_and!.
    + unfold wrap, set_sessions. simpl. f_equal. rewrite delete_union. by rewrite (delete_id (sessions a)).
    + intros i si [_ Hi']%lookup_delete_Some. by apply Hz.
    + apply delete_subseteq.
    + intros _. apply lookup_delete_eq.
Qed.
Lemma release_all pins q z a L ids :
  agent_inv a L -> zombies a L z ->
  exists z', fold_right (release pins) (wrap q z a) ids = wrap q z' a /\ zombies a L z' /\
    z' ⊆ z /\ (pins = [] -> forall id, id ∈ ids -> z' !! id = None).
Proof.
  intros Hi Hz. induction ids as [|id ids (z1 & E1 & Hz1 & Hs1 & Hd1)].
  - exists z. split_and!; try done. by intros _ id ?%not_elem_of_nil.
  - simpl. rewrite E1. destruct (release_wrap pins q z1 a L id Hi Hz1) as (z2 & E2 & Hz2 & Hs2 & Hd2).
    exists z2. split_and!; try done; [by etrans|].
    intros Hp i [->|Hin]%elem_of_cons; [by apply Hd2|]. specialize (Hd1 Hp i Hin).
    by eapply lookup_weaken_None.
Qed.
Lemma collect_wrap pins q z a L :
  agent_inv a L -> zombies a L z ->
  exists z', collect pins (wrap q z a) = wrap q z' a /\ zombies a L z' /\ z' ⊆ z /\ (pins = [] -> z' = ∅).
Proof.
  intros Hi Hz. unfold collect.
  destruct (release_all pins q z a L (elements (dom (sessions (wrap q z a)))) Hi Hz) as (z' & E & Hz' & Hs & Hd).
  exists z'. split_and!; try done. intros Hp. apply map_eq. intros id. rewrite lookup_empty.
  destruct (z' !! id) as [s|] eqn:Ez; [|done]. rewrite <- Ez. apply Hd; [done|].
  apply elem_of_elements, elem_of_dom. destruct (Hz' id s Ez) as [Hg _ _ _].
  exists s. simpl. rewrite lookup_union_r by done. by eapply lookup_weaken.
Qed.

Lemma wrap_id a : wrap (ppq a) ∅ a = a.
Proof. destruct a as [q ss k acc s p]. unfold wrap. simpl. rewrite map_union_empty. by destruct q. Qed.
Lemma collect_live pins a L : agent_inv a L -> collect pins a = a.
Proof.
  intros Hi. destruct (collect_wrap pins (ppq a) ∅ a L Hi) as (z' & E & _ & Hs & _); [by intros id s|].
  rewrite wrap_id in E. assert (z' = ∅) as ->; [|by rewrite E, wrap_id].
  apply map_eq. intros id. rewrite lookup_empty. by eapply lookup_weaken_None; [apply lookup_empty|].
Qed.
