(* ===== verification/AgentInterleaving.v ===== *)
(** * AgentInterleaving
    Every interleaving of the steps of the receiving loop with the handlers of
    the io thread: the invariant of [AgentThreads] at each program point, and
    what a client gets. *)

From Stdlib Require Import ZArith Lia.
From Stdlib Require Import Strings.Byte.
From stdpp Require Import base numbers list option gmap fin_maps strings.
From S2P Require Import Prelude UsbCan HexCodec NetClientProps CallbackList CallbackListFacts CallbackDispatch EventQueue EventQueueFacts Agent AgentFacts AgentProps AgentThreads.

(** a report that fits the array *)
Definition good_report (inp : report) : Prop :=
  let '(n, _, buf) := inp in (n <= kRxBuffSize)%nat /\ length buf = (kRxBuffSize * sizeof_CAN_OBJ)%nat.

(** the loop of [processIf] has the lines [rest] before it *)
Definition in_queue (n : nat) (todo kept idle : list item) (q : eventpp_queue_t) (rest : list (list byte)) : Prop :=
  (0 < n)%nat /\ kept = [] /\ Forall (fun i => i = None) idle /\ holds q [] /\
  exists ns, todo = Some <$> (frame_event <$> ns) /\ Forall2 carries ns rest.

(** ** The turn as a broadcast *)

(** What the loop has to deliver: the line being dispatched, with the listeners
    registered when its dispatch began and those called so far, and the lines
    published after it. *)
Definition view : Type := option (list byte * list positive * list positive) * list (list byte).

(** A step of the loop while the listeners are [L]: the lines it publishes, and
    what it hands to each listener. *)
Inductive broadcast (L : list positive) : view -> list (list byte) -> (positive -> list (list byte)) -> view -> Prop :=
| B_quiet v : broadcast L v [] (fun _ => []) v
| B_publish pend line : broadcast L (None, pend) [line] (fun _ => []) (None, pend ++ [line])
| B_skip line pend : L = [] -> broadcast L (None, line :: pend) [] (fun _ => []) (None, pend)
| B_take line pend : broadcast L (None, line :: pend) [] (fun _ => []) (Some (line, L, []), pend)
| B_call line L0 called pend c : c ∉ called ->
    broadcast L (Some (line, L0, called), pend) [] (fun h => if decide (h = c) then [line] else [])
      (Some (line, L0, called ++ [c]), pend)
| B_done line L0 called pend : (forall h, h ∈ L -> h ∈ L0 -> h ∈ called) ->
    broadcast L (Some (line, L0, called), pend) [] (fun _ => []) (None, pend).

(** the line being dispatched *)
Definition running (v : view) : list (list byte) := match v.1 with Some (line, _, _) => [line] | None => [] end.
(** a listener takes part when it was registered before the running dispatch *)
Definition takes_part (h : positive) (v : view) : Prop :=
  match v.1 with Some (_, L0, _) => h ∈ L0 | None => True end.
(** what such a listener will still get *)
Definition owed (h : positive) (v : view) : list (list byte) :=
  match v.1 with Some (line, _, called) => if decide (h ∈ called) then [] else [line] | None => [] end ++ v.2.
(** a listener that came during the running dispatch and got [g] *)
Definition joining (h : positive) (v : view) (g : list (list byte)) : Prop :=
  match v.1 with Some (line, _, called) => g = if decide (h ∈ called) then [line] else [] | None => False end.

Lemma owed_step L v pub got v' h :
  broadcast L v pub got v' -> h ∈ L -> takes_part h v ->
  takes_part h v' /\ got h ++ owed h v' = owed h v ++ pub.
Proof.
  intros Hb Hh Hp. destruct Hb as [v|pend line|line pend ->|line pend|line L0 called pend c Hc|line L0 called pend Hall];
    unfold owed, takes_part in *; simpl in *.
  - split; [done|]. by rewrite app_nil_r.
  - done.
  - by apply not_elem_of_nil in Hh.
  - split; [done|]. by rewrite app_nil_r.
  - split; [done|]. rewrite app_nil_r. destruct (decide (h = c)) as [->|Hne].
    + rewrite decide_True by set_solver. by rewrite decide_False.
    + destruct (decide (h ∈ called)).
      * by rewrite decide_True by set_solver.
      * by rewrite decide_False by set_solver.
  - split; [done|]. rewrite decide_True by auto. by rewrite app_nil_r.
Qed.
Lemma joining_step L v pub got v' h g :
  broadcast L v pub got v' -> joining h v g ->
  (joining h v' (g ++ got h) /\ running v' = running v /\ v'.2 = v.2 /\ pub = []) \/
  (takes_part h v' /\ got h = [] /\ owed h v' = v.2 /\ pub = []).
Proof.
  intros Hb Hj. destruct Hb as [v|pend line|line pend ->|line pend|line L0 called pend c Hc|line L0 called pend Hall];
    unfold owed, takes_part, joining in *; simpl in *.
  - left. by rewrite app_nil_r.
  - done.
  - done.
  - done.
  - left. split; [|done]. subst g. destruct (decide (h = c)) as [->|Hne].
    + rewrite decide_False by done. by rewrite decide_True by set_solver.
    + rewrite app_nil_r. destruct (decide (h ∈ called)).
      * by rewrite decide_True by set_solver.
      * by rewrite decide_False by set_solver.
  - by right.
Qed.

(** The lines that no dispatch has finished: always the last ones published. *)
Definition waiting (v : view) : list (list byte) := running v ++ v.2.
Lemma waiting_step L v pub got v' ls :
  broadcast L v pub got v' -> waiting v `suffix_of` ls -> waiting v' `suffix_of` ls ++ pub.
Proof.
  intros Hb [k ->]. destruct Hb; unfold waiting, running; simpl; rewrite ?app_nil_r.
  - by exists k.
  - exists k. by rewrite <- app_assoc.
  - exists (k ++ [line]). by rewrite <- app_assoc.
  - by exists k.
  - by exists k.
  - exists (k ++ [line]). by rewrite <- app_assoc.
Qed.

(** ** The invariant *)

(** how a point of the loop represents a view *)
Definition pc_inv (p : rx_pc) (q : eventpp_queue_t) (z : gmap nat Session) (l : clist nat) (L : list positive)
    (v : view) : Prop :=
  match p with
  | AtReceive => z = ∅ /\ holds q [] /\ v = (None, [])
  | InFrames n i now buf =>
      z = ∅ /\ good_report (n, now, buf) /\ (i <= n)%nat /\
      exists ns rest, v = (None, rest) /\ length ns = i /\ holds q (frame_event <$> ns) /\ Forall2 carries ns rest
  | InQueue n todo kept idle => z = ∅ /\ exists rest, v = (None, rest) /\ in_queue n todo kept idle q rest
  | InCall n it todo kept idle ev d =>
      exists node line rest L0 E T rank, it = Some ev /\ ev = frame_event node /\ carries node line /\
        v = (Some (line, L0, invoked d), rest) /\ in_queue n todo kept idle q rest /\
        dinv L0 E l d L T rank /\ (cursor d = None -> z = ∅)
  end.

(** the agent [a] with the listeners [L], in the middle of a turn *)
Definition tinv (t : threads) (a : agent) (L : list (positive * nat)) (v : view) : Prop :=
  exists q z, shared t = wrap q z a /\ agent_inv a L /\ zombies a L z /\
    rx_ok (locals t) /\ is_u64 (send_count (locals t)) /\ (length (waiting v) <= kRxBuffSize)%nat /\
    pc_inv (pc t) q z (canobj_list a) L.*1 v.

Lemma refines_unique (l : clist nat) L1 L2 : refines l L1 -> refines l L2 -> L1 = L2.
Proof.
  intros [Hr1 Hc1] [Hr2 Hc2]. pose proof (to_list_rep _ _ Hr1) as E1. rewrite (to_list_rep _ _ Hr2) in E1.
  rewrite E1, Hc1 in Hc2. apply (inj (fmap Some)) in Hc2.
  rewrite <- (zip_fst_snd L1), <- (zip_fst_snd L2). by rewrite E1, Hc2.
Qed.
Lemma served_in x a L h id ls :
  served_as x a h id ls -> agent_inv a L ->
  exists s ks qs, (h, id) ∈ L /\ sessions a !! id = Some s /\ ppq_handle_ s = Some h /\
    pending_op s <> NoOp /\ session_inv s ls ks qs /\ (x = true -> ks ++ qs = ls).
Proof.
  intros (L1 & s & ks & qs & Hi1 & Hin & Hrest) Hi. exists s, ks, qs.
  assert (L = L1) as ->; [|done].
  eapply refines_unique; [exact (quiet_refines a L (ai_quiet _ _ Hi))|exact (quiet_refines a L1 (ai_quiet _ _ Hi1))].
Qed.

(** between two turns nothing of the loop is left in the agent *)
Lemma wrap_quiet q a L : holds q [] -> agent_inv a L -> agent_inv (wrap q ∅ a) L.
Proof.
  intros Hq [[_ Hl] Hn Hli Hk Hd Hf]. split; simpl; rewrite ?map_union_empty; try done.
Qed.
Lemma served_quiet x q a h id ls : holds q [] -> served_as x a h id ls -> served_as x (wrap q ∅ a) h id ls.
Proof.
  intros Hq (L & s & ks & qs & Hi & Hrest). exists L, s, ks, qs. split; [by apply wrap_quiet|].
  simpl. by rewrite map_union_empty.
Qed.

(** ** Handlers *)

Definition accepts1 (ev : io_event) : Z := match ev with EvAccept 0 => 1 | _ => 0 end.
Definition registrations (t : threads) : Z := currentCounter (canobj_list (shared t)).

Lemma effect_counter pins ev l l' L :
  rep l L -> list_effect pins ev l l' -> currentCounter l + 1 < 2 ^ 32 ->
  currentCounter l' <= currentCounter l + accepts1 ev.
Proof.
  assert (Hge : 0 <= accepts1 ev) by (destruct ev as [[]| |]; simpl; lia).
  intros Hr [->|[(-> & k & ->)|(h & Hh & ->)]] Hc; simpl; [lia| |].
  - destruct (append k l) as [p l'] eqn:E. apply (append_spec k l L) in E as [_ _ _ _ _ Hn]; [|done]. simpl.
    destruct (Hn Hc) as [-> _]. lia.
  - rewrite (to_list_rep _ _ Hr) in Hh. rewrite (remove_listed _ _ _ _ Hr Hh). simpl.
    destruct (rep_dom _ _ h Hr Hh) as [nd Hnd]. apply list_elem_of_split in Hh as (L1 & L2 & ->).
    destruct (doFreeNode_heap l L1 h L2 nd Hr Hnd) as (_ & _ & _ & ->). lia.
Qed.
Lemma effect_dinv L0 E l l' d L L' T rank ev :
  dinv L0 E l d L T rank -> list_effect (option_list (cursor d)) ev l l' -> currentCounter l + 1 < 2 ^ 32 ->
  rep l' L' -> exists T' rank', dinv L0 E l' d L' T' rank'.
Proof.
  intros Hd He Hc Hr'. pose proof (di_rep _ _ _ _ _ _ _ Hd) as Hr.
  assert (Hop : forall o, legal o l -> l' = apply_op (option_list (cursor d)) o l ->
    exists T' rank', dinv L0 E l' d L' T' rank').
  { intros o Hleg ->. destruct (dinv_op _ _ _ _ _ _ _ o Hd Hleg) as (L1 & T' & rank' & Hd').
    pose proof (to_list_rep _ _ (di_rep _ _ _ _ _ _ _ Hd')) as E1. rewrite (to_list_rep _ _ Hr') in E1.
    subst L1. by exists T', rank'. }
  destruct He as [->|[(-> & k & ->)|(h & Hh & ->)]].
  - exists T, rank. pose proof (to_list_rep _ _ Hr) as E1. rewrite (to_list_rep _ _ Hr') in E1. by subst L'.
  - by apply (Hop (OAppend k)).
  - by apply (Hop (ORemove h)).
Qed.

(** a handler keeps the invariant at every point of the loop *)
Lemma tinv_io ev t a L v :
  tinv t a L v -> registrations t + 1 < 2 ^ 32 ->
  is_UB (thread_step (TIo ev) t) = false /\
  forall t', thread_step (TIo ev) t = Ret t' ->
    exists a' L', tinv t' a' L' v /\ registrations t' <= registrations t + accepts1 ev /\
      io_handle [] ev a = Ret a'.
Proof.
  intros (q & z & Es & Hi & Hz & Hr & Hc & Hw & Hpc) Hreg.
  cbn [thread_step]. unfold registrations in *. rewrite Es in *. change (canobj_list (wrap q z a)) with (canobj_list a) in *.
  destruct (wrap_io (held (pc t)) ev q z a L Hi Hz) as [Hu Hret].
  destruct (io_handle (held (pc t)) ev (wrap q z a)) as [x| | |]; try done. cbn [mbind outcome_bind].
  split; [done|]. intros t' [= <-]. cbn [shared locals pc].
  destruct (Hret x eq_refl) as (a' & z' & L' & -> & Ha & Hi' & Hz' & Hpin & Heff).
  pose proof (quiet_refines _ _ (ai_quiet _ _ Hi)) as [Hrep _].
  pose proof (quiet_refines _ _ (ai_quiet _ _ Hi')) as [Hrep' _].
  exists a', L'. split; [|split; [by eapply (effect_counter (held (pc t)) ev (canobj_list a) _ L.*1)|done]].
  exists q, z'. split_and!; try done. cbn [pc].
  destruct (pc t) as [|n i now buf|n todo kept idle|n it todo kept idle ev0 d]; simpl in *;
    try (by rewrite Hpin).
  destruct Hpc as (node & line & rest & L0 & E & T & rank & -> & -> & Hcar & Hv & Hq & Hd & Hcur).
  destruct (effect_dinv L0 E _ _ d _ L'.*1 T rank ev Hd Heff Hreg Hrep') as (T' & rank' & Hd').
  exists node, line, rest, L0, E, T', rank'. split_and!; try done.
  intros Hn. rewrite Hn in Hpin. rewrite Hpin by done. by apply Hcur.
Qed.

(** ** Steps of the loop *)

Lemma wrap_set_ppq q1 q z a : listeners q1 = listeners (ppq a) -> set_ppq q1 (wrap q z a) = wrap q1 z a.
Proof. intros E. unfold wrap, set_ppq. simpl. f_equal. rewrite <- E. by destruct q1. Qed.

(** the queue of the session [id] can take another line *)
Definition has_room (id : nat) (a : agent) : bool :=
  match sessions a !! id with Some s => (length (spsc_queue_ s) <? spsc_capacity)%nat | None => true end.
(** it can when the loop is about to call listeners *)
Definition room_at (id : nat) (t : threads) : bool :=
  match pc t with InCall _ _ _ _ _ _ _ => has_room id (shared t) | _ => true end.
(** and does so at every step of the run: the session's queue is never full while
    a line is being dispatched *)
Fixpoint never_full (id : nat) (es : list thread_event) (t : threads) : bool :=
  match es with
  | [] => true
  | e :: es =>
      match e with TRx _ => room_at id t | TIo _ => true end &&
      match thread_step e t with Ret t1 => never_full id es t1 | _ => true end
  end.
Lemma has_room_wrap id q z a s : sessions a !! id = Some s -> has_room id (wrap q z a) = has_room id a.
Proof. intros Hs. unfold has_room. simpl. by rewrite (lookup_union_Some_l _ _ _ _ Hs), Hs. Qed.

(** a step is a step of the broadcast: every session gets what its listener is
    handed, and loses nothing of it when its queue has room *)
Definition delivers (room : nat -> bool) (a a' : agent) (got : positive -> list (list byte)) : Prop :=
  forall x h id ls, served_as x a h id ls -> (x = true -> room id = true) -> served_as x a' h id (ls ++ got h).
Definition rx_keeps (t t' : threads) (a : agent) (L : list (positive * nat)) (v : view) (pub : list (list byte)) : Prop :=
  exists a' v' got, tinv t' a' L v' /\ registrations t' = registrations t /\
    broadcast L.*1 v pub got v' /\ delivers (fun id => room_at id t) a a' got.

Lemma delivers_same room a : delivers room a a (fun _ => []).
Proof. intros x h id ls Hs _. by rewrite app_nil_r. Qed.

Lemma step_receive inp a r L v ag :
  let t := mk_threads a r AtReceive in
  tinv t ag L v -> good_report inp -> exists t', rx_step inp t = Ret t' /\ rx_keeps t t' ag L v [].
Proof.
  intros t (q & z & Es & Hi & Hz & Hr & Hc & Hw & -> & Hq & ->) Hg.
  destruct inp as [[n now] buf]. eexists. split; [done|].
  exists ag, (None, []), (fun _ => []). split_and!; [|done|constructor|apply delivers_same].
  exists q, ∅. split_and!; try done. cbn [pc pc_inv]. split_and!; try done; [lia|]. by exists [], [].
Qed.

Lemma agent_lines_one f : agent_lines [f] = [receive_line f.1.1 f.1.2 f.2].
Proof. by destruct f as [[c now] o]. Qed.

Lemma step_publish inp a r n i now buf L v ag :
  let t := mk_threads a r (InFrames n i now buf) in
  tinv t ag L v -> (i < n)%nat ->
  exists t', rx_step inp t = Ret t' /\ rx_keeps t t' ag L v (agent_lines (published (TRx inp) t)).
Proof.
  intros t (q & z & Es & Hi & Hz & Hr & Hc & Hw & -> & Hg & Hin & ns & rest & -> & Hl & Hq & Hns) Hlt.
  unfold t in *. cbn [shared locals pc] in *. subst a. cbn [rx_step pc shared locals].
  rewrite (proj2 (Nat.ltb_lt i n) Hlt). pose proof Hg as [Hn Hb].
  destruct (rx_obj_spec buf i) as [-> Hlen]; [rewrite Hb; unfold sizeof_CAN_OBJ; lia|]. cbn [mbind outcome_bind].
  destruct (publish_spec (now i) _ r (ppq (wrap q ∅ ag)) (frame_event <$> ns) Hr Hlen Hq)
    as (r1 & q1 & -> & Hr1 & Hc1 & Hcar & Hq1 & Hsame).
  cbn [mbind outcome_bind]. eexists. split; [done|]. unfold published. cbn [pc locals].
  rewrite (proj2 (Nat.ltb_lt i n) Hlt), agent_lines_one. cbn [fst snd].
  destruct Hsame as (Hls & _). rewrite (wrap_set_ppq q1 q ∅ ag Hls).
  eexists ag, _, (fun _ => []). split_and!; [|done|constructor|apply delivers_same].
  exists q1, ∅. split_and!; try done.
  - cbn [locals]. rewrite Hc1. auto with can.
  - pose proof (Forall2_length _ _ _ Hns). unfold waiting, running. simpl. rewrite length_app. simpl. lia.
  - cbn [pc pc_inv]. split_and!; try done. eexists (ns ++ [send_buff r1]), _. split_and!; [done| | |].
    + rewrite length_app. simpl. lia.
    + by rewrite fmap_app.
    + apply Forall2_app; [done|]. by apply Forall2_cons.
Qed.

Lemma step_frames_end inp a r n i now buf L v ag :
  let t := mk_threads a r (InFrames n i now buf) in
  tinv t ag L v -> (n <= i)%nat -> exists t', rx_step inp t = Ret t' /\ rx_keeps t t' ag L v [].
Proof.
  intros t (q & z & Es & Hi & Hz & Hr & Hc & Hw & -> & Hg & Hin & ns & rest & -> & Hl & Hq & Hns) Hge.
  unfold t in *. cbn [shared locals pc] in *. subst a. cbn [rx_step pc shared locals].
  rewrite (proj2 (Nat.ltb_ge i n) Hge).
  rewrite (nonempty_queue (ppq (wrap q ∅ ag)) (frame_event <$> ns) Hq).
  destruct Hns as [|nd l ns rest Hn Hns].
  - eexists. split; [done|]. eexists ag, _, (fun _ => []). split_and!; [|done|constructor|apply delivers_same].
    exists q, ∅. by split_and!.
  - eexists. split; [done|]. eexists ag, _, (fun _ => []). split_and!; [|done|constructor|apply delivers_same].
    exists (set_queue [] (add_empty 1 q)), ∅. split_and!; try done. cbn [pc pc_inv]. split; [done|].
    exists (l :: rest). split; [done|]. split_and!; try done.
    + simpl in Hl. lia.
    + apply (holds_start _ _ Hq).
    + exists (nd :: ns). split; [|by constructor]. exact (proj1 Hq).
Qed.

Lemma step_queue_end inp a r n kept idle L v ag :
  let t := mk_threads a r (InQueue n [] kept idle) in
  tinv t ag L v -> exists t', rx_step inp t = Ret t' /\ rx_keeps t t' ag L v [].
Proof.
  intros t (q & z & Es & Hi & Hz & Hr & Hc & Hw & -> & rest & -> & Hn & -> & Hidle & Hq & ns & Ens & Hns).
  unfold t in *. cbn [shared locals pc] in *. subst a. destruct ns as [|]; [|done]. inversion Hns; subst.
  eexists. split; [done|]. eexists ag, _, (fun _ => []). split_and!; [|done|constructor|apply delivers_same].
  exists (add_empty (-1) (set_free (freeList q ++ idle) (set_queue (queueList q) q))), ∅.
  split_and!; try done. cbn [pc pc_inv]. split_and!; try done. destruct Hq as [Hq Hf]. split; [done|].
  simpl. by apply Forall_app.
Qed.

Lemma listed_list a L h id :
  agent_inv a L -> (h, id) ∈ L -> listeners (ppq a) !! kPpqCanObjEvtId = Some (canobj_list a).
Proof.
  intros Hi Hin. pose proof (quiet_refines _ _ (ai_quiet _ _ Hi)) as [[_ _ Hn _ _ _] _].
  unfold canobj_list, list_at in *. destruct (listeners (ppq a) !! kPpqCanObjEvtId); [done|].
  simpl in Hn. by destruct L; [apply not_elem_of_nil in Hin|].
Qed.
Lemma elem_fst (L : list (positive * nat)) h id : (h, id) ∈ L -> h ∈ L.*1.
Proof. intros Hin. apply list_elem_of_fmap. by exists (h, id). Qed.

Lemma no_list a L :
  agent_inv a L -> listeners (ppq a) !! kPpqCanObjEvtId = None -> L = [].
Proof.
  intros Hi Hn. destruct L as [|[h id] L]; [done|]. rewrite (listed_list a _ h id Hi) in Hn; [done|by left].
Qed.

Lemma step_item inp a r n it todo kept idle L v ag :
  let t := mk_threads a r (InQueue n (it :: todo) kept idle) in
  tinv t ag L v -> exists t', rx_step inp t = Ret t' /\ rx_keeps t t' ag L v [].
Proof.
  intros t (q & z & Es & Hi & Hz & Hr & Hc & Hw & -> & rest & -> & Hn & -> & Hidle & Hq & ns & Ens & Hns).
  unfold t in *. cbn [shared locals pc] in *. subst a. destruct Hns as [|nd l ns rest Hcar Hns]; [done|].
  injection Ens as -> ->. cbn [rx_step pc shared locals item_get deref mbind outcome_bind].
  rewrite (proj2 (Nat.ltb_lt 0 n) Hn). unfold doFindCallableList.
  cbn [frame_event fst wrap ppq listeners set_listeners]. fold (frame_event nd).
  unfold waiting, running in Hw. simpl in Hw.
  destruct (listeners (ppq ag) !! kPpqCanObjEvtId) as [l0|] eqn:El.
  - assert (l0 = canobj_list ag) as -> by (unfold canobj_list, list_at; by rewrite El).
    eexists. split; [done|]. eexists ag, _, (fun _ => []). split_and!; [|done|by apply B_take|apply delivers_same].
    pose proof (quiet_refines _ _ (ai_quiet _ _ Hi)) as [Hrep _].
    destruct (dinv_start (canobj_list ag) L.*1 Hrep) as (T & rank & Hd).
    exists q, ∅. split_and!; try done.
    exists nd, l, rest, L.*1, ∅, T, rank. split_and!; try done. split_and!; try done. by exists ns.
  - cbn [item_clear mbind outcome_bind]. eexists. split; [done|]. eexists ag, _, (fun _ => []).
    split_and!; [|done|apply B_skip; by rewrite (no_list _ _ Hi El)|apply delivers_same].
    exists q, ∅. split_and!; try done; [unfold waiting, running; simpl; lia|]. cbn [pc pc_inv]. split; [done|].
    exists rest. split; [done|]. split_and!; try done; [|by exists ns].
    apply Forall_app. split; [done|]. by apply list.Forall_singleton.
Qed.

Lemma step_call_end inp a r n it todo kept idle ev d L v ag :
  let t := mk_threads a r (InCall n it todo kept idle ev d) in
  tinv t ag L v -> call_over d = true -> exists t', rx_step inp t = Ret t' /\ rx_keeps t t' ag L v [].
Proof.
  intros t (q & z & Es & Hi & Hz & Hr & Hc & Hw & Hpc) Ho.
  destruct Hpc as (nd & l & rest & L0 & E & T & rank & -> & -> & Hcar & -> & (Hn & -> & Hidle & Hq & Hns) & Hd & Hcur).
  unfold t in *. cbn [shared locals pc] in *. subst a. cbn [rx_step pc shared locals]. rewrite Ho.
  cbn [item_clear mbind outcome_bind]. eexists. split; [done|].
  assert (Hnone : cursor d = None) by (unfold call_over in Ho; by destruct (cursor d)).
  eexists ag, _, (fun _ => []). split_and!; [|done| |apply delivers_same].
  2: { apply B_done. intros h Hin Hh. destruct (di_cover _ _ _ _ _ _ _ Hd h Hin Hh) as [?|(q0 & Hq0 & _)]; [done|congruence]. }
  rewrite (Hcur Hnone) in *. unfold waiting, running in Hw. simpl in Hw.
  exists q, ∅. split_and!; try done; [unfold waiting, running; simpl; lia|]. cbn [pc pc_inv]. split; [done|].
  exists rest. split; [done|]. split_and!; try done. apply Forall_app. split; [done|]. by apply list.Forall_singleton.
Qed.

(** a call hands the line to one session *)
Lemma served_deliver x a L h id ls n l i k s :
  served_as x a h id ls -> agent_inv a L -> (i, k) ∈ L -> sessions a !! k = Some s -> carries n l ->
  (x = true -> has_room id a = true) ->
  let a' := put_session k (consumeCanObjHandler n s) a in
  agent_inv a' L /\ served_as x a' h id (if decide (i = h) then ls ++ [l] else ls).
Proof.
  intros Hsv Hi Hik Hs Hcar Hroom a'.
  destruct (served_in x a L h id ls Hsv Hi) as (s0 & ks & qs & Hin & Hs0 & Hh & Hp & Hsi & Hx).
  destruct (ai_live _ _ Hi i k Hik) as (s1 & Hs1 & Hh1 & Hp1 & ls1 & ks1 & qs1 & Hsi1).
  rewrite Hs in Hs1. injection Hs1 as <-. destruct (deliver_all_same [n] s) as [E1 E2]. simpl in E1, E2.
  assert (Hi' : agent_inv a' L).
  { eapply inv_update; try done; [by eapply elem_snd|by rewrite E1|].
    destruct (deliver_inv s ls1 ks1 qs1 n l Hsi1 Hcar) as (qs2 & Hsi2 & _). by eexists _, _, _. }
  split; [done|]. destruct (decide (i = h)) as [->|Hne].
  - assert (k = id) as ->.
    { pose proof (rep_nodup _ _ (proj1 (quiet_refines _ _ (ai_quiet _ _ Hi)))) as Hnd.
      apply list_elem_of_lookup in Hik as (j1 & Hj1). apply list_elem_of_lookup in Hin as (j2 & Hj2).
      assert (j1 = j2); [|congruence]. eapply NoDup_lookup; [exact Hnd| |]; rewrite list_lookup_fmap, ?Hj1, ?Hj2; done. }
    rewrite Hs in Hs0. injection Hs0 as <-.
    destruct (deliver_inv s ls ks qs n l Hsi Hcar) as (qs2 & Hsi2 & Eq).
    exists L, (consumeCanObjHandler n s), ks, qs2. rewrite E1, E2. split_and!; try done; [simpl; by rewrite lookup_insert_eq|].
    intros E. specialize (Hroom E). unfold has_room in Hroom.
    rewrite Hs, (Forall2_length _ _ _ (si_queue _ _ _ _ Hsi)) in Hroom. rewrite Hroom in Eq. subst qs2.
    by rewrite app_assoc, Hx.
  - exists L, s0, ks, qs. split_and!; try done. simpl. rewrite lookup_insert_ne; [done|]. intros ->.
    rewrite Hs in Hs0. injection Hs0 as <-. congruence.
Qed.

Lemma listed_callback a L h nd :
  agent_inv a L -> h ∈ L.*1 -> heap (canobj_list a) !! h = Some nd -> (h, callback nd) ∈ L.
Proof.
  intros Hi Hin Hnd. pose proof (quiet_refines _ _ (ai_quiet _ _ Hi)) as [_ Hc].
  apply list_elem_of_fmap in Hin as ((h0 & c) & -> & Hin). simpl in *.
  apply list_elem_of_lookup in Hin as (i & Hx).
  unfold callbacks in Hc. apply (f_equal (fun x => x !! i)) in Hc.
  rewrite !list_lookup_fmap, Hx in Hc. simpl in Hc. rewrite Hnd in Hc. injection Hc as ->.
  by eapply list_elem_of_lookup_2.
Qed.
Lemma wrap_call q z a k n s :
  sessions a !! k = Some s ->
  set_sessions (call_listener k n (sessions (wrap q z a))) (wrap q z a)
    = wrap q z (put_session k (consumeCanObjHandler n s) a).
Proof.
  intros Hs. unfold wrap, set_sessions, put_session, call_listener. simpl. f_equal.
  rewrite <- insert_union_l. apply map_eq. intros i. destruct (decide (i = k)) as [->|Hne].
  - by rewrite lookup_alter_eq, lookup_insert_eq, (lookup_union_Some_l _ _ _ _ Hs).
  - by rewrite lookup_alter_ne, lookup_insert_ne by done.
Qed.

(** one step of a dispatch, on the agent it runs in *)
Lemma call_visit q z a L d c s nd node line L0 E T rank :
  agent_inv a L -> zombies a L z -> carries node line ->
  dinv L0 E (canobj_list a) d L.*1 T rank -> cursor d = Some c -> snap d = Some s -> visited d = false ->
  heap (canobj_list a) !! c = Some nd -> eligible s nd = true ->
  exists a', set_sessions (call_listener (callback nd) node (sessions (wrap q z a))) (wrap q z a) = wrap q z a' /\
    agent_inv a' L /\ zombies a' L z /\ canobj_list a' = canobj_list a /\
    delivers (fun id => has_room id (wrap q z a)) a a' (fun h => if decide (h = c) then [line] else []).
Proof.
  intros Hi Hz Hcar Hd Hc Hs Hv Hnd He.
  assert (Hin : c ∈ L.*1).
  { destruct (di_node _ _ _ _ _ _ _ Hd c (di_cursor _ _ _ _ _ _ _ Hd c Hc)) as (nd' & Hnd' & [?|Hrm] & _); [done|].
    rewrite Hnd in Hnd'. injection Hnd' as <-. unfold eligible in He. by rewrite Hrm in He. }
  pose proof (listed_callback a L c nd Hi Hin Hnd) as Hk.
  destruct (ai_live _ _ Hi c (callback nd) Hk) as (s0 & Hs0 & Hh0 & Hp0 & ls0 & ks0 & qs0 & Hsi0).
  assert (Hsv0 : served_as false a c (callback nd) ls0) by (by exists L, s0, ks0, qs0).
  destruct (served_deliver false a L c (callback nd) ls0 node line c (callback nd) s0 Hsv0 Hi Hk Hs0 Hcar) as [Hi' _]; [done|].
  eexists. split; [by apply wrap_call|]. split_and!; try done; [by eapply zombies_put|].
  intros x h id ls Hsv Hroom. destruct (served_in x a L h id ls Hsv Hi) as (s1 & _ & _ & _ & Hs1 & _).
  rewrite (has_room_wrap id q z a s1 Hs1) in Hroom.
  destruct (served_deliver x a L h id ls node line c (callback nd) s0 Hsv Hi Hk Hs0 Hcar Hroom) as [_ Hsv'].
  destruct (decide (c = h)) as [->|Hne]; [by rewrite decide_True|]. by rewrite decide_False, app_nil_r.
Qed.

Lemma step_call inp a r n it todo kept idle ev d L v ag :
  let t := mk_threads a r (InCall n it todo kept idle ev d) in
  tinv t ag L v -> call_over d = false -> exists t', rx_step inp t = Ret t' /\ rx_keeps t t' ag L v [].
Proof.
  intros t (q & z & Es & Hi & Hz & Hr & Hc & Hw & Hpc) Ho.
  destruct Hpc as (nd & l & rest & L0 & E & T & rank & -> & -> & Hcar & -> & Hq & Hd & Hcur).
  unfold t in *. cbn [shared locals pc] in *. subst a. cbn [rx_step pc shared locals]. rewrite Ho.
  unfold call_step.
  change (list_at (fst (frame_event nd)) (listeners (ppq (wrap q z ag)))) with (canobj_list ag).
  destruct d as [c sn v inv]. cbn [cursor snap visited invoked] in *. destruct sn as [s|].
  2: { eexists. split; [by destruct c|]. eexists ag, _, (fun _ => []). split_and!; [|done|constructor|apply delivers_same].
       exists q, z. split_and!; try done. cbn [pc pc_inv].
       exists nd, l, rest, L0, (dom (heap (canobj_list ag))), T, rank. split_and!; try done. by eapply dinv_load. }
  destruct c as [c|]; [|done].
  destruct (dinv_T _ _ _ _ _ _ _ c Hd (di_cursor _ _ _ _ _ _ _ Hd c eq_refl)) as [nc Hnc].
  rewrite Hnc. cbn [deref mbind outcome_bind]. destruct v.
  - eexists. split; [done|]. cbn [cursor].
    destruct (collect_wrap (option_list (next nc)) q z ag L Hi Hz) as (z' & -> & Hz' & _ & Hz0).
    eexists ag, _, (fun _ => []). split_and!; [|done|constructor|apply delivers_same].
    exists q, z'. split_and!; try done. exists nd, l, rest, L0, E, T, rank.
    split_and!; try done; [by eapply dinv_next|]. cbn [cursor]. intros Hnx. apply Hz0. by rewrite Hnx.
  - pose proof (dinv_visit _ _ _ _ _ _ _ _ _ _ Hnc Hd) as Hd'. eexists. split; [done|].
    change (snd (frame_event nd)) with nd. destruct (eligible s nc) eqn:El.
    + destruct (call_visit q z ag L _ c s nc nd l L0 E T rank Hi Hz Hcar Hd eq_refl eq_refl eq_refl Hnc El)
        as (a' & -> & Hi' & Hz' & Hca & Hdel).
      eexists a', _, _. split_and!; [|exact (f_equal currentCounter Hca)|apply (B_call _ l L0 inv rest c)|exact Hdel].
      2: { intros Hx. destruct (di_invoked _ _ _ _ _ _ _ Hd c Hx) as (_ & _ & Hlt).
           destruct (Hlt c eq_refl) as [?|[_ ?]]; [lia|done]. }
      exists q, z. split_and!; try done. exists nd, l, rest, L0, E, T, rank. cbn [invoked]. rewrite Hca. by split_and!.
    + eexists ag, _, (fun _ => []). split_and!; [|done|constructor|apply delivers_same].
      exists q, z. split_and!; try done.
      exists nd, l, rest, L0, E, T, rank. cbn [invoked]. rewrite app_nil_r in *. by split_and!.
Qed.

(** ** Runs *)

(** a step of the loop never fails *)
Lemma tinv_rx inp t a L v :
  tinv t a L v -> good_report inp ->
  exists t', rx_step inp t = Ret t' /\ rx_keeps t t' a L v (agent_lines (published (TRx inp) t)).
Proof.
  intros Ht Hg. destruct t as [ag r [|n i now buf|n [|it todo] kept idle|n it todo kept idle ev d]]; cbn [published pc].
  - by apply step_receive.
  - destruct (Nat.ltb_spec i n) as [Hlt|Hge].
    + destruct (step_publish inp ag r n i now buf L v a Ht Hlt) as (t' & E & Hk). exists t'. split; [done|].
      unfold published in Hk. cbn [pc] in Hk. by rewrite (proj2 (Nat.ltb_lt i n) Hlt) in Hk.
    + by apply step_frames_end.
  - by apply step_queue_end.
  - by apply step_item.
  - destruct (call_over d) eqn:Eo; [by apply step_call_end|by apply step_call].
Qed.

(** What a listener is due that was given [given]: the lines [ls] from the moment
    it came, after the line [o] whose dispatch was running then or not. *)
Definition due (o : list (list byte)) (h : positive) (v : view) (given ls : list (list byte)) : Prop :=
  (takes_part h v /\ exists pre, (pre = [] \/ pre = o) /\ pre ++ ls = given ++ owed h v) \/
  (joining h v given /\ o = running v /\ ls = v.2).

Lemma due_step o L v pub got v' h given ls :
  broadcast L v pub got v' -> h ∈ L -> due o h v given ls -> due o h v' (given ++ got h) (ls ++ pub).
Proof.
  intros Hb Hh [(Hp & pre & Hpre & E)|(Hj & -> & ->)].
  - destruct (owed_step L v pub got v' h Hb Hh Hp) as [Hp' E']. left. split; [done|]. exists pre. split; [done|].
    by rewrite app_assoc, E, <- !app_assoc, E'.
  - destruct (joining_step L v pub got v' h given Hb Hj) as [(Hj' & <- & <- & ->)|(Hp' & -> & Ho & ->)].
    + right. by rewrite app_nil_r.
    + left. split; [done|]. exists given. rewrite !app_nil_r, Ho. split; [|done].
      unfold joining, running in *. destruct v.1 as [[[line L0] called]|]; [|done]. subst given. case_decide; auto.
Qed.
Lemma due_given o h v given ls :
  due o h v given ls -> exists pre rest, (pre = [] \/ pre = o) /\ pre ++ ls = given ++ rest.
Proof.
  intros [(_ & pre & Hpre & E)|(Hj & -> & ->)]; [by exists pre, (owed h v)|].
  exists given, v.2. split; [|done]. unfold joining, running in *. destruct v.1 as [[[line L0] called]|]; [|done].
  subst given. case_decide; auto.
Qed.

(** what may happen: reports that fit the array *)
Definition fits (e : thread_event) : Prop := match e with TRx inp => good_report inp | TIo _ => True end.
(** and, as long as the session [id] is meant to live, no failing write of it *)
Definition good_step (id : nat) (e : thread_event) : Prop :=
  match e with TRx inp => good_report inp | TIo ev => good_event id (AIo ev) end.
(** accepted clients *)
Definition accepts (es : list thread_event) : Z :=
  foldr (fun e n => match e with TIo ev => accepts1 ev | TRx _ => 0 end + n) 0 es.

Lemma good_fits id es : Forall (good_step id) es -> Forall fits es.
Proof. intros H. eapply Forall_impl; [exact H|]. by intros []. Qed.
Lemma accepts1_nonneg ev : 0 <= accepts1 ev.
Proof. destruct ev as [[]| |]; simpl; lia. Qed.
Lemma accepts_nonneg es : 0 <= accepts es.
Proof. induction es as [|[inp|ev] es IH]; simpl; [lia|lia|pose proof (accepts1_nonneg ev); lia]. Qed.
Lemma accepts_cons e es : accepts (e :: es) = accepts [e] + accepts es /\ 0 <= accepts [e] /\ 0 <= accepts es.
Proof. split_and!; [simpl; lia|apply accepts_nonneg..]. Qed.

(** from [a] and [v] to [a'] and [v'] the lines [pub] were published: they wait
    behind the others, and the client of the session [id] is due them *)
Definition queues (v v' : view) (pub : list (list byte)) : Prop :=
  forall ls, waiting v `suffix_of` ls -> waiting v' `suffix_of` ls ++ pub.
Definition serves (x : bool) (id : nat) (a : agent) (v : view) (a' : agent) (v' : view) (pub : list (list byte)) : Prop :=
  forall o h given ls, served_as x a h id given -> due o h v given ls ->
    exists given', served_as x a' h id given' /\ due o h v' given' (ls ++ pub).

Lemma tinv_step e t a L v :
  tinv t a L v -> fits e -> registrations t + 1 < 2 ^ 32 ->
  is_UB (thread_step e t) = false /\
  forall t', thread_step e t = Ret t' ->
    exists a' L' v', tinv t' a' L' v' /\ registrations t' <= registrations t + accepts [e] /\
      queues v v' (agent_lines (published e t)) /\
      forall x id, good_step id e -> (x = true -> never_full id [e] t = true) ->
        serves x id a v a' v' (agent_lines (published e t)).
Proof.
  intros Ht Hg Hr. destruct e as [inp|ev].
  - destruct (tinv_rx inp t a L v Ht Hg) as (t1 & E & a' & v' & got & Ht1 & Hreg & Hb & Hdel). cbn [thread_step]. rewrite E.
    split; [done|]. intros t' [= <-]. exists a', L, v'. split_and!; [done|simpl; lia| |].
    + intros ls. by eapply waiting_step.
    + intros x id _ Hx o h given ls Hsv Hdue. exists (given ++ got h). split.
      { apply Hdel; [done|]. intros Ex. by destruct (andb_prop _ _ (Hx Ex)). }
      destruct Ht as (_ & _ & _ & Hi & _). destruct (served_in x a L h id given Hsv Hi) as (_ & _ & _ & Hin & _).
      eapply due_step; [exact Hb|by eapply elem_fst|done].
  - destruct (tinv_io ev t a L v Ht Hr) as [Hu Hret]. split; [done|]. intros t' Et.
    destruct (Hret t' Et) as (a' & L' & Ht' & Hreg & Ha). exists a', L', v. split_and!; [done|simpl; lia| |].
    + intros ls. by rewrite app_nil_r.
    + intros x id Hgi _ o h given ls Hsv Hdue. exists given. rewrite app_nil_r. split; [|done].
      by destruct (served_io x ev a a' h id given Hsv Hgi) as [_ Hs]; apply Hs.
Qed.

Lemma tinv_run es t a L v :
  tinv t a L v -> Forall fits es -> registrations t + accepts es + 1 < 2 ^ 32 ->
  is_UB (thread_run es t) = false /\
  forall t', thread_run es t = Ret t' ->
    exists a' L' v', tinv t' a' L' v' /\ registrations t' <= registrations t + accepts es /\
      queues v v' (agent_lines (all_published es t)) /\
      forall x id, Forall (good_step id) es -> (x = true -> never_full id es t = true) ->
        serves x id a v a' v' (agent_lines (all_published es t)).
Proof.
  revert t a L v. induction es as [|e es IH]; intros t a L v Ht Hg Hr.
  - split; [done|]. intros t' [= <-]. exists a, L, v. split_and!; [done|simpl; lia| |].
    + intros ls. by rewrite app_nil_r.
    + intros x id _ _ o h given ls Hsv Hdue. exists given. by rewrite app_nil_r.
  - apply list.Forall_cons in Hg as [Hg1 Hg]. destruct (accepts_cons e es) as (He & Hge & Hn).
    destruct (tinv_step e t a L v Ht Hg1 ltac:(lia)) as [Hu Hret]. cbn [thread_run all_published never_full] in *.
    destruct (thread_step e t) as [t1| | |]; try done. cbn [mbind outcome_bind].
    destruct (Hret t1 eq_refl) as (a1 & L1 & v1 & Ht1 & Hr1 & Hq1 & Hs1).
    destruct (IH t1 a1 L1 v1 Ht1 Hg ltac:(lia)) as [Hu2 Hret2]. split; [done|]. intros t' Et.
    destruct (Hret2 t' Et) as (a' & L' & v' & Ht' & Hr' & Hq' & Hs'). exists a', L', v'.
    unfold agent_lines in *. rewrite fmap_app. split_and!; [done|lia| |].
    + intros ls Hls. rewrite app_assoc. by apply Hq', Hq1.
    + intros x id [Hg2 Hg3]%list.Forall_cons Hx o h given ls Hsv Hdue.
      assert (Hx1 : x = true -> match e with TRx _ => room_at id t | TIo _ => true end && true = true).
      { intros Ex. destruct (andb_prop _ _ (Hx Ex)) as [-> _]. done. }
      assert (Hx2 : x = true -> never_full id es t1 = true) by (intros Ex; by destruct (andb_prop _ _ (Hx Ex))).
      destruct (Hs1 x id Hg2 Hx1 o h given ls Hsv Hdue) as (given1 & Hsv1 & Hdue1).
      destruct (Hs' x id Hg3 Hx2 o h given1 _ Hsv1 Hdue1) as (given2 & Hsv2 & Hdue2).
      exists given2. by rewrite app_assoc.
Qed.

Lemma tinv_start a r L : agent_inv a L -> rx_ok r -> is_u64 (send_count r) -> tinv (mk_threads a r AtReceive) a L (None, []).
Proof.
  intros Hi Hr Hc. exists (ppq a), ∅. split_and!; try done.
  - by rewrite wrap_id.
  - unfold waiting, running. simpl. lia.
  - split_and!; try done. apply (ai_quiet _ _ Hi).
Qed.

Definition at_rest (p : rx_pc) : bool := match p with AtReceive => true | _ => false end.
Lemma at_rest_pc p : at_rest p -> p = AtReceive.
Proof. by destruct p. Qed.

(** a client of the agent in the middle of a turn; when [x], its session has lost
    nothing *)
Definition client (x : bool) (o : list (list byte)) (t : threads) (h : positive) (id : nat) (ls : list (list byte)) : Prop :=
  exists a L v given, tinv t a L v /\ served_as x a h id given /\ due o h v given ls.

Lemma client_start a r h id L ls :
  agent_inv a L -> served a h id ls -> rx_ok r -> is_u64 (send_count r) ->
  client false [] (mk_threads a r AtReceive) h id ls.
Proof.
  intros Hi Hsv Hr Hc. exists a, L, (None, []), ls. split; [by apply tinv_start|].
  split; [by apply served_served_as|]. left. split; [done|]. exists []. split; [by left|]. by rewrite app_nil_r.
Qed.
Lemma client_step e o t h id ls :
  client false o t h id ls -> good_step id e -> registrations t + 1 < 2 ^ 32 ->
  is_UB (thread_step e t) = false /\
  forall t', thread_step e t = Ret t' ->
    client false o t' h id (ls ++ agent_lines (published e t)) /\ registrations t' <= registrations t + accepts [e].
Proof.
  intros (a & L & v & given & Ht & Hsv & Hdue) Hg Hr.
  destruct (tinv_step e t a L v Ht ltac:(by destruct e) Hr) as [Hu Hret]. split; [done|]. intros t' Et.
  destruct (Hret t' Et) as (a' & L' & v' & Ht' & Hreg & _ & Hs). split; [|done].
  destruct (Hs false id Hg ltac:(done) o h given ls Hsv Hdue) as (given' & Hsv' & Hdue'). by exists a', L', v', given'.
Qed.
Lemma client_run x es o t h id ls :
  client x o t h id ls -> Forall (good_step id) es -> (x = true -> never_full id es t = true) ->
  registrations t + accepts es + 1 < 2 ^ 32 ->
  is_UB (thread_run es t) = false /\
  forall t', thread_run es t = Ret t' -> client x o t' h id (ls ++ agent_lines (all_published es t)).
Proof.
  intros (a & L & v & given & Ht & Hsv & Hdue) Hg Hx Hr.
  destruct (tinv_run es t a L v Ht (good_fits _ _ Hg) Hr) as [Hu Hret]. split; [done|]. intros t' Et.
  destruct (Hret t' Et) as (a' & L' & v' & Ht' & _ & _ & Hs).
  destruct (Hs x id Hg Hx o h given ls Hsv Hdue) as (given' & Hsv' & Hdue'). by exists a', L', v', given'.
Qed.
(** between two turns the session was given everything it is due *)
Lemma client_rest x o t h id ls :
  client x o t h id ls -> pc t = AtReceive ->
  exists pre, (pre = [] \/ pre = o) /\ served_as x (shared t) h id (pre ++ ls).
Proof.
  intros (a & L & v & given & (q & z & -> & Hi & Hz & Hr & Hc & Hw & Hpc) & Hsv & Hdue) E. rewrite E in Hpc.
  destruct Hpc as (-> & Hq & ->). destruct Hdue as [(_ & pre & Hpre & Ep)|([] & _)].
  exists pre. split; [done|]. rewrite Ep, app_nil_r. by apply served_quiet.
Qed.
(** and at any point a prefix of it *)
Lemma client_given x o t h id ls :
  client x o t h id ls -> exists pre given rest s ks qs, (pre = [] \/ pre = o) /\ pre ++ ls = given ++ rest /\
    (pc t = AtReceive -> rest = []) /\
    sessions (shared t) !! id = Some s /\ pending_op s <> NoOp /\ session_inv s given ks qs /\ (x = true -> ks ++ qs = given).
Proof.
  intros Hcl. destruct (decide (at_rest (pc t))) as [Hpc%at_rest_pc|Hpc].
  - destruct (client_rest x o t h id ls Hcl Hpc) as (pre & Hpre & L & s & ks & qs & _ & _ & Hs & _ & Hp & Hsi & Hx).
    exists pre, (pre ++ ls), [], s, ks, qs. by rewrite app_nil_r.
  - destruct Hcl as (a & L & v & given & (q & z & Es & Hi & _) & Hsv & Hdue).
    destruct (served_in x a L h id given Hsv Hi) as (s & ks & qs & _ & Hs & _ & Hp & Hsi & Hx).
    destruct (due_given o h v given ls Hdue) as (pre & rest & Hpre & E).
    exists pre, given, rest, s, ks, qs. rewrite Es. split_and!; try done.
    + intros Ex. by rewrite Ex in Hpc.
    + simpl. by apply lookup_union_Some_l.
Qed.

(** ** A client that connects *)

Lemma accept_listener a L a' :
  agent_inv a L -> io_handle [] (EvAccept 0) a = Ret a' ->
  exists k h d, session_ a = Some k /\ appendListener kPpqCanObjEvtId k (listeners (ppq a)) = (h, d) /\
    a' = accepted k h d (not_accepting a).
Proof.
  intros Hi. cbn [io_handle]. destruct (accepting a); [|done]. fold (not_accepting a).
  pose proof (not_accepting_inv a L Hi) as Hi'. destruct (ai_new _ _ Hi') as (k & Ek & Hk & _).
  pose proof (ai_fresh _ _ Hi' k _ Hk).
  destruct (appendListener kPpqCanObjEvtId k (listeners (ppq (not_accepting a)))) as [h d] eqn:Ea.
  rewrite (handleAccept_ok _ _ k h d) by done. intros [= <-]. by exists k, h, d.
Qed.

(** it is due what no dispatch has begun with, and perhaps the running one *)
Lemma client_accept t t' a L v :
  tinv t a L v -> registrations t + 1 < 2 ^ 32 -> thread_step (TIo (EvAccept 0)) t = Ret t' ->
  exists id h, session_ (shared t) = Some id /\ forall x, client x (running v) t' h id v.2.
Proof.
  intros Ht Hr Et. destruct (proj2 (tinv_io (EvAccept 0) t a L v Ht Hr) t' Et) as (a' & L' & Ht' & _ & Ha).
  destruct Ht as (q & z & Es & Hi & _ & _ & _ & _ & Hpc).
  destruct (accept_listener a L a' Hi Ha) as (k & h & d & Ek & Eapp & ->). exists k, h. split; [by rewrite Es|]. intros x.
  pose proof (not_accepting_inv a L Hi) as Hi1.
  eexists _, L', v, []. split; [exact Ht'|]. split.
  - exists (L ++ [(h, k)]), (started h), [], []. split_and!; try done; [by apply accepted_inv|set_solver| |apply started_inv].
    simpl. destruct (ai_new _ _ Hi) as (k0 & E & Hk & _). rewrite Ek in E. injection E as <-.
    pose proof (ai_fresh _ _ Hi _ _ Hk). rewrite lookup_insert_ne by lia. by rewrite lookup_insert_eq.
  - destruct (pc t) as [|n i now buf|n todo kept idle|n it todo kept idle ev0 dd]; cbn [pc_inv] in Hpc.
    1: destruct Hpc as (_ & _ & ->). 2: destruct Hpc as (_ & _ & _ & ns & rest & -> & _).
    3: destruct Hpc as (_ & rest & -> & _).
    1-3: left; split; [done|]; exists []; by split; [left|].
    destruct Hpc as (node & line & rest & L0 & E & T & rank & _ & _ & _ & -> & _ & Hd & _).
    right. unfold joining. cbn [fst snd]. rewrite decide_False; [done|]. intros Hc.
    destruct (di_invoked _ _ _ _ _ _ _ Hd h Hc) as (HT & _). destruct (dinv_T _ _ _ _ _ _ _ h Hd HT) as [nd Hnd].
    pose proof (quiet_refines _ _ (ai_quiet _ _ Hi)) as [Hrep _].
    destruct (append_spec k _ _ h _ Hrep (canobj_appended a k h d Eapp)) as [_ Hfr _ _ _ _]. congruence.
Qed.

(** the lines that wait in the turn in which a client connects *)
Lemma tinv_old t a L v ls pre :
  tinv t a L v -> waiting v `suffix_of` ls -> pre = [] \/ pre = running v ->
  (pre ++ v.2) `suffix_of` ls /\ (length (pre ++ v.2) <= kRxBuffSize)%nat /\ (pc t = AtReceive -> pre ++ v.2 = []).
Proof.
  intros (q & z & _ & _ & _ & _ & _ & Hw & Hpc) Hs Hpre.
  assert (Hsuf : (pre ++ v.2) `suffix_of` waiting v).
  { unfold waiting. destruct Hpre as [-> | ->]; [by exists (running v)|done]. }
  split_and!.
  - by etrans.
  - etrans; [by apply suffix_length|done].
  - intros E. rewrite E in Hpc. destruct Hpc as (_ & _ & ->). by destruct Hpre as [-> | ->].
Qed.

(** C2. Two threads: however the single steps of the receiving loop (publishing
    a frame, taking an event from the queue, reading the list's head and its
    counter, calling a listener, advancing) are interleaved with the handlers
    of the io thread, which accept clients and drop sessions in the middle of
    a dispatch, there is no undefined behaviour and the loop can always take
    its next step, provided the count of every report fits the array. A client
    may connect at any of these steps; as long as its own writes succeed, it is
    handed one contiguous stretch of the stream of frames: the last few
    published in the turn it came in, at most 100 and none between two turns,
    then every frame published while it is connected. At every point its
    session has been handed a prefix of these lines, and whenever the loop is
    back at [VCI_Receive] all of them. However many they are, if the session's
    queue was never full at a dispatch then nothing is lost: at every point the
    lines it took from the queue and those in it are exactly those handed, and
    at [VCI_Receive] a bounded number of timers and writes sends exactly the
    stretch. The same holds when there were at most 2048 lines. (A full queue
    loses the line that comes, as [session_stream] states.) *)
Theorem interleaved_threads_serve (es1 es2 : list thread_event) (r : rx) (a : agent) (L : list (positive * nat)) :
  let t := mk_threads a r AtReceive in
  agent_inv a L -> rx_ok r -> is_u64 (send_count r) -> Forall fits es1 ->
  registrations t + accepts es1 + accepts es2 + 2 < 2 ^ 32 ->
  is_UB (thread_run es1 t) = false /\
  forall t1, thread_run es1 t = Ret t1 ->
  (forall inp, good_report inp -> exists t2, rx_step inp t1 = Ret t2) /\
  is_UB (thread_step (TIo (EvAccept 0)) t1) = false /\
  forall t2, thread_step (TIo (EvAccept 0)) t1 = Ret t2 ->
  exists id, session_ (shared t1) = Some id /\ (Forall (good_step id) es2 ->
  is_UB (thread_run es2 t2) = false /\
  forall t3, thread_run es2 t2 = Ret t3 ->
  exists old, let stream := old ++ agent_lines (all_published es2 t2) in
    old `suffix_of` agent_lines (all_published es1 t) /\
    (length old <= kRxBuffSize)%nat /\ (pc t1 = AtReceive -> old = []) /\
    (exists given rest s ks qs, stream = given ++ rest /\ (pc t3 = AtReceive -> rest = []) /\
       sessions (shared t3) !! id = Some s /\ pending_op s <> NoOp /\ session_inv s given ks qs /\
       (never_full id es2 t2 = true -> ks ++ qs = given)) /\
    (pc t3 = AtReceive -> never_full id es2 t2 = true \/ (length stream <= spsc_capacity)%nat ->
     exists s more s', sessions (shared t3) !! id = Some s /\ (length more <= 1 + (length stream + 7) / 8)%nat /\
       delivered more = [] /\ session_run more s = Ret s' /\ socket_ s' = lines_text stream)).
Proof.
  intros t Hi Hr Hc Hg Hreg. pose proof (accepts_nonneg es1). pose proof (accepts_nonneg es2).
  destruct (tinv_run es1 t a L _ (tinv_start a r L Hi Hr Hc) Hg ltac:(lia)) as [Hu Hret]. split; [done|].
  intros t1 E1. destruct (Hret t1 E1) as (a1 & L1 & v1 & Ht1 & Hr1 & Hq1 & _). split.
  { intros inp Hgi. destruct (tinv_rx inp t1 a1 L1 v1 Ht1 Hgi) as (t2 & E & _). by exists t2. }
  destruct (tinv_io (EvAccept 0) t1 a1 L1 v1 Ht1 ltac:(lia)) as [Hu1 Hret1]. split; [done|]. intros t2 E2.
  destruct (Hret1 t2 E2) as (a2 & L2 & _ & Hr2 & _). cbn [accepts1] in Hr2.
  destruct (client_accept t1 t2 a1 L1 v1 Ht1 ltac:(lia) E2) as (id & h & Eid & Hcl). exists id. split; [done|].
  intros Hg2. destruct (client_run (never_full id es2 t2) es2 _ t2 h id _ (Hcl _) Hg2 ltac:(done) ltac:(lia)) as [Hu2 Hret2].
  split; [done|]. intros t3 E3. specialize (Hret2 t3 E3). specialize (Hq1 [] (suffix_nil [])). rewrite app_nil_l in Hq1.
  pose proof (fun pre => tinv_old t1 a1 L1 v1 _ pre Ht1 Hq1) as Hold.
  destruct (decide (at_rest (pc t3))) as [Hpc%at_rest_pc|Hpc].
  - destruct (client_rest _ _ t3 h id _ Hret2 Hpc) as (pre & Hpre & Hsv). rewrite app_assoc in Hsv.
    exists (pre ++ v1.2). destruct (Hold pre Hpre) as (Hs1 & Hs2 & Hs3). cbv zeta. split_and!; try done.
    + destruct Hsv as (L3 & s & ks & qs & _ & _ & Hs & _ & Hp & Hsi & Hx). eexists _, [], s, ks, qs.
      split_and!; [symmetry; apply app_nil_r|done..].
    + intros _ Hle. by apply (served_lines (never_full id es2 t2) (shared t3) h id).
  - destruct (client_given _ _ t3 h id _ Hret2) as (pre & given & rest & s & ks & qs & Hpre & E & Hne & Hs & Hp & Hsi & Hx).
    exists (pre ++ v1.2). destruct (Hold pre Hpre) as (Hs1 & Hs2 & Hs3). cbv zeta. rewrite <- app_assoc.
    split_and!; try done; [by exists given, rest, s, ks, qs|]. intros Ex. by rewrite Ex in Hpc.
Qed.

(** ** Progress of a session *)

(** the session will have sent the lines [W] after [n] more of its own timers
    and writes, whatever else is delivered to it *)
Definition owes (s : Session) (W : list (list byte)) (n : nat) : Prop :=
  exists ls ks qs, session_inv s ls ks qs /\ pending_op s <> NoOp /\ W `prefix_of` ks ++ qs /\
    (lines_text W `prefix_of` socket_ s \/ (1 + (length W - length ks + 7) / 8 <= n)%nat).

Lemma prefix_lines W ks : W `prefix_of` ks -> lines_text W `prefix_of` lines_text ks.
Proof. intros [k ->]. rewrite lines_text_app. by apply prefix_app_r. Qed.
Lemma prefix_short (W ks qs : list (list byte)) :
  W `prefix_of` ks ++ qs -> (length W <= length ks)%nat -> W `prefix_of` ks.
Proof.
  intros Hw Hl. destruct (prefix_weak_total W ks (ks ++ qs)) as [?|Hk]; [done|by apply prefix_app_r|done|].
  by rewrite (prefix_length_eq ks W Hk Hl).
Qed.

(** what a timer or the end of a write does *)
Definition completion (ev : session_event) : bool :=
  match ev with SDeliver _ => false | STimer => true | SWrite ec _ => ec =? 0 end.
Lemma completion_step ev s s' ls ks qs :
  session_inv s ls ks qs -> completion ev = true -> session_step ev s = Ret s' ->
  session_inv s' ls (ks ++ take 8 qs) (drop 8 qs) /\ pending_op s' <> NoOp /\
  socket_ s `prefix_of` socket_ s' /\ socket_ s' = lines_text ks.
Proof.
  intros Hi Hc Hs. destruct ev as [n| |ec n]; [done| |]; pose proof Hs as Hd; cbn [session_step] in Hd.
  - destruct (decide (pending_op s = TimerWait)) as [Hp|]; [|done]. clear Hd.
    destruct (timer_step s ls ks qs Hi Hp) as (s1 & E & Hp1 & Hi1 & Hso & _). rewrite E in Hs. injection Hs as <-.
    pose proof (si_live _ _ _ _ Hi ltac:(by rewrite Hp)) as Hl. rewrite (si_idle _ _ _ _ Hi Hp), app_nil_r in Hl.
    split_and!; try done; rewrite Hso; done.
  - apply Z.eqb_eq in Hc. subst ec.
    destruct (decide (pending_op s = Writing /\ (n <= length (shr_tx_buff_ s))%nat /\
      (0 = 0 -> n = length (shr_tx_buff_ s)))) as [(Hp & _ & Hn)|]; [|done]. clear Hd.
    destruct (write_step s ls ks qs Hi Hp) as (s1 & E & Hp1 & Hi1 & Hso & _). rewrite <- Hn in E by done.
    rewrite E in Hs. injection Hs as <-. split_and!; try done. rewrite Hso. apply (si_sent _ _ _ _ Hi).
Qed.

Lemma owes_deliver s W n node line : owes s W n -> carries node line -> owes (consumeCanObjHandler node s) W n.
Proof.
  intros (ls & ks & qs & Hi & Hp & Hw & Hn) Hc. destruct (deliver_all_same [node] s) as [E1 _]. simpl in E1.
  assert (Hso : socket_ (consumeCanObjHandler node s) = socket_ s) by (unfold consumeCanObjHandler; by destruct (_ <? _)%nat).
  destruct (deliver_inv s ls ks qs node line Hi Hc) as (qs' & Hi' & Hq').
  exists (ls ++ [line]), ks, qs'. rewrite E1, Hso. split_and!; try done.
  rewrite Hq'. destruct (_ <? _)%nat; [|done]. rewrite app_assoc. by apply prefix_app_r.
Qed.
Lemma owes_complete ev s s' W n :
  owes s W n -> completion ev = true -> session_step ev s = Ret s' -> owes s' W (pred n).
Proof.
  intros (ls & ks & qs & Hi & Hp & Hw & Hn) Hc Hs.
  destruct (completion_step ev s s' ls ks qs Hi Hc Hs) as (Hi' & Hp' & Hpre & Hso).
  exists ls, (ks ++ take 8 qs), (drop 8 qs). split_and!; try done.
  - by rewrite <- app_assoc, take_drop.
  - destruct Hn as [Hn|Hn]; [left; by etrans|]. destruct (decide (length W <= length ks)%nat) as [Hl|Hl].
    + left. rewrite Hso. apply prefix_lines. by eapply prefix_short.
    + right. pose proof (prefix_length _ _ Hw) as Hlen. rewrite !length_app in *. rewrite length_take.
      pose proof (rounds_step (length W - length ks) ltac:(lia)) as Hr.
      assert (Hle : (length W - (length ks + Nat.min 8 (length qs)) <= length W - length ks - 8)%nat) by lia.
      pose proof (Nat.div_le_mono (length W - (length ks + Nat.min 8 (length qs)) + 7)
        (length W - length ks - 8 + 7) 8 ltac:(lia) ltac:(lia)). lia.
Qed.
Lemma owes_now s ls ks qs :
  session_inv s ls ks qs -> pending_op s <> NoOp -> owes s (ks ++ qs) (1 + (length qs + 7) / 8).
Proof.
  intros Hi Hp. exists ls, ks, qs. split_and!; try done. right. rewrite length_app.
  by replace (length ks + length qs - length ks)%nat with (length qs) by lia.
Qed.

(** the timers and writes of the session [id] *)
Definition own_io (id : nat) (ev : io_event) : bool :=
  match ev with EvAccept _ => false | EvTimer i _ | EvWrite i _ _ => (i =? id)%nat end.
Definition own (id : nat) (e : thread_event) : bool := match e with TIo ev => own_io id ev | TRx _ => false end.
Definition completions (id : nat) (es : list thread_event) : nat := length (filter (fun e => own id e = true) es).

(** what a step does to one session *)
Inductive session_move (id : nat) (e : thread_event) (s : Session) : Session -> Prop :=
| Untouched : own id e = false -> session_move id e s s
| Given n l : own id e = false -> carries n l -> session_move id e s (consumeCanObjHandler n s)
| Completed sev s' : own id e = true -> completion sev = true -> session_step sev s = Ret s' -> session_move id e s s'.

Lemma put_move id ev sev a i s s0 s' :
  sessions a !! id = Some s -> sessions a !! i = Some s0 -> session_step sev s0 = Ret s' ->
  completion sev = true -> own_io id ev = (i =? id)%nat ->
  exists s1, sessions (put_session i s' a) !! id = Some s1 /\ session_move id (TIo ev) s s1.
Proof.
  intros Hs Hs0 Hst Hc Ho. simpl. destruct (decide (i = id)) as [->|Hne].
  - rewrite Hs in Hs0. injection Hs0 as <-. exists s'. rewrite lookup_insert_eq. split; [done|].
    eapply Completed; [|exact Hc|exact Hst]. simpl. by rewrite Ho, Nat.eqb_refl.
  - exists s. rewrite lookup_insert_ne by done. split; [done|]. apply Untouched. simpl. rewrite Ho.
    by apply Nat.eqb_neq.
Qed.

Lemma io_session ev a a' h id ls s :
  served_as false a h id ls -> good_event id (AIo ev) -> io_handle [] ev a = Ret a' -> sessions a !! id = Some s ->
  exists s', sessions a' !! id = Some s' /\ session_move id (TIo ev) s s'.
Proof.
  intros (L & s0 & ks & qs & Hi & Hin & _) Hg Ha Hs. destruct ev as [ec|i ec|i ec n].
  - exists s. split; [|by apply Untouched]. apply (handle_accept a L ec Hi) in Ha as [_ Ha]. case_decide.
    + destruct Ha as (k & h1 & d & Ek & -> & Hi'). simpl. pose proof (ai_fresh _ _ Hi _ _ Hs).
      destruct (ai_new _ _ Hi) as (k0 & E & _ & Hk). rewrite !lookup_insert_ne; [done| |lia].
      intros ->. rewrite Ek in E. injection E as <-. by apply Hk, (elem_snd L h).
    + by subst a'.
  - apply (handle_timer a L i ec Hi) in Ha as (s1 & s' & Hs1 & Hst & -> & _). by eapply (put_move id _ STimer).
  - destruct (decide (ec = 0)) as [->|He].
    + apply (handle_written a L i n Hi) in Ha as (s1 & s' & Hs1 & Hst & -> & _). by eapply (put_move id _ (SWrite 0 n)).
    + assert (Hne : i <> id) by (intros ->; apply He; by apply Hg).
      apply (handle_failed a L i ec n Hi He) in Ha as (s1 & L1 & h1 & L2 & _ & _ & _ & _ & -> & _).
      exists s. simpl. rewrite lookup_delete_ne by done. split; [done|]. apply Untouched. simpl.
      by apply Nat.eqb_neq.
Qed.

Lemma release_lookup pins i a id :
  sessions (release pins i a) !! id = sessions a !! id \/ sessions (release pins i a) !! id = None.
Proof.
  unfold release. destruct (owned pins i a); [by left|]. simpl.
  assert (E : sessions (disconnectToEventqq pins i a) = sessions a).
  { unfold disconnectToEventqq. destruct (_ ≫= _); [|done]. destruct (lock _ _ _); [|done].
    by destruct (removeListener _ _ _ _). }
  rewrite E. destruct (decide (i = id)) as [->|Hne]; [right; apply lookup_delete_eq|left; by apply lookup_delete_ne].
Qed.
Lemma collect_lookup pins a id :
  sessions (collect pins a) !! id = sessions a !! id \/ sessions (collect pins a) !! id = None.
Proof.
  unfold collect. induction (elements _) as [|i ids IH]; [by left|]. simpl.
  destruct (release_lookup pins i (fold_right (release pins) a ids) id) as [-> | ->]; [done|by right].
Qed.

Lemma call_session ev d a d' a' id s s' line :
  call_step ev d a = Ret (d', a') -> carries (snd ev) line ->
  sessions a !! id = Some s -> sessions a' !! id = Some s' -> s' = s \/ s' = consumeCanObjHandler (snd ev) s.
Proof.
  intros Hc Hcar Hs Hs'. unfold call_step in Hc. destruct (snap d) as [c|].
  2: { left. destruct (cursor d); injection Hc as <- <-; congruence. }
  destruct (cursor d) as [q|]; [|left; injection Hc as <- <-; congruence].
  apply bind_Ret_inv in Hc as (nd & _ & Hc). destruct (visited d).
  - injection Hc as <- <-. left. cbn [cursor] in Hs'.
    destruct (collect_lookup (option_list (next nd)) a id) as [E|E]; congruence.
  - injection Hc as <- <-. destruct (eligible c nd); [|left; congruence]. simpl in Hs'. unfold call_listener in Hs'.
    destruct (decide (callback nd = id)) as [<-|Hne].
    + rewrite lookup_alter_eq, Hs in Hs'. right. by injection Hs'.
    + rewrite lookup_alter_ne, Hs in Hs' by done. left. by injection Hs'.
Qed.

Lemma rx_session inp t t' h id ls s s' :
  client false [] t h id ls -> rx_step inp t = Ret t' ->
  sessions (shared t) !! id = Some s -> sessions (shared t') !! id = Some s' -> session_move id (TRx inp) s s'.
Proof.
  intros (a & L & v & given & (q & z & _ & _ & _ & _ & _ & _ & Hpc) & _) Hst Hs Hs'.
  assert (Hsame : sessions (shared t') = sessions (shared t) -> session_move id (TRx inp) s s').
  { intros E. rewrite E, Hs in Hs'. injection Hs' as <-. by apply Untouched. }
  unfold rx_step in Hst. destruct (pc t) as [|n i now buf|n [|it todo] kept idle|n it todo kept idle ev d].
  - apply Hsame. destruct inp as [[n now] buf]. by injection Hst as <-.
  - apply Hsame. destruct (i <? n)%nat.
    + apply bind_Ret_inv in Hst as (o & _ & Hst). apply bind_Ret_inv in Hst as ([r1 q1] & _ & Hst). by injection Hst as <-.
    + destruct (bool_decide _); by injection Hst as <-.
  - apply Hsame. by injection Hst as <-.
  - apply Hsame. apply bind_Ret_inv in Hst as (ev & _ & Hst). destruct (0 <? n)%nat; [|by injection Hst as <-].
    destruct (doFindCallableList _ _); [by injection Hst as <-|].
    apply bind_Ret_inv in Hst as (it' & _ & Hst). by injection Hst as <-.
  - destruct (call_over d).
    + apply Hsame. apply bind_Ret_inv in Hst as (it' & _ & Hst). by injection Hst as <-.
    + apply bind_Ret_inv in Hst as ([d' a'] & Hc & Hst). injection Hst as <-. simpl in Hs'.
      destruct Hpc as (node & line & rest1 & L0 & E & T & rank & _ & -> & Hcar & _).
      destruct (call_session _ _ _ _ _ id s s' line Hc Hcar Hs Hs') as [-> | ->]; [by apply Untouched|].
      by eapply Given.
Qed.

Lemma step_session e t t' h id ls s :
  client false [] t h id ls -> good_step id e -> registrations t + 1 < 2 ^ 32 -> thread_step e t = Ret t' ->
  sessions (shared t) !! id = Some s ->
  exists s', sessions (shared t') !! id = Some s' /\ session_move id e s s'.
Proof.
  intros Ht Hg Hr Hst Hs. destruct e as [inp|ev].
  - destruct (proj2 (client_step (TRx inp) [] t h id ls Ht Hg Hr) t' Hst) as [Ht' _].
    destruct (client_given false [] t' h id _ Ht') as (_ & _ & _ & s' & _ & _ & _ & _ & _ & Hs' & _).
    exists s'. split; [done|]. by apply (rx_session inp t t' h id ls).
  - destruct Ht as (a & L & v & given & (q & z & Es & Hi & Hz & _) & Hsv & _). cbn [thread_step] in Hst.
    apply bind_Ret_inv in Hst as (x & Hx & [= <-]). rewrite Es in Hx, Hs. cbn [shared].
    destruct (proj2 (wrap_io _ ev q z a L Hi Hz) x Hx) as (a' & z' & L' & -> & Ha & _).
    destruct (served_in false a L h id given Hsv Hi) as (s0 & _ & _ & _ & Hs0 & _).
    assert (s0 = s) as ->. { simpl in Hs. rewrite (lookup_union_Some_l _ _ _ _ Hs0) in Hs. by injection Hs. }
    destruct (io_session ev a a' h id given s Hsv Hg Ha Hs0) as (s' & Hs' & Hm).
    exists s'. split; [|done]. simpl. by apply lookup_union_Some_l.
Qed.

Lemma owes_run es t h id ls s W n :
  client false [] t h id ls -> Forall (good_step id) es -> registrations t + accepts es + 1 < 2 ^ 32 ->
  sessions (shared t) !! id = Some s -> owes s W n ->
  forall t', thread_run es t = Ret t' ->
  exists s', sessions (shared t') !! id = Some s' /\ owes s' W (n - completions id es).
Proof.
  revert t ls s n. induction es as [|e es IH]; intros t ls s n Ht Hg Hr Hs Ho t' Hrun.
  - injection Hrun as <-. exists s. unfold completions. simpl. by rewrite Nat.sub_0_r.
  - apply list.Forall_cons in Hg as [Hg1 Hg]. destruct (accepts_cons e es) as (He & Hge & Hn).
    cbn [thread_run] in Hrun. apply bind_Ret_inv in Hrun as (t1 & Hst & Hrun).
    destruct (proj2 (client_step e [] t h id ls Ht Hg1 ltac:(lia)) t1 Hst) as [Ht1 Hr1].
    destruct (step_session e t t1 h id ls s Ht Hg1 ltac:(lia) Hst Hs) as (s1 & Hs1 & Hm).
    destruct (IH t1 _ s1 (n - completions id [e])%nat Ht1 Hg ltac:(lia) Hs1) with (t' := t') as (s' & Hs' & Ho'); [|done|].
    { unfold completions. destruct Hm as [Hown|nd l Hown Hc|sev s' Hown Hc Hstep]; rewrite filter_cons, filter_nil.
      - rewrite decide_False by congruence. by rewrite Nat.sub_0_r.
      - rewrite decide_False by congruence. rewrite Nat.sub_0_r. by eapply owes_deliver.
      - rewrite decide_True by done. rewrite Nat.sub_1_r. by eapply owes_complete. }
    exists s'. split; [done|]. replace (n - completions id (e :: es))%nat with
      (n - completions id [e] - completions id es)%nat; [done|].
    unfold completions. rewrite !filter_cons, filter_nil. case_decide; simpl; lia.
Qed.

(** a live session waits for its timer or for the end of a write *)
Lemma client_enabled t h id ls :
  client false [] t h id ls -> exists ev t2, own id ev = true /\ good_step id ev /\ thread_step ev t = Ret t2.
Proof.
  intros (a & L & v & given & (q & z & Es & Hi & Hz & _) & Hsv & _).
  destruct (served_in false a L h id given Hsv Hi) as (s & ks & qs & _ & Hs & _ & Hp & Hsi & _).
  assert (Hio : exists ev a', own_io id ev = true /\ good_event id (AIo ev) /\
    io_handle (held (pc t)) ev (wrap q z a) = wrap q z <$> Ret a').
  { destruct (pending_op s) eqn:Ep; [done| |].
    - destruct (timer_step s given ks qs Hsi Ep) as (s' & E & _). cbn [session_step] in E. rewrite decide_True in E by done.
      exists (EvTimer id 0), (put_session id s' a). split_and!; [apply Nat.eqb_refl|done|].
      rewrite (wrap_timer _ _ _ _ L) by done. f_equal. cbn [io_handle]. by rewrite Hs, decide_True, E by done.
    - destruct (write_step s given ks qs Hsi Ep) as (s' & E & _). cbn [session_step] in E.
      rewrite decide_True in E by done. cbv zeta in E. cbn [negb Z.eqb] in E.
      exists (EvWrite id 0 (length (shr_tx_buff_ s))), (put_session id s' a). split_and!; [apply Nat.eqb_refl|done|].
      rewrite (wrap_written _ _ _ _ L) by done. f_equal. cbn [io_handle]. rewrite Hs, decide_True by done.
      unfold handleWrite. simpl sessions. rewrite lookup_insert_eq. cbn [deref mbind outcome_bind negb Z.eqb].
      rewrite E. cbn [mbind outcome_bind]. by rewrite !put_put. }
  destruct Hio as (ev & a' & Ho & Hg & E). exists (TIo ev). eexists. split_and!; [done|done|].
  cbn [thread_step]. rewrite Es, E. done.
Qed.

(** C6. Progress: whatever the two threads do meanwhile, and whatever else is
    delivered to the session in the meantime, after at most
    [1 + ceil (queued / 8)] of its own timers and writes (its queue holds at most
    2048 lines, so 257 are always enough) a session has sent every line
    that was in its queue or its transmit buffer; and a live session always
    has one of the two pending, so the io thread is never out of work for it. *)
Theorem queued_lines_are_sent (es : list thread_event) (r : rx) (a : agent) (L : list (positive * nat))
    (h : positive) (id : nat) (s : Session) (ls ks qs : list (list byte)) :
  let t := mk_threads a r AtReceive in
  agent_inv a L -> (h, id) ∈ L -> sessions a !! id = Some s -> session_inv s ls ks qs ->
  rx_ok r -> is_u64 (send_count r) -> Forall (good_step id) es -> registrations t + accepts es + 1 < 2 ^ 32 ->
  (1 + (length qs + 7) / 8 <= 257)%nat /\
  forall t', thread_run es t = Ret t' ->
  exists s', sessions (shared t') !! id = Some s' /\
    ((1 + (length qs + 7) / 8 <= completions id es)%nat -> lines_text (ks ++ qs) `prefix_of` socket_ s') /\
    exists ev t2, own id ev = true /\ good_step id ev /\ thread_step ev t' = Ret t2.
Proof.
  intros t Hi Hin Hs Hsi Hr Hc Hg Hreg. split.
  { pose proof (si_cap _ _ _ _ Hsi) as Hcap. unfold spsc_capacity in Hcap.
    pose proof (Nat.div_le_mono (length qs + 7) (2048 + 7) 8 ltac:(lia) ltac:(lia)) as Hdiv.
    change ((2048 + 7) / 8)%nat with 256%nat in Hdiv. lia. }
  intros t' Hrun. destruct (ai_live _ _ Hi h id Hin) as (s0 & Hs0 & Hh & Hp & _).
  rewrite Hs in Hs0. injection Hs0 as <-.
  assert (Hsv : served a h id ls) by (by exists L, s, ks, qs).
  pose proof (client_start a r h id L ls Hi Hsv Hr Hc) as Ht.
  destruct (owes_run es t h id ls s _ _ Ht Hg Hreg Hs (owes_now s ls ks qs Hsi Hp) t' Hrun) as (s' & Hs' & Ho).
  exists s'. split; [done|]. split.
  - intros Hle. destruct Ho as (ls' & ks' & qs' & _ & _ & _ & [?|Hx]); [done|]. lia.
  - destruct (client_run false es [] t h id ls Ht Hg ltac:(done) Hreg) as [_ Hret].
    exact (client_enabled t' h id _ (Hret t' Hrun)).
Qed.

(** ** A run in which a client connects while a frame is dispatched *)

Definition sample_report : report := (1%nat, fun _ => 5, sample_bus).
(** two frames are published before the client connects: one in a turn that is
    over, and one whose dispatch to the client of [sample_agent] has begun but
    has not read the list's counter *)
Definition before_accept : list thread_event :=
  let go := TRx sample_report in
  replicate 10 go ++ [TIo (EvTimer 0 0); go; go; go].
Definition after_accept : list thread_event :=
  let go := TRx sample_report in
  [go; go; go; TIo (EvTimer 1 0); go; go; go; go; TIo (EvWrite 0 0 93)] ++ replicate 11 go.
Lemma sample_steps_good : Forall fits before_accept /\ Forall (good_step 1) after_accept.
Proof.
  split; repeat (apply list.Forall_cons; split;
    [first [exact I|done|split; [unfold kRxBuffSize; lia|done]]|]); apply list.Forall_nil; done.
Qed.
Definition sample_threads : threads := mk_threads sample_agent sample_rx AtReceive.
Definition reached (o : outcome threads) : threads := match o with Ret t => t | _ => sample_threads end.
Lemma sample_runs :
  exists t1 t2 t3, thread_run before_accept sample_threads = Ret t1 /\
    thread_step (TIo (EvAccept 0)) t1 = Ret t2 /\ thread_run after_accept t2 = Ret t3 /\
    session_ (shared t1) = Some 1%nat /\ pc t3 = AtReceive /\
    agent_lines (all_published before_accept sample_threads) = [receive_line 0 5 sample_frame; receive_line 1 5 sample_frame] /\
    agent_lines (all_published after_accept t2) = [receive_line 2 5 sample_frame] /\
    never_full 1 after_accept t2 = true.
Proof.
  set (t1 := reached (thread_run before_accept sample_threads)).
  set (t2 := reached (thread_step (TIo (EvAccept 0)) t1)).
  set (t3 := reached (thread_run after_accept t2)).
  exists t1, t2, t3. by vm_compute.
Qed.
Lemma sample_ok :
  rx_ok sample_rx /\ is_u64 (send_count sample_rx) /\
  registrations sample_threads + accepts before_accept + accepts after_accept + 2 < 2 ^ 32.
Proof. split; [done|]. by vm_compute. Qed.
#[local] Opaque before_accept after_accept sample_agent sample_rx.
Lemma interleaved_threads_serve_witness :
  exists t1 t2 t3 old s more s', thread_run before_accept sample_threads = Ret t1 /\
    thread_step (TIo (EvAccept 0)) t1 = Ret t2 /\ thread_run after_accept t2 = Ret t3 /\
    old `suffix_of` [receive_line 0 5 sample_frame; receive_line 1 5 sample_frame] /\
    sessions (shared t3) !! 1%nat = Some s /\ session_run more s = Ret s' /\
    socket_ s' = lines_text (old ++ [receive_line 2 5 sample_frame]).
Proof.
  destruct sample_steps_good as [Hg1 Hg2].
  destruct sample_ok as (Hk & Hu & Hr).
  destruct (interleaved_threads_serve before_accept after_accept sample_rx sample_agent [(1%positive, 0%nat)]
    sample_agent_inv Hk Hu Hg1 Hr) as [_ H1].
  destruct sample_runs as (t1 & t2 & t3 & E1 & E2 & E3 & Eid & Hpc & Ep1 & Ep2 & Hroom).
  destruct (H1 t1 E1) as (_ & _ & H2). destruct (H2 t2 E2) as (id & Hid & H3).
  rewrite Eid in Hid. injection Hid as <-. destruct (H3 Hg2) as [_ H4].
  destruct (H4 t3 E3) as (old & Hold & _ & _ & _ & H5). rewrite Ep2 in H5. fold sample_threads in Hold. rewrite Ep1 in Hold.
  destruct (H5 Hpc) as (s & more & s' & Hs & _ & _ & Hm & Hso); [by left|].
  exists t1, t2, t3, old, s, more, s'. split_and!; assumption.
Defined.
#[local] Transparent sample_agent sample_rx.

(** the first client of [sample_agent] with a line in its queue, and three of
    its completions in a turn *)
Definition queued_agent : agent :=
  put_session 0 (mk_session [] [sample_node] [] (Some 1%positive) TimerWait) sample_agent.
Lemma queued_session : session_inv (mk_session [] [sample_node] [] (Some 1%positive) TimerWait) [lit "ab"] [] [lit "ab"].
Proof.
  split; try done; simpl.
  - repeat constructor; apply sample_node_carries.
  - unfold spsc_capacity. lia.
Qed.
Lemma queued_agent_inv : agent_inv queued_agent [(1%positive, 0%nat)].
Proof.
  eapply inv_update; [apply sample_agent_inv|by vm_compute|by left|done|done|]. eexists _, _, _. apply queued_session.
Qed.
Definition queued_steps : list thread_event :=
  let go := TRx sample_report in [go; TIo (EvTimer 0 0); go; TIo (EvWrite 0 0 3); go].
Lemma queued_lines_are_sent_witness :
  exists t' s', thread_run queued_steps (mk_threads queued_agent sample_rx AtReceive) = Ret t' /\
    sessions (shared t') !! 0%nat = Some s' /\ lines_text [lit "ab"] `prefix_of` socket_ s'.
Proof.
  destruct (queued_lines_are_sent queued_steps sample_rx queued_agent [(1%positive, 0%nat)] 1 0
    (mk_session [] [sample_node] [] (Some 1%positive) TimerWait) [lit "ab"] [] [lit "ab"]) as [_ Hf];
    [apply queued_agent_inv|by left|by vm_compute|apply queued_session|done|by vm_compute| |by vm_compute|].
  { repeat (apply list.Forall_cons; split;
      [first [done|split; [unfold kRxBuffSize; lia|done]]|]); apply list.Forall_nil; done. }
  destruct (thread_run queued_steps (mk_threads queued_agent sample_rx AtReceive)) as [t'| | |] eqn:E;
    [|by vm_compute in E..].
  destruct (Hf t' eq_refl) as (s' & Hs & Hsent & _). exists t', s'. split_and!; [reflexivity|exact Hs|].
  apply Hsent. apply (bool_decide_unpack _). by vm_compute.
Defined.
