(* ===== verification/AgentTurn.v ===== *)
(** * AgentTurn
    The turn of the receiving loop that [Agent] runs in one piece
    ([rx_iteration], with eventpp's [processIf] and [doForEachIf]) is what the
    single steps of [AgentThreads] do when no handler comes between them. *)

From Stdlib Require Import ZArith Lia.
From Stdlib Require Import Strings.Byte.
From stdpp Require Import base numbers list option gmap fin_maps strings.
From S2P Require Import Prelude UsbCan HexCodec NetClientProps CallbackList CallbackListFacts CallbackDispatch EventQueue EventQueueFacts Agent AgentFacts AgentProps AgentThreads AgentInterleaving.

(** ** Uninterrupted steps *)

Definition reaches (inp : report) (t t' : threads) : Prop :=
  exists k, thread_run (repeat (TRx inp) k) t = Ret t'.

Lemma reaches_refl inp t : reaches inp t t.
Proof. by exists 0%nat. Qed.
Lemma reaches_step inp t t1 t2 : rx_step inp t = Ret t1 -> reaches inp t1 t2 -> reaches inp t t2.
Proof. intros E [k Hk]. exists (S k). cbn [repeat thread_run thread_step]. by rewrite E. Qed.
Lemma thread_run_app es1 es2 t :
  thread_run (es1 ++ es2) t = (t1 ← thread_run es1 t; thread_run es2 t1).
Proof.
  revert t. induction es1 as [|e es1 IH]; intros t; [done|]. cbn [app thread_run].
  destruct (thread_step e t); [apply IH|done..].
Qed.
Lemma reaches_trans inp t1 t2 t3 : reaches inp t1 t2 -> reaches inp t2 t3 -> reaches inp t1 t3.
Proof.
  intros [k1 H1] [k2 H2]. exists (k1 + k2)%nat. by rewrite repeat_app, thread_run_app, H1.
Qed.

Lemma set_ppq_id a : set_ppq (ppq a) a = a.
Proof. by destruct a. Qed.
Lemma set_sessions_id a : set_sessions (sessions a) a = a.
Proof. by destruct a. Qed.

(** the loop over the frames *)
Lemma frames_reach inp m n i now buf r a r1 q1 :
  rx_frames m i now buf r (ppq a) = Ret (r1, q1) -> (i + m = n)%nat ->
  reaches inp (mk_threads a r (InFrames n i now buf)) (mk_threads (set_ppq q1 a) r1 (InFrames n n now buf)).
Proof.
  revert i r a. induction m as [|m IH]; intros i r a E Hn; cbn [rx_frames] in E.
  - injection E as <- <-. rewrite set_ppq_id. replace i with n by lia. apply reaches_refl.
  - apply bind_Ret_inv in E as (o & E1 & E). apply bind_Ret_inv in E as ([r2 q2] & E2 & E).
    eapply reaches_step.
    + cbn [rx_step pc shared locals]. rewrite (proj2 (Nat.ltb_lt i n)) by lia. rewrite E1. cbn [mbind outcome_bind].
      rewrite E2. cbn [mbind outcome_bind]. reflexivity.
    + apply (IH (S i) r2 (set_ppq q2 a)); [done|lia].
Qed.

(** ** A dispatch *)

Lemma calls_inv a L node line k :
  agent_inv a L -> k ∈ L.*2 -> carries node line ->
  agent_inv (set_sessions (call_listener k node (sessions a)) a) L.
Proof.
  intros Hi Hk Hcar. apply list_elem_of_fmap in Hk as ((h & c) & -> & Hin). simpl.
  destruct (ai_live _ _ Hi h c Hin) as (s & Hs & Hh & Hp & ls & ks & qs & Hsi).
  assert (Hsv : served_as false a h c ls) by (by exists L, s, ks, qs).
  destruct (served_deliver false a L h c ls node line h c s Hsv Hi Hin Hs Hcar) as [Hi' _]; [done|].
  pose proof (wrap_call (ppq a) ∅ a c node s Hs) as E. rewrite wrap_id in E. rewrite E.
  set (a' := put_session c (consumeCanObjHandler node s) a) in *.
  by rewrite <- (wrap_id a') in Hi'.
Qed.

Lemma call_reach inp n it todo kept idle r node line a L La Lb inv :
  agent_inv a L -> L = La ++ Lb -> carries node line ->
  let cc := Some (currentCounter (canobj_list a)) in
  reaches inp
    (mk_threads a r (InCall n it todo kept idle (frame_event node) (mk_disp (hd_error Lb.*1) cc false inv)))
    (mk_threads (set_sessions (fold_left (fun ss cb => call_listener cb node ss) Lb.*2 (sessions a)) a) r
       (InCall n it todo kept idle (frame_event node) (mk_disp None cc false (inv ++ Lb.*1)))).
Proof.
  revert a La inv. induction Lb as [|[h k] Lb IH]; intros a La inv Hi HL Hcar cc.
  { simpl. rewrite set_sessions_id, app_nil_r. apply reaches_refl. }
  pose proof (quiet_refines _ _ (ai_quiet _ _ Hi)) as [Hr Hcb].
  assert (Hin : h ∈ L.*1) by (rewrite HL, fmap_app; set_solver).
  assert (Hk : k ∈ L.*2) by (rewrite HL, fmap_app; set_solver).
  pose proof Hr as Hr0. rewrite HL, fmap_app, fmap_cons in Hr0. cbn [fst] in Hr0.
  pose proof (rep_middle _ _ _ _ Hr0) as (_ & _ & _ & _ & _ & _ & _ & nd & Hnd & _ & Hnx).
  assert (Hcall : callback nd = k).
  { pose proof (listed_callback a L h nd Hi Hin Hnd) as Hx.
    pose proof (rep_nodup _ _ Hr) as Hn. apply list_elem_of_lookup in Hx as (x & Hx).
    assert (Hy : L !! length La = Some (h, k)) by (rewrite HL, lookup_app_r, Nat.sub_diag by lia; done).
    assert (x = length La) as ->; [|congruence].
    eapply NoDup_lookup; [exact Hn| |]; rewrite list_lookup_fmap, ?Hx, ?Hy; done. }
  assert (Hel : eligible (currentCounter (canobj_list a)) nd = true).
  { pose proof Hr as [_ _ _ _ Hct _]. unfold counted in Hct. rewrite Forall_forall in Hct.
    destruct (Hct h Hin) as (nd' & Hnd' & Hge). rewrite Hnd in Hnd'. injection Hnd' as <-.
    unfold eligible, removedCounter. rewrite (proj2 (Z.eqb_neq _ _)), (proj2 (Z.leb_le _ _)) by lia. done. }
  pose proof (calls_inv a L node line k Hi Hk Hcar) as Hi'.
  set (a1 := set_sessions (call_listener k node (sessions a)) a) in *.
  eapply reaches_step; [|eapply reaches_step].
  - cbn [rx_step pc shared locals call_over cursor snap hd_error fmap list_fmap fst]. unfold cc, call_step.
    cbn [cursor snap visited invoked hd_error].
    change (list_at (fst (frame_event node)) (listeners (ppq a))) with (canobj_list a).
    rewrite Hnd. cbn [deref mbind outcome_bind]. rewrite Hel, Hcall. reflexivity.
  - change (snd (frame_event node)) with node. fold a1.
    cbn [rx_step pc shared locals call_over cursor snap]. unfold call_step. cbn [cursor snap visited invoked].
    change (list_at (fst (frame_event node)) (listeners (ppq a1))) with (canobj_list a).
    rewrite Hnd. cbn [deref mbind outcome_bind cursor]. reflexivity.
  - change (snd (frame_event node)) with node. fold a1. rewrite (collect_live _ a1 L Hi').
    rewrite Hnx, first_or_None. specialize (IH a1 (La ++ [(h, k)]) (inv ++ [h])).
    rewrite <- app_assoc in IH. specialize (IH Hi' HL Hcar).
    cbn [fmap list_fmap fst snd fold_left]. replace (inv ++ h :: Lb.*1) with ((inv ++ [h]) ++ Lb.*1) by (by rewrite <- app_assoc).
    exact IH.
Qed.

(** ** The queue *)

Lemma call_all_inv a L node line ids :
  agent_inv a L -> (forall k, k ∈ ids -> k ∈ L.*2) -> carries node line ->
  agent_inv (set_sessions (fold_left (fun ss cb => call_listener cb node ss) ids (sessions a)) a) L.
Proof.
  revert a. induction ids as [|k ids IH]; intros a Hi Hin Hcar; [cbn [fold_left]; by rewrite set_sessions_id|].
  cbn [fold_left]. apply (IH (set_sessions (call_listener k node (sessions a)) a)); [|set_solver|done].
  eapply calls_inv; [done|by apply Hin; left|done].
Qed.

(** an event of the queue is dispatched and its buffer cleared *)
Lemma item_reach inp n todo idle r node line a L :
  agent_inv a L -> (0 < n)%nat -> carries node line ->
  reaches inp (mk_threads a r (InQueue n (Some (frame_event node) :: todo) [] idle))
    (mk_threads (set_sessions (directDispatch call_listener kPpqCanObjEvtId node (listeners (ppq a)) (sessions a)) a) r
       (InQueue n todo [] (idle ++ [None]))).
Proof.
  intros Hi Hn Hcar. pose proof (quiet_refines _ _ (ai_quiet _ _ Hi)) as Href.
  rewrite (directDispatch_at _ _ L) by exact Href. pose proof Href as [[_ _ Hhd _ _ _] _].
  destruct (listeners (ppq a) !! kPpqCanObjEvtId) as [l|] eqn:El.
  2: { unfold canobj_list, list_at in Hhd. rewrite El in Hhd. destruct L; [|done]. simpl. rewrite set_sessions_id.
       eapply reaches_step; [|apply reaches_refl].
       cbn [rx_step pc shared locals item_get deref mbind outcome_bind]. rewrite (proj2 (Nat.ltb_lt 0 n) Hn).
       unfold doFindCallableList. change (fst (frame_event node)) with kPpqCanObjEvtId. by rewrite El. }
  assert (Hl : canobj_list a = l) by (unfold canobj_list, list_at; by rewrite El).
  eapply reaches_step; [|eapply reaches_step].
  - cbn [rx_step pc shared locals item_get deref mbind outcome_bind]. rewrite (proj2 (Nat.ltb_lt 0 n) Hn).
    unfold doFindCallableList. change (fst (frame_event node)) with kPpqCanObjEvtId.
    rewrite El, <- Hl. reflexivity.
  - instantiate (1 := mk_threads a r (InCall n (Some (frame_event node)) todo [] idle (frame_event node)
      (mk_disp (hd_error L.*1) (Some (currentCounter (canobj_list a))) false []))).
    unfold start. rewrite Hhd. by destruct L as [|[h0 k0] L0].
  - eapply reaches_trans.
    + apply (call_reach inp n (Some (frame_event node)) todo [] idle r node line a L [] L [] Hi eq_refl Hcar).
    + eapply reaches_step; [|apply reaches_refl]. done.
Qed.

Lemma dispatch_inv a L ns :
  agent_inv a L -> (exists ls, Forall2 carries ns ls) ->
  agent_inv (set_sessions (dispatches call_listener (listeners (ppq a)) (frame_event <$> ns) (sessions a)) a) L.
Proof.
  intros Hi [ls Hns]. rewrite <- (set_ppq_id a) at 3. apply (rx_inv a L _ _ ns ls); [done|apply Hi|done|].
  intros id. apply dispatch_frames; [apply Hi|apply Hi].
Qed.
Lemma queue_reach inp n idle r ns a L :
  agent_inv a L -> (0 < n)%nat -> (exists ls, Forall2 carries ns ls) ->
  reaches inp (mk_threads a r (InQueue n (Some <$> (frame_event <$> ns)) [] idle))
    (mk_threads (set_sessions (dispatches call_listener (listeners (ppq a)) (frame_event <$> ns) (sessions a)) a) r
       (InQueue n [] [] (idle ++ repeat None (length ns)))).
Proof.
  revert a idle. induction ns as [|node ns IH]; intros a idle Hi Hn [ls Hns].
  - simpl. rewrite app_nil_r. unfold dispatches. simpl. rewrite set_sessions_id. apply reaches_refl.
  - inversion Hns as [|? line ? ls' Hcar Hns']; subst. rewrite !fmap_cons.
    eapply reaches_trans; [by eapply item_reach|].
    pose proof (dispatch_inv a L [node] Hi ltac:(exists [line]; by apply Forall2_cons)) as Hi'.
    unfold dispatches in Hi' |- *. cbn [fmap list_fmap fold_left length repeat] in *.
    replace (idle ++ None :: repeat None (length ns)) with ((idle ++ [None]) ++ repeat (@None (@QueuedEvent Z CanobjQueueNodeT)) (length ns))
      by (by rewrite <- app_assoc).
    apply (IH _ (idle ++ [None]) Hi' Hn). by exists ls'.
Qed.

(** [processIf] as [Agent] runs it, when the predicate accepts everything *)
Lemma processIf_all (ns : list CanobjQueueNodeT) (q : eventpp_queue_t) (ss : gmap nat Session) :
  processIf_loop call_listener (fun _ => true) (Some <$> (frame_event <$> ns)) [] q ss
    = Ret ([], repeat None (length ns), q, dispatches call_listener (listeners q) (frame_event <$> ns) ss).
Proof.
  revert ss. induction ns as [|node ns IH]; intros ss; [done|].
  rewrite !fmap_cons. cbn [processIf_loop item_get deref mbind outcome_bind item_clear hd_error default enqueues tl].
  unfold default, from_option. cbn [enqueues id]. cbn [mbind outcome_bind]. rewrite IH. done.
Qed.

(** C35. A turn in steps: for every report that fits the receive array, the
    turn [rx_iteration] succeeds, and the single steps of the loop, when no
    handler comes between them, return to [VCI_Receive] after finitely many of
    them, in exactly the state the turn computes: the queue with its buffers, the
    sessions and the loop's locals. *)
Theorem uninterrupted_steps_are_a_turn (n : nat) (now : nat -> Z) (buf : list byte) (r : rx) (a : agent)
    (L : list (positive * nat)) :
  agent_inv a L -> rx_ok r -> good_report (n, now, buf) ->
  exists k r' a', rx_iteration n now buf r a = Ret (r', a') /\
    thread_run (repeat (TRx (n, now, buf)) k) (mk_threads a r AtReceive) = Ret (mk_threads a' r' AtReceive).
Proof.
  intros Hi Hr Hg. pose proof Hg as [Hn Hb]. pose proof (ai_quiet _ _ Hi) as [Hq _].
  destruct (rx_frames_spec n 0 now buf r (ppq a) [] Hr) as (r' & q1 & ns & Ef & _ & Hns & Hq1 & Hs1 & _);
    [rewrite Hb; unfold sizeof_CAN_OBJ; lia|done|].
  cbn [app] in Hq1. pose proof (Forall2_length _ _ _ Hns) as Hlen.
  assert (Hlist : length (rx_list n 0 now buf (send_count r)) = n).
  { clear. generalize 0%nat, (send_count r). induction n as [|n IH]; intros i c; [done|]. simpl. by rewrite IH. }
  unfold agent_lines in Hlen. rewrite length_fmap, Hlist in Hlen.
  unfold rx_iteration. rewrite Ef. cbn [mbind outcome_bind].
  assert (Hstart : reaches (n, now, buf) (mk_threads a r AtReceive)
    (mk_threads (set_ppq q1 a) r' (InFrames n n now buf))).
  { eapply reaches_step; [reflexivity|]. by apply (frames_reach _ n). }
  unfold processIf. rewrite (nonempty_queue q1 _ Hq1). destruct (decide (ns = [])) as [->|Hne].
  - cbn [bool_decide fmap list_fmap]. rewrite bool_decide_eq_true_2 by done. cbn [mbind outcome_bind].
    assert (Hend : reaches (n, now, buf) (mk_threads a r AtReceive) (mk_threads (set_ppq q1 a) r' AtReceive)).
    { eapply reaches_trans; [exact Hstart|]. eapply reaches_step; [|apply reaches_refl].
      cbn [rx_step pc shared locals]. rewrite Nat.ltb_irrefl. cbn [ppq set_ppq].
      by rewrite (nonempty_queue q1 _ Hq1). }
    destruct Hend as [k Hk]. exists k, r', (set_ppq q1 a). by rewrite <- (set_sessions_id (set_ppq q1 a)) at 1.
  - assert (Hbd : bool_decide (frame_event <$> ns = []) = false) by (apply bool_decide_eq_false; by destruct ns).
    rewrite Hbd. assert (Hpos : (0 < n)%nat) by (destruct ns; simpl in Hlen; [done|lia]).
    rewrite (proj2 (Nat.ltb_lt 0 n) Hpos). rewrite (proj1 Hq1), processIf_all. cbn [mbind outcome_bind].
    set (a1 := set_ppq (set_queue [] (add_empty 1 q1)) a).
    assert (Hi1 : agent_inv a1 L).
    { destruct Hi as [[_ Hl] Hnd Hli Hk Hd Hf]. split; try done. split; [by apply (holds_start _ _ Hq1)|].
      destruct Hs1 as (E & _). change (listeners (ppq a1)) with (listeners q1). by rewrite E. }
    assert (Hend : reaches (n, now, buf) (mk_threads a r AtReceive)
      (mk_threads (set_sessions (dispatches call_listener (listeners q1) (frame_event <$> ns) (sessions a)) a1) r'
         (InQueue n [] [] (repeat None (length ns))))).
    { eapply reaches_trans; [exact Hstart|]. eapply reaches_step; [|].
      - cbn [rx_step pc shared locals]. rewrite Nat.ltb_irrefl. cbn [ppq set_ppq].
        rewrite (nonempty_queue q1 _ Hq1), Hbd, (proj1 Hq1). reflexivity.
      - apply (queue_reach _ n [] r' ns a1 L Hi1 Hpos). by eexists. }
    assert (Hall : reaches (n, now, buf) (mk_threads a r AtReceive) _)
      by (eapply reaches_trans; [exact Hend|eapply reaches_step; [reflexivity|apply reaches_refl]]).
    destruct Hall as [k Hk]. eexists k, r', _. split; [reflexivity|exact Hk].
Qed.
Lemma uninterrupted_steps_are_a_turn_witness :
  exists k r' a', rx_iteration 1 (fun _ => 5) sample_bus sample_rx sample_agent = Ret (r', a') /\
    thread_run (repeat (TRx sample_report) k) (mk_threads sample_agent sample_rx AtReceive)
      = Ret (mk_threads a' r' AtReceive).
Proof.
  apply (uninterrupted_steps_are_a_turn 1 (fun _ => 5) sample_bus sample_rx sample_agent [(1%positive, 0%nat)]).
  - apply sample_agent_inv.
  - done.
  - split; [unfold kRxBuffSize; lia|done].
Defined.

(** ** The end of a turn *)

(** From any point of an interleaving the loop comes back to [VCI_Receive] when
    no handler interrupts it. *)
Section turn_ends.
Variable inp : report.
Hypothesis Hinp : good_report inp.

(** the loop gets from [t] to [p], with the same clients *)
Definition gets_to (t : threads) (L : list (positive * nat)) (p : rx_pc -> Prop) : Prop :=
  exists t' a' v', reaches inp t t' /\ tinv t' a' L v' /\ p (pc t').

Lemma gets_here t a L v (p : rx_pc -> Prop) : tinv t a L v -> p (pc t) -> gets_to t L p.
Proof. intros Ht Hp. exists t, a, v. split; [apply reaches_refl|done]. Qed.
Lemma gets_step t a L v p :
  tinv t a L v ->
  (forall t1 a1 v1, rx_step inp t = Ret t1 -> tinv t1 a1 L v1 -> gets_to t1 L p) -> gets_to t L p.
Proof.
  intros Ht Hk. destruct (tinv_rx inp t a L v Ht Hinp) as (t1 & E & a1 & v1 & got & Ht1 & _).
  destruct (Hk t1 a1 v1 E Ht1) as (t' & a' & v' & Hr & Ht' & Hp).
  exists t', a', v'. split; [by eapply reaches_step|done].
Qed.
Lemma gets_trans t L (p p' : rx_pc -> Prop) :
  gets_to t L p -> (forall t1 a1 v1, tinv t1 a1 L v1 -> p (pc t1) -> gets_to t1 L p') -> gets_to t L p'.
Proof.
  intros (t1 & a1 & v1 & Hr & Ht1 & Hp) Hk. destruct (Hk t1 a1 v1 Ht1 Hp) as (t' & a' & v' & Hr' & Ht' & Hp').
  exists t', a', v'. split; [by eapply reaches_trans|done].
Qed.

Lemma tinv_list t a L v : tinv t a L v -> canobj_list (shared t) = canobj_list a.
Proof. intros (q & z & -> & _). done. Qed.

(** a dispatch that has taken its snapshot *)
Lemma dispatch_ends k t a L v n it todo kept idle ev d s :
  tinv t a L v -> pc t = InCall n it todo kept idle ev d -> snap d = Some s ->
  chain k (canobj_list a) (cursor d) -> gets_to t L (fun p => exists idle', p = InQueue n todo kept idle').
Proof.
  revert t a v d. induction k as [|k IH]; intros t a v d Ht Ep Es Hc;
    (destruct (cursor d) as [c|] eqn:Ec;
     [|eapply gets_step; [exact Ht|]; intros t1 a1 v1 E1 Ht1; eapply gets_here; [exact Ht1|];
       unfold rx_step in E1; rewrite Ep in E1; unfold call_over in E1; rewrite Ec, Es in E1;
       apply bind_Ret_inv in E1 as (it' & _ & [= <-]); by eexists]); [done|].
  destruct Hc as (nd & Hnd & Hc). pose proof (tinv_list t a L v Ht) as El.
  assert (Hov : call_over d = false) by (unfold call_over; by rewrite Ec).
  assert (Hnext : forall t a v d, tinv t a L v -> pc t = InCall n it todo kept idle ev d -> snap d = Some s ->
    cursor d = Some c -> visited d = true -> heap (canobj_list a) !! c = Some nd -> chain k (canobj_list a) (next nd) ->
    gets_to t L (fun p => exists idle', p = InQueue n todo kept idle')).
  { clear - IH Hinp. intros t a v d Ht Ep Es Ec Ev Hnd Hc. eapply gets_step; [exact Ht|]. intros t1 a1 v1 E1 Ht1.
    pose proof Ht as (q & z & Esh & Hi & Hz & _ & _ & _ & Hpc). rewrite Ep in Hpc.
    destruct Hpc as (node & line & rest & L0 & E & T & rank & _ & -> & _).
    assert (Hov : call_over d = false) by (unfold call_over; by rewrite Ec).
    unfold rx_step in E1. rewrite Ep, Hov in E1. unfold call_step in E1. rewrite Ec, Es, Esh, Ev in E1.
    change (list_at (fst (frame_event node)) (listeners (ppq (wrap q z a)))) with (canobj_list a) in E1.
    rewrite Hnd in E1. cbn [deref mbind outcome_bind cursor] in E1. injection E1 as <-.
    destruct (collect_wrap (option_list (next nd)) q z a L Hi Hz) as (z' & Ew & _). rewrite Ew in Ht1.
    eapply (IH _ a1 v1 (mk_disp (next nd) (Some s) false (invoked d))); [rewrite Ew; exact Ht1|done|done|].
    rewrite <- (tinv_list _ _ _ _ Ht1). done. }
  destruct (visited d) eqn:Ev; [by eapply (Hnext t a v d)|].
  eapply gets_step; [exact Ht|]. intros t1 a1 v1 E1 Ht1.
  pose proof Ht as (q & z & Esh & Hi & Hz & _ & _ & _ & Hpc). rewrite Ep in Hpc.
  destruct Hpc as (node & line & rest & L0 & E & T & rank & _ & -> & _).
  unfold rx_step in E1. rewrite Ep, Hov in E1. unfold call_step in E1. rewrite Ec, Es, Esh, Ev in E1.
  change (list_at (fst (frame_event node)) (listeners (ppq (wrap q z a)))) with (canobj_list a) in E1.
  rewrite Hnd in E1. cbn [deref mbind outcome_bind] in E1. injection E1 as <-.
  assert (Ela : canobj_list a1 = canobj_list a).
  { rewrite <- (tinv_list _ _ _ _ Ht1). cbn [shared]. by destruct (eligible s nd). }
  eapply (Hnext _ a1 v1); [exact Ht1|reflexivity|done|done|done|by rewrite Ela|by rewrite Ela].
Qed.

Lemma call_ends t a L v n it todo kept idle ev d :
  tinv t a L v -> pc t = InCall n it todo kept idle ev d ->
  gets_to t L (fun p => exists idle', p = InQueue n todo kept idle').
Proof.
  intros Ht Ep.
  assert (Hgo : forall t a v d s, tinv t a L v -> pc t = InCall n it todo kept idle ev d -> snap d = Some s ->
    gets_to t L (fun p => exists idle', p = InQueue n todo kept idle')).
  { clear - Hinp. intros t a v d s Ht Ep Es. pose proof Ht as (q & z & _ & _ & _ & _ & _ & _ & Hpc). rewrite Ep in Hpc.
    destruct Hpc as (node & line & rest & L0 & E & T & rank & _ & _ & _ & _ & _ & Hd & _).
    destruct (dinv_chain _ _ _ _ _ _ _ Hd) as [k Hk]. by eapply dispatch_ends. }
  destruct (snap d) as [s|] eqn:Es; [by eapply Hgo|].
  eapply gets_step; [exact Ht|]. intros t1 a1 v1 E1 Ht1.
  assert (Hov : call_over d = false) by (unfold call_over; rewrite Es; by destruct (cursor d)).
  unfold rx_step in E1. rewrite Ep, Hov in E1. unfold call_step in E1. rewrite Es in E1.
  assert (Et : t1 = mk_threads (shared t) (locals t) (InCall n it todo kept idle ev
    (mk_disp (cursor d) (Some (currentCounter (list_at (fst ev) (listeners (ppq (shared t)))))) (visited d) (invoked d)))).
  { destruct (cursor d); by injection E1. }
  subst t1. by eapply Hgo.
Qed.

Lemma queue_ends todo t a L v n kept idle :
  tinv t a L v -> pc t = InQueue n todo kept idle -> gets_to t L (eq AtReceive).
Proof.
  revert t a v kept idle. induction todo as [|it todo IH]; intros t a v kept idle Ht Ep;
    (eapply gets_step; [exact Ht|]; intros t1 a1 v1 E1 Ht1; unfold rx_step in E1; rewrite Ep in E1).
  - injection E1 as <-. by eapply gets_here.
  - apply bind_Ret_inv in E1 as (ev & _ & E1). destruct (0 <? n)%nat; [|injection E1 as <-; by eapply IH].
    destruct (doFindCallableList _ _).
    + injection E1 as <-. eapply gets_trans; [by eapply call_ends|]. intros t2 a2 v2 Ht2 [idle' Ep2]. by eapply IH.
    + apply bind_Ret_inv in E1 as (it' & _ & [= <-]). by eapply IH.
Qed.

Lemma frames_end m t a L v n i now buf :
  tinv t a L v -> pc t = InFrames n i now buf -> (n - i <= m)%nat -> gets_to t L (eq AtReceive).
Proof.
  revert t a v i. induction m as [|m IH]; intros t a v i Ht Ep Hm;
    (eapply gets_step; [exact Ht|]; intros t1 a1 v1 E1 Ht1; unfold rx_step in E1; rewrite Ep in E1;
     destruct (Nat.ltb_spec i n) as [Hlt|Hge];
     [|destruct (bool_decide _); injection E1 as <-; [by eapply gets_here|by eapply queue_ends]]); [lia|].
  apply bind_Ret_inv in E1 as (o & _ & E1). apply bind_Ret_inv in E1 as ([r1 q1] & _ & [= <-]).
  eapply IH; [exact Ht1|reflexivity|lia].
Qed.

Lemma turn_ends t a L v : tinv t a L v -> gets_to t L (eq AtReceive).
Proof.
  intros Ht. destruct (pc t) as [|n i now buf|n todo kept idle|n it todo kept idle ev d] eqn:Ep.
  - by eapply gets_here.
  - by eapply (frames_end (n - i)).
  - by eapply queue_ends.
  - eapply gets_trans; [by eapply call_ends|]. intros t2 a2 v2 Ht2 [idle' Ep2]. by eapply queue_ends.
Qed.
End turn_ends.
