(* ===== verification/AgentProcess.v ===== *)
(** * AgentProcess
    The agent from its start, thread by thread: the process of
    [can_agent/main.cc] whose receiving loop calls the back end it opened, one
    step at a time, interleaved with the handlers of the io thread; and, at the
    other end of a connection, a program that polls [VCI_Receive]. Together:
    what a back end reports is what a client receives. *)

From Stdlib Require Import ZArith Lia.
From Stdlib Require Import Strings.Byte.
From stdpp Require Import base numbers list option gmap fin_maps strings.
From S2P Require Import Prelude UsbCan HexCodec AsioRun Ini NetClient NetClientFacts NetClientProps CanImp DirectCan DirectFacts Facade FacadeFacts CallbackList EventQueue EventQueueFacts Agent AgentFacts AgentProps AgentMain AgentThreads AgentInterleaving AgentTurn.

(** ** A program that polls *)

(** the frames in the first [n] slots of an array *)
Definition slot_frames (n : nat) (objs : list byte) : list VCI_CAN_OBJ :=
  (fun i => dec_CAN_OBJ (slice objs (i * sizeof_CAN_OBJ) sizeof_CAN_OBJ)) <$> seq 0 n.

(** a call of [VCI_Receive]: what happens on the socket meanwhile, the array and
    the number of its slots *)
Definition poll : Type := list (event (list byte)) * list byte * nat.
Definition poll_ok (c : poll) : Prop :=
  let '(_, objs, len) := c in (0 < len)%nat /\ length objs = (len * sizeof_CAN_OBJ)%nat.
(** the bytes that arrive during the calls *)
Definition arrived (calls : list poll) : list byte := calls ≫= fun c => received c.1.1.

Section polling.
Context `{Platform}.
Variables (deviceType deviceInd canInd waitTime : Z).

Fixpoint polls (calls : list poll) (st : net) : outcome (list VCI_CAN_OBJ * net) :=
  match calls with
  | [] => Ret ([], st)
  | (sched, objs, len) :: calls =>
      '(n, pReceive, st1) ← VCI_Receive sched deviceType deviceInd canInd (Some objs) len waitTime st;
      objs' ← deref "pReceive" pReceive;
      '(more, st2) ← polls calls st1;
      Ret (slot_frames n objs' ++ more, st2)
  end.

Lemma polls_disconnected calls st : connected st = false -> polls calls st = Ret ([], st).
Proof.
  intros Hc. induction calls as [|[[sched objs] len] calls IH]; [done|]. cbn [polls].
  unfold VCI_Receive. rewrite Hc. cbn [mbind outcome_bind deref]. by rewrite IH.
Qed.

Lemma slot_frames_spec n objs (fs : list (Z * Z * VCI_CAN_OBJ)) :
  (n <= length fs)%nat ->
  (forall i f, (i < n)%nat -> fs !! i = Some f -> dec_CAN_OBJ (slice objs (i * sizeof_CAN_OBJ) sizeof_CAN_OBJ) = f.2) ->
  slot_frames n objs = (take n fs).*2.
Proof.
  intros Hn Hf. apply list_eq. intros i. unfold slot_frames. rewrite !list_lookup_fmap.
  destruct (decide (i < n)%nat) as [Hi|Hi].
  - rewrite lookup_seq_lt, lookup_take_lt by done. destruct (lookup_lt_is_Some_2 fs i ltac:(lia)) as [f E].
    rewrite E. simpl. f_equal. by apply Hf.
  - rewrite lookup_seq_ge, lookup_take_ge by lia. done.
Qed.

(** what has arrived of a text: whole lines and a rest *)
Lemma lines_arrived ls x :
  lf_free ls -> x `prefix_of` lines_text ls ->
  exists m y, x = lines_text (take m ls) ++ y /\ LF ∉ y /\ (m <= length ls)%nat.
Proof.
  revert x. induction ls as [|l ls IH]; intros x Hls Hx.
  - apply prefix_nil_inv in Hx as ->. exists 0%nat, []. split_and!; [done|apply not_elem_of_nil|done].
  - apply list.Forall_cons in Hls as [Hl Hls]. rewrite lines_text_cons in Hx. destruct Hx as [z Hz].
    destruct (app_eq_inv l (LF :: lines_text ls) x z Hz) as [(k & -> & E)|(k & -> & E)].
    + exists 0%nat, x. split_and!; [done|set_solver|lia].
    + destruct k as [|c x']; simplify_eq/=.
      { exists 0%nat, l. rewrite app_nil_r. split_and!; [done|done|lia]. }
      destruct (IH x' Hls) as (m & y & -> & Hy & Hm); [by exists z|].
      exists (S m), y. split_and!; [|done|simpl; lia]. cbn [take]. rewrite lines_text_cons, <- !app_assoc. done.
Qed.

(** the frames a program gets are the first of those sent to it, in order and
    unchanged, however their bytes arrive *)
Lemma polls_frames calls st (fs : list (Z * Z * VCI_CAN_OBJ)) :
  Forall (fun f => wf_CAN_OBJ f.2) fs -> Forall poll_ok calls -> connected st = true ->
  rx_buff st ++ arrived calls `prefix_of` lines_text (agent_lines fs) ->
  is_UB (polls calls st) = false /\
  forall got st', polls calls st = Ret (got, st') ->
    exists k, got = take k fs.*2 /\
      (connected st' = true -> rx_buff st ++ arrived calls = lines_text (agent_lines (take k fs)) ++ rx_buff st').
Proof.
  revert st fs. induction calls as [|[[sched objs] len] calls IH]; intros st fs Hwf Hok Hc Hpre.
  - split; [done|]. intros got st' [= <- <-]. exists 0%nat. split; [done|]. intros _. apply app_nil_r.
  - apply list.Forall_cons in Hok as [[Hlen Hobjs] Hok]. cbn [arrived mbind list_bind fst] in Hpre.
    fold (arrived calls) in Hpre. rewrite app_assoc in Hpre.
    destruct (agent_lines_ok fs Hwf) as [Hlf _].
    destruct (lines_arrived (agent_lines fs) (rx_buff st ++ received sched) Hlf) as (m & y & Ex & Hy & Hm).
    { etrans; [|exact Hpre]. by apply prefix_app_r. }
    assert (Em : take m (agent_lines fs) = agent_lines (take m fs)) by (unfold agent_lines; by rewrite fmap_take).
    rewrite Em in Ex. assert (Hlm : length (take m fs) = m).
    { unfold agent_lines in Hm. rewrite length_fmap in Hm. rewrite length_take. lia. }
    destruct (receive_frames sched deviceType deviceInd canInd objs len waitTime st (take m fs) y) as [Hu Hret];
      [done|done|done|by apply Forall_take|done|done|].
    cbn [polls]. destruct (VCI_Receive _ _ _ _ _ _ _ _) as [[[n pr] st1]| | |]; try done.
    destruct (Hret n pr st1 eq_refl) as (objs' & -> & Hn & Hnm & Hf & Hrx & _).
    rewrite Hlm in Hnm. cbn [mbind outcome_bind deref].
    assert (Eg : slot_frames n objs' = take n fs.*2).
    { rewrite (slot_frames_spec n objs' (take m fs)), take_take, Nat.min_l, fmap_take by (done || lia). done. }
    destruct (connected st1) eqn:Ec1.
    + assert (Ek : lines_text (agent_lines (take m fs)) = lines_text (agent_lines (take n fs)) ++ lines_text (agent_lines (drop n (take m fs)))).
      { rewrite <- lines_text_app. unfold agent_lines. rewrite <- fmap_app. do 2 f_equal.
        rewrite <- (take_drop n (take m fs)) at 1. by rewrite take_take, Nat.min_l by lia. }
      assert (Et : lines_text (agent_lines fs) = lines_text (agent_lines (take n fs)) ++ lines_text (agent_lines (drop n fs))).
      { rewrite <- lines_text_app. unfold agent_lines. by rewrite <- fmap_app, take_drop. }
      assert (Es : rx_buff st ++ received sched = lines_text (agent_lines (take n fs)) ++ rx_buff st1).
      { by rewrite Ex, Hrx, Ek, <- app_assoc. }
      rewrite Es, Et, <- app_assoc in Hpre. apply prefix_app_inv in Hpre.
      destruct (IH st1 (drop n fs) (Forall_drop _ _ _ Hwf) Hok Ec1 Hpre) as [Hu1 Hret1].
      split; [by destruct (polls calls st1) as [[]| | |]|]. intros got st' Hg.
      apply bind_Ret_inv in Hg as ([more st2] & Eg2 & [= <- <-]).
      destruct (Hret1 more st2 Eg2) as (k & -> & Hk). exists (n + k)%nat. split.
      * rewrite Eg, fmap_drop. by rewrite take_take_drop.
      * intros Hc2. cbn [arrived mbind list_bind fst]. fold (arrived calls). rewrite app_assoc, Es, <- app_assoc, (Hk Hc2), app_assoc.
        f_equal. rewrite <- lines_text_app. unfold agent_lines. by rewrite <- fmap_app, take_take_drop.
    + rewrite (polls_disconnected calls st1 Ec1). cbn [mbind outcome_bind]. split; [done|].
      intros got st' [= <- <-]. exists n. split; [by rewrite app_nil_r|congruence].
Qed.
End polling.

(** ** The process *)

Inductive process_event : Type :=
| PRx (now : nat -> Z)   (* the receiving thread takes a step *)
| PIo (ev : io_event).   (* the io thread runs a handler *)

Section process.
Context {V : Type} `{Host V}.

(** both threads, the array [can_rx_buff], the facade and the world behind it *)
Record process := mk_process {
  thr : threads;
  can_rx_buff : list byte;
  back : CanAbstract V;
  wld : world V;
}.

(** [main] up to the loops: the device is opened, then the server started *)
Definition process_start (send_buff buf : list byte) (cc : CanAbstract V) (w : world V) : outcome process :=
  '(cc1, w1) ← canRx_open cc w;
  a ← startAccepting [] (server_init agent_init);
  Ret (mk_process (mk_threads a (loop_start send_buff) AtReceive) buf cc1 w1).

(** what a step of the receiving thread works with: [VCI_Receive]'s report at
    the head of the loop *)
Definition rx_report (now : nat -> Z) (p : process) : outcome (report * CanAbstract V * world V) :=
  match pc (thr p) with
  | AtReceive =>
      '(frame_num, pReceive, cc1, w1) ←
        VCI_Receive_c kDevtype kDevid kChannel (Some (can_rx_buff p)) kRxBuffSize 10 (back p) (wld p);
      buf ← deref "can_rx_buff" pReceive;
      Ret ((frame_num, now, buf), cc1, w1)
  | _ => Ret ((0%nat, now, can_rx_buff p), back p, wld p)
  end.
Definition process_step (e : process_event) (p : process) : outcome process :=
  match e with
  | PRx now =>
      '(inp, cc1, w1) ← rx_report now p;
      t ← thread_step (TRx inp) (thr p);
      Ret (mk_process t inp.2 cc1 w1)
  | PIo ev =>
      t ← thread_step (TIo ev) (thr p);
      Ret (mk_process t (can_rx_buff p) (back p) (wld p))
  end.
Fixpoint process_run (es : list process_event) (p : process) : outcome process :=
  match es with
  | [] => Ret p
  | e :: es => p1 ← process_step e p; process_run es p1
  end.

(** the same run, seen by the threads, and the frames it publishes *)
Definition step_trace (e : process_event) (p : process) : list thread_event :=
  match e with
  | PRx now => match rx_report now p with Ret (inp, _, _) => [TRx inp] | _ => [] end
  | PIo ev => [TIo ev]
  end.
Fixpoint process_trace (es : list process_event) (p : process) : list thread_event :=
  match es with
  | [] => []
  | e :: es => step_trace e p ++ match process_step e p with Ret p1 => process_trace es p1 | _ => [] end
  end.
Definition process_frames (es : list process_event) (p : process) : list (Z * Z * VCI_CAN_OBJ) :=
  all_published (process_trace es p) (thr p).

(** the queue of the session [id] is never full while a line is dispatched *)
Definition keeps_up (id : nat) (es : list process_event) (p : process) : bool :=
  never_full id (process_trace es p) (thr p).

(** clients accepted in a run, and events that leave the session [id] alone *)
Definition clients (es : list process_event) : Z :=
  foldr (fun e n => match e with PIo ev => accepts1 ev | PRx _ => 0 end + n) 0 es.
Lemma clients_nonneg es : 0 <= clients es.
Proof. induction es as [|[]]; simpl; [done|done|]. pose proof (accepts1_nonneg ev). unfold clients in *. lia. Qed.
Definition healthy (id : nat) (e : process_event) : Prop :=
  match e with PIo ev => good_event id (AIo ev) | PRx _ => True end.

(** What the process relies on of the back end it opened: as long as [ok] holds
    [VCI_Receive] returns, reports at most as many frames as the array holds and
    stays inside it. *)
Class Bus (ok : CanAbstract V -> world V -> Prop) : Prop :=
  bus_receive cc w buf : ok cc w -> length buf = (kRxBuffSize * sizeof_CAN_OBJ)%nat ->
    exists n buf' cc' w',
      VCI_Receive_c kDevtype kDevid kChannel (Some buf) kRxBuffSize 10 cc w = Ret (n, Some buf', cc', w') /\
      (n <= kRxBuffSize)%nat /\ length buf' = length buf /\ ok cc' w'.

(** a vendor library does so when its own [VCI_Receive] does *)
Class VendorReceive (l : dll_load_dll_type V) : Prop :=
  vendor_receive t i ci buf len wt v : (0 < len)%nat -> length buf = (len * sizeof_CAN_OBJ)%nat ->
    exists n buf' v', fReceive l t i ci (Some buf) len wt v = (n, Some buf', v') /\
      (n <= len)%nat /\ length buf' = length buf.
Definition direct_to (l : dll_load_dll_type V) (cc : CanAbstract V) (w : world V) : Prop :=
  exists d, can_imp_ cc = Some (IDirect d) /\ dc2_match d kDevtype = Some l.
#[export] Instance direct_bus l `{!VendorReceive l} : Bus (direct_to l).
Proof.
  intros [x] w buf (d & E & Hd) Hb. simpl in E. subst x. destruct (vendor_receive (l := l) kDevtype kDevid kChannel buf kRxBuffSize 10 (vendor w) ltac:(unfold kRxBuffSize; lia) Hb)
    as (n & buf' & v' & Er & Hn & Hb').
  exists n, buf', (mk_cc (Some (IDirect d))), (set_vendor v' w). split_and!; [|done|done|by exists d].
  unfold VCI_Receive_c, CC_VCI_Receive, through. cbn [can_imp_ imp_Receive imp_imp].
  unfold lift_imp. cbn [imp_Receive DC2_imp]. unfold DC2_VCI_Receive. rewrite Hd, Er. done.
Qed.

(** every library the host has keeps its promise *)
Definition vendors_receive : Prop := forall path l, load_library path = Ret l -> VendorReceive l.
Definition loaded (cc : CanAbstract V) (w : world V) : Prop :=
  exists l path, load_library path = Ret l /\ direct_to l cc w.
Lemma loaded_bus : vendors_receive -> Bus loaded.
Proof.
  intros Hv cc w buf (l & path & Hl & Hd) Hb. pose proof (Hv path l Hl) as Hr.
  destruct (bus_receive (ok := direct_to l) cc w buf Hd Hb) as (n & buf' & cc' & w' & E & Hn & Hb' & Hd').
  exists n, buf', cc', w'. split_and!; try done. by exists l, path.
Qed.
(** the process opens a library unless it is itself the client of an agent *)
Lemma process_start_loaded send buf cc w p0 :
  process_start send buf cc w = Ret p0 ->
  (exists n, can_imp_ (back p0) = Some (INet n)) \/ loaded (back p0) (wld p0).
Proof.
  unfold process_start. intros ([cc' w'] & E & Hs)%bind_Ret_inv.
  assert (Ea : startAccepting [] (server_init agent_init) = Ret agent_started) by done.
  rewrite Ea in Hs. injection Hs as <-. cbn [back wld]. unfold canRx_open in E.
  apply bind_Ret_inv in E as ([[e1 cc1] w1] & E1 & E). apply bind_Ret_inv in E as ([] & C1 & E).
  apply bind_Ret_inv in E as ([[e2 cc2] w2] & E2 & E). apply bind_Ret_inv in E as ([] & _ & E).
  apply bind_Ret_inv in E as ([[e3 cc3] w3] & E3 & E). apply bind_Ret_inv in E as ([] & _ & [= <- <-]).
  apply bind_Ret_inv in E1 as ([[r1 cc1'] w1'] & E1 & [= <- <- <-]).
  apply bind_Ret_inv in E2 as ([[r2 cc2'] w2'] & E2 & [= _ <- <-]).
  apply bind_Ret_inv in E3 as ([[r3 cc3'] w3'] & E3 & [= _ <- <-]).
  assert (Hr1 : r1 <> STATUS_ERR) by (by intros ->).
  unfold CC_VCI_InitCAN in E2. unfold CC_VCI_StartCAN in E3.
  apply open_ok in E1 as [(n & Hi & _)|(l & e & Hi & _ & _ & path & Hl)]; [..|done]; rewrite Hi in E2; unfold through in E2;
    apply bind_Ret_inv in E2 as ([[a2 x2] w4] & E2 & [= _ <- _]); apply bind_Ret_inv in E2 as ([[b2 y2] w5] & E2 & [= _ <- _]);
    cbn [can_imp_] in E3; unfold through in E3;
    apply bind_Ret_inv in E3 as ([[a3 x3] w6] & E3 & [= _ <- _]); apply bind_Ret_inv in E3 as ([[b3 y3] w7] & E3 & [= _ <- _]).
  - left. by eexists.
  - right. exists l, path. split; [done|]. exists y3. split; [done|].
    assert (y2 = mk_dc2 (Some l) (Some kDevtype)) as ->.
    { revert E2. cbn [imp_InitCAN DC2_imp]. unfold DC2_VCI_InitCAN. simpl. by destruct (fInitCan _ _ _ _ _ _); intros [= _ <- _]. }
    assert (y3 = mk_dc2 (Some l) (Some kDevtype)) as ->; [|done].
    revert E3. cbn [imp_StartCAN DC2_imp]. unfold DC2_VCI_StartCAN. simpl. by destruct (fStartCan _ _ _ _ _); intros [= _ <- _].
Qed.

Section served.
Context (ok : CanAbstract V -> world V -> Prop) `{!Bus ok}.

Definition process_ok (p : process) : Prop :=
  ok (back p) (wld p) /\ length (can_rx_buff p) = (kRxBuffSize * sizeof_CAN_OBJ)%nat.

Lemma rx_report_ok now p :
  process_ok p -> exists n buf cc w, rx_report now p = Ret ((n, now, buf), cc, w) /\
    good_report (n, now, buf) /\ ok cc w.
Proof.
  intros [Hok Hb]. unfold rx_report. destruct (pc (thr p)).
  - destruct (bus_receive (back p) (wld p) (can_rx_buff p) Hok Hb) as (n & buf & cc & w & -> & Hn & Hl & Hok').
    exists n, buf, cc, w. split_and!; [done|split; [done|congruence]|done].
  - exists 0%nat, (can_rx_buff p), (back p), (wld p). split_and!; [done|split; [lia|done]|done].
  - exists 0%nat, (can_rx_buff p), (back p), (wld p). split_and!; [done|split; [lia|done]|done].
  - exists 0%nat, (can_rx_buff p), (back p), (wld p). split_and!; [done|split; [lia|done]|done].
Qed.
(** a step of the process is one of its threads *)
Lemma process_step_thread e p :
  process_ok p -> exists te buf cc w, step_trace e p = [te] /\ fits te /\
    (forall id, healthy id e -> good_step id te) /\ accepts [te] = clients [e] /\
    process_step e p = (t ← thread_step te (thr p); Ret (mk_process t buf cc w)) /\
    ok cc w /\ length buf = (kRxBuffSize * sizeof_CAN_OBJ)%nat.
Proof.
  intros Hp. destruct e as [now|ev].
  - destruct (rx_report_ok now p Hp) as (n & buf & cc & w & E & Hg & Hok). exists (TRx (n, now, buf)), buf, cc, w.
    cbn [step_trace process_step]. rewrite E. cbn [mbind outcome_bind]. split_and!; try done. apply Hg.
  - destruct Hp. by exists (TIo ev), (can_rx_buff p), (back p), (wld p).
Qed.
Lemma process_run_thread es p :
  process_ok p -> Forall fits (process_trace es p) /\
    (forall id, Forall (healthy id) es -> Forall (good_step id) (process_trace es p)) /\
    accepts (process_trace es p) <= clients es /\
    is_UB (process_run es p) = is_UB (thread_run (process_trace es p) (thr p)) /\
    forall p', process_run es p = Ret p' ->
      process_ok p' /\ thread_run (process_trace es p) (thr p) = Ret (thr p').
Proof.
  revert p. induction es as [|e es IH]; intros p Hp.
  - split_and!; try done. by intros p' [= <-].
  - destruct (process_step_thread e p Hp) as (te & buf & cc & w & Etr & Hf & Hgood & Hacc & Est & Hok).
    cbn [process_trace process_run clients foldr] in *. rewrite Etr, Est. cbn [app thread_run accepts foldr] in *.
    pose proof (clients_nonneg es) as Hn.
    destruct (thread_step te (thr p)) as [t1| | |]; cbn [mbind outcome_bind].
    2-4: split_and!; try done; [by apply list.Forall_singleton
        |by intros id [Hh _]%list.Forall_cons; apply list.Forall_singleton, Hgood|simpl; unfold clients in *; lia].
    destruct (IH (mk_process t1 buf cc w) Hok) as (Hfs & Hgs & Has & Hus & Hrun). cbn [thr] in *.
    split_and!; try done; [by apply list.Forall_cons| |simpl in *; unfold clients, accepts in *; lia].
    intros id [Hh Hhs]%list.Forall_cons. apply list.Forall_cons. split; [by apply Hgood|by apply Hgs].
Qed.

Lemma process_start_ok send buf cc w p0 :
  process_start send buf cc w = Ret p0 -> length buf = (kRxBuffSize * sizeof_CAN_OBJ)%nat ->
  ok (back p0) (wld p0) ->
  process_ok p0 /\ thr p0 = mk_threads agent_started (loop_start send) AtReceive.
Proof.
  unfold process_start. intros ([cc1 w1] & _ & Hs)%bind_Ret_inv Hb Hok.
  assert (E : startAccepting [] (server_init agent_init) = Ret agent_started) by done.
  rewrite E in Hs. by injection Hs as <-.
Qed.
End served.

(** ** Turns end *)

Lemma rx_step_input inp inp' t : pc t <> AtReceive -> rx_step inp t = rx_step inp' t.
Proof. unfold rx_step. by destruct (pc t). Qed.

Section served2.
Context (ok : CanAbstract V -> world V -> Prop) `{!Bus ok}.

Lemma process_turn_ends now p a L v :
  process_ok ok p -> tinv (thr p) a L v ->
  exists k p', process_run (repeat (PRx now) k) p = Ret p' /\ pc (thr p') = AtReceive.
Proof.
  set (inp := (0%nat, now, repeat NUL (kRxBuffSize * sizeof_CAN_OBJ)) : report). intros Hp Ht.
  assert (Hinp : good_report inp) by (split; [lia|apply repeat_length]).
  destruct (turn_ends inp Hinp (thr p) a L v Ht) as (t' & _ & _ & [k Hk] & _ & Hpc). clear Ht.
  revert p Hp Hk. induction k as [|k IH]; intros p Hp Hk.
  - injection Hk as <-. by exists 0%nat, p.
  - destruct (decide (at_rest (pc (thr p)))) as [Hr%at_rest_pc|Hr]; [by exists 0%nat, p|].
    assert (Hne : pc (thr p) <> AtReceive) by (intros E; apply Hr; by rewrite E).
    cbn [repeat thread_run thread_step] in Hk. apply bind_Ret_inv in Hk as (t1 & E & Hk).
    assert (Est : process_step (PRx now) p = Ret (mk_process t1 (can_rx_buff p) (back p) (wld p))).
    { cbn [process_step]. unfold rx_report. destruct (pc (thr p)) eqn:Ep; [done|..].
      all: cbn [mbind outcome_bind thread_step]; rewrite (rx_step_input _ inp) by (by rewrite Ep); by rewrite E. }
    destruct (IH (mk_process t1 (can_rx_buff p) (back p) (wld p)) Hp Hk) as (m & p' & Em & Hpc').
    exists (S m), p'. cbn [repeat process_run]. by rewrite Est.
Qed.

(** ** The frames of a run *)

Lemma published_wf e t a L v : tinv t a L v -> Forall (fun f => wf_CAN_OBJ f.2) (published e t).
Proof.
  intros (q & z & _ & _ & _ & _ & _ & _ & Hpc). unfold published. destruct e as [inp|ev]; [|done].
  destruct (pc t) as [|n i now buf| |]; try done. destruct (Nat.ltb_spec i n); [|done].
  destruct Hpc as (_ & [Hn Hb] & _). apply list.Forall_singleton, wf_dec_CAN_OBJ.
  apply rx_obj_spec. rewrite Hb. unfold sizeof_CAN_OBJ. lia.
Qed.
Lemma all_published_wf es t a L v :
  tinv t a L v -> Forall fits es -> registrations t + accepts es + 1 < 2 ^ 32 ->
  Forall (fun f => wf_CAN_OBJ f.2) (all_published es t).
Proof.
  revert t a L v. induction es as [|e es IH]; intros t a L v Ht Hf Hr; [done|].
  apply list.Forall_cons in Hf as [Hf1 Hf]. destruct (accepts_cons e es) as (He & Hge & Hn).
  cbn [all_published]. apply Forall_app. split; [by eapply published_wf|].
  destruct (tinv_step e t a L v Ht Hf1 ltac:(lia)) as [_ Hret]. destruct (thread_step e t) as [t1| | |]; try done.
  destruct (Hret t1 eq_refl) as (a1 & L1 & v1 & Ht1 & Hr1 & _). eapply IH; [exact Ht1|done|lia].
Qed.

Lemma suffix_frames old (fs : list (Z * Z * VCI_CAN_OBJ)) :
  old `suffix_of` agent_lines fs -> exists k, old = agent_lines (drop k fs).
Proof.
  intros [pre E]. exists (length pre). unfold agent_lines in *. by rewrite fmap_drop, E, drop_app_length.
Qed.
(** the frames of a selection of lines *)
Lemma sublist_frames ks (fs : list (Z * Z * VCI_CAN_OBJ)) :
  ks `sublist_of` agent_lines fs -> exists gs, ks = agent_lines gs /\ gs `sublist_of` fs.
Proof.
  revert ks. induction fs as [|f fs IH]; intros ks Hk.
  - apply sublist_nil_r in Hk as ->. by exists [].
  - unfold agent_lines in Hk. rewrite fmap_cons in Hk. apply sublist_cons_r in Hk as [Hk|(ks' & -> & Hk)].
    + destruct (IH ks Hk) as (gs & -> & Hgs). exists gs. split; [done|by apply sublist_cons].
    + destruct (IH ks' Hk) as (gs & -> & Hgs). exists (f :: gs). split; [done|by apply sublist_skip].
Qed.

(** what a program that polls a connection which was sent [sock] makes of it *)
Definition yields (sock : list byte) (gs : list (Z * Z * VCI_CAN_OBJ)) : Prop :=
  forall (P : Platform) dt di ci wt calls st,
    connected st = true -> rx_buff st = [] -> Forall poll_ok calls -> arrived calls `prefix_of` sock ->
    is_UB (polls dt di ci wt calls st) = false /\
    forall got st', polls dt di ci wt calls st = Ret (got, st') ->
      exists k, got = take k gs.*2 /\
        (connected st' = true -> arrived calls = lines_text (agent_lines (take k gs)) ++ rx_buff st').
Lemma lines_yield sock gs :
  Forall (fun f => wf_CAN_OBJ f.2) gs -> sock `prefix_of` lines_text (agent_lines gs) -> yields sock gs.
Proof.
  intros Hwf Hs P dt di ci wt calls st Hc Hrx Hok Ha.
  pose proof (polls_frames dt di ci wt calls st gs Hwf Hok Hc) as Hp. rewrite Hrx in Hp. apply Hp. by etrans.
Qed.

(** the session of a connected client, at any point (when [x], it has lost no
    line) and between two turns *)
Definition selection (x : bool) (t : threads) (id : nat) (fs : list (Z * Z * VCI_CAN_OBJ)) : Prop :=
  exists s gs, sessions (shared t) !! id = Some s /\ gs `sublist_of` fs /\
    (x = true \/ (length fs <= spsc_capacity)%nat -> gs `prefix_of` fs) /\ yields (socket_ s) gs.
Definition complete (t : threads) (id : nat) (fs : list (Z * Z * VCI_CAN_OBJ)) : Prop :=
  exists s more s', sessions (shared t) !! id = Some s /\ (length more <= 1 + (length fs + 7) / 8)%nat /\
    delivered more = [] /\ session_run more s = Ret s' /\
    socket_ s' = lines_text (agent_lines fs) /\ yields (socket_ s') fs.

Lemma selection_intro x t id s given rest ks qs fs :
  Forall (fun f => wf_CAN_OBJ f.2) fs -> agent_lines fs = given ++ rest ->
  sessions (shared t) !! id = Some s -> session_inv s given ks qs -> (x = true -> ks ++ qs = given) ->
  selection x t id fs.
Proof.
  intros Hwf E Hs Hi Hx. pose proof (si_sent _ _ _ _ Hi) as Hsent.
  assert (Hsub : ks `sublist_of` agent_lines fs).
  { etrans; [|rewrite E; apply sublist_inserts_r; reflexivity]. etrans; [|apply (si_order _ _ _ _ Hi)].
    apply sublist_inserts_r. reflexivity. }
  assert (Hex : x = true \/ (length fs <= spsc_capacity)%nat -> ks ++ qs = given).
  { intros [Ex|Hle]; [by apply Hx|]. apply (si_all _ _ _ _ Hi).
    apply (f_equal length) in E. unfold agent_lines in E. rewrite length_fmap, length_app in E. lia. }
  destruct (decide (x = true \/ (length fs <= spsc_capacity)%nat)) as [Hle|Hgt].
  - assert (Hks : ks = agent_lines (take (length ks) fs)).
    { unfold agent_lines in *. by rewrite fmap_take, E, <- (Hex Hle), <- app_assoc, take_app_length. }
    exists s, (take (length ks) fs). split_and!; [done|apply sublist_take|intros _; apply prefix_take|].
    apply lines_yield; [by apply Forall_take|by rewrite <- Hks].
  - destruct (sublist_frames ks fs Hsub) as (gs & -> & Hgs). exists s, gs. split_and!; [done|done|done|].
    apply lines_yield; [|done]. rewrite list.Forall_forall in *. intros f Hf. apply Hwf. by eapply elem_of_sublist.
Qed.

(** what an accepted client is sent by the end of a run *)
Lemma client_stream x t h id a1 L1 v1 t1 fs1 fs2 :
  tinv t1 a1 L1 v1 -> waiting v1 `suffix_of` agent_lines fs1 ->
  Forall (fun f => wf_CAN_OBJ f.2) (fs1 ++ fs2) ->
  client x (running v1) t h id (v1.2 ++ agent_lines fs2) ->
  exists k, let old := drop k fs1 in
    (length old <= kRxBuffSize)%nat /\ (pc t1 = AtReceive -> old = []) /\
    selection x t id (old ++ fs2) /\
    (pc t = AtReceive -> x = true \/ (length (old ++ fs2) <= spsc_capacity)%nat -> complete t id (old ++ fs2)).
Proof.
  intros Ht1 Hw [Hwf1 Hwf2]%Forall_app Hcl.
  assert (Hwf : forall k, Forall (fun f => wf_CAN_OBJ f.2) (drop k fs1 ++ fs2)).
  { intros k. apply Forall_app. split; [by apply Forall_drop|done]. }
  assert (Hold : forall pre, pre = [] \/ pre = running v1 -> exists k,
    (length (drop k fs1) <= kRxBuffSize)%nat /\ (pc t1 = AtReceive -> drop k fs1 = []) /\
    pre ++ v1.2 ++ agent_lines fs2 = agent_lines (drop k fs1 ++ fs2)).
  { intros pre Hpre. destruct (tinv_old t1 a1 L1 v1 _ pre Ht1 Hw Hpre) as (Hs1 & Hs2 & Hs3).
    destruct (suffix_frames _ _ Hs1) as [k Ek]. exists k. unfold agent_lines in *. rewrite Ek, length_fmap in *.
    split_and!; [done| |by rewrite app_assoc, Ek, fmap_app]. intros E. by eapply fmap_nil_inv, Hs3. }
  destruct (decide (at_rest (pc t))) as [Hpc%at_rest_pc|Hpc].
  - destruct (client_rest x _ t h id _ Hcl Hpc) as (pre & Hpre & Hsv). destruct (Hold pre Hpre) as (k & H1 & H2 & Es).
    rewrite Es in Hsv. exists k. cbv zeta. split_and!; try done.
    + destruct Hsv as (L3 & s & ks & qs & _ & _ & Hs & _ & Hp & Hsi & Hx).
      eapply (selection_intro x t id s _ [] ks qs); [done|symmetry; apply app_nil_r|done..].
    + intros _ Hle. assert (El : length (agent_lines (drop k fs1 ++ fs2)) = length (drop k fs1 ++ fs2)) by apply length_fmap.
      destruct (served_lines x (shared t) h id _ Hsv) as (s & more & s' & Hs & Hm & Hd & Hrun & Hso); [by rewrite El|].
      exists s, more, s'. rewrite El in Hm. split_and!; try done. apply lines_yield; [done|by rewrite Hso].
  - destruct (client_given x _ t h id _ Hcl) as (pre & given & rest & s & ks & qs & Hpre & E & _ & Hs & Hp & Hsi & Hx).
    destruct (Hold pre Hpre) as (k & H1 & H2 & Es). exists k. cbv zeta. split_and!; [done|done| |].
    + eapply (selection_intro x t id s given rest ks qs); [done|congruence|done..].
    + intros Ex. by rewrite Ex in Hpc.
Qed.

(** C1. The system, end to end. Once [main] has opened the device and started
    the server, and as long as the back end keeps its promise ([Bus ok]: its
    [VCI_Receive] returns and reports no more frames than the array holds), then
    whatever the interleaving of the receiving thread's steps with the handlers
    of the io thread, there is no undefined behaviour and the receiving loop
    always comes back to [VCI_Receive]. A client that connects at any step, and
    whose own writes succeed, has as its stretch of the frames the back end
    reports: at most the last 100 published before (none between two turns),
    then all published later. At any moment what was written to its socket is,
    to a program that polls [VCI_Receive] at the other end while the bytes
    arrive in whatever pieces, a selection of these frames in order, each
    unchanged. However long the client stays and however many frames come, when
    its session's queue was never full at a dispatch (it holds 2048 lines, and
    each of its timers and writes takes eight from it) nothing is left out: the
    selection is a prefix of the stretch, and whenever the loop is back at
    [VCI_Receive] a bounded number of timers and writes completes the stretch.
    The same holds, whatever the queue, for the first 2048 frames. *)
Theorem process_end_to_end (send buf : list byte) (cc : CanAbstract V) (w : world V) (p0 : process)
    (es1 es2 : list process_event) :
  process_start send buf cc w = Ret p0 -> length send = kCanobjCapacity ->
  length buf = (kRxBuffSize * sizeof_CAN_OBJ)%nat -> ok (back p0) (wld p0) ->
  clients es1 + clients es2 + 2 < 2 ^ 32 ->
  is_UB (process_run es1 p0) = false /\
  forall p1, process_run es1 p0 = Ret p1 ->
  (forall now, exists k p', process_run (repeat (PRx now) k) p1 = Ret p' /\ pc (thr p') = AtReceive) /\
  is_UB (process_step (PIo (EvAccept 0)) p1) = false /\
  forall p2, process_step (PIo (EvAccept 0)) p1 = Ret p2 ->
  exists id, session_ (shared (thr p1)) = Some id /\ (Forall (healthy id) es2 ->
  is_UB (process_run es2 p2) = false /\
  forall p3, process_run es2 p2 = Ret p3 ->
  exists k, let old := drop k (process_frames es1 p0) in let fs := old ++ process_frames es2 p2 in
    (length old <= kRxBuffSize)%nat /\ (pc (thr p1) = AtReceive -> old = []) /\
    let x := keeps_up id es2 p2 in selection x (thr p3) id fs /\
    (pc (thr p3) = AtReceive -> x = true \/ (length fs <= spsc_capacity)%nat -> complete (thr p3) id fs)).
Proof.
  intros Hst Hsend Hbuf Hok Hcl. destruct (process_start_ok ok send buf cc w p0 Hst Hbuf Hok) as [Hp0 Et0].
  destruct (process_run_thread ok es1 p0 Hp0) as (Hf1 & _ & Ha1 & Hu1 & Hrun1).
  assert (Hreg0 : registrations (thr p0) = 0) by (by rewrite Et0).
  assert (Ht0 : tinv (thr p0) agent_started [] (None, [])).
  { rewrite Et0. by apply tinv_start; [apply agent_started_inv| |]. }
  pose proof (clients_nonneg es2) as Hn2.
  destruct (tinv_run _ (thr p0) _ _ _ Ht0 Hf1 ltac:(lia)) as [Hu Hret]. split; [by rewrite Hu1|].
  intros p1 E1. destruct (Hrun1 p1 E1) as [Hp1 Er1]. destruct (Hret _ Er1) as (a1 & L1 & v1 & Ht1 & Hr1 & Hq1 & _).
  split; [intros now; by eapply process_turn_ends|].
  destruct (tinv_io (EvAccept 0) (thr p1) a1 L1 v1 Ht1 ltac:(lia)) as [Hu2 Hret2].
  cbn [process_step]. cbn [thread_step] in *.
  split; [by destruct (io_handle _ _ _)|]. intros p2 E2. apply bind_Ret_inv in E2 as (t2 & E2 & [= <-]).
  destruct (Hret2 t2 E2) as (a2 & L2 & Ht2 & Hr2 & _). cbn [accepts1] in Hr2.
  destruct (client_accept (thr p1) t2 a1 L1 v1 Ht1 ltac:(lia) E2) as (id & h & Eid & Hcl1).
  exists id. split; [done|]. intros Hh.
  destruct (process_run_thread ok es2 (mk_process t2 (can_rx_buff p1) (back p1) (wld p1)) Hp1) as (Hf2 & Hg2 & Ha2 & Hu3 & Hrun2).
  cbn [thr] in *. set (x := keeps_up id es2 _).
  destruct (client_run x _ _ t2 h id _ (Hcl1 x) (Hg2 id Hh) ltac:(done) ltac:(lia)) as [Hu4 Hret4].
  split; [by rewrite Hu3|]. intros p3 E3. destruct (Hrun2 p3 E3) as [_ Er3].
  apply (client_stream x (thr p3) h id a1 L1 v1 (thr p1) _ _ Ht1); [| |by apply Hret4].
  - by specialize (Hq1 [] (suffix_nil [])).
  - apply Forall_app. split; [apply (all_published_wf _ _ _ _ _ Ht0 Hf1); lia|apply (all_published_wf _ _ _ _ _ Ht2 Hf2); lia].
Qed.
End served2.
End process.

(** ** A device that reports one frame per call *)

#[export] Instance bus_dll_receives : VendorReceive bus_dll.
Proof.
  intros t i ci buf len wt v Hlen Hb. exists 1%nat, (repeat x07 24 ++ drop 24 buf), (v + 1).
  split_and!; [done|lia|]. rewrite length_app, length_drop, repeat_length, Hb. unfold sizeof_CAN_OBJ. lia.
Qed.
Definition bus_process : process (V := Z) :=
  mk_process (mk_threads agent_started (loop_start (repeat x20 256)) AtReceive) (repeat NUL 2400) bus_cc (set_vendor 3 sample_world).
(** a turn before the client comes, and one after *)
Definition turn_before : list process_event := repeat (PRx (fun _ => 5)) 5.
Definition turn_after : list process_event := repeat (PRx (fun _ => 6)) 9.
Definition run_to (es : list process_event) (p : process (V := Z)) : process (V := Z) :=
  match process_run (H := bus_host) es p with Ret p' => p' | _ => p end.
Definition bus_end : process (V := Z) := run_to (turn_before ++ PIo (EvAccept 0) :: turn_after) bus_process.


Lemma process_end_to_end_witness :
  exists s more s', sessions (shared (thr bus_end)) !! 0%nat = Some s /\ session_run more s = Ret s' /\
    socket_ s' = lines_text [receive_line 1 6 sample_frame] /\
    yields (socket_ s') [(1, 6, sample_frame)].
Proof.
  assert (Est : process_start (H := bus_host) (repeat x20 256) (repeat NUL 2400) (mk_cc None) sample_world = Ret bus_process)
    by (vm_compute; reflexivity).
  assert (E1 : process_run (H := bus_host) turn_before bus_process = Ret (run_to turn_before bus_process)) by (vm_compute; reflexivity).
  assert (E2 : process_step (H := bus_host) (PIo (EvAccept 0)) (run_to turn_before bus_process)
    = Ret (run_to (turn_before ++ [PIo (EvAccept 0)]) bus_process)) by (vm_compute; reflexivity).
  assert (E3 : process_run (H := bus_host) turn_after (run_to (turn_before ++ [PIo (EvAccept 0)]) bus_process) = Ret bus_end)
    by (vm_compute; reflexivity).
  assert (Ef : process_frames (H := bus_host) turn_after (run_to (turn_before ++ [PIo (EvAccept 0)]) bus_process)
    = [(1, 6, sample_frame)]) by (vm_compute; reflexivity).
  assert (Ek : keeps_up (H := bus_host) 0 turn_after (run_to (turn_before ++ [PIo (EvAccept 0)]) bus_process) = true) by (vm_compute; reflexivity).
  assert (Epc1 : pc (thr (run_to turn_before bus_process)) = AtReceive) by (vm_compute; reflexivity).
  assert (Epc3 : pc (thr bus_end) = AtReceive) by (vm_compute; reflexivity).
  assert (Eid : session_ (shared (thr (run_to turn_before bus_process))) = Some 0%nat) by (vm_compute; reflexivity).
  destruct (process_end_to_end (H := bus_host) (direct_to bus_dll) (repeat x20 256) (repeat NUL 2400) (mk_cc None) sample_world
    bus_process turn_before turn_after Est eq_refl eq_refl) as [_ Hp]; [exists (mk_dc2 (Some bus_dll) (Some 4)); split; reflexivity|vm_compute; reflexivity|].
  destruct (Hp _ E1) as (_ & _ & Ha). destruct (Ha _ E2) as (id & Eid' & Hs). rewrite Eid in Eid'. injection Eid' as <-.
  destruct Hs as [_ Hs]; [apply list.Forall_forall; intros e He; apply list_elem_of_In, repeat_spec in He; by subst e|].
  destruct (Hs _ E3) as (k & _ & Hold & _ & Hc). specialize (Hold Epc1). rewrite Hold, Ef in Hc.
  destruct Hc as (s & more & s' & Hs1 & _ & _ & Hm & Hso & Hy); [exact Epc3|left; exact Ek|].
  exists s, more, s'. split_and!; [exact Hs1|exact Hm|rewrite Hso; reflexivity|exact Hy].
Defined.
