(* ===== verification/AgentShutdown.v ===== *)
(** * AgentShutdown
    The end of [main] ([can_agent/main.cc]): a signal clears [run_flag] and stops
    the io_context; the block's objects are destroyed in the reverse order of
    their declaration, first the server, then the io_context with its pending
    operations; the receiving thread finishes its turn and is joined; the queue
    [ppq], which was declared first, goes last, and with it the listeners and
    the sessions bound to them. *)

From Stdlib Require Import ZArith Lia.
From Stdlib Require Import Strings.Byte.
From stdpp Require Import base numbers list option gmap fin_maps strings.
From S2P Require Import Prelude UsbCan HexCodec NetClientProps CallbackList CallbackListFacts CallbackDispatch EventQueue EventQueueFacts Agent AgentFacts AgentProps AgentThreads AgentInterleaving AgentTurn.

(** ** Destruction *)

(** [~Server]: the session that waits for a client goes *)
Definition Server_dtor (pins : list positive) (a : agent) : agent :=
  let a1 := mk_agent (ppq a) (sessions a) (next_id a) (accepting a) None [] in
  match session_ a with Some k => release pins k a1 | None => a1 end.
(** [~io_context]: every pending handler is destroyed, and with it its
    [shared_ptr]; a session nobody else owns is destroyed while the services
    still exist *)
Definition io_context_dtor (pins : list positive) (a : agent) : agent :=
  collect pins (mk_agent (ppq a) (set_pending NoOp <$> sessions a) (next_id a) false (session_ a) (session_pool_ a)).
(** the end of the [try] block *)
Definition scope_exit (t : threads) : threads :=
  let pins := held (pc t) in
  mk_threads (io_context_dtor pins (Server_dtor pins (shared t))) (locals t) (pc t).

(** The services of the io_context are deleted: a session that is destroyed now
    destroys its [socket_] and its [deadline_] on services that no longer
    exist. *)
Definition sessions_end (before after : agent) : outcome agent :=
  if bool_decide (dom (sessions after) = dom (sessions before)) then Ret after
  else UB "socket_ outlives its io_context".
(** a step of the receiving thread after that *)
Definition late_step (inp : report) (t : threads) : outcome threads :=
  t' ← rx_step inp t;
  a ← sessions_end (shared t) (shared t');
  Ret (mk_threads a (locals t') (pc t')).
Fixpoint late_run (inps : list report) (t : threads) : outcome threads :=
  match inps with
  | [] => Ret t
  | inp :: inps => t1 ← late_step inp t; late_run inps t1
  end.
(** [pub_thd.join()]: the loop tests [runFlag] before it receives *)
Definition join (t : threads) : outcome agent :=
  match pc t with AtReceive => Ret (shared t) | _ => Blocked end.
(** [~eventpp_queue_t]: all nodes are freed *)
Definition ppq_dtor (a : agent) : outcome agent :=
  sessions_end a (collect [] (set_ppq (set_listeners ∅ (ppq a)) a)).

(** from the signal to the return of [main]; [inps] are the steps the receiving
    thread still takes *)
Definition main_exit (inps : list report) (t : threads) : outcome agent :=
  t1 ← late_run inps (scope_exit t);
  a ← join t1;
  ppq_dtor a.

(** ** What is destroyed when *)

(** a session without a listener finds its handle expired *)
Definition tidy (pins : list positive) (x : agent) : Prop :=
  forall id s h, sessions x !! id = Some s -> ppq_handle_ s = Some h -> listens pins id x = false ->
    lock pins h (canobj_list x) = None.
(** neither the server nor a pending operation owns a session *)
Definition idle (x : agent) : Prop :=
  session_ x = None /\ forall id s, sessions x !! id = Some s -> pending_op s = NoOp.

(** a handle names the session's own listener *)
Definition bound (x : agent) : Prop :=
  forall id s h, sessions x !! id = Some s -> ppq_handle_ s = Some h ->
    callback <$> heap (canobj_list x) !! h = Some id.
Lemma bound_tidy pins x : bound x -> tidy pins x.
Proof. intros Hb id s h Hs Hh Hl. by apply (unowned_handle pins x id h Hl), (Hb id s). Qed.

Lemma release_tidy pins x id :
  tidy pins x -> release pins id x = if owned pins id x then x else set_sessions (delete id (sessions x)) x.
Proof.
  intros Ht. unfold release. destruct (owned pins id x) eqn:Eo; [done|].
  assert (E : disconnectToEventqq pins id x = x); [|by rewrite E].
  unfold disconnectToEventqq. destruct (sessions x !! id) as [s|] eqn:Es; [|done]. simpl.
  destruct (ppq_handle_ s) as [h|] eqn:Eh; [|done]. rewrite (Ht id s h Es Eh); [done|].
  unfold owned in Eo. by apply Bool.orb_false_iff in Eo as [_ Eo].
Qed.
Lemma owned_idle pins id x : idle x -> owned pins id x = listens pins id x.
Proof.
  intros [Hn Hp]. unfold owned. rewrite Hn, bool_decide_eq_false_2 by done. simpl.
  destruct (sessions x !! id) as [s|] eqn:Es; [|done]. by rewrite (Hp id s Es).
Qed.
Lemma collect_idle pins x :
  tidy pins x -> idle x -> exists ss, collect pins x = set_sessions ss x /\
    forall i, ss !! i = if listens pins i x then sessions x !! i else None.
Proof.
  intros Ht [Hn Hp]. unfold collect.
  assert (Hf : forall ids, exists ss, fold_right (release pins) x ids = set_sessions ss x /\
    forall i, ss !! i = if decide (i ∈ ids /\ listens pins i x = false) then None else sessions x !! i).
  { induction ids as [|id ids (ss & E & Hss)].
    - exists (sessions x). split; [by destruct x|]. intros i. rewrite decide_False; [done|].
      by intros [?%not_elem_of_nil _].
    - assert (Hsub : forall i s, ss !! i = Some s -> sessions x !! i = Some s).
      { intros i s Hs. rewrite Hss in Hs. by case_decide. }
      cbn [fold_right]. rewrite E, release_tidy.
      2: { intros i s h Hs. by apply Ht, Hsub. }
      rewrite owned_idle by (split; [exact Hn|]; intros i s Hs; by eapply Hp, Hsub).
      change (listens pins id (set_sessions ss x)) with (listens pins id x).
      destruct (listens pins id x) eqn:El.
      + exists ss. split; [done|]. intros i. rewrite Hss.
        case_decide as D1; case_decide as D2; rewrite elem_of_cons in D2; [done| |destruct D2 as [[->|?] ?]|done];
          [exfalso; apply D2; naive_solver|congruence|by exfalso; apply D1].
      + exists (delete id ss). split; [done|]. intros i. destruct (decide (i = id)) as [->|Hne].
        * rewrite lookup_delete_eq, decide_True; [done|]. set_solver.
        * rewrite lookup_delete_ne, Hss by done.
          case_decide as D1; case_decide as D2; rewrite elem_of_cons in D2; [done| |destruct D2 as [[->|?] ?]|done];
            [exfalso; apply D2; naive_solver|done|by exfalso; apply D1]. }
  destruct (Hf (elements (dom (sessions x)))) as (ss & E & Hss). exists ss. split; [done|]. intros i. rewrite Hss.
  destruct (listens pins i x) eqn:El; [by rewrite decide_False by naive_solver|].
  case_decide as D; [done|]. apply not_elem_of_dom. intros Hd. apply D. by rewrite elem_of_elements.
Qed.

Lemma listed_node a L h id :
  agent_inv a L -> (h, id) ∈ L -> callback <$> heap (canobj_list a) !! h = Some id.
Proof.
  intros Hi Hin. pose proof (quiet_refines _ _ (ai_quiet _ _ Hi)) as [Hr _].
  pose proof (elem_fst _ _ _ Hin) as Hh. destruct (rep_dom _ _ h Hr Hh) as [nd Hnd]. rewrite Hnd. simpl. f_equal.
  pose proof (listed_callback a L h nd Hi Hh Hnd) as Hk.
  apply list_elem_of_lookup in Hk as (i & Hx). apply list_elem_of_lookup in Hin as (j & Hy).
  assert (i = j); [|congruence]. eapply NoDup_lookup; [exact (rep_nodup _ _ Hr)| |]; rewrite list_lookup_fmap, ?Hx, ?Hy; done.
Qed.
Lemma listens_listed pins a L h id x :
  agent_inv a L -> (h, id) ∈ L -> canobj_list x = canobj_list a -> listens pins id x = true.
Proof.
  intros Hi Hin E. pose proof (quiet_refines _ _ (ai_quiet _ _ Hi)) as [Hr Hc].
  pose proof (lock_listed pins _ _ h Hr (elem_fst _ _ _ Hin)) as Hl. unfold listens. rewrite E.
  apply existsb_exists. exists h. split.
  - apply list_elem_of_In, elem_of_elements. unfold lock in Hl. by case_decide.
  - by apply bool_decide_eq_true_2, (listed_node a L).
Qed.
(** the sessions of an agent in the middle of a turn *)
Lemma bound_live z a L x :
  agent_inv a L -> zombies a L z -> canobj_list x = canobj_list a ->
  (forall id s, sessions x !! id = Some s ->
     exists s0, (sessions a ∪ z) !! id = Some s0 /\ ppq_handle_ s0 = ppq_handle_ s) ->
  bound x.
Proof.
  intros Hi Hz E Hsub id s h Hs Hh. destruct (Hsub id s Hs) as (s0 & Hs0 & Eh). rewrite Hh in Eh. rewrite E.
  apply lookup_union_Some_raw in Hs0 as [Hs0|[_ Hs0]].
  - destruct (ai_dom _ _ Hi id s0 Hs0) as [Hin|Hk].
    + apply list_elem_of_fmap in Hin as ((h0 & c) & -> & Hin). simpl in *.
      destruct (ai_live _ _ Hi h0 c Hin) as (s1 & Hs1 & Hh1 & _).
      assert (h0 = h) as -> by congruence. by apply (listed_node a L).
    + destruct (ai_new _ _ Hi) as (k & Ek & Hnew & _). assert (s0 = new_session) as -> by congruence. done.
  - destruct (Hz id s0 Hs0) as [_ _ _ (h0 & Hh0 & _ & Hc)]. by assert (h0 = h) as -> by congruence.
Qed.

(** what is left when the block is over: the sessions with a listener *)
Lemma scope_exit_spec t a L v :
  tinv t a L v ->
  let x := shared (scope_exit t) in
  ppq x = ppq (shared t) /\ idle x /\ bound x /\
  forall id, is_Some (sessions x !! id) <->
    is_Some (sessions (shared t) !! id) /\ listens (held (pc t)) id (shared t) = true.
Proof.
  intros (q & z & Es & Hi & Hz & _). destruct t as [a0 r p]. cbn [shared pc locals] in *. subst a0.
  destruct (ai_new _ _ Hi) as (k & Ek & Hnew & Hk). unfold scope_exit. cbn [shared pc locals].
  set (pins := held p). set (w := wrap q z a).
  set (a1 := mk_agent (ppq w) (sessions w) (next_id w) (accepting w) None []).
  assert (Hw : sessions w !! k = Some new_session) by (by apply lookup_union_Some_l).
  assert (E1 : exists ss, Server_dtor pins w = set_sessions ss a1 /\
    forall i, ss !! i = if decide (i = k /\ listens pins k w = false) then None else sessions w !! i).
  { unfold Server_dtor. change (session_ w) with (session_ a). rewrite Ek. fold a1. rewrite release_tidy.
    2: { apply bound_tidy, (bound_live z a L); [done|done|done|]. intros id s Hs. by exists s. }
    assert (Eo : owned pins k a1 = listens pins k w).
    { unfold owned. change (sessions a1) with (sessions w). by rewrite Hw. }
    rewrite Eo. destruct (listens pins k w) eqn:El.
    - exists (sessions w). split; [done|]. intros i. rewrite decide_False; [done|]. by intros [_ ?].
    - exists (delete k (sessions w)). split; [done|]. intros i. destruct (decide (i = k)) as [->|Hne].
      + by rewrite lookup_delete_eq, decide_True.
      + rewrite lookup_delete_ne, decide_False by naive_solver. done. }
  destruct E1 as (ss & -> & Hss). unfold io_context_dtor.
  set (x2 := mk_agent _ _ _ _ _ _).
  assert (Hb : bound x2).
  { apply (bound_live z a L); [done|done|done|]. intros id s Hs. simpl in Hs. rewrite lookup_fmap, Hss in Hs.
    case_decide; [done|]. change (sessions a ∪ z) with (sessions w).
    destruct (sessions w !! id) as [s0|]; [|done]. injection Hs as <-. by exists s0. }
  assert (Hid : idle x2).
  { split; [done|]. intros id s Hs. simpl in Hs. rewrite lookup_fmap in Hs. destruct (ss !! id); [|done]. by injection Hs as <-. }
  destruct (collect_idle pins x2 (bound_tidy _ _ Hb) Hid) as (ss2 & -> & Hss2).
  assert (Hsub : forall id s, ss2 !! id = Some s -> sessions x2 !! id = Some s).
  { intros id s Hs. rewrite Hss2 in Hs. by destruct (listens pins id x2). }
  split_and!; [done|split; [done|]; intros id s Hs; by eapply Hid, Hsub|intros id s h Hs; by apply Hb, Hsub|].
  intros id. simpl. rewrite Hss2. change (listens pins id x2) with (listens pins id w).
  destruct (listens pins id w) eqn:El; [|split; [by intros []|by intros [_ ?]]].
  simpl. rewrite lookup_fmap, Hss. rewrite decide_False by (intros [-> ?]; congruence).
  rewrite fmap_is_Some. naive_solver.
Qed.

(** ** After the io_context *)

Lemma collect_session_ pins a : session_ (collect pins a) = session_ a.
Proof.
  unfold collect. induction (elements _) as [|i ids IH]; [done|]. cbn [fold_right]. rewrite <- IH.
  set (b := fold_right _ _ _). unfold release. destruct (owned pins i b); [done|]. simpl.
  unfold disconnectToEventqq. destruct (_ ≫= _); [|done]. destruct (lock _ _ _); [|done].
  by destruct (removeListener _ _ _ _).
Qed.
(** what the receiving thread can do to the sessions: hand them lines, and drop
    the last owner of one *)
Lemma rx_step_sessions inp t t' :
  rx_step inp t = Ret t' -> session_ (shared t') = session_ (shared t) /\
  forall id s', sessions (shared t') !! id = Some s' ->
    exists s, sessions (shared t) !! id = Some s /\ pending_op s' = pending_op s.
Proof.
  intros Hst. assert (Hsame : session_ (shared t') = session_ (shared t) -> sessions (shared t') = sessions (shared t) ->
    session_ (shared t') = session_ (shared t) /\ forall id s', sessions (shared t') !! id = Some s' ->
      exists s, sessions (shared t) !! id = Some s /\ pending_op s' = pending_op s).
  { intros E1 E2. split; [done|]. rewrite E2. intros id s' Hs. by exists s'. }
  unfold rx_step in Hst. destruct (pc t) as [|n i now buf|n [|it todo] kept idle|n it todo kept idle ev d].
  - destruct inp as [[n now] buf]. injection Hst as <-. by apply Hsame.
  - destruct (i <? n)%nat.
    + apply bind_Ret_inv in Hst as (o & _ & Hst). apply bind_Ret_inv in Hst as ([r1 q1] & _ & Hst).
      injection Hst as <-. by apply Hsame.
    + destruct (bool_decide _); injection Hst as <-; by apply Hsame.
  - injection Hst as <-. by apply Hsame.
  - apply bind_Ret_inv in Hst as (ev & _ & Hst). destruct (0 <? n)%nat; [|injection Hst as <-; by apply Hsame].
    destruct (doFindCallableList _ _); [injection Hst as <-; by apply Hsame|].
    apply bind_Ret_inv in Hst as (it' & _ & Hst). injection Hst as <-. by apply Hsame.
  - destruct (call_over d).
    + apply bind_Ret_inv in Hst as (it' & _ & Hst). injection Hst as <-. by apply Hsame.
    + apply bind_Ret_inv in Hst as ([d' a'] & Hc & Hst). injection Hst as <-. cbn [shared]. unfold call_step in Hc.
      destruct (snap d) as [c|]; [|destruct (cursor d); injection Hc as <- <-; by apply Hsame].
      destruct (cursor d) as [q|]; [|injection Hc as <- <-; by apply Hsame].
      apply bind_Ret_inv in Hc as (nd & _ & Hc). destruct (visited d); injection Hc as <- <-.
      * split; [apply collect_session_|]. intros id s' Hs. exists s'. split; [|done]. cbn [cursor] in Hs.
        destruct (collect_lookup (option_list (next nd)) (shared t) id) as [E|E]; congruence.
      * destruct (eligible c nd); [|by apply Hsame]. split; [done|]. intros id s' Hs. simpl in Hs. unfold call_listener in Hs.
        destruct (decide (callback nd = id)) as [<-|Hne]; [|rewrite lookup_alter_ne in Hs by done; by exists s'].
        rewrite lookup_alter_eq in Hs. destruct (sessions (shared t) !! callback nd) as [s|]; [|done].
        injection Hs as <-. exists s. split; [done|]. unfold consumeCanObjHandler. by destruct (_ <? _)%nat.
Qed.
Lemma late_run_spec inps t t' :
  late_run inps t = Ret t' -> idle (shared t) ->
  idle (shared t') /\ dom (sessions (shared t')) = dom (sessions (shared t)).
Proof.
  revert t. induction inps as [|inp inps IH]; intros t Hrun Hi; [by injection Hrun as <-|].
  cbn [late_run] in Hrun. apply bind_Ret_inv in Hrun as (t1 & Hst & Hrun). unfold late_step in Hst.
  apply bind_Ret_inv in Hst as (t2 & E2 & Hst). apply bind_Ret_inv in Hst as (a & Ea & [= <-]).
  unfold sessions_end in Ea. case_bool_decide as D; [|done]. injection Ea as <-.
  destruct (rx_step_sessions inp t t2 E2) as [Ek Hs]. destruct Hi as [Hn Hp].
  destruct (IH _ Hrun) as [Hi' Hd].
  - split; cbn [shared]; [congruence|]. intros id s' Hs'. destruct (Hs id s' Hs') as (s & Hs0 & ->). by eapply Hp.
  - split; [done|]. by rewrite Hd.
Qed.

(** the queue takes every session with it *)
Lemma ppq_dtor_spec x :
  idle x -> ppq_dtor x = if decide (sessions x = ∅) then Ret (set_ppq (set_listeners ∅ (ppq x)) x)
                         else UB "socket_ outlives its io_context".
Proof.
  intros Hi. unfold ppq_dtor. set (y := set_ppq _ x).
  assert (Ha : alive [] (canobj_list y) = ∅) by (apply (alive_rep _ []), rep_new).
  assert (Hl : forall id, listens [] id y = false) by (intros id; unfold listens; by rewrite Ha).
  destruct (collect_idle [] y) as (ss & -> & Hss); [|done|].
  { intros id s h _ _ _. unfold lock. rewrite Ha. by rewrite decide_False by apply not_elem_of_empty. }
  assert (ss = ∅) as ->. { apply map_eq. intros i. by rewrite Hss, Hl, lookup_empty. }
  unfold sessions_end. cbn [sessions set_sessions]. rewrite dom_empty_L. case_decide as D.
  - rewrite bool_decide_eq_true_2 by (by rewrite D, dom_empty_L). f_equal. unfold y, set_sessions, set_ppq. simpl. by rewrite D.
  - rewrite bool_decide_eq_false_2; [done|]. intros E. by apply D, dom_empty_inv_L.
Qed.

(** ** The receiving thread does not miss the io_context *)

(** [u] runs the code of [t] on what the block's end left *)
Definition follows (t u : threads) : Prop :=
  ppq (shared u) = ppq (shared t) /\ locals u = locals t /\ pc u = pc t /\ idle (shared u) /\ bound (shared u).

Lemma bound_ppq x q ss :
  bound x -> listeners q = listeners (ppq x) ->
  (forall id s, ss !! id = Some s -> exists s0, sessions x !! id = Some s0 /\ ppq_handle_ s0 = ppq_handle_ s) ->
  forall x', ppq x' = q -> sessions x' = ss -> bound x'.
Proof.
  intros Hb Hl Hs x' <- <- id s h Hx Hh. destruct (Hs id s Hx) as (s0 & Hs0 & E). rewrite Hh in E.
  unfold canobj_list. rewrite Hl. by apply (Hb id s0 h).
Qed.

Lemma publish_listeners now bs r q r' q' : publish now bs r q = Ret (r', q') -> listeners q' = listeners q.
Proof.
  unfold publish, enqueue, doEnqueue. intros ([buf len] & _ & E)%bind_Ret_inv.
  apply bind_Ret_inv in E as ([b q1] & E1 & [= _ <-]). apply bind_Ret_inv in E1 as (q2 & E2 & [= _ <-]).
  destruct (freeList q) as [|i rest]; apply bind_Ret_inv in E2 as (it & _ & [= <-]); done.
Qed.
Lemma follow_step inp t t1 u a L v :
  tinv t a L v -> follows t u -> rx_step inp t = Ret t1 -> exists u1, rx_step inp u = Ret u1 /\ follows t1 u1.
Proof.
  intros (q & z & Es & Hi & Hz & _) (Eq & El & Ep & Hid & Hb) Hst.
  assert (Hcol : forall pins, ppq (collect pins (shared t)) = ppq (shared t)).
  { intros pins. rewrite Es. by destruct (collect_wrap pins q z a L Hi Hz) as (z' & -> & _). }
  assert (Hq : forall q r p, listeners q = listeners (ppq (shared u)) ->
    follows (mk_threads (set_ppq q (shared t)) r p) (mk_threads (set_ppq q (shared u)) r p)).
  { intros q0 r p Hl. split_and!; try done. eapply bound_ppq; [exact Hb|exact Hl| |done|done]. intros id s Hs. by exists s. }
  assert (Hsame : forall r p, follows (mk_threads (shared t) r p) (mk_threads (shared u) r p)) by done.
  destruct t as [ta tr tp], u as [ua ur up]. cbn [shared locals pc] in *. subst ur up. unfold rx_step in *.
  cbn [shared locals pc] in *. rewrite Eq in *. destruct tp as [|n i now buf|n [|it todo] kept idl|n it todo kept idl ev d].
  - destruct inp as [[n now] buf]. injection Hst as <-. by eexists.
  - destruct (i <? n)%nat.
    + apply bind_Ret_inv in Hst as (o & -> & Hst). apply bind_Ret_inv in Hst as ([r1 q1] & E2 & [= <-]).
      cbn [mbind outcome_bind]. rewrite E2. eexists. split; [done|]. apply Hq. by eapply publish_listeners.
    + destruct (bool_decide _); injection Hst as <-; eexists; (split; [done|]); [done|by apply Hq].
  - injection Hst as <-. eexists. split; [done|]. by apply Hq.
  - apply bind_Ret_inv in Hst as (ev & -> & Hst). cbn [mbind outcome_bind].
    destruct (0 <? n)%nat; [|injection Hst as <-; by eexists].
    destruct (doFindCallableList _ _); [injection Hst as <-; by eexists|].
    apply bind_Ret_inv in Hst as (it' & -> & [= <-]). by eexists.
  - destruct (call_over d); [apply bind_Ret_inv in Hst as (it' & -> & [= <-]); by eexists|].
    apply bind_Ret_inv in Hst as ([d' a'] & Hc & [= <-]). unfold call_step in *. rewrite Eq.
    destruct (snap d) as [c|]; [|destruct (cursor d); injection Hc as <- <-; by eexists].
    destruct (cursor d) as [p|]; [|injection Hc as <- <-; by eexists].
    apply bind_Ret_inv in Hc as (nd & -> & Hc). cbn [mbind outcome_bind]. destruct (visited d); injection Hc as <- <-.
    + eexists. split; [done|]. cbn [cursor].
      destruct (collect_idle (option_list (next nd)) ua (bound_tidy _ _ Hb) Hid) as (ss & -> & Hss).
      assert (Hsub : forall id s, ss !! id = Some s -> sessions ua !! id = Some s).
      { intros id s Hs. rewrite Hss in Hs. by destruct (listens _ id ua). }
      split_and!; try done.
      * cbn [shared]. by rewrite Hcol.
      * split; [apply Hid|]. intros id s Hs. by eapply Hid, Hsub.
      * intros id s h Hs. by apply Hb, Hsub.
    + eexists. split; [done|]. destruct (eligible c nd); [|done].
      assert (Hsub : forall id s, call_listener (callback nd) (snd ev) (sessions ua) !! id = Some s ->
        exists s0, sessions ua !! id = Some s0 /\ ppq_handle_ s0 = ppq_handle_ s /\ pending_op s0 = pending_op s).
      { intros id s Hs. unfold call_listener in Hs.
        destruct (decide (callback nd = id)) as [<-|Hne]; [|rewrite lookup_alter_ne in Hs by done; by exists s].
        rewrite lookup_alter_eq in Hs. destruct (sessions ua !! callback nd) as [s0|]; [|done]. injection Hs as <-.
        exists s0. unfold consumeCanObjHandler. by destruct (_ <? _)%nat. }
      split_and!; try done.
      * split; [apply Hid|]. intros id s Hs. destruct (Hsub id s Hs) as (s0 & Hs0 & _ & <-). by eapply Hid.
      * eapply bound_ppq; [exact Hb|reflexivity| |done|reflexivity]. intros id s Hs.
        destruct (Hsub id s Hs) as (s0 & ? & ? & _). by exists s0.
Qed.

Lemma late_step_cases inp u u1 :
  rx_step inp u = Ret u1 ->
  late_step inp u = if bool_decide (dom (sessions (shared u1)) = dom (sessions (shared u))) then Ret u1
                    else UB "socket_ outlives its io_context".
Proof.
  intros E. unfold late_step, sessions_end. rewrite E. cbn [mbind outcome_bind].
  case_bool_decide; cbn [mbind outcome_bind]; by destruct u1.
Qed.
(** the turn that was running ends, or a session is destroyed on the way *)
Lemma follow_run inp k t t' u a L v :
  good_report inp -> tinv t a L v -> follows t u -> thread_run (repeat (TRx inp) k) t = Ret t' ->
  is_UB (late_run (repeat inp k) u) = true \/ exists u', late_run (repeat inp k) u = Ret u' /\ follows t' u'.
Proof.
  intros Hg. revert t u a v. induction k as [|k IH]; intros t u a v Ht Hf Hrun.
  - injection Hrun as <-. right. by exists u.
  - cbn [repeat thread_run thread_step] in Hrun. apply bind_Ret_inv in Hrun as (t1 & E & Hrun).
    destruct (tinv_rx inp t a L v Ht Hg) as (t1' & E' & a1 & v1 & got & Ht1 & _).
    assert (t1' = t1) as -> by congruence. destruct (follow_step inp t t1 u a L v Ht Hf E) as (u1 & E1 & Hf1).
    cbn [repeat late_run]. rewrite (late_step_cases inp u u1 E1). case_bool_decide; [|by left].
    cbn [mbind outcome_bind]. by eapply IH.
Qed.
(** without sessions nothing can be destroyed *)
Lemma empty_run inps t u a L v :
  tinv t a L v -> follows t u -> sessions (shared u) = ∅ -> Forall good_report inps ->
  exists u', late_run inps u = Ret u' /\ idle (shared u') /\ sessions (shared u') = ∅.
Proof.
  revert t u a v. induction inps as [|inp inps IH]; intros t u a v Ht Hf Hn Hg; [exists u; by destruct Hf as (_ & _ & _ & ? & _)|].
  apply list.Forall_cons in Hg as [Hg1 Hg].
  destruct (tinv_rx inp t a L v Ht Hg1) as (t1 & E & a1 & v1 & got & Ht1 & _).
  destruct (follow_step inp t t1 u a L v Ht Hf E) as (u1 & E1 & Hf1).
  assert (Hn1 : sessions (shared u1) = ∅).
  { apply map_empty. intros i. destruct (sessions (shared u1) !! i) as [s|] eqn:Es; [|done].
    destruct (rx_step_sessions inp u u1 E1) as [_ Hs]. destruct (Hs i s Es) as (s0 & Hs0 & _).
    rewrite Hn, lookup_empty in Hs0. done. }
  cbn [late_run]. rewrite (late_step_cases inp u u1 E1), bool_decide_eq_true_2 by (by rewrite Hn, Hn1).
  cbn [mbind outcome_bind]. by eapply (IH t1 u1 a1 v1).
Qed.

(** ** The end of the process *)

(** a session with a client has a pending operation *)
Definition live_client (a : agent) (id : nat) : Prop :=
  exists s, sessions a !! id = Some s /\ pending_op s <> NoOp.

Lemma live_listed t a L v id :
  tinv t a L v -> live_client (shared t) id <-> id ∈ L.*2.
Proof.
  intros (q & z & -> & Hi & Hz & _). split.
  - intros (s & Hs & Hp). simpl in Hs. destruct (wrap_session z a L id s Hz Hs) as [Hs'|[_ ?]]; [|done].
    destruct (ai_dom _ _ Hi id s Hs') as [?|Hk]; [done|]. destruct (ai_new _ _ Hi) as (k & Ek & Hnew & _).
    assert (s = new_session) as -> by congruence. done.
  - intros ((h & c) & -> & Hin)%list_elem_of_fmap. destruct (ai_live _ _ Hi h c Hin) as (s & Hs & _ & Hp & _).
    exists s. split; [|done]. by apply lookup_union_Some_l.
Qed.
Lemma scope_follows t a L v : tinv t a L v -> follows t (scope_exit t).
Proof. intros Ht. by destruct (scope_exit_spec t a L v Ht) as (? & ? & ? & _). Qed.

Section exit.
Variables (inp : report) (t : threads) (a : agent) (L : list (positive * nat)) (v : view).
Hypotheses (Hinp : good_report inp) (Ht : tinv t a L v).

Lemma exit_with_client id :
  live_client (shared t) id ->
  (forall inps x, main_exit inps t <> Ret x) /\ exists k, is_UB (main_exit (repeat inp k) t) = true.
Proof.
  intros Hlive. pose proof (scope_exit_spec t a L v Ht) as (Eq & Hid & Hb & Hkept).
  apply (live_listed t a L v id Ht) in Hlive as Hin.
  assert (Hsome : is_Some (sessions (shared (scope_exit t)) !! id)).
  { apply Hkept. split; [destruct Hlive as (s & Hs & _); by eexists|].
    apply list_elem_of_fmap in Hin as ((h & c) & -> & Hin). pose proof Ht as (q & z & Es & Hi & _).
    apply (listens_listed _ a L h c); [done|done|by rewrite Es]. }
  assert (Hend : forall inps u x, late_run inps (scope_exit t) = Ret u -> join u = Ret x ->
    ppq_dtor x = UB "socket_ outlives its io_context").
  { intros inps u x E1 E2. destruct (late_run_spec inps _ u E1 Hid) as [Hid' Hd].
    unfold join in E2. destruct (pc u); [|done..]. injection E2 as <-. rewrite ppq_dtor_spec by done.
    rewrite decide_False; [done|]. intros En. rewrite En, dom_empty_L in Hd. symmetry in Hd.
    apply dom_empty_inv_L in Hd. rewrite Hd, lookup_empty in Hsome. by destruct Hsome. }
  split.
  - intros inps x Hx. unfold main_exit in Hx. apply bind_Ret_inv in Hx as (u & E1 & Hx).
    apply bind_Ret_inv in Hx as (y & E2 & Hx). by rewrite (Hend inps u y E1 E2) in Hx.
  - destruct (turn_ends inp Hinp t a L v Ht) as (t2 & a2 & v2 & [k Hk] & _ & Hpc). exists k. unfold main_exit.
    destruct (follow_run inp k t t2 _ a L v Hinp Ht (scope_follows _ _ _ _ Ht) Hk) as [Hu|(u & E1 & Hfu)].
    + by apply is_UB_bind_l.
    + rewrite E1. cbn [mbind outcome_bind]. destruct Hfu as (_ & _ & Epc & _).
      assert (E2 : join u = Ret (shared u)) by (unfold join; by rewrite Epc, <- Hpc).
      rewrite E2. cbn [mbind outcome_bind]. by rewrite (Hend _ u _ E1 E2).
Qed.

Lemma scope_exit_empty :
  (forall id, ~ live_client (shared t) id) -> held (pc t) = [] -> sessions (shared (scope_exit t)) = ∅.
Proof.
  intros Hno Hheld. pose proof (scope_exit_spec t a L v Ht) as (_ & _ & _ & Hkept).
  apply map_empty. intros id. apply eq_None_not_Some. intros Hsome. apply Hkept in Hsome as [_ Hl].
  pose proof Ht as (q & z & Es & Hi & _). rewrite Hheld, Es in Hl. change (listens [] id a = true) in Hl.
  rewrite (listens_spec a L id (ai_quiet _ _ Hi)) in Hl. apply bool_decide_eq_true in Hl.
  by apply (Hno id), (live_listed t a L v).
Qed.
Lemma exit_without_client :
  (forall id, ~ live_client (shared t) id) -> held (pc t) = [] ->
  (forall inps, Forall good_report inps -> is_UB (main_exit inps t) = false /\
     forall x, main_exit inps t = Ret x -> sessions x = ∅) /\
  exists k x, main_exit (repeat inp k) t = Ret x.
Proof.
  intros Hno Hheld. pose proof (scope_follows t a L v Ht) as Hf.
  assert (Hexit : forall inps, Forall good_report inps -> exists u, main_exit inps t = (x ← join u; ppq_dtor x) /\
    late_run inps (scope_exit t) = Ret u /\ idle (shared u) /\ sessions (shared u) = ∅).
  { intros inps Hgi. destruct (empty_run inps t _ a L v Ht Hf (scope_exit_empty Hno Hheld) Hgi) as (u & E1 & Hu).
    exists u. split; [|done]. unfold main_exit. by rewrite E1. }
  split.
  - intros inps Hgi. destruct (Hexit inps Hgi) as (u & -> & _ & Hiu & Hnu). unfold join. destruct (pc u); try done.
    cbn [mbind outcome_bind]. rewrite ppq_dtor_spec, decide_True by done. split; [done|]. by intros x [= <-].
  - destruct (turn_ends inp Hinp t a L v Ht) as (t2 & a2 & v2 & [k Hk] & _ & Hpc). exists k.
    destruct (Hexit (repeat inp k)) as (u & -> & E1 & Hiu & Hnu).
    { apply list.Forall_forall. intros x Hx. apply list_elem_of_In, repeat_spec in Hx. by subst x. }
    destruct (follow_run inp k t t2 _ a L v Hinp Ht Hf Hk) as [Hu|(u' & E' & Hfu)]; [by rewrite E1 in Hu|].
    assert (u' = u) as -> by congruence. destruct Hfu as (_ & _ & Epc & _). unfold join. rewrite Epc, <- Hpc.
    cbn [mbind outcome_bind]. rewrite ppq_dtor_spec, decide_True by done. by eexists.
Qed.
End exit.

(** C3. The end of the process: the sessions with a client are owned by their
    listeners, and the queue that holds the listeners is destroyed after the
    io_context on which their sockets live. So when a signal ends [main] while
    a client is connected, wherever the receiving thread stands, [main] never
    returns normally: once the thread has finished its turn (it always does)
    a session has been destroyed on services that no longer exist. Without a
    client, between two dispatches, the process ends in an orderly way: no
    undefined behaviour, every object destroyed, [main] returns. *)
Theorem main_exit_lifetimes (es : list thread_event) (r : rx) (a : agent) (L : list (positive * nat)) (inp : report) :
  let t := mk_threads a r AtReceive in
  agent_inv a L -> rx_ok r -> is_u64 (send_count r) -> Forall fits es ->
  registrations t + accepts es + 1 < 2 ^ 32 -> good_report inp ->
  forall t', thread_run es t = Ret t' ->
  (forall id, live_client (shared t') id ->
     (forall inps x, main_exit inps t' <> Ret x) /\ exists k, is_UB (main_exit (repeat inp k) t') = true) /\
  ((forall id, ~ live_client (shared t') id) -> held (pc t') = [] ->
     (forall inps, Forall good_report inps -> is_UB (main_exit inps t') = false /\
        forall x, main_exit inps t' = Ret x -> sessions x = ∅) /\
     exists k x, main_exit (repeat inp k) t' = Ret x).
Proof.
  intros t Hi Hr Hc Hg Hreg Hinp t' Hrun.
  destruct (tinv_run es t a L _ (tinv_start a r L Hi Hr Hc) Hg ltac:(lia)) as [_ Hret].
  destruct (Hret t' Hrun) as (a1 & L1 & v1 & Ht & _). split.
  - intros id. by eapply exit_with_client.
  - by eapply exit_without_client.
Qed.
Lemma main_exit_lifetimes_witness :
  exists k, is_UB (main_exit (repeat sample_report k) (mk_threads sample_agent sample_rx AtReceive)) = true.
Proof.
  destruct (main_exit_lifetimes [] sample_rx sample_agent [(1%positive, 0%nat)] sample_report sample_agent_inv)
    with (t' := mk_threads sample_agent sample_rx AtReceive) as [H _];
    [done|by vm_compute|by apply list.Forall_nil|by vm_compute|split; [unfold kRxBuffSize; lia|done]|done|].
  destruct (H 0%nat) as [_ Hk]; [by eexists|exact Hk].
Defined.
